(* ===== verification/_CoqProject ===== *)
-Q . S2P
Prelude.v
JsString.v
JsNumber.v
JsNumberFacts.v
JsCollections.v
JsRegex.v
RegexFacts.v
JsValue.v
JsDynamic.v
JsJson.v
JsonText.v
JsonSerialize.v
Host.v
BillingTypes.v
Parser.v
Compile.v
Runtime.v
ParserFacts.v
Grammar.v
CompileFacts.v
RuntimeFacts.v
BillingFields.v
Structure.v
Balanced.v
Display.v
DisplayFacts.v
Visual.v
VisualFacts.v
VisualEdits.v
ConditionDisplay.v
BillingExpr.v
RuleFacts.v
RuleExprFacts.v
TaskExpr.v
TierExpr.v
StatusRules.v
ModelMapping.v
ModelMappingFacts.v
AdvancedCustom.v
AdvancedCustomFacts.v
ParamOverride.v
ParamValueFacts.v
ParamOverrideFacts.v
ParamEditor.v
ParamIdFacts.v
ParamEditorFacts.v
ParamSaveFacts.v
Flow.v
FlowFacts.v
FlowRankFacts.v
FlowViewFacts.v
AuthSession.v
AuthSessionFacts.v
HttpClient.v
HttpClientFacts.v
Playground.v
PlaygroundFacts.v
StreamRequest.v
StreamRequestFacts.v
StreamCallFacts.v
PlaygroundStream.v
PlaygroundStreamFacts.v
Contract.v
Findings.v
