(* ===== verification/Prelude.v ===== *)
(** * Verification of the web console: pricing, channels, dashboard, sessions, playground

    The gateway's web console (src/web/src) shows, edits and simulates prices.
    Prices are written in a small expression language; the library under
    src/web/src/features/pricing/lib holds its implementation for the browser.
    This development models that library in Rocq, function by function, and
    proves what its parts promise to each other and to the user.  Beside it
    stand parts of the console that keep state, read text or add up data of
    their own: the login session, the rules on HTTP status codes, the model
    mappings, the advanced routes and the parameter overrides of channels, the
    flow chart of the dashboard, and the conversations of the playground.

    ** The program and its parts

    - billing-expression/types.ts: syntax trees, diagnostics, the traversal.
    - billing-expression/parser.ts: lexer, precedence-climbing parser, static
      types, the check of fixed prices, the cache of compiled expressions.
    - billing-expression/runtime.ts: the interpreter, time zones, request paths.
    - billing-expression/structure.ts: splitting and unwrapping raw text.
    - billing-expression/display.ts: price rows read from a compiled tree.
    - billing-expression/visual.ts: documents of the visual editor.
    - billing-expression/condition-display.ts: conditions in words.
    - billing-expr.ts: request rules (multipliers with conditions), their
      builder and their reader, splitting and combining expressions.
    - task-expr.ts: prices of asynchronous tasks over a usage schema.
    - tier-expr.ts: the older tier editor and the estimator.
    - src/web/src/lib/auth-session.ts with stores/auth-store.ts,
      lib/session-hint.ts, lib/auth-session-sync.ts and the listener in
      routes/__root.tsx: who is logged in, and the refresh of the access token
      across awaits, retries and browser tabs; lib/http-client.ts: the requests
      that carry the token.
    - src/web/src/lib/http-status-code-rules.ts: lists of codes and ranges.
    - src/web/src/features/channels/lib: model-mapping-validation.ts,
      model-mapping-rules.ts and model-naming-patterns.ts (the names requests
      use for the models of an upstream), advanced-custom.ts (routes of a
      channel, their validation, their JSON text and their edits).
    - src/web/src/features/channels/components/dialogs:
      param-override-editor-dialog.tsx (the editor of the operations a channel
      applies to requests: documents, validation, and the state and handlers of
      the dialog).
    - src/web/src/features/dashboard/lib/flow.ts: usage rows summed into the
      nodes and links of a Sankey diagram, with filters, limits and masking.
    - src/web/src/features/playground, lib/message and
      hooks/use-chat-handler.ts: messages, and replies that arrive in chunks;
      hooks/use-stream-request.ts and lib/streaming: the requests whose event
      sources deliver them.

    compile (parser.ts) feeds every other part; display, visual, condition and
    task readers walk the compiled tree; the interpreter evaluates it; the rule
    and tier editors work on text and use the compiler to check it.  The naming
    patterns suggest rules, the mapping rules derive pairs from them, and merging
    writes the pairs into the mapping document that the validation reads.  The
    other parts share with these only the language.

    ** Files

    - Prelude.v: outcomes (value, exception, out of fuel), the state and error
      monads, tactics (inv_ok, split_in, bool_hyps).
    - JsString.v, JsNumber.v, JsValue.v, JsJson.v, JsRegex.v: the parts of the
      language the sources use: strings as lists of UTF-16 code units, numbers
      as IEEE-754 binary64 (specification floats), dynamic values, JSON, and a
      backtracking matcher for regular expressions.  JsDynamic.v has computations
      that change a state and may throw, and the operations on dynamic values
      that throw.  JsNumberFacts.v proves that
      String and Number are inverse on literals and that sums of safe integers
      are exact; JsCollections.v has Map, Set, stable sorting and the order of
      own properties; JsonText.v has JSON.stringify with indentation, and that
      JSON.parse reads it back; JsonSerialize.v does the same for the compact
      text and for values that are not in normal form (undefined fields, -0,
      numbers that are not finite); RegexFacts.v gives patterns a
      denotation that the matcher meets exactly.
    - Host.v: what the browser provides (class Host: toLowerCase, localeCompare,
      Intl.DateTimeFormat, the clock, messages of engine errors), with an
      instance used by examples and witnesses.
    - BillingTypes.v: types.ts.  Parser.v, Compile.v: parser.ts.
      Runtime.v: runtime.ts.  Structure.v: structure.ts.  Display.v: display.ts.
      Visual.v: visual.ts.  ConditionDisplay.v: condition-display.ts and
      toIntlLocale of i18n/languages.ts (class Presentation for the translator
      and the Intl formatters).  BillingExpr.v: billing-expr.ts.
      TaskExpr.v: task-expr.ts.  TierExpr.v: tier-expr.ts.
    - StatusRules.v: http-status-code-rules.ts.  ModelMapping.v: the three
      files on model mappings.  AdvancedCustom.v: advanced-custom.ts (class
      UrlParser for new URL).  ParamOverride.v: the types, tables, templates,
      readers, writers and the validation of param-override-editor-dialog.tsx,
      lines 68 to 1132; ParamEditor.v: the component's state (record dialog),
      effects, derived values and handlers, and the handlers of the rule forms
      (class EditorHost for the clock, upper case, the translator and the message
      of a TypeError).  Flow.v: flow.ts and getDashboardChartColors of
      charts.ts (class FlowHost for the colour schemes of the chart library and
      the number format).  AuthSession.v: the login session.  HttpClient.v: http-client.ts.
      Playground.v: messages and the handler of streamed replies.
      StreamRequest.v: use-stream-request.ts, stream-utils.ts and
      request-error-utils.ts (class StreamRequestCallbacks for what the owner of
      a request passes in); PlaygroundStream.v: the chat handler as that owner
      (class PlaygroundHost for the translator).
    - ParserFacts.v, Grammar.v, CompileFacts.v, RuntimeFacts.v,
      BillingFields.v, Balanced.v,
      DisplayFacts.v, VisualFacts.v, VisualEdits.v, RuleFacts.v,
      RuleExprFacts.v, ModelMappingFacts.v, AdvancedCustomFacts.v,
      ParamValueFacts.v (also the class EditorLaws: what the editor relies on in
      its host), ParamOverrideFacts.v, ParamIdFacts.v, ParamEditorFacts.v,
      ParamSaveFacts.v, FlowFacts.v,
      FlowRankFacts.v, FlowViewFacts.v, AuthSessionFacts.v, HttpClientFacts.v, PlaygroundFacts.v,
      StreamRequestFacts.v, StreamCallFacts.v, PlaygroundStreamFacts.v: the
      theorems.
      Balanced.v ties the compiler's grammar to the text helpers: a text that
      parses is balanced outside its string literals.
    - Contract.v: the simulation cases shared with the gateway's engine.
    - Findings.v: closed evaluations on which two parts of the code disagree.

    State that the code keeps in objects is explicit: the parser's cursor, token
    count, depth and current token (PState); the interpreter's tier, unit, fixed
    price, rules and zone cache (RState); the compilation cache; the array of
    issues of the visual writer; the store, the epoch and the one refresh under
    way of the session (World, moved by step, one event per piece of code
    between two awaits); the calls of the HTTP client with the station each is at
    (Client, moved by client_step); the fields of the override dialog with the counter of
    local identifiers and the calls it makes outside (dialog, moved by one act
    per handler or effect); the messages, the collected chunks, the flush timer and
    the updaters React has not run yet of the playground (Chat, moved by
    chat_step); the generation, the event sources made so far and the requests
    that await headers of the stream controller (Controller, moved by perform,
    and by page_step together with the chat).  An event of a source carries the
    events the source dispatches should it be closed by the listener, so events
    from within close and stream are modelled at any depth.  A node's identity, which the code compares with
    ===, is its span; ParserFacts.v proves that spans identify nodes.

    ** What the theorems show

    - Traversal and parsing: the explicit stack visits the tree in postorder up
      to its depth limit, and throws that limit on a deeper tree; parsing ends for every text, its trees are well formed
      and are derivations of the operator grammar.
    - Compilation: the types map is type inference; the bounded cache answers as
      the compiler; a ready expression carries what it claims.
    - Interpretation: values have their static types, a successful evaluation is
      a finite price that is not negative, whose unit, fixed price and tier are
      those of the tier that was reached, the zone cache is unobservable, and
      expressions below the depth limit do not fail with it.
    - Text: splitting is lossless and final, unwrapping is idempotent; an
      expression that parses, put in parentheses, is one unit for both.
    - Display: the first displayed row that applies, audio rows included, is
      what is charged, with its prices.
    - Visual documents: writing an untouched document gives the same text, and
      an edit changes exactly the literals of the edited fields.
    - Rules: time rules written by the builder are read back, alone and when
      they are combined with a price that has not the shape of a rule and split
      off again.
    - Session: a login or sign-out during a refresh wins; a refresh ends, in at
      most eight requests; token, expiry and session come and go together; the
      retry after a mismatch names no session; a rotation keeps the session.
    - HTTP client: a request is repeated at most once, one that spends an
      authorization never; no call awaits a refresh that is not under way; all it
      does to the session are the session's own steps.
    - Status rules: an accepted text means exactly the codes it names, and its
      normal form is read back and is the same for equal sets of codes.
    - Model mappings: merging refines insertion into a finite map; deriving
      takes every selected model once and never gives a request name twice;
      suggested rules rename what they cover, to known names when verified.
    - Advanced routes: the validation decides the stated validity and points at
      the first wrong route; written configurations are read back; the edits of
      the management routes and of the forwarding routes keep the other ones.
    - Parameter overrides: a document that is saved opens again and saves as the
      same text, if its values are neither quoted strings nor numbers that
      overflow; validation decides the requirements of the modes and names the
      first operation that fails them; in every reachable state the identifiers
      are distinct and an operation is selected; saving is all or nothing and
      saves what was entered;
      dropping moves one operation; drafts of errors and ends of sync fields are
      read back; the rules of prune_objects cannot be edited in the form.
    - Flow chart: for counts in the safe range sums are exact, what enters a node leaves it, each stage
      carries the total; a limit keeps the greatest nodes; masking hides the names in
      labels of five kinds of nodes and keeps the rest;
      filters keep the rows they name and offer only nodes that occur.
    - Playground: a streamed reply is complete in every interleaving of chunks,
      timer and React's updates, from the messages of its event source to the
      screen, as long as no chunk begins with the text directly before it (the
      code takes such a chunk for a repetition); waiting text always has a flush scheduled; thinking and visible
      text are taken apart without loss.
    - Stream requests: at most one connection is open, the one of the latest
      request, and isStreaming tells whether it is; a request gets updates and then at most one final call, and none
      once it is superseded, whichever callbacks throw; the generations of chat
      and controller never disagree.
    - Findings: inputs on which the code does not do what it means to.

    ** Fuel and bounds

    Loops whose recursion is not structural take fuel, and NoFuel is a value of
    its own, excluded by theorems: the parser takes 4 * 10000 + 8 steps (each
    token allows four calls and the lexer stops at 10000 tokens), the traversal
    twice the size of the tree, splitting the length of the text, reading and
    describing conditions the size of the node, a repetition of a pattern the
    length of the rest.  Decimal output searches at most as many digits as the
    exact expansion has.  The reader of think tags takes the length of the text
    plus one, the reader of JSON texts twice its length.  The sums of the flow
    chart are floating-point numbers; the theorems on them ask for counts whose
    total is at most 2^53 - 1, where addition is exact, and for names without
    the code unit 0, which separates the two identifiers in the key of a link.  The session, the
    override editor and the playground need no fuel: they run on explicit
    sequences of events, and the bounds on a refresh (eight requests, fifteen
    resumptions) are proved.

    ** Not modelled

    React components, other hooks, routes and HTTP calls (rendering and I/O): of
    HTTP only the answers the session and the client wait for are events, of the
    messages between tabs only their sending and arrival, and of React only the order in
    which it runs the playground's updaters.  Of the event sources (package
    sse.js) only the events they dispatch appear, in any order.  The storage of conversations and
    the other hooks of the playground; the rest of the pricing library (filters,
    price formatting); the Go backend, of which only the shared simulation
    fixture is used; the style constants and tooltips of the flow chart and the
    other charts of the dashboard; the markup of the override dialog and of its
    rule forms, and the reading of its status code field; the other forms of
    channels; the desktop shell,
    plugins and build scripts; translations; a browser lock that
    is refused while a session is refreshed.  Code of the browser and of npm
    packages appears only as parameters. *)
From stdpp Require Export base list numbers tactics option.
From Stdlib Require Export ZArith Lia.
From Stdlib Require Import Ascii.
From stdpp Require Export strings.

(** ** Outcomes

    A TypeScript call either returns a value or throws.  [NoFuel] is the
    answer of a fuelled model that was given too little fuel; every fuelled
    function of the development comes with a theorem that excludes it. *)
Inductive outcome (E A : Type) : Type :=
| Ok (a : A)
| Throw (e : E)
| NoFuel.
Arguments Ok {E A} a.
Arguments Throw {E A} e.
Arguments NoFuel {E A}.

#[global] Instance outcome_ret {E} : MRet (outcome E) := λ A a, Ok a.
#[global] Instance outcome_bind {E} : MBind (outcome E) := λ A B f m,
  match m with
  | Ok a => f a
  | Throw e => Throw e
  | NoFuel => NoFuel
  end.

#[global] Instance outcome_fmap {E} : FMap (outcome E) := λ A B f m,
  match m with
  | Ok a => Ok (f a)
  | Throw e => Throw e
  | NoFuel => NoFuel
  end.

Definition throw {E A} (e : E) : outcome E A := Throw e.

(** A stateful computation that may throw: explicit state passing. *)
Definition ST (S E A : Type) : Type := S → outcome E (A * S).

#[global] Instance st_ret {S E} : MRet (ST S E) := λ A a s, Ok (a, s).
#[global] Instance st_bind {S E} : MBind (ST S E) := λ A B f m s,
  match m s with
  | Ok (a, s') => f a s'
  | Throw e => Throw e
  | NoFuel => NoFuel
  end.

Definition st_throw {S E A} (e : E) : ST S E A := λ _, Throw e.
Definition st_get {S E} : ST S E S := λ s, Ok (s, s).
Definition st_modify {S E} (f : S → S) : ST S E unit := λ s, Ok (tt, f s).
(** Run a computation that does not touch the state. *)
Definition st_lift {S E A} (o : outcome E A) : ST S E A := λ s,
  match o with
  | Ok a => Ok (a, s)
  | Throw e => Throw e
  | NoFuel => NoFuel
  end.

Section OutcomeLemmas.
Context {S E A B : Type}.

Lemma bind_Ok_inv (m : outcome E A) (f : A → outcome E B) b :
  (m ≫= f) = Ok b → ∃ a, m = Ok a ∧ f a = Ok b.
Proof. destruct m; simpl; intros; try discriminate; eauto. Qed.

Lemma st_bind_Ok_inv (m : ST S E A) (f : A → ST S E B) s b s' :
  (m ≫= f) s = Ok (b, s') → ∃ a s1, m s = Ok (a, s1) ∧ f a s1 = Ok (b, s').
Proof.
  unfold mbind, st_bind. destruct (m s) as [[a s1]| |]; intros;
    try discriminate; eauto.
Qed.

Lemma bind_not_NoFuel (m : outcome E A) (f : A → outcome E B) :
  m ≠ NoFuel → (∀ a, m = Ok a → f a ≠ NoFuel) → (m ≫= f) ≠ NoFuel.
Proof. destruct m; simpl; intros ? Hf; [by apply Hf|done|done]. Qed.

Lemma st_bind_not_NoFuel (m : ST S E A) (f : A → ST S E B) s :
  m s ≠ NoFuel → (∀ a s', m s = Ok (a, s') → f a s' ≠ NoFuel) →
  (m ≫= f) s ≠ NoFuel.
Proof.
  unfold mbind, st_bind. destruct (m s) as [[a s1]| |]; intros ? Hf;
    [by apply Hf|done|done].
Qed.
End OutcomeLemmas.

(** Monadic folds over lists. *)
Fixpoint foldM {E A S} (f : A → S → outcome E S) (l : list A) (s : S) : outcome E S :=
  match l with
  | [] => Ok s
  | x :: l' => s' ← f x s; foldM f l' s'
  end.

Lemma foldM_app {E A S} (f : A → S → outcome E S) l1 l2 s :
  foldM f (l1 ++ l2) s = (foldM f l1 s ≫= foldM f l2).
Proof.
  revert s; induction l1 as [|x l1 IH]; intros s; [done|].
  simpl. destruct (f x s); simpl; auto.
Qed.

(** ** Tactics *)

(** Invert a successful monadic computation, outermost bind first. *)
Ltac inv_ok :=
  repeat match goal with
  | H : Ok _ = Ok _ |- _ => injection H as H; try subst
  | H : Throw _ = Ok _ |- _ => discriminate H
  | H : NoFuel = Ok _ |- _ => discriminate H
  | H : st_throw _ _ = Ok _ |- _ => discriminate H
  | H : (mbind _ _) = Ok _ |- _ =>
      let x := fresh "x" in let Hx := fresh "Hx" in
      apply bind_Ok_inv in H as (x & Hx & H)
  | H : (mbind _ _) ?s = Ok (_, _) |- _ =>
      let x := fresh "x" in let s1 := fresh "s" in let Hx := fresh "Hx" in
      apply st_bind_Ok_inv in H as (x & s1 & Hx & H)
  | H : mret _ = Ok _ |- _ => injection H as H; try subst
  | H : mret _ _ = Ok _ |- _ => injection H as H; try subst
  | H : (_, _) = (_, _) |- _ => injection H as H; try subst
  end.

(** Split every [if]/[match] of a hypothesis, keeping the equations. *)
Ltac split_in H :=
  repeat match type of H with
  | context [match ?x with _ => _ end] =>
      let E := fresh "E" in destruct x eqn:E; try discriminate H
  end.

(** Turn boolean tests in the context into propositions. *)
Ltac bool_hyps :=
  repeat match goal with
  | H : _ && _ = true |- _ => apply andb_prop in H as [? ?]
  | H : _ || _ = false |- _ => apply orb_false_iff in H as [? ?]
  | H : negb _ = true |- _ => apply negb_true_iff in H
  | H : negb _ = false |- _ => apply negb_false_iff in H
  | H : (_ <? _)%Z = true |- _ => apply Z.ltb_lt in H
  | H : (_ <? _)%Z = false |- _ => apply Z.ltb_ge in H
  | H : (_ <=? _)%Z = true |- _ => apply Z.leb_le in H
  | H : (_ <=? _)%Z = false |- _ => apply Z.leb_gt in H
  | H : (_ =? _)%Z = true |- _ => apply Z.eqb_eq in H
  | H : (_ =? _)%Z = false |- _ => apply Z.eqb_neq in H
  | H : (_ >? _)%Z = true |- _ => rewrite Z.gtb_ltb in H; apply Z.ltb_lt in H
  | H : (_ >? _)%Z = false |- _ => rewrite Z.gtb_ltb in H; apply Z.ltb_ge in H
  | H : (_ <? _)%nat = true |- _ => apply Nat.ltb_lt in H
  | H : (_ <? _)%nat = false |- _ => apply Nat.ltb_ge in H
  | H : (_ <=? _)%nat = true |- _ => apply Nat.leb_le in H
  | H : (_ <=? _)%nat = false |- _ => apply Nat.leb_gt in H
  | H : (_ =? _)%nat = true |- _ => apply Nat.eqb_eq in H
  | H : (_ =? _)%nat = false |- _ => apply Nat.eqb_neq in H
  end.

(** ** JavaScript strings: sequences of UTF-16 code units *)
Abbreviation jschar := Z (only parsing).
Abbreviation jsstring := (list Z) (only parsing).

(** The code units of an ASCII literal of the source. *)
Definition js (s : string) : jsstring :=
  map (λ a, Z.of_N (N_of_ascii a)) (String.list_ascii_of_string s).

Create HintDb jsdb.
