(* ===== verification/JsString.v ===== *)
(** * JavaScript strings and character classes

    What the sources use of [String.prototype] and of the regular-expression
    character classes, on sequences of UTF-16 code units: [===], [<], [slice],
    [startsWith], [endsWith], [includes], [trim], [join], and the classes [\s],
    [\d], [\w] and [[\da-f]] with the [i] flag. *)
From S2P Require Import Prelude.
Local Open Scope Z_scope.

(** A literal of the source in which a backquote stands for the double quote. *)
Definition jq (s : string) : jsstring := map (λ c, if c =? 96 then 34 else c) (js s).

(** ** Equality and order *)
Fixpoint str_eqb (s t : jsstring) : bool :=
  match s, t with
  | [], [] => true
  | a :: s', b :: t' => (a =? b) && str_eqb s' t'
  | _, _ => false
  end.

(** [a < b] on strings: lexicographic on code units. *)
Fixpoint str_ltb (s t : jsstring) : bool :=
  match s, t with
  | [], [] => false
  | [], _ :: _ => true
  | _ :: _, [] => false
  | a :: s', b :: t' => if a <? b then true else if b <? a then false else str_ltb s' t'
  end.

Definition str_leb (s t : jsstring) : bool := negb (str_ltb t s).

(** [list.includes(s)]. *)
Definition str_in (s : jsstring) (l : list jsstring) : bool :=
  existsb (str_eqb s) l.

Lemma str_eqb_eq s t : str_eqb s t = true ↔ s = t.
Proof.
  revert t; induction s as [|a s IH]; intros [|b t]; simpl; try done.
  rewrite andb_true_iff, Z.eqb_eq, IH. split; [by intros [-> ->]|by intros [= -> ->]].
Qed.

Lemma str_eqb_refl s : str_eqb s s = true.
Proof. by apply str_eqb_eq. Qed.

Lemma str_eqb_neq s t : str_eqb s t = false ↔ s ≠ t.
Proof. rewrite <- str_eqb_eq. by destruct (str_eqb s t). Qed.

Lemma str_eqb_sym s t : str_eqb s t = str_eqb t s.
Proof.
  destruct (str_eqb s t) eqn:E.
  - apply str_eqb_eq in E as ->. by rewrite str_eqb_refl.
  - symmetry. apply str_eqb_neq. apply str_eqb_neq in E. congruence.
Qed.

Lemma str_in_In s l : str_in s l = true ↔ In s l.
Proof.
  unfold str_in. rewrite existsb_exists. split.
  - intros (x & Hx & ->%str_eqb_eq). done.
  - intros H. exists s. by rewrite str_eqb_refl.
Qed.

Lemma str_ltb_irrefl s : str_ltb s s = false.
Proof. induction s as [|a s IH]; simpl; [done|]. by rewrite Z.ltb_irrefl. Qed.

Lemma str_ltb_trans s t u : str_ltb s t = true → str_ltb t u = true → str_ltb s u = true.
Proof.
  revert t u; induction s as [|a s IH]; intros [|b t] [|c u]; simpl; try done.
  repeat match goal with |- context [?x <? ?y] => destruct (Z.ltb_spec x y) end;
    try done; try lia; eauto.
Qed.

Lemma str_ltb_total s t : s ≠ t → str_ltb s t = true ∨ str_ltb t s = true.
Proof.
  revert t; induction s as [|a s IH]; intros [|b t] Hne; simpl; auto.
  destruct (Z.ltb_spec a b), (Z.ltb_spec b a); auto.
  apply IH. intros ->. apply Hne. f_equal. lia.
Qed.

#[export] Hint Resolve str_eqb_refl : jsdb.

(** Replace each string test of the context by the equation it decides. *)
Ltac str_hyps :=
  repeat match goal with
  | H : str_eqb _ _ = true |- _ => apply str_eqb_eq in H
  | H : str_eqb _ _ = false |- _ => apply str_eqb_neq in H
  end.

(** Decide the closed boolean tests on string literals in a hypothesis. *)
Ltac js_compute_in H :=
  repeat match type of H with
  | context [str_eqb (js ?a) (js ?b)] =>
      let r := eval vm_compute in (str_eqb (js a) (js b)) in
      change (str_eqb (js a) (js b)) with r in H
  | context [?f (js ?a)] =>
      let r := eval vm_compute in (f (js a)) in
      match r with true => idtac | false => idtac end;
      change (f (js a)) with r in H
  end.

(** ** Character classes *)

(** [\s], which is also the set [trim] removes: WhiteSpace and LineTerminator. *)
Definition is_space (c : jschar) : bool :=
  ((9 <=? c) && (c <=? 13)) || (c =? 32) || (c =? 160) || (c =? 5760)
  || ((8192 <=? c) && (c <=? 8202)) || (c =? 8232) || (c =? 8233)
  || (c =? 8239) || (c =? 8287) || (c =? 12288) || (c =? 65279).

(** [\d] *)
Definition is_digit (c : jschar) : bool := (48 <=? c) && (c <=? 57).
Definition is_upper (c : jschar) : bool := (65 <=? c) && (c <=? 90).
Definition is_lower (c : jschar) : bool := (97 <=? c) && (c <=? 122).
(** [[A-Za-z_]] *)
Definition is_name_start (c : jschar) : bool := is_upper c || is_lower c || (c =? 95).
(** [\w] *)
Definition is_word (c : jschar) : bool := is_name_start c || is_digit c.
(** [[\da-f]] with the [i] flag *)
Definition is_hex (c : jschar) : bool :=
  is_digit c || ((97 <=? c) && (c <=? 102)) || ((65 <=? c) && (c <=? 70)).

(** The length of the longest prefix in a class: what a greedy [X*] matches. *)
Fixpoint span_len (p : jschar → bool) (s : jsstring) : nat :=
  match s with
  | c :: s' => if p c then S (span_len p s') else O
  | [] => O
  end.

Lemma span_len_le p s : (span_len p s ≤ length s)%nat.
Proof. induction s as [|c s IH]; simpl; [lia|]. destruct (p c); lia. Qed.

Lemma span_len_forall p s : forallb p (take (span_len p s) s) = true.
Proof. induction s as [|c s IH]; simpl; [done|]. destruct (p c) eqn:E; simpl; by rewrite ?E. Qed.

Lemma span_len_stop p s c s' : drop (span_len p s) s = c :: s' → p c = false.
Proof. induction s as [|a s IH]; simpl; [done|]. destruct (p a) eqn:E; simpl; [done|]. congruence. Qed.

Lemma span_len_app p s t :
  forallb p s = true → (∀ c t', t = c :: t' → p c = false) → span_len p (s ++ t) = length s.
Proof.
  induction s as [|a s IH]; simpl; intros Hs Ht.
  - destruct t as [|c t]; simpl; [done|]. by rewrite (Ht c t eq_refl).
  - apply andb_prop in Hs as [-> Hs]. by rewrite IH.
Qed.

(** ** String.prototype *)

(** [s.slice(a, b)] for indices [0 <= a]. *)
Definition slice (s : jsstring) (a b : nat) : jsstring := take (b - a) (drop a s).

(** [s[i] ?? undefined]: [None] is [undefined]. *)
Definition char_at (s : jsstring) (i : nat) : option jschar := s !! i.

Fixpoint starts_with (s p : jsstring) : bool :=
  match p, s with
  | [], _ => true
  | a :: p', b :: s' => (a =? b) && starts_with s' p'
  | _ :: _, [] => false
  end.

(** [s.split(c)] for a separator of one code unit. *)
Fixpoint split_char (c : jschar) (s : jsstring) : list jsstring :=
  match s with
  | [] => [[]]
  | d :: s' =>
      if d =? c then [] :: split_char c s'
      else match split_char c s' with p :: ps => (d :: p) :: ps | [] => [[d]] end
  end.

Definition ends_with (s p : jsstring) : bool := starts_with (rev s) (rev p).

(** [s.includes(p)] *)
Fixpoint str_includes (s p : jsstring) : bool :=
  starts_with s p || match s with [] => false | _ :: s' => str_includes s' p end.

Fixpoint trim_start (s : jsstring) : jsstring :=
  match s with
  | c :: s' => if is_space c then trim_start s' else s
  | [] => []
  end.

Definition trim_end (s : jsstring) : jsstring := rev (trim_start (rev s)).
Definition trim (s : jsstring) : jsstring := trim_end (trim_start s).

(** [parts.join(sep)] *)
Fixpoint join (sep : jsstring) (parts : list jsstring) : jsstring :=
  match parts with
  | [] => []
  | [p] => p
  | p :: ps => p ++ sep ++ join sep ps
  end.

Lemma starts_with_app s p : starts_with (p ++ s) p = true.
Proof. induction p as [|a p IH]; simpl; [by destruct s|]. by rewrite Z.eqb_refl. Qed.

Lemma starts_with_inv s p : starts_with s p = true → s = p ++ drop (length p) s.
Proof.
  revert s; induction p as [|a p IH]; intros s H; simpl; [done|].
  destruct s as [|b s]; simpl in *; [done|].
  apply andb_prop in H as [->%Z.eqb_eq H]. f_equal. by apply IH.
Qed.

Lemma slice_full s : slice s 0 (length s) = s.
Proof. unfold slice. simpl. rewrite Nat.sub_0_r. by rewrite firstn_all. Qed.

Lemma slice_length s a b : (b ≤ length s)%nat → length (slice s a b) = (b - a)%nat.
Proof. intros. unfold slice. rewrite length_take, length_drop. lia. Qed.

Lemma slice_split s a b c :
  (a ≤ b)%nat → (b ≤ c)%nat → slice s a c = slice s a b ++ slice s b c.
Proof.
  intros. unfold slice.
  replace (drop b s) with (drop (b - a) (drop a s)) by (rewrite drop_drop; f_equal; lia).
  replace (c - a)%nat with (b - a + (c - b))%nat by lia.
  by rewrite <- take_take_drop.
Qed.

Lemma slice_slice s a b i j :
  (a + j ≤ b)%nat → slice (slice s a b) i j = slice s (a + i) (a + j).
Proof.
  intros. unfold slice. rewrite skipn_firstn_comm, drop_drop, take_take.
  f_equal. lia.
Qed.

Lemma slice_nil s a : slice s a a = [].
Proof. unfold slice. by rewrite Nat.sub_diag. Qed.

Lemma trim_start_suffix s : ∃ n, trim_start s = drop n s.
Proof.
  induction s as [|c s [n IH]]; simpl; [by exists 0%nat|].
  destruct (is_space c); [by exists (S n)|by exists 0%nat].
Qed.

Lemma trim_start_idemp s : trim_start (trim_start s) = trim_start s.
Proof.
  induction s as [|c s IH]; simpl; [done|].
  destruct (is_space c) eqn:E; simpl; [done|]. by rewrite E.
Qed.

Lemma trim_start_id s c s' : s = c :: s' → is_space c = false → trim_start s = s.
Proof. intros -> H. simpl. by rewrite H. Qed.

Lemma trim_end_snoc s c : is_space c = false → trim_end (s ++ [c]) = s ++ [c].
Proof. intros H. unfold trim_end. rewrite rev_app_distr. simpl. rewrite H. simpl. by rewrite rev_involutive. Qed.

Lemma trim_ends c s e : is_space c = false → is_space e = false → trim (c :: s ++ [e]) = c :: s ++ [e].
Proof.
  intros Hc He. unfold trim. rewrite (trim_start_id _ c (s ++ [e])) by done. rewrite app_comm_cons. by apply trim_end_snoc.
Qed.

Lemma trim_length s : (length (trim s) ≤ length s)%nat.
Proof.
  unfold trim, trim_end. rewrite length_rev.
  destruct (trim_start_suffix (rev (trim_start s))) as [n ->].
  rewrite length_drop, length_rev.
  destruct (trim_start_suffix s) as [m ->]. rewrite length_drop. lia.
Qed.

(** ** More on [trim] and [starts_with] *)
Definition all_space (s : jsstring) : bool := forallb is_space s.

Lemma trim_start_split s : ∃ a, s = a ++ trim_start s ∧ all_space a = true.
Proof.
  induction s as [|c s (a & Ha & Hs)]; simpl; [by exists []|].
  destruct (is_space c) eqn:E; [|by exists []].
  exists (c :: a). simpl. rewrite E, Hs. split; [by rewrite Ha at 1|done].
Qed.

Lemma trim_start_head s c t : trim_start s = c :: t → is_space c = false.
Proof.
  induction s as [|a s IH]; simpl; [done|].
  destruct (is_space a) eqn:E; [done|]. by intros [= <- ?].
Qed.

Lemma all_space_rev s : all_space (rev s) = all_space s.
Proof.
  induction s as [|c s IH]; simpl; [done|]. unfold all_space in *.
  rewrite forallb_app, IH. simpl. by rewrite andb_true_r, andb_comm.
Qed.

Lemma trim_end_split s : ∃ b, s = trim_end s ++ b ∧ all_space b = true.
Proof.
  destruct (trim_start_split (rev s)) as (a & Ha & Hs). exists (rev a).
  unfold trim_end. rewrite all_space_rev, <- rev_app_distr, <- Ha, rev_involutive. done.
Qed.

(** What [trim] removes on both sides is blank. *)
Lemma trim_split s : ∃ a b, s = a ++ trim s ++ b ∧ all_space a = true ∧ all_space b = true.
Proof.
  destruct (trim_start_split s) as (a & Ha & Hsa).
  destruct (trim_end_split (trim_start s)) as (b & Hb & Hsb).
  exists a, b. unfold trim. rewrite <- Hb. done.
Qed.

Lemma trim_end_idemp s : trim_end (trim_end s) = trim_end s.
Proof. unfold trim_end. by rewrite rev_involutive, trim_start_idemp. Qed.

(** A text with no blank at either end. *)
Lemma trim_start_trim s : trim_start (trim s) = trim s.
Proof.
  unfold trim. destruct (trim_end_split (trim_start s)) as (b & Hb & Hs).
  destruct (trim_end (trim_start s)) as [|c t] eqn:E; [done|].
  apply (trim_start_id _ c t eq_refl). simpl in Hb. by eapply trim_start_head.
Qed.

Lemma trim_idemp s : trim (trim s) = trim s.
Proof. unfold trim at 1. rewrite trim_start_trim. unfold trim. by rewrite trim_end_idemp. Qed.

Lemma starts_with_prefix p t op : starts_with p op = true → starts_with (p ++ t) op = true.
Proof.
  revert p; induction op as [|a op IH]; intros [|b p]; simpl; try done; [by destruct t|].
  intros [-> H]%andb_prop. simpl. by apply IH.
Qed.

(** Blanks after a text do not help an operator without blanks to match. *)
Lemma starts_with_blank_tail p t op :
  all_space t = true → forallb (λ c, negb (is_space c)) op = true →
  starts_with (p ++ t) op = true → starts_with p op = true.
Proof.
  revert p; induction op as [|a op IH]; intros [|b p] Ht Hop; simpl in *; try done.
  - destruct t as [|c t]; simpl in *; [done|].
    intros Hm. bool_hyps. subst. congruence.
  - bool_hyps. intros [->%Z.eqb_eq Hm]%andb_prop.
    rewrite Z.eqb_refl. simpl. by apply IH.
Qed.
