(* ===== verification/JsNumber.v ===== *)
(** * JavaScript numbers

    The Number type is IEEE-754 binary64.  Values are the specification floats
    of the Standard Library at precision 53 and maximal exponent 1024, so every
    operation below computes and rounds exactly as the language prescribes:
    arithmetic, comparisons, [Number.isFinite], [Number.isInteger],
    [Number.isSafeInteger], [Math.floor], [Math.ceil], [Math.abs], [Math.min],
    [Math.max], the remainder, [Number(string)], [String(number)] and
    [Number.prototype.toExponential]. *)
From S2P Require Import Prelude JsString.
From Stdlib Require Export SpecFloat.
Local Open Scope Z_scope.

Abbreviation number := spec_float (only parsing).

Definition num_prec : Z := 53.
Definition num_emax : Z := 1024.

(** An integer as a number, correctly rounded. *)
Definition num_of_Z (z : Z) : number := binary_normalize num_prec num_emax z 0 false.

Definition num_add : number → number → number := SFadd num_prec num_emax.
Definition num_sub : number → number → number := SFsub num_prec num_emax.
Definition num_mul : number → number → number := SFmul num_prec num_emax.
Definition num_div : number → number → number := SFdiv num_prec num_emax.
Definition num_opp : number → number := SFopp.

(** [===], [<], [<=] on numbers: NaN is unordered, the zeros are equal. *)
Definition num_eqb : number → number → bool := SFeqb.
Definition num_ltb : number → number → bool := SFltb.
Definition num_leb : number → number → bool := SFleb.

Definition num_zero : number := S754_zero false.
Definition num_nan : number := S754_nan.

Definition isFinite (x : number) : bool :=
  match x with
  | S754_zero _ | S754_finite _ _ _ => true
  | _ => false
  end.

Definition isNaN (x : number) : bool :=
  match x with S754_nan => true | _ => false end.

(** [x < 0] *)
Definition is_negative (x : number) : bool := num_ltb x num_zero.

(** The integer a number denotes, when it denotes one. *)
Definition integer_value (x : number) : option Z :=
  match x with
  | S754_zero _ => Some 0
  | S754_finite s m e =>
      let signed z := if s : bool then - z else z in
      if 0 <=? e then Some (signed (Z.shiftl (Zpos m) e))
      else if Zpos m mod 2 ^ (- e) =? 0 then Some (signed (Zpos m / 2 ^ (- e)))
      else None
  | _ => None
  end.

Definition isInteger (x : number) : bool :=
  match integer_value x with Some _ => true | None => false end.

Definition max_safe_integer : Z := 2 ^ 53 - 1.

Definition isSafeInteger (x : number) : bool :=
  match integer_value x with
  | Some z => Z.abs z <=? max_safe_integer
  | None => false
  end.

Definition Math_abs : number → number := SFabs.

Definition Math_min (x y : number) : number :=
  match x, y with
  | S754_nan, _ | _, S754_nan => S754_nan
  | S754_zero sx, S754_zero sy => S754_zero (sx || sy)
  | _, _ => if num_ltb y x then y else x
  end.

Definition Math_max (x y : number) : number :=
  match x, y with
  | S754_nan, _ | _, S754_nan => S754_nan
  | S754_zero sx, S754_zero sy => S754_zero (sx && sy)
  | _, _ => if num_ltb x y then y else x
  end.

(** The signed integer [z] as a number, a zero keeping the sign [s]. *)
Definition signed_integer (s : bool) (z : Z) : number :=
  binary_normalize num_prec num_emax (if s then - z else z) 0 s.

Definition Math_floor (x : number) : number :=
  match x with
  | S754_finite s m e =>
      if 0 <=? e then x
      else if Zpos m mod 2 ^ (- e) =? 0 then x
      else signed_integer s (Zpos m / 2 ^ (- e) + (if s then 1 else 0))
  | _ => x
  end.

Definition Math_ceil (x : number) : number :=
  match x with
  | S754_finite s m e =>
      if 0 <=? e then x
      else if Zpos m mod 2 ^ (- e) =? 0 then x
      else signed_integer s (Zpos m / 2 ^ (- e) + (if s then 0 else 1))
  | _ => x
  end.

(** [x % y]: exact, with the sign of the dividend. *)
Definition num_rem (x y : number) : number :=
  match x, y with
  | S754_nan, _ | _, S754_nan | S754_infinity _, _ | _, S754_zero _ => S754_nan
  | _, S754_infinity _ => x
  | S754_zero _, _ => x
  | S754_finite sx mx ex, S754_finite _ my ey =>
      let ez := Z.min ex ey in
      match Z.shiftl (Zpos mx) (ex - ez) mod Z.shiftl (Zpos my) (ey - ez) with
      | Zpos r => binary_round num_prec num_emax sx r ez
      | _ => S754_zero sx
      end
  end.

(** ** Decimal numerals *)

Definition digit_value (c : jschar) : Z := c - 48.

Definition digits_value (s : jsstring) : Z :=
  fold_left (λ acc c, acc * 10 + digit_value c) s 0.

(** The number nearest to [m * 10 ^ e], ties to even ([m >= 0]).  The two
    guards decide the numerals far outside the range without computing the
    power: [10 ^ 400] overflows, and below [2 ^ -1080] everything is zero. *)
Definition of_decimal (m e : Z) : number :=
  match m with
  | Zpos p =>
      if 400 <=? e then S754_infinity false
      else if Z.log2 m + 1 + 3 * e <? - 1080 then S754_zero false
      else if 0 <=? e then num_of_Z (m * 10 ^ e)
      else
        let '(q, e', l) := SFdiv_core_binary num_prec num_emax m 0 (10 ^ (- e)) 0 in
        binary_round_aux num_prec num_emax false q e' l
  | _ => S754_zero false
  end.

(** Scan [(\d+(\.\d* )?|\.\d+)([eE][+-]?\d+)?]: the length of the match, the
    digits of the mantissa as an integer, and the power of ten. *)
Definition scan_sign (s : jsstring) : Z * nat :=
  match s with
  | d :: _ => if d =? 45 then (-1, 1%nat) else if d =? 43 then (1, 1%nat) else (1, 0%nat)
  | [] => (1, 0%nat)
  end.

Definition scan_exponent (s : jsstring) : nat * Z :=
  match s with
  | c :: r =>
      if (c =? 101) || (c =? 69) then
        let '(sgn, n0) := scan_sign r in
        let ds := drop n0 r in
        match span_len is_digit ds with
        | O => (0%nat, 0)
        | n => ((1 + n0 + n)%nat, sgn * digits_value (take n ds))
        end
      else (0%nat, 0)
  | [] => (0%nat, 0)
  end.

Definition scan_mantissa (s : jsstring) : option (nat * Z * Z) :=
  let ni := span_len is_digit s in
  let ip := take ni s in
  match ni with
  | O =>
      match s with
      | 46 :: r =>
          match span_len is_digit r with
          | O => None
          | nf => Some (S nf, digits_value (take nf r), - Z.of_nat nf)
          end
      | _ => None
      end
  | _ =>
      match drop ni s with
      | 46 :: r =>
          let nf := span_len is_digit r in
          Some ((ni + 1 + nf)%nat, digits_value (ip ++ take nf r), - Z.of_nat nf)
      | _ => Some (ni, digits_value ip, 0)
      end
  end.

Definition scan_decimal (s : jsstring) : option (nat * Z * Z) :=
  match scan_mantissa s with
  | Some (n, m, e) =>
      let '(n', e') := scan_exponent (drop n s) in
      Some ((n + n')%nat, m, e + e')
  | None => None
  end.

(** Numerals in another radix, after their [0x], [0o] or [0b]. *)
Definition radix_digit (radix c : Z) : option Z :=
  let v := if is_digit c then c - 48
           else if is_lower c then c - 87
           else if is_upper c then c - 55 else 99 in
  if v <? radix then Some v else None.

Fixpoint radix_value (radix acc : Z) (s : jsstring) : option Z :=
  match s with
  | [] => Some acc
  | c :: s' =>
      match radix_digit radix c with
      | Some v => radix_value radix (acc * radix + v) s'
      | None => None
      end
  end.

Definition radix_prefix (s : jsstring) : option (Z * jsstring) :=
  match s with
  | 48 :: c :: r =>
      if (c =? 120) || (c =? 88) then Some (16, r)
      else if (c =? 111) || (c =? 79) then Some (8, r)
      else if (c =? 98) || (c =? 66) then Some (2, r) else None
  | _ => None
  end.

(** [Number(s)] (StringToNumber). *)
Definition unsigned_number (s : jsstring) : number :=
  if str_eqb s (js "Infinity") then S754_infinity false
  else match scan_decimal s with
       | Some (n, m, e) => if (n =? length s)%nat then of_decimal m e else num_nan
       | None => num_nan
       end.

Definition Number_of_string (s : jsstring) : number :=
  match trim s with
  | [] => num_zero
  | t =>
      match radix_prefix t with
      | Some (radix, (_ :: _) as r) =>
          match radix_value radix 0 r with Some z => num_of_Z z | None => num_nan end
      | Some (_, []) => num_nan
      | None =>
          match t with
          | 43 :: r => unsigned_number r
          | 45 :: r => num_opp (unsigned_number r)
          | _ => unsigned_number t
          end
      end
  end.

(** ** Decimal output *)

(** The decimal digits of a nonnegative integer. *)
Fixpoint decimal_digits (fuel : nat) (z : Z) (acc : jsstring) : jsstring :=
  match fuel with
  | O => acc
  | S fuel' =>
      let acc' := (48 + z mod 10) :: acc in
      if z <? 10 then acc' else decimal_digits fuel' (z / 10) acc'
  end.

Definition string_of_nonneg (z : Z) : jsstring :=
  decimal_digits (S (Z.to_nat (Z.log2 z))) z [].

(** The binary64 number [m * 2 ^ e] as a fraction. *)
Definition fraction (m : positive) (e : Z) : Z * Z :=
  if 0 <=? e then (Z.shiftl (Zpos m) e, 1) else (Zpos m, 2 ^ (- e)).

(** The [n] with [10 ^ (n-1) <= num/den < 10 ^ n], from an estimate. *)
Definition below_pow10 (num den n : Z) : bool :=
  if 0 <=? n then num <? den * 10 ^ n else num * 10 ^ (- n) <? den.

Definition decimal_point (m : positive) (e : Z) : Z :=
  let '(num, den) := fraction m e in
  let n0 := (Z.log2 (Zpos m) + e) * 30103 / 100000 in
  if below_pow10 num den n0 then n0
  else if below_pow10 num den (n0 + 1) then n0 + 1 else n0 + 2.

Definition num_same (x y : number) : bool :=
  match x, y with
  | S754_zero s, S754_zero t => Bool.eqb s t
  | S754_infinity s, S754_infinity t => Bool.eqb s t
  | S754_nan, S754_nan => true
  | S754_finite s m e, S754_finite t n f => Bool.eqb s t && (m =? n)%positive && (e =? f)
  | _, _ => false
  end.

(** The candidates with [k] digits, the nearer one first. *)
Definition decimal_candidates (m : positive) (e n k : Z) : list Z :=
  let '(num, den) := fraction m e in
  let j := k - n in
  let num' := if 0 <=? j then num * 10 ^ j else num in
  let den' := if 0 <=? j then den else den * 10 ^ (- j) in
  let q := num' / den' in
  let r := num' mod den' in
  if r =? 0 then [q]
  else if 2 * r <? den' then [q; q + 1]
  else if den' <? 2 * r then [q + 1; q]
  else if Z.even q then [q; q + 1] else [q + 1; q].

(** Trailing zeros move into the power of ten. *)
Fixpoint strip_zeros (fuel : nat) (s E : Z) : Z * Z :=
  match fuel with
  | O => (s, E)
  | S fuel' => if s mod 10 =? 0 then strip_zeros fuel' (s / 10) (E + 1) else (s, E)
  end.

Definition numerals (m : positive) (e n k : Z) : list (Z * Z) :=
  map (λ s, strip_zeros (Z.to_nat (Z.log2 s)) s (n - k)) (decimal_candidates m e n k).

Definition reads_as (m : positive) (e : Z) (numeral : Z * Z) : bool :=
  num_same (of_decimal (fst numeral) (snd numeral)) (S754_finite false m e).

(** Number::toString: the least number of digits whose numeral reads back as
    the number, and among those the nearest one.  The answer [(s, E)] stands
    for [s * 10 ^ E]. *)
Fixpoint shortest_from (fuel : nat) (m : positive) (e n k : Z) : Z * Z :=
  match find (reads_as m e) (numerals m e n k) with
  | Some numeral => numeral
  | None =>
      match fuel with
      | O => (0, 0)
      | S fuel' => shortest_from fuel' m e n (k + 1)
      end
  end.

Definition shortest_decimal (m : positive) (e : Z) : Z * Z :=
  let n := decimal_point m e in
  shortest_from (Z.to_nat (n + Z.max (- e) 0)) m e n 1.

(** The digits of a positive finite number and its decimal point [n]. *)
Definition number_digits (m : positive) (e : Z) : jsstring * Z :=
  let '(s, E) := shortest_decimal m e in
  let ds := string_of_nonneg s in
  (ds, E + Z.of_nat (length ds)).

Definition string_of_Z (z : Z) : jsstring :=
  if z <? 0 then 45 :: string_of_nonneg (- z) else string_of_nonneg z.

Definition zeros (n : Z) : jsstring := repeat 48 (Z.to_nat n).

(** [d.ddd] *)
Definition point_after_first (ds : jsstring) : jsstring :=
  match ds with
  | d :: (_ :: _) as r => d :: 46 :: r
  | _ => ds
  end.

Definition exponent_suffix (e : Z) : jsstring :=
  js "e" ++ (if e <? 0 then js "-" else js "+") ++ string_of_nonneg (Z.abs e).

Definition positive_to_string (m : positive) (e : Z) : jsstring :=
  let '(ds, n) := number_digits m e in
  let k := Z.of_nat (length ds) in
  if (k <=? n) && (n <=? 21) then ds ++ zeros (n - k)
  else if (0 <? n) && (n <=? 21) then take (Z.to_nat n) ds ++ js "." ++ drop (Z.to_nat n) ds
  else if (-6 <? n) && (n <=? 0) then js "0." ++ zeros (- n) ++ ds
  else point_after_first ds ++ exponent_suffix (n - 1).

(** [String(x)] *)
Definition String_of_number (x : number) : jsstring :=
  match x with
  | S754_nan => js "NaN"
  | S754_zero _ => js "0"
  | S754_infinity s => (if s then js "-" else []) ++ js "Infinity"
  | S754_finite s m e => (if s then js "-" else []) ++ positive_to_string m e
  end.

(** [x.toExponential()] of a finite number, as its mantissa and its exponent. *)
Definition toExponential (x : number) : jsstring * Z :=
  match x with
  | S754_finite s m e =>
      let '(ds, n) := number_digits m e in
      ((if s then js "-" else []) ++ point_after_first ds, n - 1)
  | _ => (js "0", 0)
  end.
