(* ===== verification/JsNumberFacts.v ===== *)
(** * Numbers and their numerals

    What the visual editor relies on when it compares a text field with a
    literal: reading a numeral gives a binary64 number, and reading the text
    that [String] writes for a literal gives the literal back.  The proof goes
    through exact rounding: rounding a representable value is the identity, the
    search for the shortest numeral ends at the exact expansion at the latest,
    and each of the four layouts of Number::toString is read by the numeral
    scanner as the digits and the exponent it was written from. *)
From S2P Require Import Prelude JsString JsNumber.
Local Open Scope Z_scope.

Definition valid_number (x : number) : bool := valid_binary num_prec num_emax x.

Lemma fexp_max e : fexp num_prec num_emax e = Z.max (e - 53) (-1074).
Proof. done. Qed.

Lemma digits2_log2 p : Zpos (digits2_pos p) = Z.log2 (Zpos p) + 1.
Proof.
  assert (∀ q, Zpos (digits2_pos q) = Zpos (Pos.size q)) as Hs.
  { induction q as [q IH|q IH|]; simpl; lia. }
  rewrite Hs. destruct p; simpl; lia.
Qed.

Lemma Zdigits2_bounds m : 0 < m → 2 ^ (Zdigits2 m - 1) ≤ m < 2 ^ Zdigits2 m.
Proof.
  intros Hm. destruct m as [|p|p]; try lia. simpl. rewrite digits2_log2.
  pose proof (Z.log2_spec (Zpos p) ltac:(lia)). rewrite Z.add_simpl_r, Z.add_1_r. done.
Qed.

Lemma Zdigits2_unique m d : 0 < d → 2 ^ (d - 1) ≤ m < 2 ^ d → Zdigits2 m = d.
Proof.
  intros Hd Hm. assert (0 < 2 ^ (d - 1)) by (apply Z.pow_pos_nonneg; lia).
  destruct m as [|p|p]; try lia. simpl. rewrite digits2_log2.
  replace (Z.log2 (Zpos p)) with (d - 1); [lia|]. symmetry. apply Z.log2_unique; [lia|].
  by replace (Z.succ (d - 1)) with d by lia.
Qed.

Lemma Zdigits2_le m d : 0 ≤ m < 2 ^ d → 0 ≤ d → 0 ≤ Zdigits2 m ≤ d.
Proof.
  intros Hm Hd. destruct m as [|p|p]; simpl; try lia.
  rewrite digits2_log2. pose proof (Z.log2_lt_pow2 (Zpos p) d). pose proof (Z.log2_nonneg (Zpos p)). lia.
Qed.

(** ** Shifting out bits *)
Lemma iter_pos_nat {A} (f : A → A) p : ∀ x, iter_pos f p x = Nat.iter (Pos.to_nat p) f x.
Proof.
  induction p as [p IH|p IH|]; intros x; simpl iter_pos; [| |done];
    rewrite !IH, <- Nat.iter_add; [rewrite Pos2Nat.inj_xI|rewrite Pos2Nat.inj_xO].
  - rewrite <- Nat.iter_succ_r. f_equal. lia.
  - f_equal. lia.
Qed.

Lemma shr_1_half r : 0 ≤ shr_m r → shr_m (shr_1 r) = shr_m r / 2.
Proof.
  destruct r as [m r s]; simpl. intros Hm. rewrite <- Z.div2_div.
  by destruct m as [|[p|p|]|p].
Qed.

Lemma shr_iter k : ∀ r, 0 ≤ shr_m r → shr_m (Nat.iter k shr_1 r) = shr_m r / 2 ^ Z.of_nat k.
Proof.
  induction k as [|k IH]; intros r Hr; [by rewrite Z.div_1_r|].
  rewrite Nat.iter_succ, shr_1_half; rewrite IH by done; [|apply Z.div_pos; lia].
  rewrite Z.div_div by lia. f_equal. rewrite Nat2Z.inj_succ, Z.pow_succ_r by lia. lia.
Qed.

Lemma shr_iter_exact k m : 0 < m →
  Nat.iter k shr_1 (Build_shr_record (m * 2 ^ Z.of_nat k) false false) = Build_shr_record m false false.
Proof.
  revert m. induction k as [|k IH]; intros m Hm; [simpl; by rewrite Z.mul_1_r|].
  rewrite Nat.iter_succ. rewrite Nat2Z.inj_succ, Z.pow_succ_r by lia.
  replace (m * (2 * 2 ^ Z.of_nat k)) with (m * 2 * 2 ^ Z.of_nat k) by lia.
  rewrite IH by lia. destruct m as [|p|p]; try lia. simpl.
  replace (p * 2)%positive with (xO p) by lia. done.
Qed.

Lemma shr_spec r e k : 0 ≤ shr_m r → 0 ≤ k →
  shr_m (fst (shr r e k)) = shr_m r / 2 ^ k ∧ snd (shr r e k) = e + k.
Proof.
  intros Hr Hk. destruct k as [|p|p]; simpl; [|split; [|done]|lia].
  - rewrite Z.div_1_r. split; [done|lia].
  - rewrite iter_pos_nat, shr_iter by done. by rewrite positive_nat_Z.
Qed.

Lemma shr_exact m e k : 0 < m → 0 ≤ k →
  shr (Build_shr_record (m * 2 ^ k) false false) e k = (Build_shr_record m false false, e + k).
Proof.
  intros Hm Hk. destruct k as [|p|p]; simpl; [|f_equal|lia].
  - by rewrite Z.mul_1_r, Z.add_0_r.
  - rewrite iter_pos_nat. pose proof (shr_iter_exact (Pos.to_nat p) m Hm) as H. by rewrite positive_nat_Z in H.
Qed.

Lemma Zdigits2_mul m k : 0 < m → 0 ≤ k → Zdigits2 (m * 2 ^ k) = Zdigits2 m + k.
Proof.
  intros Hm Hk. pose proof (Zdigits2_bounds m Hm) as Hd.
  assert (0 < Zdigits2 m) by (destruct m; simpl; lia).
  apply Zdigits2_unique; [lia|].
  replace (Zdigits2 m + k - 1) with ((Zdigits2 m - 1) + k) by lia.
  rewrite !Z.pow_add_r by lia. assert (0 < 2 ^ k) by (apply Z.pow_pos_nonneg; lia). nia.
Qed.

(** Rounding a representable value is exact. *)
Lemma round_aux_exact m e k : bounded num_prec num_emax m e = true → 0 ≤ k →
  binary_round_aux num_prec num_emax false (Zpos m * 2 ^ k) (e - k) loc_Exact = S754_finite false m e.
Proof.
  intros [Hc He]%andb_prop Hk. apply Z.eqb_eq in Hc.
  unfold binary_round_aux, shr_fexp. rewrite Zdigits2_mul by lia. simpl Zdigits2.
  replace (Zpos (digits2_pos m) + k + (e - k)) with (Zpos (digits2_pos m) + e) by lia.
  rewrite Hc. replace (e - (e - k)) with k by lia. cbn [shr_record_of_loc].
  rewrite shr_exact by lia. replace (e - k + k) with e by lia. cbn [loc_of_shr_record round_nearest_even shr_m].
  simpl Zdigits2. rewrite Hc, Z.sub_diag. simpl. by rewrite He.
Qed.

(** The result of rounding is a binary64 number. *)
Lemma round_aux_valid sx mx ex lx : 0 ≤ mx → ex ≤ fexp num_prec num_emax (Zdigits2 mx + ex) →
  valid_number (binary_round_aux num_prec num_emax sx mx ex lx) = true.
Proof.
  intros Hm Hex. unfold binary_round_aux, shr_fexp.
  set (e1 := fexp num_prec num_emax (Zdigits2 mx + ex)) in *.
  assert (shr_m (shr_record_of_loc mx lx) = mx) as Hr by (by destruct lx as [|[]]).
  destruct (shr (shr_record_of_loc mx lx) ex (e1 - ex)) as [r e'] eqn:E.
  pose proof (shr_spec (shr_record_of_loc mx lx) ex (e1 - ex)) as Hs.
  rewrite Hr, E in Hs. destruct Hs as [Hm1 He']; [lia|lia|]. simpl in Hm1, He'.
  replace (ex + (e1 - ex)) with e1 in He' by lia. subst e'.
  assert (0 ≤ shr_m r < 2 ^ 53 ∧ (e1 = -1074 ∨ -1074 ≤ e1 ∧ 2 ^ 52 ≤ shr_m r)) as [Hr1 He1].
  { assert (0 < 2 ^ (e1 - ex)) by (apply Z.pow_pos_nonneg; lia). rewrite Hm1.
    destruct (Z.eq_dec mx 0) as [->|Hnz].
    - rewrite Z.div_0_l by lia. subst e1. rewrite fexp_max in *. simpl in *. lia.
    - pose proof (Zdigits2_bounds mx ltac:(lia)) as Hd. assert (0 < Zdigits2 mx) by (destruct mx; simpl; lia).
      assert (Zdigits2 mx ≤ 53 + (e1 - ex)) as Hle by (subst e1; rewrite fexp_max in *; lia).
      split; [split; [apply Z.div_pos; lia|]|].
      + apply Z.div_lt_upper_bound; [lia|]. rewrite <- Z.pow_add_r by lia.
        eapply Z.lt_le_trans; [apply Hd|]. apply Z.pow_le_mono_r; lia.
      + destruct (Z.eq_dec e1 (-1074)) as [|Hne]; [by left|right].
        assert (e1 = Zdigits2 mx + ex - 53 ∧ -1074 ≤ e1) as [H1 H2] by (subst e1; rewrite fexp_max in *; lia).
        split; [done|]. apply Z.div_le_lower_bound; [lia|]. rewrite <- Z.pow_add_r by lia.
        etrans; [|apply Hd]. apply Z.pow_le_mono_r; lia. }
  assert (∃ m2, round_nearest_even (shr_m r) (loc_of_shr_record r) = m2 ∧ (m2 = shr_m r ∨ m2 = shr_m r + 1))
    as (m2 & -> & Hm2).
  { eexists; split; [done|]. destruct (loc_of_shr_record r) as [|[]]; simpl; auto. destruct (Z.even _); auto. }
  clearbody e1. clear E Hm1 Hr Hex.
  destruct (Z.eq_dec m2 (2 ^ 53)) as [->|Hn].
  - replace (Zdigits2 (2 ^ 53)) with 54 by done. rewrite fexp_max.
    replace (Z.max (54 + e1 - 53) (-1074) - e1) with 1 by lia. simpl.
    change (num_emax - num_prec) with 971. destruct (e1 + 1 <=? 971) eqn:E; [|done]. unfold valid_number. simpl. unfold bounded.
    change (num_emax - num_prec) with 971. rewrite E, andb_true_r.
    unfold canonical_mantissa. rewrite fexp_max. apply Z.eqb_eq. simpl. lia.
  - assert (0 ≤ Zdigits2 m2 ≤ 53) as Hd by (apply Zdigits2_le; lia).
    assert (fexp num_prec num_emax (Zdigits2 m2 + e1) = e1) as Hf.
    { rewrite fexp_max. destruct He1 as [->|[? ?]]; [lia|].
      rewrite (Zdigits2_unique m2 53); lia. }
    rewrite Hf, Z.sub_diag. simpl. destruct m2 as [|m2|m2]; try done.
    change (num_emax - num_prec) with 971. destruct (e1 <=? 971) eqn:E; [|done]. unfold valid_number. simpl. unfold bounded.
    change (num_emax - num_prec) with 971. rewrite E, andb_true_r.
    apply Z.eqb_eq. exact Hf.
Qed.

Lemma Zdigits2_log2 m : 0 < m → Zdigits2 m = Z.log2 m + 1.
Proof. intros Hm. destruct m as [|p|p]; try lia. apply digits2_log2. Qed.

Lemma bounded_facts m e : bounded num_prec num_emax m e = true →
  fexp num_prec num_emax (Z.log2 (Zpos m) + 1 + e) = e ∧ -1074 ≤ e ≤ 971 ∧ Z.log2 (Zpos m) ≤ 52.
Proof.
  intros [Hc He]%andb_prop. apply Z.eqb_eq in Hc. rewrite digits2_log2 in Hc.
  change (num_emax - num_prec) with 971 in He. apply Z.leb_le in He.
  split; [done|]. rewrite fexp_max in Hc. lia.
Qed.

(** [s * 10 ^ E = m * 2 ^ e], cross-multiplied. *)
Definition same_value (s E : Z) (m : positive) (e : Z) : Prop :=
  s * 10 ^ Z.max E 0 * 2 ^ Z.max (- e) 0 = Zpos m * 2 ^ Z.max e 0 * 10 ^ Z.max (- E) 0.

Lemma pow10_log2 k : 0 ≤ k → 3 * k ≤ Z.log2 (10 ^ k).
Proof.
  intros Hk. apply Z.log2_le_pow2; [apply Z.pow_pos_nonneg; lia|].
  rewrite Z.pow_mul_r by lia. apply Z.pow_le_mono_l. lia.
Qed.

Lemma log2_mul_pow2' a k : 0 < a → 0 ≤ k → Z.log2 (a * 2 ^ k) = Z.log2 a + k.
Proof. intros. rewrite Z.log2_mul_pow2 by lia. lia. Qed.

Lemma of_integer_exact v m e : bounded num_prec num_emax m e = true → 0 < v →
  v * 2 ^ Z.max (- e) 0 = Zpos m * 2 ^ Z.max e 0 → num_of_Z v = S754_finite false m e.
Proof.
  intros Hb Hv Heq. destruct (bounded_facts _ _ Hb) as (Hf & He & _).
  assert (Z.log2 v = Z.log2 (Zpos m) + e) as Hl.
  { apply (f_equal Z.log2) in Heq. rewrite !log2_mul_pow2' in Heq by lia. lia. }
  destruct v as [|v|v]; try lia. unfold num_of_Z, binary_normalize, binary_round.
  rewrite digits2_log2, Hl.
  replace (Z.log2 (Zpos m) + e + 1 + 0) with (Z.log2 (Zpos m) + 1 + e) by lia. rewrite Hf.
  unfold shl_align. rewrite Z.sub_0_r. destruct e as [|p|p]; simpl Z.max in Heq.
  - rewrite Z.pow_0_r, !Z.mul_1_r in Heq. injection Heq as ->.
    pose proof (round_aux_exact m 0 0 Hb ltac:(lia)) as H. by rewrite Z.pow_0_r, Z.mul_1_r in H.
  - rewrite Z.pow_0_r, Z.mul_1_r in Heq. rewrite Heq.
    pose proof (round_aux_exact m (Zpos p) (Zpos p) Hb ltac:(lia)) as H. by rewrite Z.sub_diag in H.
  - rewrite Z.pow_0_r, Z.mul_1_r in Heq.
    replace (Pos.iter xO v p) with m.
    + pose proof (round_aux_exact m (Zneg p) 0 Hb ltac:(lia)) as H. by rewrite Z.pow_0_r, Z.mul_1_r, Z.sub_0_r in H.
    + apply (inj Zpos). change (Pos.iter xO v p) with (shift_pos p v).
      rewrite shift_pos_correct, Z.mul_comm. symmetry. exact Heq.
Qed.

Lemma of_quotient_exact s D m e : bounded num_prec num_emax m e = true → 0 < s → 0 < D →
  s * 2 ^ Z.max (- e) 0 = Zpos m * 2 ^ Z.max e 0 * D →
  (let '(q, e', l) := SFdiv_core_binary num_prec num_emax s 0 D 0 in
   binary_round_aux num_prec num_emax false q e' l) = S754_finite false m e.
Proof.
  intros Hb Hs HD Heq. destruct (bounded_facts _ _ Hb) as (Hf & He & _).
  unfold SFdiv_core_binary. rewrite !Zdigits2_log2, !Z.add_0_r by lia.
  set (e' := Z.min _ _).
  assert (e' ≤ e ∧ e' ≤ 0) as [Hle Hle0].
  { split; [|lia]. pose proof (f_equal Z.log2 Heq) as Hl.
    replace (Zpos m * 2 ^ Z.max e 0 * D) with (Zpos m * D * 2 ^ Z.max e 0) in Hl by lia.
    rewrite !log2_mul_pow2' in Hl by lia.
    pose proof (Z.log2_mul_above (Zpos m) D ltac:(lia) ltac:(lia)) as Hm.
    subst e'. rewrite fexp_max in *. lia. }
  clearbody e'. replace (0 - 0 - e') with (- e') by lia.
  replace (match - e' with Z0 => s | Zpos _ => Z.shiftl s (- e') | Zneg _ => 0 end) with (s * 2 ^ (- e'))
    by (destruct (- e') eqn:Ee; [lia|by rewrite Z.shiftl_mul_pow2 by lia|lia]).
  assert (s * 2 ^ (- e') = Zpos m * 2 ^ (e - e') * D) as ->.
  { destruct (Z.max_spec (- e) 0) as [[? Hx]|[? Hx]]; rewrite Hx in Heq.
    - rewrite Z.max_l in Heq by lia. rewrite Z.pow_0_r, Z.mul_1_r in Heq. rewrite Heq.
      replace (e - e') with (e + - e') by lia. rewrite Z.pow_add_r by lia. lia.
    - rewrite Z.max_r in Heq by lia. replace (- e') with (- e + (e - e')) by lia.
      rewrite Z.pow_add_r by lia. rewrite Z.mul_assoc, Heq, Z.pow_0_r, Z.mul_1_r. lia. }
  pose proof (Z.div_mod (Zpos m * 2 ^ (e - e') * D) D ltac:(lia)) as _.
  pose proof (Z_div_mult (Zpos m * 2 ^ (e - e')) D ltac:(lia)) as Hq.
  pose proof (Z_mod_mult (Zpos m * 2 ^ (e - e')) D) as Hr.
  unfold Z.div, Z.modulo in Hq, Hr.
  destruct (Z.div_eucl (Zpos m * 2 ^ (e - e') * D) D) as [q r]. subst q r.
  replace (new_location D 0) with loc_Exact
    by (unfold new_location, new_location_even, new_location_odd; by destruct (Z.even D)).
  pose proof (round_aux_exact m e (e - e') Hb ltac:(lia)) as H. by replace (e - (e - e')) with e' in H by lia.
Qed.

(** A numeral of exactly the value of a binary64 number reads as it. *)
Lemma of_decimal_exact s E m e : bounded num_prec num_emax m e = true → 0 < s → same_value s E m e →
  of_decimal s E = S754_finite false m e.
Proof.
  intros Hb Hs Heq. destruct (bounded_facts _ _ Hb) as (Hf & He & Hm). unfold of_decimal.
  pose proof (Z.log2_nonneg s). pose proof (Z.log2_nonneg (Zpos m)).
  pose proof (f_equal Z.log2 Heq) as Hl. rewrite log2_mul_pow2' in Hl by (try apply Z.mul_pos_pos; lia).
  destruct s as [|p|p] eqn:Es; try lia. rewrite <- Es in *. clear Es p. unfold same_value in Heq.
  destruct (Z.le_gt_cases 0 E) as [HE|HE].
  - rewrite (Z.max_l E) in * by lia. rewrite (Z.max_r (- E)) in * by lia. rewrite !Z.pow_0_r, !Z.mul_1_r in *.
    rewrite log2_mul_pow2' in Hl by lia.
    assert (3 * E ≤ Z.log2 (s * 10 ^ E)) as H3.
    { etrans; [apply pow10_log2; lia|]. apply Z.log2_le_mono. assert (0 < 10 ^ E) by (apply Z.pow_pos_nonneg; lia). nia. }
    rewrite (proj2 (Z.leb_gt 400 E)) by lia. rewrite (proj2 (Z.ltb_ge _ _)) by lia.
    rewrite (proj2 (Z.leb_le 0 E)) by lia. by apply of_integer_exact; [|apply Z.mul_pos_pos; [|apply Z.pow_pos_nonneg]; lia|].
  - rewrite (Z.max_r E) in * by lia. rewrite (Z.max_l (- E)) in * by lia. rewrite !Z.pow_0_r, !Z.mul_1_r in *.
    assert (0 < 10 ^ (- E)) as HD by (apply Z.pow_pos_nonneg; lia).
    replace (Zpos m * 2 ^ Z.max e 0 * 10 ^ (- E)) with (Zpos m * 10 ^ (- E) * 2 ^ Z.max e 0) in Hl by lia.
    rewrite log2_mul_pow2' in Hl by lia.
    assert (3 * - E ≤ Z.log2 (Zpos m * 10 ^ (- E))) as H3.
    { etrans; [apply pow10_log2; lia|]. apply Z.log2_le_mono. nia. }
    rewrite (proj2 (Z.leb_gt 400 E)) by lia. rewrite (proj2 (Z.ltb_ge _ _)) by lia.
    rewrite (proj2 (Z.leb_gt 0 E)) by lia. by apply of_quotient_exact.
Qed.

Lemma of_integer_valid v : valid_number (num_of_Z v) = true.
Proof.
  assert (∀ s p, valid_number (binary_round num_prec num_emax s p 0) = true) as H.
  { intros s p. unfold binary_round, shl_align. rewrite Z.sub_0_r.
    destruct (fexp num_prec num_emax (Zpos (digits2_pos p) + 0)) as [|q|q] eqn:E.
    - apply round_aux_valid; simpl Zdigits2; lia.
    - apply round_aux_valid; simpl Zdigits2; lia.
    - apply round_aux_valid; [lia|]. change (Pos.iter xO p q) with (shift_pos q p).
      rewrite shift_pos_correct. change (Z.pow_pos 2 q) with (2 ^ Zpos q). rewrite Z.mul_comm, Zdigits2_mul by lia.
      simpl Zdigits2. rewrite <- E at 1. rewrite !fexp_max in *. lia. }
  destruct v; simpl; [done|apply H|apply H].
Qed.

Lemma of_quotient_valid s D : 0 < s → 0 < D →
  valid_number (let '(q, e', l) := SFdiv_core_binary num_prec num_emax s 0 D 0 in
   binary_round_aux num_prec num_emax false q e' l) = true.
Proof.
  intros Hs HD. unfold SFdiv_core_binary. rewrite !Zdigits2_log2, !Z.add_0_r by lia.
  set (e' := Z.min _ _). assert (e' ≤ 0) by lia. replace (0 - 0 - e') with (- e') by lia.
  replace (match - e' with Z0 => s | Zpos _ => Z.shiftl s (- e') | Zneg _ => 0 end) with (s * 2 ^ (- e'))
    by (destruct (- e') eqn:Ee; [lia|by rewrite Z.shiftl_mul_pow2 by lia|lia]).
  destruct (Z.div_eucl (s * 2 ^ (- e')) D) as [q r] eqn:E.
  assert (q = s * 2 ^ (- e') / D) as -> by (unfold Z.div; by rewrite E).
  assert (0 < 2 ^ (- e')) as Hp by (apply Z.pow_pos_nonneg; lia).
  apply round_aux_valid; [apply Z.div_pos; nia|].
  destruct (Z.le_gt_cases e' (-1074)) as [|Hbig]; [rewrite fexp_max; lia|].
  assert (Z.log2 s - Z.log2 D - 1 - e' ≤ Z.log2 (s * 2 ^ (- e') / D)) as Hlog.
  { assert (0 ≤ Z.log2 s - Z.log2 D - 1 - e') as Hpos by (subst e'; rewrite fexp_max in *; lia).
    assert (2 ^ (Z.log2 s - Z.log2 D - 1 - e') ≤ s * 2 ^ (- e') / D) as Hq.
    { apply Z.div_le_lower_bound; [lia|].
      pose proof (Z.log2_spec s Hs) as [Hs1 _]. pose proof (Z.log2_spec D HD) as [_ HD1].
      etrans; [apply (Z.mul_le_mono_nonneg_r _ (2 ^ Z.succ (Z.log2 D))); [apply Z.pow_nonneg; lia|lia]|].
      etrans; [|apply (Z.mul_le_mono_nonneg_r (2 ^ Z.log2 s)); [lia|exact Hs1]].
      pose proof (Z.log2_nonneg D). pose proof (Z.log2_nonneg s).
      rewrite <- !Z.pow_add_r by lia. apply Z.pow_le_mono_r; lia. }
    assert (0 < 2 ^ (Z.log2 s - Z.log2 D - 1 - e')) by (apply Z.pow_pos_nonneg; lia).
    apply Z.log2_le_pow2; lia. }
  assert (0 < s * 2 ^ (- e') / D) as Hq0.
  { apply Z.log2_lt_cancel. change (Z.log2 0) with 0. eapply Z.lt_le_trans; [|exact Hlog].
    subst e'. rewrite fexp_max in *. lia. }
  rewrite Zdigits2_log2, fexp_max by done.
  assert (e' = Z.min (Z.max (Z.log2 s + 1 - (Z.log2 D + 1) - 53) (-1074)) 0) as He' by done. clearbody e'. lia.
Qed.

Lemma of_decimal_valid m e : valid_number (of_decimal m e) = true.
Proof.
  unfold of_decimal. destruct m as [|p|p]; try done.
  destruct (400 <=? e); [done|]. destruct (_ <? _); [done|]. destruct (0 <=? e) eqn:E.
  - apply of_integer_valid.
  - apply Z.leb_gt in E. apply of_quotient_valid; [lia|apply Z.pow_pos_nonneg; lia].
Qed.

(** ** The digits of a number *)
Lemma same_value_shift s E m e d : 0 ≤ d → same_value (s * 10 ^ d) E m e → same_value s (E + d) m e.
Proof.
  unfold same_value. intros Hd H. destruct (Z.le_gt_cases 0 E) as [HE|HE].
  - rewrite (Z.max_l (E + d)), (Z.max_r (- (E + d))) by lia.
    rewrite (Z.max_l E), (Z.max_r (- E)) in H by lia. rewrite Z.pow_add_r by lia. lia.
  - rewrite (Z.max_r E), (Z.max_l (- E)), Z.pow_0_r, Z.mul_1_r in H by lia.
    destruct (Z.le_gt_cases 0 (E + d)) as [HE'|HE'].
    + rewrite (Z.max_l (E + d)), (Z.max_r (- (E + d))), Z.pow_0_r by lia.
      replace d with (E + d + - E) in H by lia. rewrite Z.pow_add_r in H by lia.
      assert (10 ^ (- E) ≠ 0) by (apply Z.pow_nonzero; lia).
      apply (Z.mul_cancel_r _ _ (10 ^ (- E))); [done|]. lia.
    + rewrite (Z.max_r (E + d)), (Z.max_l (- (E + d))), Z.pow_0_r by lia.
      replace (- E) with (- (E + d) + d) in H by lia. rewrite Z.pow_add_r in H by lia.
      assert (10 ^ d ≠ 0) by (apply Z.pow_nonzero; lia).
      apply (Z.mul_cancel_r _ _ (10 ^ d)); [done|]. lia.
Qed.

Lemma strip_zeros_value fuel : ∀ s E s' E', 0 < s → strip_zeros fuel s E = (s', E') →
  0 < s' ∧ E ≤ E' ∧ s = s' * 10 ^ (E' - E).
Proof.
  induction fuel as [|fuel IH]; simpl; intros s E s' E' Hs H.
  1: injection H as <- <-; rewrite Z.sub_diag; lia.
  destruct (s mod 10 =? 0) eqn:Em; [|injection H as <- <-; rewrite Z.sub_diag; lia].
  apply Z.eqb_eq in Em. pose proof (Z.div_mod s 10 ltac:(lia)) as Hdm.
  apply IH in H as (Hs' & HE & Heq); [|lia]. repeat split; [done|lia|].
  replace (E' - E) with (1 + (E' - (E + 1))) by lia. rewrite Z.pow_add_r by lia. lia.
Qed.

Lemma decimal_point_large m e : bounded num_prec num_emax m e = true → 1 ≤ decimal_point m e + Z.max (- e) 0.
Proof.
  intros Hb. destruct (bounded_facts _ _ Hb) as (Hf & He & Hm). rewrite fexp_max in Hf.
  pose proof (Z.log2_nonneg (Zpos m)). unfold decimal_point, fraction.
  set (n0 := (Z.log2 (Zpos m) + e) * 30103 / 100000).
  assert (100000 * n0 ≤ (Z.log2 (Zpos m) + e) * 30103 < 100000 * n0 + 100000) as Hn0.
  { subst n0. pose proof (Z.div_mod ((Z.log2 (Zpos m) + e) * 30103) 100000 ltac:(lia)).
    pose proof (Z.mod_pos_bound ((Z.log2 (Zpos m) + e) * 30103) 100000 ltac:(lia)). lia. }
  destruct (0 <=? e) eqn:E0; [|apply Z.leb_gt in E0; destruct (below_pow10 _ _ _); [|destruct (below_pow10 _ _ _)]; lia].
  apply Z.leb_le in E0. destruct (Z.eq_dec n0 0) as [->|]; [|destruct (below_pow10 _ _ _); [|destruct (below_pow10 _ _ _)]; lia].
  unfold below_pow10 at 1. cbn [Z.leb Z.compare]. rewrite Z.pow_0_r, Z.shiftl_mul_pow2 by lia.
  assert (0 < 2 ^ e) by (apply Z.pow_pos_nonneg; lia). rewrite (proj2 (Z.ltb_ge _ _)) by nia.
  destruct (below_pow10 _ _ _); lia.
Qed.

(** With all its digits a number is its own numeral. *)
Lemma candidates_exact m e n k : n - k = Z.min e 0 →
  ∃ q, decimal_candidates m e n k = [q] ∧ 0 < q ∧ same_value q (n - k) m e.
Proof.
  intros Hk. unfold decimal_candidates, fraction. rewrite Hk. replace (k - n) with (- Z.min e 0) by lia.
  rewrite (proj2 (Z.leb_le 0 (- Z.min e 0))) by lia.
  destruct (0 <=? e) eqn:E0.
  - apply Z.leb_le in E0. rewrite Z.min_r, Z.shiftl_mul_pow2 by lia. change (- 0) with 0.
    rewrite Z.pow_0_r, Z.mul_1_r, Z.mod_1_r, Z.div_1_r. simpl. eexists; split; [done|].
    split; [apply Z.mul_pos_pos; [|apply Z.pow_pos_nonneg]; lia|].
    unfold same_value. rewrite (Z.max_l e), (Z.max_r (- e)) by lia. cbn [Z.max Z.compare Z.opp]. by rewrite !Z.pow_0_r, !Z.mul_1_r.
  - apply Z.leb_gt in E0. rewrite Z.min_l by lia.
    assert (10 ^ (- e) = 5 ^ (- e) * 2 ^ (- e)) as H10 by (by rewrite <- Z.pow_mul_l).
    assert (0 < 2 ^ (- e)) by (apply Z.pow_pos_nonneg; lia). rewrite H10, Z.mul_assoc.
    rewrite Z_mod_mult, Z_div_mult by lia. simpl. eexists; split; [done|].
    split; [apply Z.mul_pos_pos; [|apply Z.pow_pos_nonneg]; lia|].
    unfold same_value. rewrite !(Z.max_r e), !(Z.max_l (- e)), H10 by lia. rewrite !Z.pow_0_r, !Z.mul_1_r. lia.
Qed.

Lemma num_same_eq x y : num_same x y = true → x = y.
Proof.
  destruct x, y; simpl; try done.
  - by intros ->%Bool.eqb_prop.
  - by intros ->%Bool.eqb_prop.
  - intros [[->%Bool.eqb_prop ->%Pos.eqb_eq]%andb_prop ->%Z.eqb_eq]%andb_prop. done.
Qed.

Lemma num_same_refl x : num_same x x = true.
Proof. destruct x; simpl; rewrite ?Bool.eqb_reflx, ?Pos.eqb_refl, ?Z.eqb_refl; done. Qed.

Lemma shortest_from_reads m e n : bounded num_prec num_emax m e = true →
  ∀ fuel k, k ≤ n + Z.max (- e) 0 ≤ k + Z.of_nat fuel →
  reads_as m e (shortest_from fuel m e n k) = true.
Proof.
  intros Hb. induction fuel as [|fuel IH]; intros k Hk; simpl;
    destruct (find (reads_as m e) (numerals m e n k)) as [p|] eqn:E;
    try (by apply find_some in E as [_ ?]).
  2: destruct (Z.eq_dec k (n + Z.max (- e) 0)) as [Heq|Hne]; [|apply IH; lia].
  all: exfalso; destruct (candidates_exact m e n k) as (q & Hc & Hq & Hv); [lia|];
    unfold numerals in E; rewrite Hc in E; simpl in E;
    destruct (strip_zeros (Z.to_nat (Z.log2 q)) q (n - k)) as [s' E'] eqn:Es;
    apply strip_zeros_value in Es as (Hs' & HE & ->); [|done];
    apply same_value_shift in Hv; [|lia]; replace (n - k + (E' - (n - k))) with E' in Hv by lia;
    apply (of_decimal_exact _ _ _ _ Hb Hs') in Hv;
    unfold reads_as in E; cbn [fst snd] in E; by rewrite Hv, num_same_refl in E.
Qed.

Lemma shortest_reads m e s E : bounded num_prec num_emax m e = true → shortest_decimal m e = (s, E) →
  of_decimal s E = S754_finite false m e ∧ 0 < s.
Proof.
  intros Hb H. pose proof (decimal_point_large m e Hb) as Hn.
  pose proof (shortest_from_reads m e (decimal_point m e) Hb
    (Z.to_nat (decimal_point m e + Z.max (- e) 0)) 1 ltac:(lia)) as Hr.
  unfold shortest_decimal in H. rewrite H in Hr. apply num_same_eq in Hr. simpl in Hr.
  split; [done|]. destruct s; [done|lia|done].
Qed.

(** ** Reading numerals *)
Definition all_digits (s : jsstring) : bool := forallb is_digit s.

Lemma digits_value_acc s : ∀ a, fold_left (λ acc c, acc * 10 + digit_value c) s a
  = a * 10 ^ Z.of_nat (length s) + digits_value s.
Proof.
  unfold digits_value. induction s as [|c s IH]; intros a; simpl fold_left; [simpl; lia|].
  rewrite IH, (IH (0 * 10 + digit_value c)). simpl length. rewrite Nat2Z.inj_succ, Z.pow_succ_r by lia. lia.
Qed.

Lemma digits_value_app s t :
  digits_value (s ++ t) = digits_value s * 10 ^ Z.of_nat (length t) + digits_value t.
Proof. unfold digits_value at 1. rewrite fold_left_app. apply digits_value_acc. Qed.

Lemma digits_value_zeros n : digits_value (zeros n) = 0.
Proof. unfold zeros. induction (Z.to_nat n) as [|k IH]; [done|]. exact IH. Qed.

Lemma zeros_digits n : all_digits (zeros n) = true.
Proof. unfold zeros. induction (Z.to_nat n) as [|k IH]; [done|]. exact IH. Qed.

Lemma decimal_digits_spec fuel : ∀ z acc, 0 ≤ z < 10 ^ Z.of_nat fuel → all_digits acc = true →
  digits_value (decimal_digits fuel z acc) = z * 10 ^ Z.of_nat (length acc) + digits_value acc
  ∧ all_digits (decimal_digits fuel z acc) = true.
Proof.
  induction fuel as [|fuel IH]; intros z acc Hz Ha; [simpl in *; split; [lia|done]|].
  assert (all_digits ((48 + z mod 10) :: acc) = true) as Ha'.
  { apply andb_true_intro. split; [|done]. pose proof (Z.mod_pos_bound z 10 ltac:(lia)).
    apply andb_true_intro; split; apply Z.leb_le; lia. }
  assert (digits_value ((48 + z mod 10) :: acc) = (z mod 10) * 10 ^ Z.of_nat (length acc) + digits_value acc) as Hv.
  { change ((48 + z mod 10) :: acc) with ([48 + z mod 10] ++ acc). rewrite digits_value_app.
    unfold digits_value at 1, digit_value. simpl fold_left. f_equal. f_equal. lia. }
  cbn [decimal_digits]. destruct (z <? 10) eqn:E.
  - apply Z.ltb_lt in E. rewrite Z.mod_small in * by lia. done.
  - rewrite Nat2Z.inj_succ, Z.pow_succ_r in Hz by lia.
    destruct (IH (z / 10) ((48 + z mod 10) :: acc)) as [H1 H2]; [|done|].
    { split; [apply Z.div_pos; lia|apply Z.div_lt_upper_bound; lia]. }
    split; [|done]. rewrite H1, Hv. simpl length. rewrite Nat2Z.inj_succ, Z.pow_succ_r by lia.
    pose proof (Z.div_mod z 10 ltac:(lia)). nia.
Qed.

Lemma decimal_digits_nonempty fuel z acc : decimal_digits (S fuel) z acc ≠ [].
Proof.
  revert z acc. induction fuel as [|fuel IH]; intros z acc; [simpl; by destruct (z <? 10)|].
  change (decimal_digits (S (S fuel)) z acc) with
    (if z <? 10 then (48 + z mod 10) :: acc else decimal_digits (S fuel) (z / 10) ((48 + z mod 10) :: acc)).
  destruct (z <? 10); [done|apply IH].
Qed.

Lemma string_of_nonneg_spec z : 0 ≤ z →
  digits_value (string_of_nonneg z) = z ∧ all_digits (string_of_nonneg z) = true ∧ string_of_nonneg z ≠ [].
Proof.
  intros Hz. unfold string_of_nonneg.
  destruct (decimal_digits_spec (S (Z.to_nat (Z.log2 z))) z []) as [H1 H2]; [|done|].
  { split; [done|]. destruct (Z.eq_dec z 0) as [->|]; [done|].
    pose proof (Z.log2_spec z ltac:(lia)) as [_ Hl]. pose proof (Z.log2_nonneg z).
    rewrite Nat2Z.inj_succ, Z2Nat.id by done. eapply Z.lt_le_trans; [exact Hl|].
    apply Z.pow_le_mono_l. lia. }
  split; [rewrite H1; simpl; unfold digits_value; simpl; lia|]. split; [done|apply decimal_digits_nonempty].
Qed.

Inductive mantissa : jsstring → Z → Z → Prop :=
| mantissa_integer a : all_digits a = true → a ≠ [] → mantissa a (digits_value a) 0
| mantissa_fraction a b : all_digits a = true → a ≠ [] → all_digits b = true →
    mantissa (a ++ 46 :: b) (digits_value (a ++ b)) (- Z.of_nat (length b)).

Definition stops (s : jsstring) : Prop := ∀ c t, s = c :: t → is_digit c = false ∧ c ≠ 46.

Lemma span_digits a s : all_digits a = true → (∀ c t, s = c :: t → is_digit c = false) →
  span_len is_digit (a ++ s) = length a.
Proof. apply span_len_app. Qed.

Lemma scan_mantissa_digits a s : all_digits a = true → a ≠ [] →
  (∀ c t, s = c :: t → is_digit c = false) →
  scan_mantissa (a ++ s) = match s with
    | 46 :: r => let nf := span_len is_digit r in
        Some ((length a + 1 + nf)%nat, digits_value (a ++ take nf r), - Z.of_nat nf)
    | _ => Some (length a, digits_value a, 0)
    end.
Proof.
  intros Ha Hne Hs. unfold scan_mantissa. rewrite span_digits by done.
  rewrite take_app_length, drop_app_length. by destruct a.
Qed.

Lemma scan_mantissa_app M m e s : mantissa M m e → stops s → scan_mantissa (M ++ s) = Some (length M, m, e).
Proof.
  intros HM Hs. destruct HM as [a Ha Hne|a b Ha Hne Hb].
  - rewrite scan_mantissa_digits by (done || apply Hs).
    destruct s as [|c s]; [done|]. destruct (Hs c s eq_refl) as [_ Hc].
    destruct c as [|p|p]; [done| |done]. do 6 (destruct p as [p|p|]; try done).
  - rewrite <- app_assoc. simpl. rewrite scan_mantissa_digits; [|done|done|by intros ? ? [= <- _]].
    cbv zeta. rewrite span_digits by (done || apply Hs). rewrite take_app_length.
    f_equal. f_equal. f_equal. rewrite length_app. simpl. lia.
Qed.

Lemma exponent_stops x : stops (exponent_suffix x).
Proof. intros c t [= <- _]. done. Qed.

Lemma scan_exponent_suffix x : scan_exponent (exponent_suffix x) = (length (exponent_suffix x), x).
Proof.
  destruct (string_of_nonneg_spec (Z.abs x) ltac:(lia)) as (Hv & Hd & Hne).
  unfold exponent_suffix, scan_exponent. cbn [js app].
  change (js "e") with [101]. cbn [app Z.eqb Pos.eqb orb].
  assert (∀ ds, ds = string_of_nonneg (Z.abs x) → span_len is_digit ds = length ds) as Hsp.
  { intros ds ->. pose proof (span_digits _ [] Hd ltac:(done)) as H. by rewrite app_nil_r in H. }
  set (ds := string_of_nonneg (Z.abs x)) in *. specialize (Hsp ds eq_refl).
  assert (∃ n, length ds = S n) as [n Hn] by (destruct ds; [done|by eexists]).
  destruct (x <? 0) eqn:E; [apply Z.ltb_lt in E|apply Z.ltb_ge in E];
    [change (js "-") with [45]|change (js "+") with [43]]; cbn [app scan_sign Z.eqb Pos.eqb drop];
    rewrite drop_0, Hsp; rewrite Hn at 1; rewrite <- Hn, firstn_all, Hv; simpl; f_equal; lia.
Qed.

Lemma mantissa_head M m e : mantissa M m e → ∃ c t, M = c :: t ∧ is_digit c = true.
Proof.
  intros [[|c a] Ha Hne|[|c a] b Ha Hne Hb]; try done; apply andb_prop in Ha as [Hc _]; by exists c; eexists.
Qed.

Lemma unsigned_number_scan s m e c t : s = c :: t → is_digit c = true →
  scan_decimal s = Some (length s, m, e) → unsigned_number s = of_decimal m e.
Proof.
  intros -> Hc Hs. unfold unsigned_number. rewrite Hs, Nat.eqb_refl.
  destruct (str_eqb (c :: t) (js "Infinity")) eqn:E; [|done].
  apply str_eqb_eq in E. injection E as -> _. done.
Qed.

(** The numerals [String] writes. *)
Inductive numeral : jsstring → Z → Z → Prop :=
| numeral_plain M m e : mantissa M m e → numeral M m e
| numeral_exponent M m e x : mantissa M m e → numeral (M ++ exponent_suffix x) m (e + x).

Lemma numeral_scan s m e : numeral s m e → scan_decimal s = Some (length s, m, e).
Proof.
  intros [M m' e' HM|M m' e' x HM]; unfold scan_decimal.
  - pose proof (scan_mantissa_app _ _ _ [] HM ltac:(done)) as H. rewrite app_nil_r in H. rewrite H.
    rewrite drop_all. simpl. f_equal. f_equal; [|lia]. f_equal. lia.
  - rewrite (scan_mantissa_app _ _ _ _ HM (exponent_stops x)), drop_app_length, scan_exponent_suffix.
    by rewrite length_app.
Qed.

Definition numeral_char (c : jschar) : bool :=
  is_digit c || (c =? 46) || (c =? 101) || (c =? 43) || (c =? 45).

Lemma digits_numeral_chars s : all_digits s = true → forallb numeral_char s = true.
Proof.
  unfold all_digits. rewrite !forallb_forall. intros H c Hc. unfold numeral_char. by rewrite (H c Hc).
Qed.

Lemma mantissa_chars M m e : mantissa M m e → forallb numeral_char M = true.
Proof.
  intros [a Ha _|a b Ha _ Hb]; [by apply digits_numeral_chars|].
  rewrite forallb_app. simpl. by rewrite !digits_numeral_chars.
Qed.

Lemma numeral_chars s m e : numeral s m e → forallb numeral_char s = true.
Proof.
  intros [M m' e' HM|M m' e' x HM]; [by eapply mantissa_chars|].
  rewrite forallb_app, (mantissa_chars _ _ _ HM). simpl. unfold exponent_suffix.
  rewrite !forallb_app. rewrite (digits_numeral_chars (string_of_nonneg _)) by apply string_of_nonneg_spec, Z.abs_nonneg.
  by destruct (x <? 0).
Qed.

Lemma numeral_head s m e : numeral s m e → ∃ c t, s = c :: t ∧ is_digit c = true.
Proof.
  intros [M m' e' HM|M m' e' x HM]; destruct (mantissa_head _ _ _ HM) as (c & t & -> & Hc); by exists c; eexists.
Qed.

Lemma numeral_char_not_space c : numeral_char c = true → is_space c = false.
Proof. unfold numeral_char, is_digit, is_space. lia. Qed.

Lemma trim_no_space s : forallb (λ c, negb (is_space c)) s = true → trim s = s.
Proof.
  intros H. destruct (trim_split s) as (a & b & Hs & Ha & Hb). rewrite Hs, !forallb_app in H. bool_hyps.
  destruct a as [|c a]; [|simpl in *; bool_hyps; congruence].
  destruct b as [|c b]; [|simpl in *; bool_hyps; congruence].
  rewrite Hs at 2. by rewrite app_nil_r.
Qed.

Lemma numeral_trim s m e : numeral s m e → trim s = s.
Proof.
  intros H%numeral_chars. apply trim_no_space. rewrite forallb_forall in *.
  intros c Hc. by rewrite numeral_char_not_space by auto.
Qed.

Lemma numeral_number s m e : numeral s m e → Number_of_string s = of_decimal m e.
Proof.
  intros H. unfold Number_of_string. rewrite (numeral_trim _ _ _ H).
  pose proof (numeral_scan _ _ _ H) as Hscan. pose proof (numeral_chars _ _ _ H) as Hchars.
  destruct (numeral_head _ _ _ H) as (c & t & Hs & Hc).
  rewrite <- (unsigned_number_scan _ _ _ _ _ Hs Hc Hscan). subst s.
  assert (radix_prefix (c :: t) = None) as ->.
  { destruct t as [|d t]; [by destruct c as [|p|p]; [done| |done]; do 6 (destruct p as [p|p|]; try done)|].
    simpl in Hchars. bool_hyps. destruct (Z.eq_dec c 48) as [->|Hn].
    - simpl. unfold numeral_char, is_digit in *.
      assert ((d =? 120) || (d =? 88) = false) as -> by lia.
      assert ((d =? 111) || (d =? 79) = false) as -> by lia.
      by assert ((d =? 98) || (d =? 66) = false) as -> by lia.
    - destruct c as [|p|p]; [done| |done]; do 6 (destruct p as [p|p|]; try done). }
  destruct c as [|p|p]; [done| |done]; do 6 (destruct p as [p|p|]; try done).
Qed.

Lemma of_decimal_scale s E : 0 < s → 0 ≤ E < 400 → of_decimal (s * 10 ^ E) 0 = of_decimal s E.
Proof.
  intros Hs HE. assert (0 < 10 ^ E) by (apply Z.pow_pos_nonneg; lia).
  assert (∀ z k, 0 < z → 0 ≤ k < 400 → of_decimal z k = num_of_Z (z * 10 ^ k)) as H0.
  { intros z k Hz Hk. unfold of_decimal. pose proof (Z.log2_nonneg z).
    rewrite (proj2 (Z.leb_gt 400 k)), (proj2 (Z.ltb_ge _ _)), (proj2 (Z.leb_le 0 k)) by lia.
    by destruct z. }
  rewrite !H0 by nia. by rewrite Z.pow_0_r, Z.mul_1_r.
Qed.

Lemma all_digits_take n s : all_digits s = true → all_digits (take n s) = true.
Proof. rewrite <- (take_drop n s) at 1. unfold all_digits. rewrite forallb_app. by intros [? _]%andb_prop. Qed.
Lemma all_digits_drop n s : all_digits s = true → all_digits (drop n s) = true.
Proof. rewrite <- (take_drop n s) at 1. unfold all_digits. rewrite forallb_app. by intros [_ ?]%andb_prop. Qed.

Lemma point_after_first_mantissa ds : all_digits ds = true → ds ≠ [] →
  mantissa (point_after_first ds) (digits_value ds) (- (Z.of_nat (length ds) - 1)).
Proof.
  intros Hd Hne. destruct ds as [|d [|d' ds]]; [done| |].
  - exact (mantissa_integer [d] Hd ltac:(done)).
  - apply andb_prop in Hd as [Hd Hds].
    pose proof (mantissa_fraction [d] (d' :: ds)) as H. simpl in H |- *. rewrite Hd in H.
    replace (- (Z.of_nat (S (S (length ds))) - 1)) with (- Z.of_nat (S (length ds))) by lia. by apply H.
Qed.

Lemma positive_to_string_numeral m e : bounded num_prec num_emax m e = true →
  ∃ s E, numeral (positive_to_string m e) s E ∧ of_decimal s E = S754_finite false m e.
Proof.
  intros Hb. unfold positive_to_string, number_digits.
  destruct (shortest_decimal m e) as [s E] eqn:Es.
  destruct (shortest_reads _ _ _ _ Hb Es) as [Hv Hs].
  destruct (string_of_nonneg_spec s ltac:(lia)) as (Hds & Hd & Hne).
  set (ds := string_of_nonneg s) in *. set (k := Z.of_nat (length ds)).
  destruct ((k <=? E + k) && (E + k <=? 21)) eqn:E1; [|destruct ((0 <? E + k) && (E + k <=? 21)) eqn:E2;
    [|destruct ((-6 <? E + k) && (E + k <=? 0)) eqn:E3]]; bool_hyps.
  - exists (digits_value (ds ++ zeros (E + k - k))), 0. split.
    + apply numeral_plain, mantissa_integer; [|by destruct ds].
      unfold all_digits. rewrite forallb_app. apply andb_true_intro. split; [done|apply zeros_digits].
    + rewrite digits_value_app, digits_value_zeros, Hds, Z.add_0_r. unfold zeros. rewrite repeat_length.
      rewrite Z2Nat.id by lia. replace (E + k - k) with E by lia. by rewrite of_decimal_scale by lia.
  - exists (digits_value ds), E. rewrite Hds. split; [|done]. rewrite <- Hds.
    assert (0 < k) by (destruct ds; simpl in *; [done|lia]).
    assert (E + k < k) by (apply andb_false_iff in E1; lia).
    replace E with (- Z.of_nat (length (drop (Z.to_nat (E + k)) ds))) at 3 by (rewrite length_drop; lia).
    apply numeral_plain. rewrite <- (take_drop (Z.to_nat (E + k)) ds) at 3.
    apply (mantissa_fraction (take _ ds) (drop _ ds)); auto using all_digits_take, all_digits_drop.
    destruct (Z.to_nat (E + k)) eqn:Ek; [lia|]. by destruct ds.
  - exists (digits_value ds), E. rewrite Hds. split; [|done]. rewrite <- Hds. apply numeral_plain.
    pose proof (zeros_digits (- (E + k))) as Hz. pose proof (digits_value_zeros (- (E + k))) as Hz0.
    assert (length (zeros (- (E + k))) = Z.to_nat (- (E + k))) as Hzl by apply repeat_length.
    set (z := zeros (- (E + k))) in *.
    replace (digits_value ds) with (digits_value ([48] ++ z ++ ds))
      by (rewrite app_assoc, !digits_value_app, Hz0; change (digits_value [48]) with 0; lia).
    replace E with (- Z.of_nat (length (z ++ ds))) by (rewrite length_app; lia).
    apply (mantissa_fraction [48] (z ++ ds)); [done|done|]. unfold all_digits. rewrite forallb_app.
    by apply andb_true_intro.
  - exists (digits_value ds), E. rewrite Hds. split; [|done]. rewrite <- Hds.
    pose proof (numeral_exponent _ _ _ (E + k - 1) (point_after_first_mantissa ds Hd Hne)) as Hn.
    by replace (- (Z.of_nat (length ds) - 1) + (E + k - 1)) with E in Hn by lia.
Qed.

(** A literal: a finite binary64 number that is not negative. *)
Definition is_literal_number (x : number) : bool :=
  valid_number x && match x with S754_zero false | S754_finite false _ _ => true | _ => false end.

Lemma String_of_literal_numeral x : is_literal_number x = true →
  ∃ s E, numeral (String_of_number x) s E ∧ of_decimal s E = x.
Proof.
  intros [Hv Hx]%andb_prop. destruct x as [[]|[]| |[] m e]; try done.
  - exists 0, 0. split; [|done]. apply numeral_plain. by apply (mantissa_integer [48]).
  - by apply positive_to_string_numeral.
Qed.

(** [Number(String(x)) = x], and the whole text matches the parser's number
    pattern. *)
Lemma Number_of_String x : is_literal_number x = true → Number_of_string (String_of_number x) = x.
Proof.
  intros H. destruct (String_of_literal_numeral x H) as (s & E & Hn & Hv).
  by rewrite (numeral_number _ _ _ Hn).
Qed.

Lemma String_of_number_scan x : is_literal_number x = true →
  trim (String_of_number x) = String_of_number x
  ∧ ∃ m e, scan_decimal (String_of_number x) = Some (length (String_of_number x), m, e).
Proof.
  intros H. destruct (String_of_literal_numeral x H) as (s & E & Hn & Hv).
  split; [by eapply numeral_trim|]. exists s, E. by apply numeral_scan.
Qed.

(** ** Numbers read from text *)
Definition positive_sign (x : number) : bool :=
  match x with S754_zero s | S754_infinity s | S754_finite s _ _ => negb s | S754_nan => true end.

Lemma round_aux_sign m e l : positive_sign (binary_round_aux num_prec num_emax false m e l) = true.
Proof. unfold binary_round_aux. repeat case_match; done. Qed.

Lemma of_integer_sign z : 0 ≤ z → positive_sign (num_of_Z z) = true.
Proof.
  intros Hz. destruct z as [|p|p]; [done| |lia]. unfold num_of_Z, binary_normalize, binary_round.
  destruct (shl_align _ _ _). apply round_aux_sign.
Qed.

Lemma of_decimal_sign m e : positive_sign (of_decimal m e) = true.
Proof.
  unfold of_decimal. destruct m as [|p|p]; try done. destruct (400 <=? e); [done|]. destruct (_ <? _); [done|].
  destruct (0 <=? e); [apply of_integer_sign; lia|]. destruct (SFdiv_core_binary _ _ _ _ _ _) as [[q e'] l].
  apply round_aux_sign.
Qed.

Lemma radix_digit_nonneg radix c v : radix_digit radix c = Some v → 0 ≤ v.
Proof. unfold radix_digit, is_digit, is_lower, is_upper. intros H. split_in H; injection H as <-; lia. Qed.

Lemma radix_value_nonneg radix s : ∀ acc z, 0 ≤ radix → 0 ≤ acc → radix_value radix acc s = Some z → 0 ≤ z.
Proof.
  induction s as [|c s IH]; simpl; intros acc z Hr Ha H; [congruence|].
  destruct (radix_digit radix c) as [v|] eqn:E; [|done].
  apply IH in H; [done|done|]. apply radix_digit_nonneg in E. nia.
Qed.

Definition good_number (x : number) : bool := valid_number x && positive_sign x.

Lemma good_unsigned s : good_number (unsigned_number s) = true.
Proof.
  unfold unsigned_number, good_number. repeat case_match; try done.
  by rewrite of_decimal_valid, of_decimal_sign.
Qed.

Lemma good_integer z : 0 ≤ z → good_number (num_of_Z z) = true.
Proof. intros Hz. unfold good_number. by rewrite of_integer_valid, of_integer_sign. Qed.

Lemma trim_head c s : is_space c = false → ∃ t, trim (c :: s) = c :: t.
Proof.
  intros Hc. unfold trim. rewrite (trim_start_id _ c s eq_refl Hc).
  destruct (trim_end_split (c :: s)) as (b & Hb & Hs). destruct (trim_end (c :: s)) as [|d t] eqn:E.
  - simpl in Hb. subst b. simpl in Hs. by rewrite Hc in Hs.
  - injection Hb as <- _. by exists t.
Qed.

Lemma radix_prefix_radix s r t : radix_prefix s = Some (r, t) → 0 ≤ r.
Proof.
  destruct s as [|c [|d s]]; [done| |]; simpl; intros H.
  - split_in H; done.
  - destruct c as [|p|p]; [done| |done]. do 6 (destruct p as [p|p|]; try done). split_in H; injection H as <- <-; lia.
Qed.

Lemma good_Number_of_string c s : is_space c = false → c ≠ 45 → good_number (Number_of_string (c :: s)) = true.
Proof.
  intros Hc Hn. unfold Number_of_string. destruct (trim_head c s Hc) as [t ->].
  destruct (radix_prefix (c :: t)) as [[r [|d u]]|] eqn:E; [done| |].
  - destruct (radix_value r 0 (d :: u)) as [z|] eqn:Ez; [|done].
    apply good_integer. eapply radix_value_nonneg; [by eapply radix_prefix_radix| |exact Ez]. lia.
  - destruct c as [|p|p]; [apply good_unsigned| |apply good_unsigned].
    do 6 (destruct p as [p|p|]; try apply good_unsigned). done.
Qed.

(** A finite number read from a text that starts with a digit or a point is a
    literal. *)
Lemma read_literal_number c s : is_space c = false → c ≠ 45 → isFinite (Number_of_string (c :: s)) = true →
  is_literal_number (Number_of_string (c :: s)) = true.
Proof.
  intros Hc Hn Hf. pose proof (good_Number_of_string c s Hc Hn) as [Hv Hs]%andb_prop.
  apply andb_true_intro. split; [done|]. by destruct (Number_of_string (c :: s)) as [[]|[]| |[] ? ?].
Qed.

(** ** Exact sums of safe integers *)

Lemma normalize_exact V E m e : bounded num_prec num_emax m e = true → E ≤ e → V = Zpos m * 2 ^ (e - E) →
  binary_normalize num_prec num_emax V E false = S754_finite false m e.
Proof.
  intros Hb HE HV. destruct (bounded_facts _ _ Hb) as (Hf & He & _). assert (0 < 2 ^ (e - E)) by (apply Z.pow_pos_nonneg; lia).
  destruct V as [|V|V]; try lia. unfold binary_normalize, binary_round. rewrite digits2_log2.
  rewrite HV at 1. rewrite log2_mul_pow2' by lia.
  replace (Z.log2 (Zpos m) + (e - E) + 1 + E) with (Z.log2 (Zpos m) + 1 + e) by lia. rewrite Hf.
  unfold shl_align. destruct (e - E) as [|d|d] eqn:Ed; [| |lia].
  all: rewrite HV; rewrite <- Ed; replace E with (e - (e - E)) at 2 by lia; by apply round_aux_exact; [|lia].
Qed.

(** The canonical form of a positive safe integer: 53 bits. *)
Definition safe_exponent (v : Z) : Z := Z.log2 v + 1 - 53.

Lemma safe_integer_form v : 0 < v ≤ max_safe_integer → ∃ m,
  num_of_Z v = S754_finite false m (safe_exponent v) ∧ bounded num_prec num_emax m (safe_exponent v) = true
  ∧ Zpos m = v * 2 ^ (- safe_exponent v) ∧ safe_exponent v ≤ 0.
Proof.
  unfold max_safe_integer. intros Hv. set (e := safe_exponent v).
  assert (0 ≤ Z.log2 v < 53) as Hl by (split; [apply Z.log2_nonneg|apply Z.log2_lt_pow2; lia]).
  assert (e ≤ 0) as He by (unfold e, safe_exponent; lia).
  assert (0 < v * 2 ^ (- e)) as Hpos by (apply Z.mul_pos_pos; [lia|apply Z.pow_pos_nonneg; lia]).
  exists (Z.to_pos (v * 2 ^ (- e))). assert (Zpos (Z.to_pos (v * 2 ^ (- e))) = v * 2 ^ (- e)) as Hm by lia.
  assert (bounded num_prec num_emax (Z.to_pos (v * 2 ^ (- e))) e = true) as Hb.
  { unfold bounded, canonical_mantissa. rewrite digits2_log2, Hm, log2_mul_pow2' by lia. rewrite fexp_max.
    unfold e, safe_exponent, num_emax, num_prec. lia. }
  split; [|done]. apply of_integer_exact; [done|lia|]. rewrite Hm, (Z.max_l (- e)), (Z.max_r e) by lia. lia.
Qed.

(** A safe integer scaled to a smaller exponent *)
Lemma aligned_safe v m ez : Zpos m = v * 2 ^ (- safe_exponent v) → ez ≤ safe_exponent v ≤ 0 →
  Zpos (fst (shl_align m (safe_exponent v) ez)) = v * 2 ^ (- ez).
Proof.
  intros Hm Hez. unfold shl_align. destruct (ez - safe_exponent v) as [|p|p] eqn:Ed; [|lia|]; cbn [fst].
  - rewrite Hm. do 2 f_equal. lia.
  - change (Pos.iter xO m p) with (shift_pos p m). rewrite shift_pos_correct, Hm.
    change (Z.pow_pos 2 p) with (2 ^ Zpos p). replace (Zpos p) with (safe_exponent v - ez) by lia.
    replace (- ez) with ((safe_exponent v - ez) + - safe_exponent v) by lia. rewrite Z.pow_add_r by lia. lia.
Qed.

Lemma num_add_safe a b : 0 ≤ a → 0 ≤ b → a + b ≤ max_safe_integer →
  num_add (num_of_Z a) (num_of_Z b) = num_of_Z (a + b).
Proof.
  intros Ha Hb Hs. destruct (Z.eq_dec a 0) as [->|Ha0].
  { rewrite Z.add_0_l. destruct (Z.eq_dec b 0) as [->|Hb0]; [done|].
    by destruct (safe_integer_form b ltac:(lia)) as (m & -> & _). }
  destruct (Z.eq_dec b 0) as [->|Hb0].
  { rewrite Z.add_0_r. by destruct (safe_integer_form a ltac:(lia)) as (m & -> & _). }
  destruct (safe_integer_form a ltac:(lia)) as (ma & -> & _ & Hma & Hea).
  destruct (safe_integer_form b ltac:(lia)) as (mb & -> & _ & Hmb & Heb).
  destruct (safe_integer_form (a + b) ltac:(lia)) as (mc & -> & Hc & Hmc & Hec).
  assert (safe_exponent a ≤ safe_exponent (a + b)) as Hac by (unfold safe_exponent; pose proof (Z.log2_le_mono a (a + b)); lia).
  unfold num_add, SFadd. set (ez := Z.min (safe_exponent a) (safe_exponent b)). cbn [cond_Zopp].
  rewrite (aligned_safe a ma ez), (aligned_safe b mb ez) by (unfold ez; lia || done). apply normalize_exact; [done|unfold ez; lia|].
  rewrite Hmc, <- Z.mul_assoc, <- Z.pow_add_r by (unfold ez; lia). replace (- safe_exponent (a + b) + (safe_exponent (a + b) - ez))
    with (- ez) by lia. lia.
Qed.

Lemma integer_value_safe v : 0 ≤ v ≤ max_safe_integer → integer_value (num_of_Z v) = Some v.
Proof.
  intros Hv. destruct (Z.eq_dec v 0) as [->|Hv0]; [done|].
  destruct (safe_integer_form v ltac:(lia)) as (m & -> & _ & Hm & He). cbn [integer_value]. rewrite Hm.
  assert (0 < 2 ^ (- safe_exponent v)) by (apply Z.pow_pos_nonneg; lia).
  destruct (Z.leb_spec 0 (safe_exponent v)).
  - replace (safe_exponent v) with 0 by lia. rewrite Z.shiftl_mul_pow2 by lia. f_equal. simpl. lia.
  - rewrite Z.mod_mul, Z.div_mul by lia. done.
Qed.

(** ** Differences of safe integers *)
Lemma normalize_exact_left V E m e : bounded num_prec num_emax m e = true → e ≤ E → Zpos m = V * 2 ^ (E - e) →
  binary_normalize num_prec num_emax V E false = S754_finite false m e.
Proof.
  intros Hb HE HV. destruct (bounded_facts _ _ Hb) as (Hf & _ & _). assert (0 < 2 ^ (E - e)) by (apply Z.pow_pos_nonneg; lia).
  destruct V as [|V|V]; try lia. unfold binary_normalize, binary_round. rewrite digits2_log2.
  assert (Z.log2 (Zpos V) = Z.log2 (Zpos m) - (E - e)) as Hl by (rewrite HV, log2_mul_pow2'; lia).
  rewrite Hl. replace (Z.log2 (Zpos m) - (E - e) + 1 + E) with (Z.log2 (Zpos m) + 1 + e) by lia. rewrite Hf.
  pose proof (round_aux_exact m e 0 Hb ltac:(lia)) as Hr. rewrite Z.pow_0_r, Z.mul_1_r, Z.sub_0_r in Hr.
  unfold shl_align. destruct (e - E) as [|d|d] eqn:Ed; [|lia|].
  - replace E with e in * by lia. rewrite Z.sub_diag, Z.pow_0_r, Z.mul_1_r in HV. by rewrite <- HV.
  - change (Pos.iter xO V d) with (shift_pos d V). rewrite shift_pos_correct. change (Z.pow_pos 2 d) with (2 ^ Zpos d).
    replace (Zpos d) with (E - e) by lia. by rewrite Z.mul_comm, <- HV.
Qed.

Lemma binary_round_opp m e : binary_round num_prec num_emax true m e = SFopp (binary_round num_prec num_emax false m e).
Proof.
  unfold binary_round, binary_round_aux. destruct (shl_align _ _ _). destruct (shr_fexp _ _ _ _ _). destruct (shr_fexp _ _ _ _ _) as [mrs e'].
  destruct (shr_m mrs); try done. by destruct (_ <=? _).
Qed.

(** The sign of a difference of safe integers. *)
Lemma num_sub_sign a b : 0 ≤ a ≤ max_safe_integer → 0 ≤ b ≤ max_safe_integer →
  num_ltb (num_sub (num_of_Z a) (num_of_Z b)) num_zero = (a <? b) ∧ num_ltb num_zero (num_sub (num_of_Z a) (num_of_Z b)) = (b <? a).
Proof.
  intros Ha Hb. destruct (Z.eq_dec a 0) as [->|Ha0]; destruct (Z.eq_dec b 0) as [->|Hb0]; [done| | |].
  - destruct (safe_integer_form b ltac:(lia)) as (m & -> & _). destruct (Z.ltb_spec 0 b), (Z.ltb_spec b 0); (lia || done).
  - destruct (safe_integer_form a ltac:(lia)) as (m & -> & _). destruct (Z.ltb_spec 0 a), (Z.ltb_spec a 0); (lia || done).
  - destruct (safe_integer_form a ltac:(lia)) as (ma & -> & _ & Hma & Hea). destruct (safe_integer_form b ltac:(lia)) as (mb & -> & _ & Hmb & Heb).
    unfold num_sub, SFsub. set (ez := Z.min (safe_exponent a) (safe_exponent b)). cbn [cond_Zopp].
    rewrite (aligned_safe a ma ez), (aligned_safe b mb ez) by (unfold ez; lia || done). rewrite <- Z.mul_sub_distr_r.
    assert (0 < 2 ^ (- ez)) as Hp by (apply Z.pow_pos_nonneg; unfold ez; lia).
    assert (∀ d, 0 < d ≤ max_safe_integer → ∃ m e, binary_normalize num_prec num_emax (d * 2 ^ (- ez)) ez false = S754_finite false m e) as Hn.
    { intros d Hd. destruct (safe_integer_form d Hd) as (m & _ & Hbd & Hm & He). exists m, (safe_exponent d).
      destruct (Z.le_gt_cases ez (safe_exponent d)).
      - apply normalize_exact; [done|done|]. rewrite Hm, <- Z.mul_assoc, <- Z.pow_add_r by lia. do 2 f_equal. lia.
      - apply normalize_exact_left; [done|lia|]. rewrite Hm, <- Z.mul_assoc, <- Z.pow_add_r by (unfold ez; lia). do 2 f_equal. lia. }
    destruct (Z.lt_trichotomy a b) as [Hlt|[->|Hgt]].
    + destruct (Hn (b - a) ltac:(lia)) as (m & e & E). replace ((a - b) * 2 ^ (- ez)) with (- ((b - a) * 2 ^ (- ez))) by lia.
      assert (0 < (b - a) * 2 ^ (- ez)) as Hpos by (apply Z.mul_pos_pos; lia).
      destruct ((b - a) * 2 ^ (- ez)) as [|V|V]; [lia| |lia].
      change (binary_normalize num_prec num_emax (- Zpos V) ez false) with (binary_round num_prec num_emax true V ez).
      change (binary_normalize num_prec num_emax (Zpos V) ez false) with (binary_round num_prec num_emax false V ez) in E.
      rewrite binary_round_opp, E.
      destruct (Z.ltb_spec a b), (Z.ltb_spec b a); (lia || done).
    + rewrite Z.sub_diag, Z.mul_0_l, Z.ltb_irrefl. done.
    + destruct (Hn (a - b) ltac:(lia)) as (m & e & ->). destruct (Z.ltb_spec a b), (Z.ltb_spec b a); (lia || done).
Qed.
