(* ===== verification/JsCollections.v ===== *)
(** * Sets, maps, sorting and own properties

    What the sources use of [Set] and [Map] (both keep the order in which keys
    were first inserted), of [Array.prototype.sort] with a comparator (stable),
    and the order in which [Object.keys], [Object.entries] and [JSON.stringify]
    list the properties of an object: array indices first, in numeric order,
    then the other names in the order of their creation. *)
From S2P Require Import Prelude JsString.
From stdpp Require Import sets sorting.
Local Open Scope Z_scope.

(** ** Set *)
Section SetOf.
Context {A : Type} `{EqDecision A}.

(** [set.add(x)] *)
Definition js_add (l : list A) (x : A) : list A := if decide (x ∈ l) then l else l ++ [x].

(** [[...new Set(l)]] *)
Definition set_of (l : list A) : list A := fold_left js_add l [].

(** [set.has(x)], [list.includes(x)] *)
Definition has (l : list A) (x : A) : bool := bool_decide (x ∈ l).

Lemma has_true l x : has l x = true ↔ x ∈ l.
Proof. unfold has. apply bool_decide_eq_true. Qed.

Lemma has_false l x : has l x = false ↔ x ∉ l.
Proof. unfold has. apply bool_decide_eq_false. Qed.

Lemma elem_of_js_add l x y : y ∈ js_add l x ↔ y ∈ l ∨ y = x.
Proof. unfold js_add. case_decide; set_solver. Qed.

Lemma js_add_NoDup l x : NoDup l → NoDup (js_add l x).
Proof. intros. unfold js_add. case_decide; [done|]. apply NoDup_app. set_solver by eauto using NoDup_singleton. Qed.

Lemma fold_add_spec l acc : NoDup acc →
  NoDup (fold_left js_add l acc) ∧ ∀ y, y ∈ fold_left js_add l acc ↔ y ∈ acc ∨ y ∈ l.
Proof.
  revert acc; induction l as [|x l IH]; intros acc Hacc; simpl; [set_solver|].
  destruct (IH (js_add acc x)) as [Hn He]; [by apply js_add_NoDup|]. split; [done|].
  intros y. rewrite He, elem_of_js_add, elem_of_cons. tauto.
Qed.

Lemma set_of_NoDup l : NoDup (set_of l).
Proof. apply fold_add_spec, NoDup_nil_2. Qed.

Lemma elem_of_set_of l x : x ∈ set_of l ↔ x ∈ l.
Proof. unfold set_of. rewrite (proj2 (fold_add_spec l [] ltac:(constructor))). set_solver. Qed.

Lemma fold_add_fresh l acc : NoDup (acc ++ l) → fold_left js_add l acc = acc ++ l.
Proof.
  revert acc; induction l as [|x l IH]; intros acc Hn; simpl; [by rewrite app_nil_r|].
  unfold js_add at 2. rewrite decide_False by (apply NoDup_app in Hn; set_solver).
  rewrite IH; rewrite <- app_assoc; done.
Qed.

Lemma set_of_id l : NoDup l → set_of l = l.
Proof. intros. unfold set_of. by rewrite fold_add_fresh. Qed.

Lemma set_of_idemp l : set_of (set_of l) = set_of l.
Proof. apply set_of_id, set_of_NoDup. Qed.

Lemma set_of_nil l : set_of l = [] ↔ l = [].
Proof.
  split; [|by intros ->]. intros H. destruct l as [|x l]; [done|].
  assert (x ∈ set_of (x :: l)) as Hx by (rewrite elem_of_set_of; set_solver). rewrite H in Hx. set_solver.
Qed.
End SetOf.

(** ** Map *)
Section JsMap.
Context {K V : Type} `{EqDecision K}.
Implicit Types m : list (K * V).

(** [map.get(key)]; [None] is [undefined]. *)
Fixpoint map_get (key : K) m : option V :=
  match m with
  | [] => None
  | (k, v) :: m' => if decide (k = key) then Some v else map_get key m'
  end.

(** [map.set(key, v)]: a key that is there keeps its place. *)
Fixpoint map_set (key : K) (v : V) m : list (K * V) :=
  match m with
  | [] => [(key, v)]
  | (k, w) :: m' => if decide (k = key) then (k, v) :: m' else (k, w) :: map_set key v m'
  end.

Lemma map_get_set key v m k : map_get k (map_set key v m) = if decide (key = k) then Some v else map_get k m.
Proof.
  induction m as [|[k' w] m IH]; simpl; [done|].
  destruct (decide (k' = key)) as [->|]; simpl; repeat case_decide; congruence.
Qed.

Lemma map_get_set_eq key v m : map_get key (map_set key v m) = Some v.
Proof. rewrite map_get_set. by case_decide. Qed.

Lemma map_get_set_ne key v m k : key ≠ k → map_get k (map_set key v m) = map_get k m.
Proof. intros. rewrite map_get_set. by case_decide. Qed.

Lemma map_get_None key m : map_get key m = None ↔ key ∉ m.*1.
Proof.
  induction m as [|[k v] m IH]; simpl; [set_solver|].
  rewrite elem_of_cons. case_decide; subst; [split; [done|tauto]|]. rewrite IH. split; [|tauto]. naive_solver.
Qed.

Lemma map_get_In key v m : map_get key m = Some v → (key, v) ∈ m.
Proof.
  induction m as [|[k w] m IH]; simpl; [done|]. case_decide; [|set_solver].
  intros [= ->]. subst. set_solver.
Qed.

Lemma In_map_get key v m : NoDup m.*1 → (key, v) ∈ m → map_get key m = Some v.
Proof.
  induction m as [|[k w] m IH]; simpl; [set_solver|]. intros [Hk Hn]%NoDup_cons [[= -> ->]|Hin]%elem_of_cons.
  - by rewrite decide_True.
  - rewrite decide_False; [by apply IH|]. intros ->. apply Hk, list_elem_of_fmap. by exists (key, v).
Qed.

Lemma map_set_keys key v m : (map_set key v m).*1 = js_add m.*1 key.
Proof.
  induction m as [|[k w] m IH]; [done|]. unfold js_add in *. cbn [map_set].
  destruct (decide (k = key)) as [->|Hk]; rewrite ?fmap_cons; cbn [fst].
  - by rewrite decide_True by set_solver.
  - rewrite IH. repeat case_decide; set_solver.
Qed.

Lemma map_set_NoDup key v m : NoDup m.*1 → NoDup (map_set key v m).*1.
Proof. intros. rewrite map_set_keys. by apply js_add_NoDup. Qed.

Lemma map_set_fresh key v m : key ∉ m.*1 → map_set key v m = m ++ [(key, v)].
Proof. induction m as [|[k w] m IH]; simpl; [done|]. intros Hk. rewrite decide_False by set_solver. rewrite IH; set_solver. Qed.

(** Two maps with the same keys in the same order and the same answers. *)
Lemma map_get_ext m m' : NoDup m.*1 → m.*1 = m'.*1 → (∀ k, k ∈ m.*1 → map_get k m = map_get k m') → m = m'.
Proof.
  revert m'; induction m as [|[k v] m IH]; intros [|[k' v'] m'] Hn Hk Hg; try done.
  simpl in Hk. injection Hk as <- Hk. apply NoDup_cons in Hn as [Hnk Hn].
  pose proof (Hg k ltac:(set_solver)) as H1. simpl in H1. rewrite !decide_True in H1 by done. injection H1 as <-.
  f_equal. apply IH; [done|done|]. intros x Hx. specialize (Hg x ltac:(set_solver)). simpl in Hg.
  by rewrite !decide_False in Hg by (intros ->; done).
Qed.
End JsMap.

(** ** Sorting *)
Section SortBy.
Context {A : Type} (cmp : A → A → Z).

(** A comparator answers a number of which only the sign counts. *)
Fixpoint insert_by (x : A) (l : list A) : list A :=
  match l with
  | [] => [x]
  | y :: l' => if cmp x y <? 0 then x :: l else y :: insert_by x l'
  end.

(** [l.sort(cmp)], which is stable. *)
Definition sort_by (l : list A) : list A := fold_left (λ acc x, insert_by x acc) l [].

Lemma insert_by_perm x l : insert_by x l ≡ₚ x :: l.
Proof.
  induction l as [|y l IH]; simpl; [done|]. destruct (_ <? _); [done|]. rewrite IH. apply Permutation_swap.
Qed.

Lemma sort_by_perm l : sort_by l ≡ₚ l.
Proof.
  unfold sort_by. cut (∀ acc, fold_left (λ acc x, insert_by x acc) l acc ≡ₚ acc ++ l); [intros H; apply H|].
  induction l as [|x l IH]; intros acc; simpl; [by rewrite app_nil_r|].
  rewrite IH, insert_by_perm. apply Permutation_middle.
Qed.

(** Comparators that are consistent on the elements of a kind: exchanging the
    arguments exchanges the sign, and coming no later is transitive. *)
Class Comparator (P : A → Prop) : Prop := {
  cmp_flip x y : P x → P y → Z.sgn (cmp x y) = - Z.sgn (cmp y x);
  cmp_le_trans x y z : P x → P y → P z → cmp y x >= 0 → cmp z y >= 0 → cmp z x >= 0;
}.

Lemma cmp_asym `{Comparator P} x y : P x → P y → cmp x y < 0 → cmp y x >= 0.
Proof. intros Hx Hy. pose proof (cmp_flip x y Hx Hy). lia. Qed.

(** [x] may stand before [y]. *)
Definition sorted_before (x y : A) : Prop := cmp y x >= 0.

Lemma insert_by_sorted `{Comparator P} x l : P x → Forall P l →
  StronglySorted sorted_before l → StronglySorted sorted_before (insert_by x l).
Proof.
  intros Hx Hl. induction 1 as [|y l Hs IH Hy]; simpl; [repeat constructor|]. apply Forall_cons in Hl as [Py Hl].
  destruct (Z.ltb_spec (cmp x y) 0) as [Hxy|Hxy].
  - constructor; [by constructor|]. apply Forall_cons. split; [by apply cmp_asym|].
    rewrite Forall_forall in Hl, Hy |- *. intros z Hz. apply (cmp_le_trans x y z); [done|done|by apply Hl|by apply cmp_asym|by apply Hy].
  - constructor; [auto|]. rewrite insert_by_perm. apply Forall_cons. split; [unfold sorted_before; lia|done].
Qed.

Lemma sort_by_sorted `{Comparator P} l : Forall P l → StronglySorted sorted_before (sort_by l).
Proof.
  intros Hl. unfold sort_by. cut (∀ acc, Forall P acc → StronglySorted sorted_before acc →
    StronglySorted sorted_before (fold_left (λ acc x, insert_by x acc) l acc)); [intros H0; apply H0; constructor|].
  induction Hl as [|x l Hx Hl IH]; intros acc Ha Hacc; simpl; [done|]. apply IH; [|by apply insert_by_sorted].
  rewrite insert_by_perm. by constructor.
Qed.
End SortBy.

(** ** The order of own properties *)

(** The value of a name that is an array index: a canonical numeral below
    [2 ^ 32 - 1]. *)
Definition array_index (key : jsstring) : option Z :=
  match key with
  | [] => None
  | c :: rest =>
      if negb (forallb is_digit key) then None
      else if (c =? 48) && negb (str_eqb rest []) then None
      else let v := fold_left (λ a d, a * 10 + (d - 48)) key 0 in
        if v <? 2 ^ 32 - 1 then Some v else None
  end.

Section OwnEntries.
Context {A : Type}.
Implicit Types l : list (jsstring * A).

Definition is_index (e : jsstring * A) : bool := match array_index (fst e) with Some _ => true | None => false end.
Definition index_of (e : jsstring * A) : Z := default 0 (array_index (fst e)).

(** [Object.entries(o)] of an object given by its properties in the order of
    creation. *)
Definition own_entries l : list (jsstring * A) :=
  sort_by (λ a b, index_of a - index_of b) (List.filter is_index l) ++ List.filter (λ e, negb (is_index e)) l.

Lemma filter_split_perm {B} (f : B → bool) (l : list B) : l ≡ₚ List.filter f l ++ List.filter (λ x, negb (f x)) l.
Proof.
  induction l as [|x l IH]; simpl; [done|]. destruct (f x); simpl; [by f_equiv|].
  rewrite <- Permutation_middle. by f_equiv.
Qed.

Lemma own_entries_perm l : own_entries l ≡ₚ l.
Proof. unfold own_entries. rewrite sort_by_perm. symmetry. apply filter_split_perm. Qed.
End OwnEntries.

Lemma insert_by_fmap {A B} (f : A → B) (c : B → B → Z) x l :
  map f (insert_by (λ a b, c (f a) (f b)) x l) = insert_by c (f x) (map f l).
Proof. induction l as [|y l IH]; simpl; [done|]. destruct (_ <? _); simpl; by rewrite ?IH. Qed.

Lemma sort_by_fmap {A B} (f : A → B) (c : B → B → Z) l :
  map f (sort_by (λ a b, c (f a) (f b)) l) = sort_by c (map f l).
Proof.
  unfold sort_by. change (@nil B) with (map f []). generalize (@nil A).
  induction l as [|x l IH]; intros acc; simpl; [done|]. by rewrite IH, insert_by_fmap.
Qed.

Lemma sort_by_ext {A} (c d : A → A → Z) l : (∀ a b, c a b = d a b) → sort_by c l = sort_by d l.
Proof.
  intros H. assert (∀ x acc, insert_by c x acc = insert_by d x acc) as Hi.
  { intros x acc. induction acc as [|y acc IH]; simpl; [done|]. by rewrite H, IH. }
  unfold sort_by. generalize (@nil A). induction l as [|x l IH]; intros acc; simpl; [done|]. by rewrite Hi, IH.
Qed.

Lemma filter_fmap {A B} (f : A → B) (p : B → bool) l : map f (List.filter (λ x, p (f x)) l) = List.filter p (map f l).
Proof. induction l as [|x l IH]; simpl; [done|]. destruct (p (f x)); simpl; by rewrite IH. Qed.

(** The order depends on the names only. *)
Lemma own_entries_map {A B} (f : jsstring → A → B) (l : list (jsstring * A)) :
  own_entries (map (λ '(k, v), (k, f k v)) l) = map (λ '(k, v), (k, f k v)) (own_entries l).
Proof.
  set (g := λ '(k, v), (k, f k v)).
  assert (∀ e : jsstring * A, fst (g e) = fst e) as Hg by (by intros []).
  assert (∀ e, is_index (g e) = is_index e) as Hi by (intros e; unfold is_index; by rewrite Hg).
  unfold own_entries. rewrite map_app. f_equal.
  - rewrite <- filter_fmap, <- (sort_by_fmap g (λ a b, index_of a - index_of b)).
    rewrite (filter_ext _ _ Hi). f_equal. apply sort_by_ext. intros a b. unfold index_of. by rewrite !Hg.
  - rewrite <- filter_fmap. f_equal. apply filter_ext. intros e. by rewrite Hi.
Qed.

(** ** Sorted lists and own properties stay as they are *)
Lemma insert_by_last {A} (cmp : A → A → Z) x l : Forall (λ y, cmp x y >= 0) l → insert_by cmp x l = l ++ [x].
Proof. induction 1 as [|y l Hy Hl IH]; simpl; [done|]. destruct (Z.ltb_spec (cmp x y) 0); [lia|]. by rewrite IH. Qed.

Lemma sort_by_id {A} (cmp : A → A → Z) l : StronglySorted (sorted_before cmp) l → sort_by cmp l = l.
Proof.
  intros H. unfold sort_by. cut (∀ acc, StronglySorted (sorted_before cmp) (acc ++ l) →
    fold_left (λ acc x, insert_by cmp x acc) l acc = acc ++ l); [intros Hc; by apply (Hc [])|]. clear H.
  induction l as [|x l IH]; intros acc Hs; simpl; [by rewrite app_nil_r|].
  rewrite insert_by_last, IH; rewrite <- ?app_assoc; [done|done|].
  apply Forall_forall. intros y Hy. apply StronglySorted_app in Hs as (Hs & _ & _). apply (Hs y x); set_solver.
Qed.

#[export] Instance index_comparator {A} : Comparator (λ a b : jsstring * A, index_of a - index_of b) (λ _, True).
Proof. split; intros; lia. Qed.

Lemma filter_all {A} (f : A → bool) l : (∀ x, x ∈ l → f x = true) → List.filter f l = l.
Proof. induction l as [|x l IH]; simpl; [done|]. intros H. rewrite H by set_solver. rewrite IH; [done|]. set_solver. Qed.

Lemma filter_none {A} (f : A → bool) l : (∀ x, x ∈ l → f x = false) → List.filter f l = [].
Proof. induction l as [|x l IH]; simpl; [done|]. intros H. rewrite H by set_solver. apply IH. set_solver. Qed.

Lemma elem_of_filter_b {A} (f : A → bool) l x : x ∈ List.filter f l ↔ x ∈ l ∧ f x = true.
Proof. rewrite !list_elem_of_In. apply filter_In. Qed.

Lemma own_entries_idemp {A} (l : list (jsstring * A)) : own_entries (own_entries l) = own_entries l.
Proof.
  unfold own_entries at 1. set (c := λ a b : jsstring * A, index_of a - index_of b).
  assert (∀ x, x ∈ sort_by c (List.filter is_index l) → is_index x = true) as Hs.
  { intros x Hx. rewrite sort_by_perm, elem_of_filter_b in Hx. tauto. }
  assert (∀ x, x ∈ List.filter (λ e : jsstring * A, negb (is_index e)) l → is_index x = false) as Hn.
  { intros x Hx. apply elem_of_filter_b in Hx as [_ Hx]. by apply negb_true_iff. }
  unfold own_entries. rewrite !List.filter_app. fold c.
  rewrite (filter_all is_index (sort_by c _)), (filter_none is_index (List.filter _ l)) by done.
  rewrite (filter_none (λ e, negb (is_index e)) (sort_by c _)) by (intros x Hx; by rewrite Hs).
  rewrite (filter_all (λ e, negb (is_index e)) (List.filter _ l)) by (intros x Hx; by rewrite Hn).
  rewrite app_nil_r. simpl. f_equal. apply sort_by_id. eapply sort_by_sorted; [apply index_comparator|]. by apply Forall_true.
Qed.

Lemma own_entries_NoDup {A} (l : list (jsstring * A)) : NoDup l.*1 → NoDup (own_entries l).*1.
Proof. by rewrite (own_entries_perm l). Qed.

Lemma map_get_perm {K V} `{EqDecision K} (m m' : list (K * V)) k : NoDup m.*1 → m ≡ₚ m' → map_get k m = map_get k m'.
Proof.
  intros Hn Hp. destruct (map_get k m) as [v|] eqn:E; symmetry.
  - apply In_map_get; [by rewrite <- Hp|]. rewrite <- Hp. by apply map_get_In.
  - apply map_get_None. rewrite <- Hp. by apply map_get_None.
Qed.

Lemma set_of_snoc {A} `{EqDecision A} (l : list A) x : set_of (l ++ [x]) = js_add (set_of l) x.
Proof. unfold set_of. by rewrite fold_left_app. Qed.

Lemma js_add_fresh {A} `{EqDecision A} (l : list A) x : has l x = false → js_add l x = l ++ [x].
Proof. rewrite has_false. intros H. unfold js_add. by rewrite decide_False. Qed.

Lemma js_add_present {A} `{EqDecision A} (l : list A) x : has l x = true → js_add l x = l.
Proof. rewrite has_true. intros H. unfold js_add. by rewrite decide_True. Qed.
