(* ===== verification/JsRegex.v ===== *)
(** * Regular expressions

    A backtracking matcher with capture groups, in the order of ECMAScript's
    [RegExp] semantics: alternatives from left to right, greedy quantifiers,
    a repetition that consumes nothing is abandoned.  Patterns are written with
    the combinators below so that they read like the sources.  (No pattern of
    the sources captures inside a repetition, so captures need no reset.) *)
From S2P Require Import Prelude JsString.
Local Open Scope Z_scope.

Inductive regex :=
| RChar (p : jschar → bool)
| REmpty
| RSeq (a b : regex)
| RAlt (a b : regex)
| RStar (a : regex)
| RGroup (n : nat) (a : regex)
| RBack (n : nat)
| REnd.

Definition captures := list (nat * jsstring).

(** The text of group [n]; [None] is [undefined]. *)
Definition group (n : nat) (caps : captures) : option jsstring :=
  option_map snd (find (λ '(k, _), (k =? n)%nat) caps).
Definition group_or_empty (n : nat) (caps : captures) : jsstring := default [] (group n caps).

(** A position of the matcher: the rest of the input and the captures. *)
Record mstate := mkM { m_rest : jsstring; m_caps : captures }.

Section Star.
Context (step : mstate → (mstate → option mstate) → option mstate).

(** Greedy repetition: the fuel is the length of the input, since a turn
    consumes a character. *)
Fixpoint star (fuel : nat) (x : mstate) (k : mstate → option mstate) : option mstate :=
  match fuel with
  | O => k x
  | S fuel' =>
      match step x (λ y, if (length (m_rest y) <? length (m_rest x))%nat then star fuel' y k else None) with
      | Some r => Some r
      | None => k x
      end
  end.
End Star.

Fixpoint rmatch (r : regex) (x : mstate) (k : mstate → option mstate) {struct r} : option mstate :=
  match r with
  | RChar p =>
      match m_rest x with
      | c :: rest => if p c then k (mkM rest (m_caps x)) else None
      | [] => None
      end
  | REmpty => k x
  | RSeq a b => rmatch a x (λ y, rmatch b y k)
  | RAlt a b => match rmatch a x k with Some r => Some r | None => rmatch b x k end
  | RStar a => star (rmatch a) (length (m_rest x)) x k
  | RGroup n a =>
      rmatch a x (λ y, k (mkM (m_rest y)
        ((n, take (length (m_rest x) - length (m_rest y)) (m_rest x)) :: m_caps y)))
  | RBack n =>
      let t := group_or_empty n (m_caps x) in
      if starts_with (m_rest x) t then k (mkM (drop (length t) (m_rest x)) (m_caps x)) else None
  | REnd => match m_rest x with [] => k x | _ => None end
  end.

(** [text.match(/^r/)]: the rest after the match and the captures. *)
Definition match_at (r : regex) (text : jsstring) : option mstate := rmatch r (mkM text []) Some.

(** [text.match(/^r$/)] *)
Definition match_all (r : regex) (text : jsstring) : option captures :=
  option_map m_caps (match_at (RSeq r REnd) text).
Definition test_all (r : regex) (text : jsstring) : bool :=
  match match_all r text with Some _ => true | None => false end.

(** ** Pattern combinators *)
Definition r_chars (s : jsstring) : regex :=
  foldr (λ c r, RSeq (RChar (λ d, d =? c)) r) REmpty s.
Definition r_lit (s : string) : regex := r_chars (js s).
Fixpoint r_seq (l : list regex) : regex :=
  match l with [] => REmpty | r :: l' => RSeq r (r_seq l') end.
Fixpoint r_alt (l : list regex) : regex :=
  match l with [] => RChar (λ _, false) | [r] => r | r :: l' => RAlt r (r_alt l') end.
Definition r_plus (r : regex) : regex := RSeq r (RStar r).
Definition r_opt (r : regex) : regex := RAlt r REmpty.
Definition r_digit : regex := RChar is_digit.
Definition r_space : regex := RChar is_space.
(** [\s*] *)
Definition r_blank : regex := RStar r_space.
(** A class of listed characters. *)
Definition r_class (p : jschar → bool) (s : string) : regex :=
  RChar (λ c, p c || existsb (Z.eqb c) (js s)).
(** A character that is not one of the listed code units. *)
Definition r_not (l : list jschar) : regex := RChar (λ c, negb (existsb (Z.eqb c) l)).
(** [.] without the [s] flag *)
Definition r_dot : regex := r_not [10; 13; 8232; 8233].
(** [.] with the [s] flag *)
Definition r_any : regex := RChar (λ _, true).
(** [[\d.eE+-]] *)
Definition r_num_char : regex := r_class is_digit ".eE+-".

(** [text.replaceAll(/\s+/g, '')] *)
Definition remove_spaces (text : jsstring) : jsstring := List.filter (λ c, negb (is_space c)) text.

Example regex_sample :
  match_all (r_seq [r_lit "f("; RGroup 1 (r_plus (r_not [41])); r_lit ") == "; RGroup 2 (RStar r_dot)])
    (js "f(ab) == 12") = Some [(2%nat, js "12"); (1%nat, js "ab")].
Proof. reflexivity. Qed.
