(* ===== verification/RegexFacts.v ===== *)
(** * Regular expressions: what the matcher answers

    A relational semantics of the patterns; the backtracking matcher only finds
    matches and finds one whenever there is one.  [denotes] gives a pattern as a
    predicate on the consumed text and the captures, composed from its parts, so
    that a text with one reading has the captures of that reading. *)
From S2P Require Import Prelude JsString JsRegex.
Local Open Scope Z_scope.

(** The text between two positions. *)
Definition consumed (x y : mstate) : jsstring := take (length (m_rest x) - length (m_rest y)) (m_rest x).

Inductive matches : regex → mstate → mstate → Prop :=
| matches_char p c rest caps : p c = true → matches (RChar p) (mkM (c :: rest) caps) (mkM rest caps)
| matches_empty x : matches REmpty x x
| matches_seq a b x y z : matches a x y → matches b y z → matches (RSeq a b) x z
| matches_left a b x y : matches a x y → matches (RAlt a b) x y
| matches_right a b x y : matches b x y → matches (RAlt a b) x y
| matches_stop a x : matches (RStar a) x x
| matches_turn a x y z : matches a x y → (length (m_rest y) < length (m_rest x))%nat →
    matches (RStar a) y z → matches (RStar a) x z
| matches_group n a x y : matches a x y →
    matches (RGroup n a) x (mkM (m_rest y) ((n, consumed x y) :: m_caps y))
| matches_back n x : starts_with (m_rest x) (group_or_empty n (m_caps x)) = true →
    matches (RBack n) x (mkM (drop (length (group_or_empty n (m_caps x))) (m_rest x)) (m_caps x))
| matches_end caps : matches REnd (mkM [] caps) (mkM [] caps).

Lemma star_sound a :
  (∀ x k out, rmatch a x k = Some out → ∃ y, matches a x y ∧ k y = Some out) →
  ∀ fuel x k out, star (rmatch a) fuel x k = Some out → ∃ y, matches (RStar a) x y ∧ k y = Some out.
Proof.
  intros Ha. induction fuel as [|fuel IH]; intros x k out H; simpl in H.
  - exists x. split; [constructor|done].
  - destruct (rmatch a x _) as [r|] eqn:E.
    + injection H as ->. apply Ha in E as (y & Hy & E).
      destruct (length (m_rest y) <? length (m_rest x))%nat eqn:El; [|done]. apply Nat.ltb_lt in El.
      apply IH in E as (z & Hz & Hk). exists z. split; [by eapply matches_turn|done].
    + exists x. split; [constructor|done].
Qed.

(** The matcher only finds matches. *)
Lemma rmatch_sound r : ∀ x k out, rmatch r x k = Some out → ∃ y, matches r x y ∧ k y = Some out.
Proof.
  induction r as [p| |a IHa b IHb|a IHa b IHb|a IHa|n a IHa|n|]; intros x k out H; simpl in H.
  - destruct x as [[|c rest] caps]; simpl in H; [done|]. destruct (p c) eqn:E; [|done].
    eexists; split; [by constructor|done].
  - exists x. split; [constructor|done].
  - apply IHa in H as (y & Hy & H). apply IHb in H as (z & Hz & H). exists z. split; [by econstructor|done].
  - destruct (rmatch a x k) as [r|] eqn:E.
    + injection H as ->. apply IHa in E as (y & Hy & E). exists y. split; [by apply matches_left|done].
    + apply IHb in H as (y & Hy & H). exists y. split; [by apply matches_right|done].
  - by eapply star_sound.
  - apply IHa in H as (y & Hy & H). eexists; split; [by apply matches_group|done].
  - case_match; [|done]. eexists; split; [by apply matches_back|done].
  - destruct x as [[|c rest] caps]; [|done]. eexists; split; [constructor|done].
Qed.

(** The matcher finds a match when there is one. *)
Lemma rmatch_complete r x y : matches r x y → ∀ k, is_Some (k y) → is_Some (rmatch r x k).
Proof.
  assert (∀ a z, matches (RStar a) x z → True) as _ by done.
  intros H.
  assert (∀ k, is_Some (k y) → is_Some (rmatch r x k) ∧
    (∀ a, r = RStar a → ∀ fuel, (length (m_rest x) ≤ fuel)%nat → is_Some (star (rmatch a) fuel x k))) as Hg;
    [|intros k Hk; by apply Hg].
  induction H as [p c rest caps Hp|x|a b x y z Ha IHa Hb IHb|a b x y Ha IHa|a b x y Hb IHb|a x
    |a x y z Ha IHa Hlen Hs IHs|n a x y Ha IHa|n x Hb|caps]; intros k Hk.
  - simpl. rewrite Hp. done.
  - done.
  - split; [|done]. simpl. apply IHa. apply IHb. done.
  - split; [|done]. simpl. destruct (IHa k Hk) as [[r ->] _]. by eexists.
  - split; [|done]. simpl. destruct (rmatch a x k); [by eexists|]. by apply IHb.
  - assert (∀ fuel, is_Some (star (rmatch a) fuel x k)) as Hstar.
    { intros [|fuel]; simpl; [done|]. case_match; [by eexists|done]. }
    split; [apply Hstar|]. intros a' [= <-] fuel _. apply Hstar.
  - assert (∀ fuel, (length (m_rest x) ≤ fuel)%nat → is_Some (star (rmatch a) fuel x k)) as Hstar.
    { intros [|fuel] Hf; [lia|]. simpl.
      set (k' := λ y0, if (length (m_rest y0) <? length (m_rest x))%nat then star (rmatch a) fuel y0 k else None).
      assert (is_Some (k' y)) as Hk'.
      { subst k'. simpl. apply Nat.ltb_lt in Hlen as Hl. rewrite Hl. destruct (IHs k Hk) as [_ IHs'].
        apply IHs'; [done|]. lia. }
      destruct (IHa k' Hk') as [[r Hr] _]. fold k'. rewrite Hr. by eexists. }
    split; [by apply Hstar|]. intros a' [= <-]. exact Hstar.
  - split; [|done]. simpl. apply (IHa (λ y0, k (mkM (m_rest y0) _))). done.
  - split; [|done]. simpl. by rewrite Hb.
  - done.
Qed.

(** [match_all] answers exactly when the whole text matches. *)
Lemma match_all_sound r text caps : match_all r text = Some caps → matches r (mkM text []) (mkM [] caps).
Proof.
  unfold match_all, match_at. destruct (rmatch _ _ _) as [m|] eqn:E; [|done]. intros [= <-].
  apply rmatch_sound in E as (y & Hy & [= ->]). inversion Hy; subst.
  match goal with H : matches REnd _ _ |- _ => inversion H; subst end. done.
Qed.

Lemma match_all_complete r text caps : matches r (mkM text []) (mkM [] caps) → is_Some (match_all r text).
Proof.
  intros H. unfold match_all, match_at.
  destruct (rmatch_complete (RSeq r REnd) (mkM text []) (mkM [] caps)) with (k := @Some mstate) as [m ->];
    [by econstructor; [|constructor]|done|by eexists].
Qed.

(** ** Shapes *)
Definition extends (x y : mstate) (text : jsstring) : Prop := m_rest x = text ++ m_rest y.

Lemma consumed_extends x y text : extends x y text → consumed x y = text.
Proof.
  intros H. unfold consumed. rewrite H, length_app. replace (_ + _ - _)%nat with (length text) by lia.
  apply take_app_length.
Qed.

(** ** Denotations

    [denotes r Q]: [r] consumes exactly the texts [w] that [Q] allows, turning
    the captures [c] into [c']. *)
Definition denotation := jsstring → captures → captures → Prop.

Definition denotes (r : regex) (Q : denotation) : Prop :=
  ∀ t c t' c', matches r (mkM t c) (mkM t' c') ↔ ∃ w, t = w ++ t' ∧ Q w c c'.

Definition d_seq (Q R : denotation) : denotation :=
  λ w c c', ∃ w1 w2 c1, w = w1 ++ w2 ∧ Q w1 c c1 ∧ R w2 c1 c'.
Definition d_alt (Q R : denotation) : denotation := λ w c c', Q w c c' ∨ R w c c'.
Definition d_lit (s : jsstring) : denotation := λ w c c', w = s ∧ c' = c.
Definition d_plus (p : jschar → bool) : denotation := λ w c c', w ≠ [] ∧ forallb p w = true ∧ c' = c.
Definition d_star (p : jschar → bool) : denotation := λ w c c', forallb p w = true ∧ c' = c.
Definition d_group (n : nat) (Q : denotation) : denotation := λ w c c', ∃ c1, Q w c c1 ∧ c' = (n, w) :: c1.
Definition d_back (n : nat) : denotation := λ w c c', w = group_or_empty n c ∧ c' = c.
Definition d_char (p : jschar → bool) : denotation := λ w c c', ∃ a, w = [a] ∧ p a = true ∧ c' = c.

Lemma den_char p : denotes (RChar p) (d_char p).
Proof.
  intros t c t' c'. split.
  - intros H. inversion H; subst. eexists [_]. split; [done|]. eexists; eauto.
  - intros (w & -> & a & -> & Hp & ->). by constructor.
Qed.

Lemma den_empty : denotes REmpty (d_lit []).
Proof.
  intros t c t' c'. split.
  - intros H. inversion H; subst. by exists [].
  - intros (w & -> & -> & ->). constructor.
Qed.

Lemma den_seq a b Q R : denotes a Q → denotes b R → denotes (RSeq a b) (d_seq Q R).
Proof.
  intros Ha Hb t c t' c'. split.
  - intros H. inversion H as [| |? ? ? [ty cy] ? H1 H2| | | | | | |]; subst.
    apply Ha in H1 as (w1 & -> & H1). apply Hb in H2 as (w2 & -> & H2).
    exists (w1 ++ w2). rewrite app_assoc. split; [done|]. by exists w1, w2, cy.
  - intros (w & -> & w1 & w2 & c1 & -> & H1 & H2). rewrite <- app_assoc.
    apply matches_seq with (mkM (w2 ++ t') c1); [apply Ha|apply Hb]; eauto.
Qed.

Lemma den_alt a b Q R : denotes a Q → denotes b R → denotes (RAlt a b) (d_alt Q R).
Proof.
  intros Ha Hb t c t' c'. split.
  - intros H. inversion H; subst.
    + apply Ha in H4 as (w & -> & H1). exists w. split; [done|by left].
    + apply Hb in H4 as (w & -> & H1). exists w. split; [done|by right].
  - intros (w & -> & [H|H]); [apply matches_left, Ha|apply matches_right, Hb]; eauto.
Qed.

Lemma den_weaken r Q R : denotes r Q → (∀ w c c', Q w c c' ↔ R w c c') → denotes r R.
Proof. intros Hr HQ t c t' c'. rewrite (Hr t c t' c'). split; intros (w & -> & H); exists w; (split; [done|]); by apply HQ. Qed.

Lemma den_lit s : denotes (r_chars s) (d_lit s).
Proof.
  induction s as [|a s IH]; [apply den_empty|]. simpl.
  eapply den_weaken; [apply den_seq; [apply den_char|exact IH]|]. intros w c c'. split.
  - intros (w1 & w2 & c1 & -> & (b & -> & Hb & ->) & -> & ->). apply Z.eqb_eq in Hb as ->. done.
  - intros [-> ->]. exists [a], s, c. split; [done|]. split; [|done]. exists a. by rewrite Z.eqb_refl.
Qed.

Lemma den_star p : denotes (RStar (RChar p)) (d_star p).
Proof.
  intros t c t' c'. split.
  - intros H. remember (RStar (RChar p)) as r eqn:Er. remember (mkM t c) as x eqn:Ex. remember (mkM t' c') as y eqn:Ey.
    revert t c t' c' Ex Ey. induction H; intros t0 c0 t1 c1 Ex Ey; try done.
    + subst x. injection Ey as -> ->. by exists [].
    + injection Er as ->. subst x z. inversion H; subst.
      destruct (IHmatches2 eq_refl _ _ _ _ eq_refl eq_refl) as (w & -> & Hw & ->).
      eexists (_ :: w). split; [done|]. split; [|done]. simpl. apply andb_true_intro. by split.
  - intros (w & -> & Hw & ->). induction w as [|a w IH]; [constructor|].
    apply andb_prop in Hw as [Ha Hw]. apply (matches_turn _ _ (mkM (w ++ t') c)); [by apply matches_char|simpl; lia|by apply IH].
Qed.

Lemma den_plus p : denotes (r_plus (RChar p)) (d_plus p).
Proof.
  eapply den_weaken; [apply den_seq; [apply den_char|apply den_star]|]. intros w c c'. split.
  - intros (w1 & w2 & c1 & -> & (a & -> & Ha & ->) & Hw & ->). split; [done|]. simpl. by rewrite Ha.
  - intros (Hne & Hw & ->). destruct w as [|a w]; [done|]. apply andb_prop in Hw as [Ha Hw].
    exists [a], w, c. split; [done|]. split; [by exists a|done].
Qed.

Lemma den_group n a Q : denotes a Q → denotes (RGroup n a) (d_group n Q).
Proof.
  intros Ha t c t' c'. split.
  - intros H. inversion H as [| | | | | | |? ? ? [ty cy] H1| |]; subst. simpl.
    apply Ha in H1 as (w & -> & Hw). exists w. split; [done|]. exists cy. split; [done|].
    by rewrite (consumed_extends _ _ w).
  - intros (w & -> & c1 & Hw & ->).
    replace w with (consumed (mkM (w ++ t') c) (mkM t' c1)) at 2 by (by apply consumed_extends).
    apply (matches_group n a (mkM (w ++ t') c) (mkM t' c1)). apply Ha. by exists w.
Qed.

Lemma den_back n : denotes (RBack n) (d_back n).
Proof.
  intros t c t' c'. split.
  - intros H. inversion H; subst. simpl in *. exists (group_or_empty n c'). split; [|done].
    by apply starts_with_inv.
  - intros (w & -> & -> & ->).
    pose proof (matches_back n (mkM (group_or_empty n c ++ t') c) (starts_with_app _ _)) as H. simpl in H.
    by rewrite drop_app_length in H.
Qed.

(** What [match_all] answers. *)
Lemma match_all_denotes r Q text : denotes r Q →
  (∀ caps, match_all r text = Some caps → Q text [] caps) ∧ (∀ caps, Q text [] caps → is_Some (match_all r text)).
Proof.
  intros Hr. split; intros caps H.
  - apply match_all_sound, Hr in H as (w & Hw & HQ). rewrite app_nil_r in Hw. by subst.
  - apply match_all_complete with caps. apply Hr. exists text. by rewrite app_nil_r.
Qed.

(** A text that only one capture list fits. *)
Lemma match_all_unique r Q text caps : denotes r Q → Q text [] caps → (∀ caps', Q text [] caps' → caps' = caps) →
  match_all r text = Some caps.
Proof.
  intros Hr HQ Hu. destruct (match_all_denotes r Q text Hr) as [Hs Hc].
  destruct (Hc _ HQ) as [caps' E]. rewrite E. f_equal. apply Hu. by apply Hs.
Qed.

Lemma match_all_none r Q text : denotes r Q → (∀ caps, ¬ Q text [] caps) → match_all r text = None.
Proof.
  intros Hr HQ. destruct (match_all r text) as [caps|] eqn:E; [|done].
  destruct (HQ caps). by apply (match_all_denotes r Q text Hr).
Qed.

(** ** Unique readings *)
Definition not_head (p : jschar → bool) (s : jsstring) : Prop := ∀ c t, s = c :: t → p c = false.

Lemma split_unique p a b r s : forallb p a = true → forallb p b = true → not_head p r → not_head p s →
  a ++ r = b ++ s → a = b ∧ r = s.
Proof.
  revert b. induction a as [|x a IH]; intros [|y b] Ha Hb Hr Hs E; simpl in *; auto.
  - bool_hyps. rewrite (Hr _ _ E) in *. done.
  - bool_hyps. rewrite (Hs _ _ (eq_sym E)) in *. done.
  - bool_hyps. injection E as -> E. destruct (IH b) as [-> ->]; auto.
Qed.
