(* ===== verification/JsValue.v ===== *)
(** * JavaScript values

    The values the program meets at type [unknown]: what [JSON.parse] yields,
    and [undefined].  An object is the list of its own properties in order. *)
From S2P Require Import Prelude JsString JsNumber.
Local Open Scope Z_scope.

Inductive jsval :=
| JUndefined
| JNull
| JBool (b : bool)
| JNumber (x : number)
| JString (s : jsstring)
| JArray (items : list jsval)
| JObject (entries : list (jsstring * jsval)).

(** [value == null] *)
Definition is_nullish (v : jsval) : bool :=
  match v with JUndefined | JNull => true | _ => false end.

(** [typeof v === 'object'] for a value other than [null]. *)
Definition is_object (v : jsval) : bool :=
  match v with JArray _ | JObject _ => true | _ => false end.

(** [value ?? null] *)
Definition or_null (v : jsval) : jsval := match v with JUndefined => JNull | _ => v end.

(** [Boolean(v)] *)
Definition truthy (v : jsval) : bool :=
  match v with
  | JUndefined | JNull => false
  | JBool b => b
  | JNumber x => negb (isNaN x) && negb (num_eqb x num_zero)
  | JString s => negb (str_eqb s [])
  | JArray _ | JObject _ => true
  end.

(** [a || b] *)
Definition or_else (a b : jsval) : jsval := if truthy a then a else b.

(** [a || b] on strings *)
Definition or_text (a b : jsstring) : jsstring := match a with [] => b | _ => a end.

(** An own property, [None] when [Object.hasOwn] is false. *)
Definition own_property {A} (key : jsstring) (entries : list (jsstring * A)) : option A :=
  option_map snd (find (λ '(k, _), str_eqb k key) entries).

(** [a === b] for values of which at most one is an object. *)
Definition strict_equals (a b : jsval) : bool :=
  match a, b with
  | JUndefined, JUndefined => true
  | JNull, JNull => true
  | JBool x, JBool y => Bool.eqb x y
  | JNumber x, JNumber y => num_eqb x y
  | JString x, JString y => str_eqb x y
  | _, _ => false
  end.

(** Insertion sort by key: [sort(([a], [b]) => (a < b ? -1 : Number(a > b)))]. *)
Fixpoint insert_entry {A} (e : jsstring * A) (l : list (jsstring * A)) : list (jsstring * A) :=
  match l with
  | [] => [e]
  | x :: l' => if str_ltb (fst e) (fst x) then e :: l else x :: insert_entry e l'
  end.

Definition sort_entries {A} (l : list (jsstring * A)) : list (jsstring * A) :=
  fold_left (λ acc e, insert_entry e acc) l [].
