(* ===== verification/JsDynamic.v ===== *)
(** * Effects and dynamic values

    Code that handles values of unknown shape (parsed JSON, form fields) may
    throw in the middle of a change of state.  This file has the computations
    such code is written in, and the operations of the language on dynamic
    values that may throw. *)
From S2P Require Import Prelude JsString JsNumber JsNumberFacts JsValue.
Local Open Scope Z_scope.

(** ** Effects *)

(** What is thrown: a [TypeError] of the language, or [new Error(message)]. *)
Inductive thrown := TypeErr | Err (message : jsstring).

Abbreviation run := (outcome thrown) (only parsing).

(** A computation on a state; the state reached is kept when it throws. *)
Definition act (S A : Type) : Type := S → run A * S.

#[global] Instance act_ret {S} : MRet (act S) := λ A a s, (Ok a, s).
#[global] Instance act_bind {S} : MBind (act S) := λ A B f m s,
  match m s with
  | (Ok a, s') => f a s'
  | (Throw e, s') => (Throw e, s')
  | (NoFuel, s') => (NoFuel, s')
  end.

Definition lift {S A} (r : run A) : act S A := λ s, (r, s).

(** [try { m } catch { return other }] *)
Definition try_or {S A} (m : act S A) (other : A) : act S A := λ s,
  match m s with
  | (Throw _, s') => (Ok other, s')
  | r => r
  end.

(** [list.map(f)] *)
Fixpoint map_act {S A B} (f : A → act S B) (l : list A) : act S (list B) :=
  match l with
  | [] => mret []
  | x :: l' => y ← f x; ys ← map_act f l'; mret (y :: ys)
  end.

Fixpoint map_thrown {A B} (f : A → run B) (l : list A) : run (list B) :=
  match l with
  | [] => Ok []
  | x :: l' => y ← f x; ys ← map_thrown f l'; Ok (y :: ys)
  end.

(** [list.findIndex(p)], [None] for [-1] *)
Fixpoint findIndex {A} (p : A → bool) (l : list A) : option nat :=
  match l with
  | [] => None
  | x :: l' => if p x then Some 0%nat else S <$> findIndex p l'
  end.

(** [list.splice(i, 0, x)] on a copy *)
Definition insert_at {A} (i : nat) (x : A) (l : list A) : list A := take i l ++ x :: drop i l.

(** ** Dynamic values *)

(** [v.key]; none of the keys read here is inherited by any value. *)
Definition property (v : jsval) (key : string) : run jsval :=
  match v with
  | JUndefined | JNull => Throw TypeErr
  | JObject es => Ok (default JUndefined (own_property (js key) es))
  | _ => Ok JUndefined
  end.

Definition is_string (v : jsval) : bool := match v with JString _ => true | _ => false end.

(** [typeof v === 'string' ? v : ''] *)
Definition string_or_empty (v : jsval) : jsstring := match v with JString s => s | _ => [] end.

(** [String(v)].  A parsed object is converted by [Object.prototype.toString],
    unless it has a property of that name, which is never callable. *)
Fixpoint String_of (v : jsval) : run jsstring :=
  match v with
  | JUndefined => Ok (js "undefined")
  | JNull => Ok (js "null")
  | JBool b => Ok (if b then js "true" else js "false")
  | JNumber x => Ok (String_of_number x)
  | JString s => Ok s
  | JArray l =>
      parts ← (fix parts (l : list jsval) : run (list jsstring) :=
        match l with
        | [] => Ok []
        | x :: l' => t ← (if is_nullish x then Ok [] else String_of x); ts ← parts l'; Ok (t :: ts)
        end) l;
      Ok (join (js ",") parts)
  | JObject es =>
      match own_property (js "toString") es with Some _ => Throw TypeErr | None => Ok (js "[object Object]") end
  end.

(** [Number(v)] *)
Definition Number_of (v : jsval) : run number :=
  match v with
  | JUndefined => Ok num_nan
  | JNull => Ok num_zero
  | JBool b => Ok (if b then num_of_Z 1 else num_zero)
  | JNumber x => Ok x
  | JString s => Ok (Number_of_string s)
  | JArray _ | JObject _ => Number_of_string <$> String_of v
  end.
