(* ===== verification/JsJson.v ===== *)
(** * JSON text

    [JSON.stringify] of a string (quotes, the short escapes, [\u00xx] for the
    other control characters and [\udxxx] for lone surrogates), [JSON.parse],
    and [String(value)] of a parsed value. *)
From S2P Require Import Prelude JsString JsNumber JsValue.
Local Open Scope Z_scope.

Definition hex_digit (d : Z) : jschar := if d <? 10 then 48 + d else 87 + d.

(** [\uxxxx] in lower case *)
Definition unicode_escape (c : jschar) : jsstring :=
  [92; 117; hex_digit (c / 4096 mod 16); hex_digit (c / 256 mod 16);
   hex_digit (c / 16 mod 16); hex_digit (c mod 16)].

Definition is_lead (c : jschar) : bool := (55296 <=? c) && (c <=? 56319).
Definition is_trail (c : jschar) : bool := (56320 <=? c) && (c <=? 57343).

(** One code unit that is not part of a surrogate pair. *)
Definition quote_char (c : jschar) : jsstring :=
  if c =? 8 then [92; 98] else if c =? 9 then [92; 116] else if c =? 10 then [92; 110]
  else if c =? 12 then [92; 102] else if c =? 13 then [92; 114]
  else if c =? 34 then [92; 34] else if c =? 92 then [92; 92]
  else if (c <? 32) || is_lead c || is_trail c then unicode_escape c
  else [c].

Fixpoint quote_chars (s : jsstring) : jsstring :=
  match s with
  | [] => []
  | c :: s' =>
      match s' with
      | d :: s'' =>
          if is_lead c && is_trail d then c :: d :: quote_chars s''
          else quote_char c ++ quote_chars s'
      | [] => quote_char c
      end
  end.

(** [JSON.stringify(s)] *)
Definition JSON_stringify (s : jsstring) : jsstring := 34 :: quote_chars s ++ [34].

Example stringify_sample : JSON_stringify (js "a\b'") = 34 :: js "a\\b'" ++ [34].
Proof. reflexivity. Qed.

(** ** Parsing *)
Definition is_json_space (c : jschar) : bool := (c =? 32) || (c =? 9) || (c =? 10) || (c =? 13).
Definition skip_json_space (s : jsstring) : jsstring := drop (span_len is_json_space s) s.

Definition json_escape (c : jschar) : option jschar :=
  if (c =? 34) || (c =? 92) || (c =? 47) then Some c
  else if c =? 98 then Some 8 else if c =? 102 then Some 12 else if c =? 110 then Some 10
  else if c =? 114 then Some 13 else if c =? 116 then Some 9 else None.

(** The characters of a string after its opening quote. *)
Fixpoint json_string (s : jsstring) : option (jsstring * jsstring) :=
  match s with
  | [] => None
  | c :: s' =>
      if c =? 34 then Some ([], s')
      else if c =? 92 then
        match s' with
        | e :: s'' =>
            if e =? 117 then
              match s'' with
              | h1 :: h2 :: h3 :: h4 :: rest =>
                  if forallb is_hex [h1; h2; h3; h4] then
                    v ← radix_value 16 0 [h1; h2; h3; h4];
                    '(t, r) ← json_string rest; Some (v :: t, r)
                  else None
              | _ => None
              end
            else
              x ← json_escape e; '(t, r) ← json_string s''; Some (x :: t, r)
        | [] => None
        end
      else if c <? 32 then None
      else '(t, r) ← json_string s'; Some (c :: t, r)
  end.

(** [-?(0|[1-9]\d* )(\.\d+)?([eE][+-]?\d+)?]: the length of the match. *)
Definition json_number_len (s : jsstring) : option nat :=
  let n0 := if starts_with s (js "-") then 1%nat else 0%nat in
  let s1 := drop n0 s in
  ni ← match s1 with
       | c :: _ => if c =? 48 then Some 1%nat else if is_digit c then Some (span_len is_digit s1) else None
       | [] => None
       end;
  let s2 := drop ni s1 in
  let nf := match s2 with
            | c :: r => if c =? 46 then match span_len is_digit r with O => O | k => S k end else O
            | [] => O
            end in
  Some (n0 + ni + nf + fst (scan_exponent (drop nf s2)))%nat.

(** [CreateDataProperty]: a repeated key keeps its place and takes the new value. *)
Fixpoint put_property (key : jsstring) (v : jsval) (l : list (jsstring * jsval)) : list (jsstring * jsval) :=
  match l with
  | [] => [(key, v)]
  | (k, w) :: l' => if str_eqb k key then (k, v) :: l' else (k, w) :: put_property key v l'
  end.

(** Values, array elements and object members; every call consumes input. *)
Fixpoint json_value (fuel : nat) (s : jsstring) : option (jsval * jsstring) :=
  match fuel with
  | O => None
  | S fuel' =>
      let s := skip_json_space s in
      if starts_with s (js "null") then Some (JNull, drop 4 s)
      else if starts_with s (js "true") then Some (JBool true, drop 4 s)
      else if starts_with s (js "false") then Some (JBool false, drop 5 s)
      else
        match s with
        | [] => None
        | c :: rest =>
            if c =? 34 then '(t, r) ← json_string rest; Some (JString t, r)
            else if c =? 91 then
              match skip_json_space rest with
              | 93 :: r => Some (JArray [], r)
              | _ => json_elements fuel' rest []
              end
            else if c =? 123 then
              match skip_json_space rest with
              | 125 :: r => Some (JObject [], r)
              | _ => json_members fuel' rest []
              end
            else
              n ← json_number_len s; Some (JNumber (Number_of_string (take n s)), drop n s)
        end
  end
with json_elements (fuel : nat) (s : jsstring) (acc : list jsval) : option (jsval * jsstring) :=
  match fuel with
  | O => None
  | S fuel' =>
      '(v, r) ← json_value fuel' s;
      match skip_json_space r with
      | 44 :: r' => json_elements fuel' r' (acc ++ [v])
      | 93 :: r' => Some (JArray (acc ++ [v]), r')
      | _ => None
      end
  end
with json_members (fuel : nat) (s : jsstring) (acc : list (jsstring * jsval)) : option (jsval * jsstring) :=
  match fuel with
  | O => None
  | S fuel' =>
      match skip_json_space s with
      | 34 :: r =>
          '(key, r1) ← json_string r;
          match skip_json_space r1 with
          | 58 :: r2 =>
              '(v, r3) ← json_value fuel' r2;
              match skip_json_space r3 with
              | 44 :: r' => json_members fuel' r' (put_property key v acc)
              | 125 :: r' => Some (JObject (put_property key v acc), r')
              | _ => None
              end
          | _ => None
          end
      | _ => None
      end
  end.

(** [JSON.parse(text)]; [None] when it throws a [SyntaxError].  Every call of
    the parser but an element's or a member's value consumes a character, so
    twice the length is enough fuel. *)
Definition JSON_parse (text : jsstring) : option jsval :=
  '(v, rest) ← json_value (2 * S (length text)) text;
  if str_eqb (skip_json_space rest) [] then Some v else None.

(** [String(value)] of a parsed value. *)
Fixpoint String_of_value (v : jsval) : jsstring :=
  match v with
  | JUndefined => js "undefined"
  | JNull => js "null"
  | JBool b => if b then js "true" else js "false"
  | JNumber x => String_of_number x
  | JString s => s
  | JArray l =>
      join (js ",") (map (λ x, if is_nullish x then [] else String_of_value x) l)
  | JObject _ => js "[object Object]"
  end.

Example parse_sample :
  JSON_parse (js " [1, null, {}] ") = Some (JArray [JNumber (num_of_Z 1); JNull; JObject []]).
Proof. reflexivity. Qed.
