(* ===== verification/JsonText.v ===== *)
(** * JSON documents

    [JSON.stringify(value, null, 2)], and its round trip with [JSON.parse] on
    documents of strings, booleans, nulls, arrays and objects. *)
From S2P Require Import Prelude JsString JsCollections JsNumber JsNumberFacts JsValue JsJson.
Local Open Scope Z_scope.

(** ** Writing *)

(** A new line and the indentation of a level. *)
Definition line (indent : nat) : jsstring := 10 :: repeat 32 indent.

Definition comma (indent : nat) : jsstring := 44 :: line indent.

(** The items of an array or an object on lines of their own. *)
Definition json_block (open close : jschar) (indent : nat) (items : list jsstring) : jsstring :=
  match items with
  | [] => [open; close]
  | _ => open :: line (indent + 2) ++ join (comma (indent + 2)) items ++ line indent ++ [close]
  end.

(** One property; a property that is [undefined] is left out. *)
Definition json_property (e : jsstring * option jsstring) : option jsstring :=
  option_map (λ t, JSON_stringify (fst e) ++ [58; 32] ++ t) (snd e).

(** [None] is [undefined]. *)
Fixpoint json_text (indent : nat) (v : jsval) : option jsstring :=
  match v with
  | JUndefined => None
  | JNull => Some (js "null")
  | JBool b => Some (if b then js "true" else js "false")
  | JNumber x => Some (if isFinite x then String_of_number x else js "null")
  | JString s => Some (JSON_stringify s)
  | JArray l => Some (json_block 91 93 indent (map (λ x, default (js "null") (json_text (indent + 2) x)) l))
  | JObject es =>
      Some (json_block 123 125 indent
        (omap json_property (own_entries (map (λ '(k, x), (k, json_text (indent + 2) x)) es))))
  end.

(** [JSON.stringify(v, null, 2)] *)
Definition JSON_stringify2 (v : jsval) : jsstring := default (js "undefined") (json_text 0 v).

(** ** Reading a written string *)

(** Code units. *)
Definition is_unit (c : jschar) : bool := (0 <=? c) && (c <? 65536).
Definition units (s : jsstring) : Prop := forallb is_unit s = true.

Lemma hex_digit_reads d : 0 ≤ d < 16 → is_hex (hex_digit d) = true ∧ radix_digit 16 (hex_digit d) = Some d.
Proof.
  intros Hd. assert (d = 0 ∨ d = 1 ∨ d = 2 ∨ d = 3 ∨ d = 4 ∨ d = 5 ∨ d = 6 ∨ d = 7 ∨ d = 8 ∨ d = 9 ∨ d = 10 ∨ d = 11
    ∨ d = 12 ∨ d = 13 ∨ d = 14 ∨ d = 15) as H by lia.
  by repeat destruct H as [->|H]; subst.
Qed.

Lemma json_string_plain c s rest : c ≠ 34 → c ≠ 92 → 32 ≤ c → json_string s = Some (rest : jsstring * jsstring) →
  json_string (c :: s) = Some (c :: fst rest, snd rest).
Proof.
  intros H1 H2 H3 Hs. cbn [json_string]. apply Z.eqb_neq in H1, H2. rewrite H1, H2, Hs.
  destruct (Z.ltb_spec c 32); [lia|]. by destruct rest.
Qed.

Lemma json_string_escape c s rest : 0 ≤ c < 65536 → json_string s = Some (rest : jsstring * jsstring) →
  json_string (unicode_escape c ++ s) = Some (c :: fst rest, snd rest).
Proof.
  intros Hc Hs. unfold unicode_escape. cbn [app json_string Z.eqb Pos.eqb].
  assert (∀ k, 0 ≤ (c / k mod 16) < 16) as Hm by (intros; apply Z.mod_pos_bound; lia).
  assert (0 ≤ c mod 16 < 16) as H4 by (apply Z.mod_pos_bound; lia).
  destruct (hex_digit_reads _ (Hm 4096)) as [E1 R1], (hex_digit_reads _ (Hm 256)) as [E2 R2],
    (hex_digit_reads _ (Hm 16)) as [E3 R3], (hex_digit_reads _ H4) as [E4 R4].
  cbn [forallb]. rewrite E1, E2, E3, E4. cbn [andb radix_value]. rewrite R1, R2, R3, R4. cbn [mbind option_bind].
  rewrite Hs. cbn. destruct rest as [t r]. repeat f_equal.
  rewrite Z.mul_0_l, Z.add_0_l. pose proof (Z.div_mod c 16). pose proof (Z.div_mod (c / 16) 16).
  pose proof (Z.div_mod (c / 256) 16). replace (c / 256) with (c / 16 / 16) in * by (by rewrite Z.div_div by lia).
  replace (c / 4096) with (c / 16 / 16 / 16) in * by (by rewrite !Z.div_div by lia).
  assert (c / 16 / 16 / 16 < 16) by (rewrite !Z.div_div by lia; apply Z.div_lt_upper_bound; lia).
  assert (0 ≤ c / 16 / 16 / 16) by (rewrite !Z.div_div by lia; apply Z.div_pos; lia).
  rewrite (Z.mod_small (c / 16 / 16 / 16)) by lia. lia.
Qed.

Lemma json_string_char c s rest : 0 ≤ c < 65536 → json_string s = Some (rest : jsstring * jsstring) →
  json_string (quote_char c ++ s) = Some (c :: fst rest, snd rest).
Proof.
  intros Hc Hs. unfold quote_char.
  repeat match goal with |- context [if ?x =? ?y then _ else _] => destruct (Z.eqb_spec x y) as [->|] end;
    try (cbn; rewrite Hs; by destruct rest).
  destruct (_ || _ || _) eqn:E; [by apply json_string_escape|]. bool_hyps. by apply json_string_plain.
Qed.

Lemma json_string_quote s rest : units s → json_string (quote_chars s ++ 34 :: rest) = Some (s, rest).
Proof.
  unfold units. remember (length s) as n eqn:Hn. revert s Hn.
  induction n as [n IH] using lt_wf_ind; intros [|c [|d s]] -> Hu; [done| |].
  - apply andb_prop in Hu as [Hc%andb_prop _]. destruct Hc. bool_hyps.
    cbn [quote_chars]. by rewrite (json_string_char c (34 :: rest) ([], rest)) by (lia || done).
  - cbn [forallb] in Hu. apply andb_prop in Hu as [Hc Hu]. pose proof Hu as Hu'. apply andb_prop in Hu' as [Hd Hs].
    unfold is_unit in Hc, Hd. bool_hyps. change (quote_chars (c :: d :: s)) with
      (if is_lead c && is_trail d then c :: d :: quote_chars s else quote_char c ++ quote_chars (d :: s)).
    destruct (is_lead c && is_trail d) eqn:E.
    + unfold is_lead, is_trail in E. bool_hyps. cbn [app].
      rewrite (json_string_plain c _ (d :: s, rest)); [done|lia..|].
      rewrite (json_string_plain d _ (s, rest)); [done|lia..|]. apply (IH (length s)); [simpl; lia|done|done].
    + rewrite <- app_assoc. rewrite (json_string_char c _ (d :: s, rest)); [done|lia|].
      apply (IH (length (d :: s))); [simpl; lia|done|]. cbn [forallb]. rewrite Hs. unfold is_unit. lia.
Qed.

Lemma json_string_stringify s rest : units s → json_string (tl (JSON_stringify s) ++ rest) = Some (s, rest).
Proof. intros Hs. unfold JSON_stringify. cbn [tl]. rewrite <- app_assoc. by apply json_string_quote. Qed.

(** ** Round trip *)

(** Documents without numbers, whose objects list their properties in the order
    of [Object.keys]. *)
Inductive json_doc : jsval → Prop :=
| doc_null : json_doc JNull
| doc_bool b : json_doc (JBool b)
| doc_string s : units s → json_doc (JString s)
| doc_array l : Forall json_doc l → json_doc (JArray l)
| doc_object es :
    NoDup es.*1 → own_entries es = es → Forall (λ e, units (fst e) ∧ json_doc (snd e)) es → json_doc (JObject es).

Lemma skip_space_cons c s : is_json_space c = false → skip_json_space (c :: s) = c :: s.
Proof. intros H. unfold skip_json_space. simpl. by rewrite H. Qed.

Lemma skip_line n s : skip_json_space (line n ++ s) = skip_json_space s.
Proof.
  unfold line, skip_json_space. cbn [app span_len is_json_space Z.eqb Pos.eqb orb drop].
  induction n as [|n IH]; [done|]. cbn [repeat app span_len is_json_space Z.eqb Pos.eqb orb drop]. done.
Qed.

Lemma json_value_line fuel n s : json_value fuel (line n ++ s) = json_value fuel s.
Proof. destruct fuel; [done|]. cbn [json_value]. by rewrite skip_line. Qed.

Lemma join_cons sep t ts : ts ≠ [] → join sep (t :: ts) = t ++ sep ++ join sep ts.
Proof. by destruct ts. Qed.

Lemma put_property_fresh key v l : key ∉ l.*1 → put_property key v l = l ++ [(key, v)].
Proof.
  induction l as [|[k w] l IH]; [done|]. rewrite fmap_cons, not_elem_of_cons. cbn [fst put_property]. intros [Hk Hl].
  destruct (str_eqb k key) eqn:E; str_hyps; [congruence|]. by rewrite IH.
Qed.

(** What the reader must do on the text of a value. *)
Definition reads (v : jsval) (t : jsstring) : Prop :=
  ∀ fuel rest, (2 * length t ≤ fuel)%nat → json_value fuel (t ++ rest) = Some (v, rest).

Lemma json_elements_read n m vs ts : Forall2 reads vs ts → vs ≠ [] → ∀ fuel acc rest,
  (2 * length (join (comma n) ts) + 1 ≤ fuel)%nat →
  json_elements fuel (line n ++ join (comma n) ts ++ line m ++ 93 :: rest) acc = Some (JArray (acc ++ vs), rest).
Proof.
  induction 1 as [|v t vs ts Hv Hr IH]; intros Hne fuel acc rest Hf; [done|]. destruct fuel as [|fuel]; [lia|].
  destruct (decide (vs = [])) as [->|Hvs].
  - inversion Hr; subst. cbn [join json_elements] in *. rewrite json_value_line, Hv by lia. cbn [mbind option_bind].
    by rewrite skip_line.
  - assert (ts ≠ []) as Hts by (destruct Hr; congruence). rewrite join_cons in * by done.
    rewrite !length_app in Hf. simpl in Hf. cbn [json_elements].
    rewrite json_value_line, <- !app_assoc, Hv by lia. cbn [mbind option_bind].
    unfold comma at 1. cbn [app]. rewrite skip_space_cons by done. rewrite IH by (done || lia). by rewrite <- app_assoc.
Qed.

Lemma json_members_read n m es ts :
  Forall2 (λ e t, ∃ u, units (fst e) ∧ reads (snd e) u ∧ t = JSON_stringify (fst e) ++ [58; 32] ++ u) es ts → es ≠ [] →
  ∀ fuel acc rest, NoDup (acc ++ es).*1 → (2 * length (join (comma n) ts) + 1 ≤ fuel)%nat →
  json_members fuel (line n ++ join (comma n) ts ++ line m ++ 125 :: rest) acc = Some (JObject (acc ++ es), rest).
Proof.
  induction 1 as [|[k v] t es ts (u & Hk & Hv & ->) Hr IH]; intros Hne fuel acc rest Hn Hf; [done|].
  destruct fuel as [|fuel]; [lia|]. cbn [fst snd] in *.
  assert (∀ r, (2 * length u ≤ fuel)%nat → json_members (S fuel) (line n ++ (JSON_stringify k ++ [58; 32] ++ u) ++ r) acc
    = match skip_json_space r with
      | 44 :: r' => json_members fuel r' (acc ++ [(k, v)])
      | 125 :: r' => Some (JObject (acc ++ [(k, v)]), r')
      | _ => None
      end) as Hstep.
  { intros r Hu. cbn [json_members]. rewrite skip_line. unfold JSON_stringify. cbn [app].
    rewrite skip_space_cons by done. rewrite <- !app_assoc. cbn [app].
    rewrite json_string_quote by done. cbn [mbind option_bind]. rewrite skip_space_cons by done.
    change (32 :: u ++ r) with ([32] ++ u ++ r).
    assert (json_value fuel ([32] ++ u ++ r) = json_value fuel (u ++ r)) as -> by (by destruct fuel).
    rewrite Hv by lia. cbn [mbind option_bind]. rewrite put_property_fresh; [done|].
    rewrite fmap_app in Hn. apply NoDup_app in Hn as (_ & Hd & _). intros Hin. apply (Hd _ Hin). rewrite fmap_cons.
    left. }
  destruct (decide (es = [])) as [->|Hes].
  - inversion Hr; subst. cbn [join] in *. rewrite Hstep; [|rewrite !length_app in Hf; lia]. by rewrite skip_line.
  - assert (ts ≠ []) as Hts by (destruct Hr; congruence). rewrite join_cons in * by done.
    rewrite !length_app in Hf. cbn [length] in Hf. rewrite <- app_assoc, Hstep by lia.
    rewrite <- app_assoc. unfold comma at 1. cbn [app]. rewrite skip_space_cons by done.
    rewrite IH by (done || rewrite <- ?app_assoc; done || lia). by rewrite <- app_assoc.
Qed.

Lemma reads_not_bracket v t rest : reads v t → ∀ r, skip_json_space (t ++ rest) ≠ 93 :: r.
Proof.
  intros H r E. specialize (H (S (2 * length t)) rest ltac:(lia)). cbn [json_value] in H. rewrite E in H.
  discriminate H.
Qed.

Lemma not_bracket_match {A} (s : jsstring) (f : jsstring → A) (d : A) : (∀ r, s ≠ 93 :: r) →
  match s with 93 :: r => f r | _ => d end = d.
Proof.
  intros H. destruct s as [|c r]; [done|]. destruct (decide (c = 93)) as [->|Hc]; [by destruct (H r)|].
  repeat (destruct c as [|c|c]; try done).
Qed.

Lemma json_array_reads indent vs ts : Forall2 reads vs ts → reads (JArray vs) (json_block 91 93 indent ts).
Proof.
  intros H fuel rest Hf. destruct fuel as [|fuel]; [destruct H; simpl in Hf; lia|].
  destruct (decide (vs = [])) as [->|Hvs]; [by inversion H|].
  assert (ts ≠ []) as Hts by (destruct H; congruence).
  assert (json_block 91 93 indent ts = 91 :: line (indent + 2) ++ join (comma (indent + 2)) ts ++ line indent ++ [93]) as E
    by (by destruct ts). rewrite E in *. cbn [app length] in *. rewrite !length_app in Hf.
  cbn [json_value]. rewrite skip_space_cons by done. cbn [starts_with js map Z.eqb Pos.eqb andb].
  rewrite <- !app_assoc. cbn [app].
  rewrite not_bracket_match by (rewrite skip_line; destruct H as [|v t vs ts Hv Hr]; [done|];
    destruct Hr; rewrite ?join_cons, <- ?app_assoc by done; by apply (reads_not_bracket v)).
  rewrite (json_elements_read _ _ vs ts) by (done || lia). done.
Qed.

Lemma json_object_reads indent es ts :
  Forall2 (λ e t, ∃ u, units (fst e) ∧ reads (snd e) u ∧ t = JSON_stringify (fst e) ++ [58; 32] ++ u) es ts →
  NoDup es.*1 → reads (JObject es) (json_block 123 125 indent ts).
Proof.
  intros H Hn fuel rest Hf. destruct fuel as [|fuel]; [destruct H; simpl in Hf; lia|].
  destruct (decide (es = [])) as [->|Hes]; [by inversion H|].
  assert (ts ≠ []) as Hts by (destruct H; congruence).
  assert (json_block 123 125 indent ts = 123 :: line (indent + 2) ++ join (comma (indent + 2)) ts ++ line indent ++ [125])
    as E by (by destruct ts). rewrite E in *. cbn [app length] in *. rewrite !length_app in Hf.
  assert (∃ r, join (comma (indent + 2)) ts = 34 :: r) as [r Er].
  { destruct H as [|e t es ts (u & _ & _ & ->) Hr]; [done|]. unfold JSON_stringify. destruct Hr; by eexists. }
  cbn [json_value]. rewrite skip_space_cons by done. cbn [starts_with js map Z.eqb Pos.eqb andb].
  rewrite <- !app_assoc. cbn [app].
  replace (skip_json_space (line (indent + 2) ++ join (comma (indent + 2)) ts ++ line indent ++ 125 :: rest))
    with (34 :: r ++ line indent ++ 125 :: rest) by (rewrite skip_line, Er; cbn [app]; by rewrite skip_space_cons).
  by rewrite (json_members_read _ _ es ts) by (done || lia).
Qed.

Lemma json_literal_reads : reads JNull (js "null") ∧ reads (JBool true) (js "true") ∧ reads (JBool false) (js "false").
Proof.
  repeat split; intros [|fuel] rest Hf; try (simpl in Hf; lia); cbn [json_value];
    match goal with |- context [skip_json_space ?s] => change (skip_json_space s) with s end.
  - by rewrite starts_with_app.
  - by rewrite (starts_with_app _ (js "true")).
  - by rewrite (starts_with_app _ (js "false")).
Qed.

Lemma json_text_reads v : json_doc v → ∀ indent, ∃ t, json_text indent v = Some t ∧ reads v t.
Proof.
  revert v. fix IH 2. intros v [|b|s Hs|l Hl|es Hn Ho Hes] indent; cbn [json_text].
  - eexists. split; [done|]. apply json_literal_reads.
  - eexists. split; [done|]. destruct b; apply json_literal_reads.
  - eexists. split; [done|]. intros [|fuel] rest Hf; [simpl in Hf; lia|]. unfold JSON_stringify. cbn [app json_value].
    rewrite skip_space_cons by done. cbn [starts_with js map Z.eqb Pos.eqb andb].
    rewrite <- app_assoc. cbn [app]. by rewrite json_string_quote.
  - eexists. split; [done|]. apply json_array_reads.
    induction Hl as [|x l Hx Hl IHl]; cbn [map]; constructor; [|done].
    by destruct (IH x Hx (indent + 2)%nat) as (t & -> & Ht).
  - eexists. split; [done|]. rewrite (own_entries_map (λ _ x, json_text (indent + 2) x)), Ho.
    apply json_object_reads; [|done]. clear Hn Ho.
    induction Hes as [|[k x] es [Hk Hx] Hes IHes]; cbn [map omap list_omap]; [constructor|].
    destruct (IH x Hx (indent + 2)%nat) as (t & Et & Ht). unfold json_property at 1. cbn [fst snd] in *.
    rewrite Et. cbn [option_map]. constructor; [by exists t|exact IHes].
Qed.

(** A written document is read back. *)
Lemma json_doc_roundtrip v : json_doc v → JSON_parse (JSON_stringify2 v) = Some v.
Proof.
  intros H. destruct (json_text_reads v H 0) as (t & Et & Ht). unfold JSON_stringify2, JSON_parse. rewrite Et.
  change (default (js "undefined") (Some t)) with t. specialize (Ht (2 * S (length t))%nat [] ltac:(lia)). rewrite app_nil_r in Ht. by rewrite Ht.
Qed.

Example stringify2_sample :
  JSON_stringify2 (JObject [(js "b", JString (js "x")); (js "1", JArray [JNull; JBool true])]) =
  js "{" ++ line 2 ++ jq "`1`: [" ++ line 4 ++ js "null," ++ line 4 ++ js "true" ++ line 2 ++ js "],"
  ++ line 2 ++ jq "`b`: `x`" ++ line 0 ++ js "}".
Proof. reflexivity. Qed.

(** ** What is read is made of code units *)

(** A parsed value: its texts are code units and the names of an object differ. *)
Inductive json_clean : jsval → Prop :=
| clean_null : json_clean JNull
| clean_bool b : json_clean (JBool b)
| clean_number x : valid_number x = true → json_clean (JNumber x)
| clean_string s : units s → json_clean (JString s)
| clean_array l : Forall json_clean l → json_clean (JArray l)
| clean_object es : NoDup es.*1 → Forall (λ e, units (fst e) ∧ json_clean (snd e)) es → json_clean (JObject es).

Lemma units_cons c s : units (c :: s) ↔ (0 ≤ c < 65536) ∧ units s.
Proof.
  unfold units. cbn [forallb]. rewrite andb_true_iff. unfold is_unit. split; (intros [H ?]; split; [|done]); lia.
Qed.

Lemma units_app s t : units (s ++ t) ↔ units s ∧ units t.
Proof. unfold units. by rewrite forallb_app, andb_true_iff. Qed.

Lemma units_drop n s : units s → units (drop n s).
Proof. intros H. rewrite <- (take_drop n s) in H. by apply units_app in H as [_ ?]. Qed.

Lemma units_skip s : units s → units (skip_json_space s).
Proof. apply units_drop. Qed.

Lemma units_trim s : units s → units (trim s).
Proof.
  intros H. destruct (trim_split s) as (a & b & E & _). rewrite E in H.
  apply units_app in H as [_ [H _]%units_app]. done.
Qed.

Lemma radix_digit_bound r c v : radix_digit r c = Some v → 0 ≤ v < r.
Proof.
  unfold radix_digit, is_digit, is_lower, is_upper. intros H. split_in H; injection H as <-; bool_hyps; lia.
Qed.

Lemma radix_value_bound s : ∀ acc v, radix_value 16 acc s = Some v → 0 ≤ acc →
  0 ≤ v < (acc + 1) * 16 ^ Z.of_nat (length s).
Proof.
  induction s as [|c s IH]; intros acc v H Ha; cbn [radix_value length] in *; [injection H as <-; simpl; lia|].
  destruct (radix_digit 16 c) as [d|] eqn:E; [|done]. apply radix_digit_bound in E. apply IH in H; [|lia].
  rewrite Nat2Z.inj_succ, Z.pow_succ_r by lia. nia.
Qed.

Lemma json_string_units s : ∀ t r, units s → json_string s = Some (t, r) → units t ∧ units r.
Proof.
  remember (length s) as n eqn:Hn. revert s Hn. induction n as [n IH] using lt_wf_ind; intros [|c s] -> t r Hu H; [done|].
  cbn [json_string] in H. apply units_cons in Hu as [Hc Hu].
  assert (∀ s' x t' r', (length s' < length (c :: s))%nat → units s' → 0 ≤ x < 65536 →
    ('(u, q) ← json_string s'; Some (x :: u, q)) = Some (t', r') → units t' ∧ units r') as Hgo.
  { intros s' x t' r' Hl Hs' Hx Heq. destruct (json_string s') as [[u q]|] eqn:E; [|done].
    injection Heq as <- <-. destruct (IH _ Hl s' eq_refl u q Hs' E). by rewrite units_cons. }
  destruct (c =? 34); [injection H as <- <-; done|]. destruct (c =? 92).
  - destruct s as [|e s]; [done|]. apply units_cons in Hu as [He Hu]. destruct (e =? 117).
    + destruct s as [|h1 [|h2 [|h3 [|h4 rest]]]]; try done. destruct (forallb is_hex _); [|done].
      destruct (radix_value 16 0 [h1; h2; h3; h4]) as [v|] eqn:Ev; [|done].
      apply radix_value_bound in Ev; [|lia]. rewrite !units_cons in Hu. apply (Hgo rest v); simpl; try tauto; lia.
    + destruct (json_escape e) as [x|] eqn:Ex; [|done]. apply (Hgo s x); simpl; try done; [lia|].
      unfold json_escape in Ex. split_in Ex; injection Ex as <-; lia.
  - destruct (c <? 32); [done|]. apply (Hgo s c); simpl; done || lia.
Qed.

Lemma put_property_keys key v l : (put_property key v l).*1 = js_add l.*1 key.
Proof.
  rewrite <- (map_set_keys key v l). f_equal. induction l as [|[k w] l IH]; cbn [put_property map_set]; [done|].
  rewrite IH. destruct (str_eqb k key) eqn:E; str_hyps; by case_decide.
Qed.

Lemma put_property_Forall (P : jsstring * jsval → Prop) key v l : Forall P l → P (key, v) → Forall P (put_property key v l).
Proof.
  intros Hl Hp. induction Hl as [|[k w] l Hw Hl IH]; cbn [put_property]; [by constructor|].
  destruct (str_eqb k key) eqn:E; str_hyps; subst; by constructor.
Qed.

Lemma valid_opp x : valid_number x = true → valid_number (num_opp x) = true.
Proof. by destruct x. Qed.

(** [Number(s)] is a binary64 number. *)
Lemma valid_Number_of_string s : valid_number (Number_of_string s) = true.
Proof.
  assert (∀ t, valid_number (unsigned_number t) = true) as H
    by (intros t; by destruct (andb_prop _ _ (good_unsigned t))).
  unfold Number_of_string. repeat case_match; auto using valid_opp, of_integer_valid.
Qed.

(** Split a match on the first code unit of a text down to its literals. *)
Ltac split_literals H :=
  match type of H with
  | match ?s with _ => _ end = _ =>
      let c := fresh "c" in let E := fresh "E" in
      destruct s as [|c ?] eqn:E; [|repeat match type of H with
        | match ?x with _ => _ end = _ => is_var x; destruct x end]
  end.

Definition clean_entries (es : list (jsstring * jsval)) : Prop :=
  NoDup es.*1 ∧ Forall (λ e, units (fst e) ∧ json_clean (snd e)) es.

Lemma json_reader_clean fuel :
  (∀ s v r, units s → json_value fuel s = Some (v, r) → json_clean v ∧ units r) ∧
  (∀ s acc v r, units s → Forall json_clean acc → json_elements fuel s acc = Some (v, r) → json_clean v ∧ units r) ∧
  (∀ s acc v r, units s → clean_entries acc → json_members fuel s acc = Some (v, r) → json_clean v ∧ units r).
Proof.
  induction fuel as [|fuel (IHv & IHe & IHm)]; [done|]. split; [|split].
  - intros s v r Hs H. cbn [json_value] in H. apply units_skip in Hs. revert Hs H.
    generalize (skip_json_space s). clear s. intros s Hs H.
    repeat match type of H with (if starts_with _ _ then _ else _) = _ =>
      destruct (starts_with _ _); [injection H as <- <-; split; [constructor|by apply units_drop]|] end.
    destruct s as [|c s]; [done|]. apply units_cons in Hs as [Hc Hs].
    destruct (c =? 34).
    { destruct (json_string s) as [[t q]|] eqn:E; [|done]. injection H as <- <-.
      destruct (json_string_units _ _ _ Hs E). split; [by constructor|done]. }
    pose proof (units_skip _ Hs) as Hk. destruct (c =? 91); [|destruct (c =? 123)].
    + split_literals H; try (by apply (IHe _ _ _ _ Hs) in H).
      injection H as <- <-. split; [by constructor|]. by apply units_cons in Hk as [_ ?].
    + split_literals H; try (by apply (IHm _ [] _ _ Hs) in H; [|split; constructor]).
      injection H as <- <-. split; [by repeat constructor|]. by apply units_cons in Hk as [_ ?].
    + destruct (json_number_len (c :: s)) as [n|]; [|done]. injection H as <- <-.
      split; [constructor; apply valid_Number_of_string|].
      apply units_drop. by apply units_cons.
  - intros s acc v r Hs Hacc H. cbn [json_elements] in H.
    destruct (json_value fuel s) as [[w q]|] eqn:E; [|done]. destruct (IHv _ _ _ Hs E) as [Hw Hq].
    cbn [mbind option_bind] in H. apply units_skip in Hq.
    assert (Forall json_clean (acc ++ [w])) by (apply Forall_app; auto using Forall_cons, Forall_nil).
    split_literals H; try done; apply units_cons in Hq as [_ Hq].
    + injection H as <- <-. split; [by constructor|done].
    + by apply (IHe _ _ _ _ Hq) in H.
  - intros s acc v r Hs [Hn Hacc] H. cbn [json_members] in H. apply units_skip in Hs.
    split_literals H; try done. apply units_cons in Hs as [_ Hs].
    destruct (json_string _) as [[key q]|] eqn:Ek in H; [|done]. destruct (json_string_units _ _ _ Hs Ek) as [Hkey Hq].
    cbn [mbind option_bind] in H. apply units_skip in Hq. split_literals H; try done. apply units_cons in Hq as [_ Hq].
    destruct (json_value fuel _) as [[w q']|] eqn:Ev in H; [|done]. destruct (IHv _ _ _ Hq Ev) as [Hw Hq'].
    cbn [mbind option_bind] in H. apply units_skip in Hq'.
    assert (clean_entries (put_property key w acc)) as Hput.
    { split; [rewrite put_property_keys; by apply js_add_NoDup|by apply put_property_Forall]. }
    split_literals H; try done; apply units_cons in Hq' as [_ Hq'].
    + injection H as <- <-. split; [by apply clean_object; apply Hput|done].
    + by apply (IHm _ _ _ _ Hq') in H.
Qed.

Lemma JSON_parse_clean text v : units text → JSON_parse text = Some v → json_clean v.
Proof.
  unfold JSON_parse. intros Hu H. destruct (json_value _ text) as [[w r]|] eqn:E; [|done].
  cbn [mbind option_bind] in H. destruct (str_eqb _ _); [|done]. injection H as <-.
  by apply (json_reader_clean _) in E as [? _].
Qed.

(** An object is read back with its properties in the order of [Object.keys]. *)
Lemma json_object_roundtrip es : NoDup es.*1 → Forall (λ e, units (fst e) ∧ json_doc (snd e)) es →
  JSON_parse (JSON_stringify2 (JObject es)) = Some (JObject (own_entries es)).
Proof.
  intros Hn Hes. rewrite <- json_doc_roundtrip.
  - unfold JSON_stringify2. cbn [json_text]. by rewrite !(own_entries_map (λ _ x, json_text (0 + 2) x)), own_entries_idemp.
  - apply doc_object; [by apply own_entries_NoDup|apply own_entries_idemp|by rewrite own_entries_perm].
Qed.

Lemma stringify2_object es : ∃ x, JSON_stringify2 (JObject es) = 123 :: x ++ [125].
Proof.
  unfold JSON_stringify2. cbn [json_text]. unfold json_block. destruct (omap _ _) as [|t ts]; [by exists []|].
  eexists. change (default (js "undefined") (Some ?x)) with x. by rewrite !app_assoc.
Qed.

Lemma stringify2_object_trim es : trim (JSON_stringify2 (JObject es)) = JSON_stringify2 (JObject es).
Proof.
  destruct (stringify2_object es) as [x ->]. unfold trim. rewrite (trim_start_id _ 123 (x ++ [125])) by done.
  change (123 :: x ++ [125]) with ((123 :: x) ++ [125]). by rewrite trim_end_snoc.
Qed.
