(* ===== verification/JsonSerialize.v ===== *)
(** * JSON texts with numbers

    [JSON.stringify(value)] and [JSON.stringify(value, null, 2)] as one
    serializer with a gap, and what [JSON.parse] makes of their texts: the
    value with its non-finite numbers replaced by [null], [-0] by [0], and the
    properties of every object in the order of [Object.keys]. *)
From S2P Require Import Prelude JsString JsCollections JsNumber JsNumberFacts JsValue JsJson JsonText.
Local Open Scope Z_scope.

(** ** Numbers *)

(** An integer part of the JSON grammar: no leading zero. *)
Definition json_integer (a : jsstring) : Prop :=
  a = [48] ∨ (all_digits a = true ∧ ∃ c t, a = c :: t ∧ c ≠ 48).

(** Integer part, optional fraction. *)
Inductive json_mantissa : jsstring → Prop :=
| json_mantissa_integer a : json_integer a → json_mantissa a
| json_mantissa_fraction a b : json_integer a → all_digits b = true → b ≠ [] → json_mantissa (a ++ 46 :: b).

(** What may follow a number so that the number ends there. *)
Definition ends_number (s : jsstring) : Prop :=
  ∀ c t, s = c :: t → is_digit c = false ∧ c ≠ 46 ∧ c ≠ 101 ∧ c ≠ 69.

Definition not_digit_first (s : jsstring) : Prop := ∀ c t, s = c :: t → is_digit c = false.

Lemma json_integer_len a s : json_integer a → not_digit_first s →
  match a ++ s with
  | c :: _ => if c =? 48 then Some 1%nat else if is_digit c then Some (span_len is_digit (a ++ s)) else None
  | [] => None
  end = Some (length a).
Proof.
  intros [->|[Ha (c & t & -> & Hc)]] Hs; [done|]. cbn [app]. apply Z.eqb_neq in Hc. rewrite Hc.
  change (c :: t ++ s) with ((c :: t) ++ s). rewrite (span_digits _ s Ha Hs). by apply andb_prop in Ha as [-> _].
Qed.

Lemma json_integer_head a : json_integer a → ∃ c t, a = c :: t ∧ is_digit c = true.
Proof. intros [->|[Ha (c & t & -> & Hc)]]; [by exists 48, []|]. exists c, t. by apply andb_prop in Ha as [-> _]. Qed.

Lemma digit_not_minus c t : is_digit c = true → starts_with (c :: t) (js "-") = false.
Proof.
  intros Hc. change (js "-") with [45]. cbn [starts_with]. destruct (Z.eqb_spec 45 c) as [<-|]; done.
Qed.

(** The exponent part of the scan after a mantissa. *)
Lemma json_mantissa_len M s : json_mantissa M → (∀ c t, s = c :: t → is_digit c = false ∧ c ≠ 46) →
  json_number_len (M ++ s) = Some (length M + fst (scan_exponent s))%nat.
Proof.
  intros HM Hs. assert (not_digit_first s) as Hd by (intros c t E; by apply (Hs c t)).
  unfold json_number_len. destruct HM as [a Ha|a b Ha Hb Hne].
  - destruct (json_integer_head _ Ha) as (c & t & E & Hc).
    replace (starts_with (a ++ s) (js "-")) with false by (rewrite E; symmetry; by apply digit_not_minus).
    cbn [drop]. rewrite drop_0, json_integer_len by done. cbn [mbind option_bind]. rewrite drop_app_length.
    destruct s as [|d r]; [simpl; f_equal; lia|]. destruct (Hs d r eq_refl) as [_ H46]. apply Z.eqb_neq in H46. rewrite H46.
    rewrite drop_0. f_equal. lia.
  - rewrite <- app_assoc. destruct (json_integer_head _ Ha) as (c & t & E & Hc).
    replace (starts_with (a ++ (46 :: b) ++ s) (js "-")) with false by (rewrite E; symmetry; by apply digit_not_minus).
    cbn [drop]. rewrite drop_0, json_integer_len by (done || by intros ? ? [= <- _]).
    cbn [mbind option_bind]. rewrite drop_app_length. cbn [app Z.eqb Pos.eqb].
    rewrite (span_digits b s Hb Hd). destruct (length b) as [|k] eqn:El; [by destruct b|].
    cbn [drop]. rewrite <- El, drop_app_length. f_equal. rewrite length_app. simpl. lia.
Qed.

Lemma scan_exponent_rest x rest : not_digit_first rest →
  scan_exponent (exponent_suffix x ++ rest) = (length (exponent_suffix x), x).
Proof.
  intros Hr. destruct (string_of_nonneg_spec (Z.abs x) ltac:(lia)) as (Hv & Hd & Hne).
  unfold exponent_suffix, scan_exponent. change (js "e") with [101]. cbn [app Z.eqb Pos.eqb orb].
  set (ds := string_of_nonneg (Z.abs x)) in *. pose proof (span_digits ds rest Hd Hr) as Hsp.
  assert (∃ n, length ds = S n) as [n Hn] by (destruct ds; [done|by eexists]).
  destruct (x <? 0) eqn:E; [apply Z.ltb_lt in E|apply Z.ltb_ge in E];
    [change (js "-") with [45]|change (js "+") with [43]]; cbn [app scan_sign Z.eqb Pos.eqb drop];
    rewrite drop_0, Hsp; rewrite Hn at 1; rewrite <- Hn, take_app_length, Hv; simpl; f_equal; lia.
Qed.

Lemma scan_exponent_ends rest : ends_number rest → scan_exponent rest = (0%nat, 0).
Proof.
  intros H. destruct rest as [|c t]; [done|]. destruct (H c t eq_refl) as (_ & _ & H1 & H2). simpl.
  apply Z.eqb_neq in H1, H2. by rewrite H1, H2.
Qed.

(** The texts of numbers. *)
Inductive json_numeral : jsstring → Prop :=
| json_numeral_plain M : json_mantissa M → json_numeral M
| json_numeral_exponent M x : json_mantissa M → json_numeral (M ++ exponent_suffix x).

Lemma json_numeral_len s rest : json_numeral s → ends_number rest → json_number_len (s ++ rest) = Some (length s).
Proof.
  intros [M HM|M x HM] Hr.
  - rewrite (json_mantissa_len M rest HM), scan_exponent_ends by (done || intros c t E; by destruct (Hr c t E) as (? & ? & _)).
    simpl. f_equal. lia.
  - rewrite <- app_assoc, json_mantissa_len; [|done|by intros c t [= <- _]].
    rewrite scan_exponent_rest; [by rewrite length_app|]. intros c t E. by apply (Hr c t).
Qed.

(** The first digit of a positive integer is not zero. *)
Lemma decimal_digits_head fuel : ∀ z acc, 0 < z < 10 ^ Z.of_nat fuel →
  ∃ c t, decimal_digits fuel z acc = c :: t ∧ c ≠ 48.
Proof.
  induction fuel as [|fuel IH]; intros z acc Hz; [simpl in Hz; lia|]. cbn [decimal_digits].
  destruct (Z.ltb_spec z 10) as [H|H].
  - exists (48 + z mod 10), acc. rewrite Z.mod_small by lia. split; [done|lia].
  - apply IH. rewrite Nat2Z.inj_succ, Z.pow_succ_r in Hz by lia.
    split; [apply Z.div_str_pos; lia|apply Z.div_lt_upper_bound; lia].
Qed.

Lemma string_of_positive_head z : 0 < z → json_integer (string_of_nonneg z).
Proof.
  intros Hz. right. split; [by apply string_of_nonneg_spec; lia|]. apply decimal_digits_head. split; [done|].
  rewrite Nat2Z.inj_succ, Z2Nat.id by apply Z.log2_nonneg. pose proof (Z.log2_spec z Hz) as [_ H].
  eapply Z.lt_le_trans; [exact H|]. apply Z.pow_le_mono_l. lia.
Qed.

Lemma json_integer_take n a : (0 < n)%nat → json_integer a → json_integer (take n a).
Proof.
  intros Hn [->|[Ha (c & t & -> & Hc)]]; destruct n as [|n]; try lia; [left; by destruct n|].
  right. split; [by apply all_digits_take|]. by exists c, (take n t).
Qed.

Lemma json_integer_digits a b : json_integer a → a ≠ [48] → all_digits b = true → json_integer (a ++ b).
Proof.
  intros [->|[Ha (c & t & -> & Hc)]] H Hb; [done|]. right. split; [|by exists c, (t ++ b)].
  unfold all_digits in *. by rewrite forallb_app, Ha, Hb.
Qed.

Lemma positive_to_string_json m e : bounded num_prec num_emax m e = true → json_numeral (positive_to_string m e).
Proof.
  intros Hb. unfold positive_to_string, number_digits.
  destruct (shortest_decimal m e) as [s E] eqn:Es. destruct (shortest_reads _ _ _ _ Hb Es) as [Hv Hs].
  pose proof (string_of_positive_head s Hs) as Hi. destruct (string_of_nonneg_spec s ltac:(lia)) as (Hval & Hd & Hne).
  set (ds := string_of_nonneg s) in *. set (k := Z.of_nat (length ds)).
  destruct ((k <=? E + k) && (E + k <=? 21)) eqn:E1; [|destruct ((0 <? E + k) && (E + k <=? 21)) eqn:E2;
    [|destruct ((-6 <? E + k) && (E + k <=? 0)) eqn:E3]]; bool_hyps.
  - apply json_numeral_plain, json_mantissa_integer, json_integer_digits; [done| |apply zeros_digits].
    intros Hz. rewrite Hz in Hval. change (digits_value [48]) with 0 in Hval. lia.
  - apply andb_false_iff in E1. apply json_numeral_plain, json_mantissa_fraction;
      [apply json_integer_take; [lia|done]|by apply all_digits_drop|].
    intros Hl%(f_equal length). rewrite length_drop in Hl. simpl in Hl. lia.
  - apply json_numeral_plain, (json_mantissa_fraction [48]); [by left| |].
    + unfold all_digits. rewrite forallb_app. apply andb_true_intro. split; [apply zeros_digits|done].
    + by destruct (zeros _), ds.
  - apply json_numeral_exponent. destruct ds as [|c [|d ds']] eqn:Eds; [done|by apply json_mantissa_integer|].
    apply (json_mantissa_fraction [c]); [|by apply (all_digits_drop 1) in Hd|done].
    apply (json_integer_take 1 (c :: d :: ds')); [lia|done].
Qed.

(** [-0] is written [0]. *)
Definition unsign_zero (x : number) : number := match x with S754_zero _ => num_zero | _ => x end.

Definition number_first (c : jschar) : bool := is_digit c || (c =? 45).

Lemma json_numeral_head s : json_numeral s → ∃ c t, s = c :: t ∧ is_digit c = true.
Proof.
  assert (∀ M u, json_mantissa M → ∃ c t, M ++ u = c :: t ∧ is_digit c = true) as H.
  { intros M u [a Ha|a b Ha _ _]; destruct (json_integer_head _ Ha) as (c & t & -> & Hc); by exists c; eexists. }
  intros [M HM|M x HM]; [|by apply H]. rewrite <- (app_nil_r M). by apply H.
Qed.

Lemma json_number_len_minus s : (∃ c t, s = c :: t ∧ is_digit c = true) →
  json_number_len (45 :: s) = S <$> json_number_len s.
Proof.
  intros (c & t & -> & Hc). unfold json_number_len. rewrite (digit_not_minus c t Hc).
  change (starts_with (45 :: c :: t) (js "-")) with true. cbn [drop].
  destruct (c =? 48); [done|]. by rewrite Hc.
Qed.

(** [String(x)] of a finite number is a JSON number that reads as it. *)
Lemma String_of_number_json x rest : valid_number x = true → isFinite x = true → ends_number rest →
  json_number_len (String_of_number x ++ rest) = Some (length (String_of_number x))
  ∧ Number_of_string (String_of_number x) = unsign_zero x
  ∧ ∃ c t, String_of_number x = c :: t ∧ number_first c = true.
Proof.
  intros Hv Hf Hr. assert (∀ m e, bounded num_prec num_emax m e = true →
    json_number_len (positive_to_string m e ++ rest) = Some (length (positive_to_string m e))
    ∧ ∃ c t, positive_to_string m e = c :: t ∧ is_digit c = true) as Hpos.
  { intros m e Hb. pose proof (positive_to_string_json m e Hb) as Hj.
    split; [by apply json_numeral_len|by apply json_numeral_head]. }
  unfold number_first. destruct x as [s|[]| |[] m e]; try done.
  - split; [|split; [done|by exists 48, []]]. cbn [String_of_number].
    apply (json_numeral_len (js "0")); [|done]. apply json_numeral_plain, json_mantissa_integer. by left.
  - destruct (Hpos m e Hv) as (Hl & c & t & Ec & Hc). cbn [String_of_number]. change (js "-") with [45]. cbn [app].
    split; [|split; [|by eexists _, _]].
    + rewrite json_number_len_minus; [by rewrite Hl|]. rewrite Ec. cbn [app]. by eexists _, _.
    + destruct (positive_to_string_numeral m e Hv) as (s & E & Hn & Hd).
      unfold Number_of_string. rewrite trim_no_space.
      * cbn [radix_prefix]. rewrite (unsigned_number_scan _ s E c t Ec Hc) by (by apply numeral_scan). by rewrite Hd.
      * cbn [forallb]. apply andb_true_intro. split; [done|]. apply numeral_chars in Hn. rewrite forallb_forall in *.
        intros d Hin. by rewrite numeral_char_not_space by auto.
  - destruct (Hpos m e Hv) as (Hl & c & t & Ec & Hc). cbn [String_of_number app].
    split; [done|split]; [|exists c, t; by rewrite Hc].
    destruct (positive_to_string_numeral m e Hv) as (s & E & Hn & Hd). by rewrite (numeral_number _ _ _ Hn).
Qed.

(** ** Serializing *)

(** A new line and the indentation of a level, when there is a gap. *)
Definition gap_line (gap indent : nat) : jsstring := match gap with O => [] | _ => line indent end.
Definition gap_comma (gap indent : nat) : jsstring := 44 :: gap_line gap indent.
Definition gap_colon (gap : nat) : jsstring := match gap with O => [58] | _ => [58; 32] end.

Definition gap_block (open close : jschar) (gap indent : nat) (items : list jsstring) : jsstring :=
  match items with
  | [] => [open; close]
  | _ => open :: gap_line gap (indent + gap) ++ join (gap_comma gap (indent + gap)) items
         ++ gap_line gap indent ++ [close]
  end.

Definition gap_property (gap : nat) (e : jsstring * option jsstring) : option jsstring :=
  option_map (λ t, JSON_stringify (fst e) ++ gap_colon gap ++ t) (snd e).

(** [None] is [undefined]. *)
Fixpoint serialize (gap indent : nat) (v : jsval) : option jsstring :=
  match v with
  | JUndefined => None
  | JNull => Some (js "null")
  | JBool b => Some (if b then js "true" else js "false")
  | JNumber x => Some (if isFinite x then String_of_number x else js "null")
  | JString s => Some (JSON_stringify s)
  | JArray l => Some (gap_block 91 93 gap indent (map (λ x, default (js "null") (serialize gap (indent + gap) x)) l))
  | JObject es =>
      Some (gap_block 123 125 gap indent
        (omap (gap_property gap) (own_entries (map (λ '(k, x), (k, serialize gap (indent + gap) x)) es))))
  end.

(** [JSON.stringify(v)] *)
Definition JSON_stringify0 (v : jsval) : jsstring := default (js "undefined") (serialize 0 0 v).

Example stringify0_sample :
  JSON_stringify0 (JObject [(js "b", JNumber (num_of_Z 12)); (js "1", JArray [JNull; JUndefined; JBool true])])
  = jq "{`1`:[null,null,true],`b`:12}".
Proof. reflexivity. Qed.

(** With a gap of two this is the serializer of [JSON_stringify2]. *)
Lemma serialize_two v : ∀ indent, serialize 2 indent v = json_text indent v.
Proof.
  revert v. fix IH 1. intros [| |b|x|s|l|es] indent; try reflexivity; cbn [serialize json_text]; apply (f_equal Some).
  - unfold gap_block, json_block.
    replace (map (λ x, default (js "null") (serialize 2 (indent + 2) x)) l)
      with (map (λ x, default (js "null") (json_text (indent + 2) x)) l); [by destruct (map _ l)|].
    induction l as [|x l IHl]; [done|]. cbn [map]. by rewrite IHl, (IH x).
  - replace (map (λ '(k, x), (k, serialize 2 (indent + 2) x)) es)
      with (map (λ '(k, x), (k, json_text (indent + 2) x)) es); [unfold gap_block, json_block; by destruct (omap _ _)|].
    induction es as [|[k x] es IHes]; [done|]. cbn [map]. by rewrite IHes, (IH x).
Qed.

(** ** Reading *)

(** The value that is read back. *)
Fixpoint canon (v : jsval) : jsval :=
  match v with
  | JNumber x => if isFinite x then JNumber (unsign_zero x) else JNull
  | JArray l => JArray (map canon l)
  | JObject es => JObject (own_entries (map (λ '(k, x), (k, canon x)) es))
  | _ => v
  end.

Definition reads_before (v : jsval) (t : jsstring) : Prop :=
  (∀ fuel rest, (2 * length t ≤ fuel)%nat → ends_number rest → json_value fuel (t ++ rest) = Some (v, rest))
  ∧ t ≠ [].

Lemma skip_gap gap n s : skip_json_space (gap_line gap n ++ s) = skip_json_space s.
Proof. destruct gap; [done|]. apply skip_line. Qed.

Lemma json_value_skip fuel s s' : skip_json_space s = skip_json_space s' → json_value fuel s = json_value fuel s'.
Proof. intros H. destruct fuel; [done|]. cbn [json_value]. by rewrite H. Qed.

Lemma json_value_gap fuel gap n s : json_value fuel (gap_line gap n ++ s) = json_value fuel s.
Proof. apply json_value_skip, skip_gap. Qed.

Lemma ends_gap gap n c s : c = 93 ∨ c = 125 ∨ c = 44 → ends_number (gap_line gap n ++ c :: s).
Proof. intros Hc d t E. destruct gap; cbn [gap_line line app] in E; injection E as <- _; by destruct Hc as [->|[->| ->]]. Qed.

Lemma ends_cons c s : c = 93 ∨ c = 125 ∨ c = 44 → ends_number (c :: s).
Proof. apply (ends_gap 0 0). Qed.

Lemma elements_read gap n m vs ts : Forall2 reads_before vs ts → vs ≠ [] → ∀ fuel acc rest,
  (2 * length (join (gap_comma gap n) ts) + 1 ≤ fuel)%nat →
  json_elements fuel (gap_line gap n ++ join (gap_comma gap n) ts ++ gap_line gap m ++ 93 :: rest) acc
  = Some (JArray (acc ++ vs), rest).
Proof.
  induction 1 as [|v t vs ts [Hv _] Hr IH]; intros Hne fuel acc rest Hf; [done|]. destruct fuel as [|fuel]; [lia|].
  cbn [json_elements]. rewrite json_value_gap. destruct (decide (vs = [])) as [->|Hvs].
  - inversion Hr; subst. cbn [join] in *. rewrite Hv by (lia || apply ends_gap; auto). cbn [mbind option_bind].
    by rewrite skip_gap.
  - assert (ts ≠ []) as Hts by (destruct Hr; congruence). rewrite join_cons in * by done.
    rewrite !length_app in Hf. cbn [length gap_comma] in Hf. rewrite <- !app_assoc, Hv by (lia || apply ends_cons; auto).
    unfold gap_comma at 1. cbn [mbind option_bind app]. rewrite skip_space_cons by done. rewrite IH by (done || lia). by rewrite <- app_assoc.
Qed.

(** The text of one property. *)
Definition property_text (gap : nat) (e : jsstring * jsval) (t : jsstring) : Prop :=
  ∃ u, units (fst e) ∧ reads_before (snd e) u ∧ t = JSON_stringify (fst e) ++ gap_colon gap ++ u.

Lemma colon_skip gap s : ∃ s', gap_colon gap ++ s = 58 :: s' ∧ skip_json_space s' = skip_json_space s.
Proof. destruct gap; by eexists. Qed.

Lemma member_read gap n k v u fuel acc r : units k → reads_before v u → k ∉ acc.*1 → ends_number r →
  (2 * length u ≤ fuel)%nat →
  json_members (S fuel) (gap_line gap n ++ (JSON_stringify k ++ gap_colon gap ++ u) ++ r) acc
  = match skip_json_space r with
    | 44 :: r' => json_members fuel r' (acc ++ [(k, v)])
    | 125 :: r' => Some (JObject (acc ++ [(k, v)]), r')
    | _ => None
    end.
Proof.
  intros Hk [Hv _] Hn Hr Hu. cbn [json_members]. rewrite skip_gap. unfold JSON_stringify. cbn [app].
  rewrite skip_space_cons by done. rewrite <- !app_assoc. cbn [app]. rewrite json_string_quote by done.
  cbn [mbind option_bind]. destruct (colon_skip gap (u ++ r)) as (s' & -> & Hs').
  rewrite skip_space_cons by done. rewrite (json_value_skip _ s' (u ++ r) Hs'), Hv by done.
  cbn [mbind option_bind]. by rewrite put_property_fresh.
Qed.

Lemma members_read gap n m es ts : Forall2 (property_text gap) es ts → es ≠ [] →
  ∀ fuel acc rest, NoDup (acc ++ es).*1 → (2 * length (join (gap_comma gap n) ts) + 1 ≤ fuel)%nat →
  json_members fuel (gap_line gap n ++ join (gap_comma gap n) ts ++ gap_line gap m ++ 125 :: rest) acc
  = Some (JObject (acc ++ es), rest).
Proof.
  induction 1 as [|[k v] t es ts (u & Hk & Hv & ->) Hr IH]; intros Hne fuel acc rest Hn Hf; [done|].
  destruct fuel as [|fuel]; [lia|]. cbn [fst snd] in *.
  assert (k ∉ acc.*1) as Hfresh.
  { rewrite fmap_app in Hn. apply NoDup_app in Hn as (_ & Hd & _). intros Hin. apply (Hd _ Hin). rewrite fmap_cons. left. }
  destruct (decide (es = [])) as [->|Hes].
  - inversion Hr; subst. cbn [join] in *. rewrite !length_app in Hf.
    rewrite (member_read gap n k v) by (done || lia || apply ends_gap; auto). by rewrite skip_gap.
  - assert (ts ≠ []) as Hts by (destruct Hr; congruence). rewrite join_cons in * by done.
    rewrite !length_app in Hf. cbn [length gap_comma] in Hf. rewrite <- (app_assoc _ _ (gap_line gap m ++ _)), <- (app_assoc _ (join _ _) _).
    rewrite (member_read gap n k v) by (done || lia || apply ends_cons; auto).
    unfold gap_comma at 1. cbn [app]. rewrite skip_space_cons by done.
    rewrite IH by (done || rewrite <- ?app_assoc; done || lia). by rewrite <- app_assoc.
Qed.

Lemma reads_before_not_bracket v t rest : reads_before v t → ends_number rest → ∀ r, skip_json_space (t ++ rest) ≠ 93 :: r.
Proof.
  intros [H _] Hr r E. specialize (H (S (2 * length t)) rest ltac:(lia) Hr). cbn [json_value] in H. rewrite E in H.
  discriminate H.
Qed.

Lemma gap_block_cons open close gap indent ts : ts ≠ [] → gap_block open close gap indent ts
  = open :: gap_line gap (indent + gap) ++ join (gap_comma gap (indent + gap)) ts ++ gap_line gap indent ++ [close].
Proof. by destruct ts. Qed.

Lemma array_reads gap indent vs ts : Forall2 reads_before vs ts → reads_before (JArray vs) (gap_block 91 93 gap indent ts).
Proof.
  intros H. split; [|by destruct ts]. intros fuel rest Hf _. destruct fuel as [|fuel]; [destruct H; simpl in Hf; lia|].
  destruct (decide (vs = [])) as [->|Hvs]; [by inversion H|].
  assert (ts ≠ []) as Hts by (destruct H; congruence).
  rewrite gap_block_cons in * by done. cbn [app length] in *. rewrite !length_app in Hf.
  cbn [json_value]. rewrite skip_space_cons by done. cbn [starts_with js map Z.eqb Pos.eqb andb].
  rewrite <- !app_assoc. cbn [app]. rewrite not_bracket_match.
  - rewrite (elements_read gap _ _ vs ts) by (done || lia). done.
  - rewrite skip_gap. destruct H as [|v t vs ts Hv Hr]; [done|]. destruct Hr; rewrite ?join_cons, <- ?app_assoc by done;
      (apply (reads_before_not_bracket v); [done|]); [apply ends_gap|apply ends_cons]; auto.
Qed.

Lemma object_reads gap indent es ts : Forall2 (property_text gap) es ts →
  NoDup es.*1 → reads_before (JObject es) (gap_block 123 125 gap indent ts).
Proof.
  intros H Hn. split; [|by destruct ts]. intros fuel rest Hf _. destruct fuel as [|fuel]; [destruct H; simpl in Hf; lia|].
  destruct (decide (es = [])) as [->|Hes]; [by inversion H|].
  assert (ts ≠ []) as Hts by (destruct H; congruence).
  rewrite gap_block_cons in * by done. cbn [app length] in *. rewrite !length_app in Hf.
  
  assert (∃ r, join (gap_comma gap (indent + gap)) ts = 34 :: r) as [r Er].
  { destruct H as [|e t es ts (u & _ & _ & ->) Hr]; [done|]. unfold JSON_stringify. destruct Hr; by eexists. }
  cbn [json_value]. rewrite skip_space_cons by done. cbn [starts_with js map Z.eqb Pos.eqb andb].
  rewrite <- !app_assoc. cbn [app].
  replace (skip_json_space (gap_line gap (indent + gap) ++ join (gap_comma gap (indent + gap)) ts ++ gap_line gap indent ++ 125 :: rest))
    with (34 :: r ++ gap_line gap indent ++ 125 :: rest)
    by (rewrite skip_gap, Er; cbn [app]; by rewrite skip_space_cons).
  by rewrite (members_read gap _ _ es ts) by (done || lia).
Qed.

Lemma number_first_reads c t n fuel rest : number_first c = true →
  json_number_len (c :: t ++ rest) = Some n → json_value (S fuel) (c :: t ++ rest) =
    Some (JNumber (Number_of_string (take n (c :: t ++ rest))), drop n (c :: t ++ rest)).
Proof.
  unfold number_first, is_digit. intros Hc Hn. cbn [json_value]. rewrite skip_space_cons by (unfold is_json_space; lia).
  change (js "null") with [110; 117; 108; 108]. change (js "true") with [116; 114; 117; 101].
  change (js "false") with [102; 97; 108; 115; 101]. cbn [starts_with].
  repeat match goal with |- context [?k =? c] => destruct (Z.eqb_spec k c) as [<-|]; [discriminate Hc|]; cbn [andb] end.
  repeat match goal with |- context [if c =? ?k then _ else _] => destruct (Z.eqb_spec c k) as [->|]; [discriminate Hc|] end.
  by rewrite Hn.
Qed.

Lemma number_reads x : valid_number x = true → isFinite x = true →
  reads_before (JNumber (unsign_zero x)) (String_of_number x).
Proof.
  intros Hv Hf. split.
  - intros [|fuel] rest Hl Hr; destruct (String_of_number_json x rest Hv Hf Hr) as (Hn & Hx & c & t & E & Hc);
      rewrite E in *; [simpl in Hl; lia|]. cbn [app] in *. rewrite (number_first_reads c t _ fuel rest Hc Hn).
    rewrite app_comm_cons, take_app_length, drop_app_length. by rewrite Hx.
  - destruct (String_of_number_json x [] Hv Hf ltac:(done)) as (_ & _ & c & t & -> & _). done.
Qed.

Lemma string_reads s : units s → reads_before (JString s) (JSON_stringify s).
Proof.
  intros Hs. split; [|done]. intros [|fuel] rest Hf _; [simpl in Hf; lia|]. unfold JSON_stringify. cbn [app json_value].
  rewrite skip_space_cons by done. cbn [starts_with js map Z.eqb Pos.eqb andb].
  rewrite <- app_assoc. cbn [app]. by rewrite json_string_quote.
Qed.

Lemma reads_weaken v t : reads v t → t ≠ [] → reads_before v t.
Proof. intros H Ht. split; [|done]. intros. by apply H. Qed.

Lemma literals_read : reads_before JNull (js "null") ∧ reads_before (JBool true) (js "true") ∧ reads_before (JBool false) (js "false").
Proof. destruct json_literal_reads as (? & ? & ?). split_and!; by apply reads_weaken. Qed.

(** Names and texts of the entries of a written object. *)
Lemma entries_text gap indent es :
  Forall (λ e, units (fst e) ∧ ∃ t, serialize gap indent (snd e) = Some t ∧ reads_before (canon (snd e)) t) es →
  Forall2 (property_text gap) (map (λ '(k, x), (k, canon x)) es)
    (omap (gap_property gap) (map (λ '(k, x), (k, serialize gap indent x)) es)).
Proof.
  induction 1 as [|[k x] es (Hk & t & Et & Ht) Hes IH]; cbn [map omap list_omap]; [constructor|].
  unfold gap_property at 1. cbn [fst snd] in *. rewrite Et. cbn [option_map]. constructor; [by exists t|exact IH].
Qed.

(** Every parsed value is written as a text that is read as its canonical form. *)
Lemma serialize_reads v : json_clean v → ∀ gap indent, ∃ t, serialize gap indent v = Some t ∧ reads_before (canon v) t.
Proof.
  revert v. fix IH 2. intros v [|b|x Hx|s Hs|l Hl|es Hn Hes] gap indent; cbn [serialize canon]; eexists; (split; [reflexivity|]).
  - apply literals_read.
  - destruct b; apply literals_read.
  - destruct (isFinite x) eqn:E; [by apply number_reads|apply literals_read].
  - by apply string_reads.
  - apply array_reads. induction Hl as [|x l Hx Hl IHl]; cbn [map]; constructor; [|exact IHl].
    destruct (IH x Hx gap (indent + gap)%nat) as (t & -> & Ht). exact Ht.
  - rewrite (own_entries_map (λ _ x, serialize gap (indent + gap) x)), (own_entries_map (λ _ x, canon x)).
    apply object_reads.
    + apply entries_text. rewrite own_entries_perm. clear Hn.
      induction Hes as [|[k x] es [Hk Hx] Hes IHes]; constructor; [|exact IHes].
      split; [exact Hk|exact (IH x Hx gap (indent + gap)%nat)].
    + assert ((map (λ '(k, x), (k, canon x)) (own_entries es)).*1 = (own_entries es).*1) as ->.
      { generalize (own_entries es). intros l. induction l as [|[k x] l IHl]; [reflexivity|]. cbn. f_equal. exact IHl. }
      by apply own_entries_NoDup.
Qed.

Lemma reads_parse v t : reads_before v t → JSON_parse t = Some v.
Proof.
  intros [H _]. unfold JSON_parse. specialize (H (2 * S (length t))%nat [] ltac:(lia) ltac:(done)). rewrite app_nil_r in H.
  by rewrite H.
Qed.

Lemma stringify2_parse v : json_clean v → JSON_parse (JSON_stringify2 v) = Some (canon v).
Proof.
  intros H. destruct (serialize_reads v H 2 0) as (t & Et & Ht). unfold JSON_stringify2.
  rewrite <- serialize_two, Et. by apply reads_parse.
Qed.

Lemma stringify0_parse v : json_clean v → JSON_parse (JSON_stringify0 v) = Some (canon v).
Proof.
  intros H. destruct (serialize_reads v H 0 0) as (t & Et & Ht). unfold JSON_stringify0. rewrite Et. by apply reads_parse.
Qed.

(** ** The canonical form *)

Lemma canon_keys (es : list (jsstring * jsval)) : (map (λ '(k, x), (k, canon x)) es).*1 = es.*1.
Proof. induction es as [|[k x] es IH]; [done|]. cbn. f_equal. exact IH. Qed.

(** A value and its canonical form have the same text. *)
Lemma serialize_canon v : ∀ gap indent, serialize gap indent (canon v) = serialize gap indent v.
Proof.
  revert v. fix IH 1. intros [| |b|x|s|l|es] gap indent; try reflexivity; cbn [serialize canon].
  - destruct (isFinite x) eqn:E; [|reflexivity]. cbn [serialize]. by destruct x.
  - do 2 f_equal. induction l as [|x l IHl]; [reflexivity|]. cbn [map]. rewrite IH. f_equal. exact IHl.
  - do 2 f_equal. rewrite (own_entries_map (λ _ x, serialize gap (indent + gap) x)), own_entries_idemp.
    rewrite <- (own_entries_map (λ _ x, serialize gap (indent + gap) x)). do 2 f_equal.
    induction es as [|[k x] es IHes]; [reflexivity|]. cbn [map]. rewrite IH. f_equal. exact IHes.
Qed.

Lemma stringify2_canon v : JSON_stringify2 (canon v) = JSON_stringify2 v.
Proof. unfold JSON_stringify2. by rewrite <- !serialize_two, serialize_canon. Qed.

Lemma canon_clean v : json_clean v → json_clean (canon v).
Proof.
  revert v. fix IH 2. intros v [|b|x Hx|s Hs|l Hl|es Hn Hes]; cbn [canon]; try (by constructor).
  - destruct (isFinite x); [constructor; by destruct x|constructor].
  - constructor. induction Hl as [|x l Hx Hl IHl]; cbn [map]; constructor; [exact (IH x Hx)|exact IHl].
  - constructor; [apply own_entries_NoDup; by rewrite canon_keys|]. rewrite own_entries_perm. clear Hn.
    induction Hes as [|[k x] es [Hk Hx] Hes IHes]; cbn [map]; constructor; [|exact IHes].
    split; [exact Hk|exact (IH x Hx)].
Qed.

Lemma own_property_map_get {A} (key : jsstring) (es : list (jsstring * A)) : own_property key es = map_get key es.
Proof.
  unfold own_property. induction es as [|[k x] es IH]; [done|]. cbn [find map_get].
  destruct (str_eqb k key) eqn:E; str_hyps; case_decide; done.
Qed.

Lemma own_property_canon key es : NoDup es.*1 →
  own_property key (own_entries (map (λ '(k, x), (k, canon x)) es)) = canon <$> own_property key es.
Proof.
  intros Hn. rewrite !own_property_map_get. rewrite <- (map_get_perm (map (λ '(k, x), (k, canon x)) es));
    [|by rewrite canon_keys|by rewrite own_entries_perm].
  clear Hn. induction es as [|[k x] es IH]; [done|]. cbn [map map_get]. by case_decide.
Qed.

Lemma own_property_put key k v es :
  own_property key (put_property k v es) = if decide (k = key) then Some v else own_property key es.
Proof.
  rewrite !own_property_map_get, <- map_get_set. f_equal.
  induction es as [|[k' w] es IH]; cbn [put_property map_set]; [done|].
  destruct (str_eqb k' k) eqn:E; str_hyps; case_decide; by rewrite ?IH.
Qed.

Lemma put_property_NoDup k v (es : list (jsstring * jsval)) : NoDup es.*1 → NoDup (put_property k v es).*1.
Proof. rewrite put_property_keys. apply js_add_NoDup. Qed.
