(* ===== verification/Host.v ===== *)
(** * The host environment

    What the program takes from the JavaScript engine and that is data of the
    environment rather than language: the wording of the engine's own type
    errors, the Unicode case mapping behind [toLowerCase], the clock behind
    [new Date()], and the time-zone database behind [Intl.DateTimeFormat].
    Every definition that needs one of them takes it from the class [Host];
    what the proofs rely on is stated by [HostLaws]. *)
From S2P Require Import Prelude JsString JsNumber.
Local Open Scope Z_scope.

(** A [Date]: its time value in milliseconds since the epoch, [None] when the
    date is invalid ([getTime()] is NaN). *)
Abbreviation Date := (option Z) (only parsing).

Class Host := {
  (** The message of the [TypeError] for reading a property of [undefined]. *)
  undefined_read_message : jsstring → jsstring;
  (** The message of the [SyntaxError] of [JSON.parse]. *)
  json_error_message : jsstring → jsstring;
  (** [String.prototype.toLowerCase] *)
  toLowerCase : jsstring → jsstring;
  (** [a.localeCompare(b)]: its sign. *)
  localeCompare : jsstring → jsstring → Z;
  (** [new Date()] *)
  current_date : Date;
  (** [new Intl.DateTimeFormat('en-US', { timeZone, ... })]: [None] when the
      constructor throws a [RangeError]; otherwise the resolved time zone and
      [formatToParts], the list of part types and values. *)
  intl_format : jsstring → option (jsstring * (Z → list (jsstring * jsstring)));
  (** Whether [new Intl.DateTimeFormat('en', { timeZone }).format(0)] returns. *)
  valid_time_zone : jsstring → bool;
}.

(** Lower-casing an ASCII code unit. *)
Definition ascii_lower (c : jschar) : jschar := if is_upper c then c + 32 else c.

Definition is_ascii (c : jschar) : bool := (0 <=? c) && (c <? 128).

(** [Object.fromEntries(parts)[key]]: the last entry with the key wins. *)
Definition part_value (key : jsstring) (parts : list (jsstring * jsstring)) : option jsstring :=
  option_map snd (find (λ '(k, _), str_eqb k key) (rev parts)).

(** The documented behaviour of the environment the proofs use: lower-casing
    agrees with the ASCII mapping on ASCII strings, and a formatter built for
    numeric hour, minute, month and day in a 23-hour cycle, with a short
    weekday, yields decimal values in their calendar ranges. *)
Definition SHORT_WEEKDAYS : list jsstring :=
  [js "Sun"; js "Mon"; js "Tue"; js "Wed"; js "Thu"; js "Fri"; js "Sat"].

Definition numeric_part (key : jsstring) (lo hi : Z) (parts : list (jsstring * jsstring)) : Prop :=
  ∃ v n, part_value key parts = Some v ∧ Number_of_string v = num_of_Z n ∧ lo ≤ n ≤ hi.

Class HostLaws (host : Host) := {
  toLowerCase_ascii s : forallb is_ascii s = true → toLowerCase s = map ascii_lower s;
  intl_ranges zone resolved format t :
    intl_format zone = Some (resolved, format) →
    numeric_part (js "hour") 0 23 (format t) ∧
    numeric_part (js "minute") 0 59 (format t) ∧
    numeric_part (js "month") 1 12 (format t) ∧
    numeric_part (js "day") 1 31 (format t) ∧
    (∃ w, part_value (js "weekday") (format t) = Some w ∧ In w SHORT_WEEKDAYS);
}.

(** A concrete environment: ASCII lower-casing and no time zone but the
    fallback.  It satisfies the laws. *)
Definition plain_host : Host := {|
  undefined_read_message property := js "undefined has no property " ++ property;
  json_error_message text := js "invalid JSON: " ++ text;
  toLowerCase := map ascii_lower;
  localeCompare a b := if str_ltb a b then -1 else if str_ltb b a then 1 else 0;
  current_date := Some 0;
  intl_format _ := None;
  valid_time_zone zone := str_eqb zone (js "UTC");
|}.

#[export] Instance plain_host_laws : HostLaws plain_host.
Proof. split; done. Qed.
