(* ===== verification/BillingTypes.v ===== *)
(** * The billing-expression language: syntax tree, diagnostics, traversal

    Models [web/src/features/pricing/lib/billing-expression/types.ts]: the
    variables and functions of the language, the syntax tree with its source
    spans, the diagnostics, and the bounded postorder traversal
    [visitExpression] with its explicit stack. *)
From S2P Require Import Prelude JsString JsNumber.
Local Open Scope Z_scope.

(** ** Variables and functions *)
Inductive TokenVariable :=
| var_p | var_c | var_len | var_cr | var_cc | var_cc1h
| var_img | var_img_cr | var_img_o | var_ai | var_ao.

Definition TOKEN_VARIABLES : list TokenVariable :=
  [var_p; var_c; var_len; var_cr; var_cc; var_cc1h;
   var_img; var_img_cr; var_img_o; var_ai; var_ao].

Inductive BillingVariable :=
| token_variable (v : TokenVariable)
| image_count.

Definition BILLING_VARIABLES : list BillingVariable :=
  map token_variable TOKEN_VARIABLES ++ [image_count].

Definition token_variable_name (v : TokenVariable) : jsstring :=
  match v with
  | var_p => js "p" | var_c => js "c" | var_len => js "len" | var_cr => js "cr"
  | var_cc => js "cc" | var_cc1h => js "cc1h" | var_img => js "img"
  | var_img_cr => js "img_cr" | var_img_o => js "img_o"
  | var_ai => js "ai" | var_ao => js "ao"
  end.

Definition variable_name (v : BillingVariable) : jsstring :=
  match v with
  | token_variable t => token_variable_name t
  | image_count => js "image_count"
  end.

(** [BILLING_VARIABLES.includes(text)], with the variable it names. *)
Definition variable_of_text (text : jsstring) : option BillingVariable :=
  find (λ v, str_eqb text (variable_name v)) BILLING_VARIABLES.

#[global] Instance TokenVariable_eq_dec : EqDecision TokenVariable.
Proof. solve_decision. Defined.
#[global] Instance BillingVariable_eq_dec : EqDecision BillingVariable.
Proof. solve_decision. Defined.

Inductive TimeFunction := time_hour | time_minute | time_weekday | time_month | time_day.

#[global] Instance TimeFunction_eq_dec : EqDecision TimeFunction.
Proof. solve_decision. Defined.

Definition TIME_FUNCTIONS : list TimeFunction :=
  [time_hour; time_minute; time_weekday; time_month; time_day].

Definition time_function_name (f : TimeFunction) : jsstring :=
  match f with
  | time_hour => js "hour" | time_minute => js "minute" | time_weekday => js "weekday"
  | time_month => js "month" | time_day => js "day"
  end.

(** [TIME_FUNCTIONS.includes(name)], with the function it names. *)
Definition time_function_of_name (name : jsstring) : option TimeFunction :=
  find (λ f, str_eqb name (time_function_name f)) TIME_FUNCTIONS.

Definition is_time_function (name : jsstring) : bool :=
  match time_function_of_name name with Some _ => true | None => false end.

(** Each function with its number of arguments. *)
Definition BILLING_FUNCTIONS : list (jsstring * nat) :=
  [(js "tier", 2%nat); (js "fixed", 1%nat); (js "param", 1%nat); (js "header", 1%nat);
   (js "has", 2%nat); (js "u", 1%nat); (js "hour", 1%nat); (js "minute", 1%nat);
   (js "weekday", 1%nat); (js "month", 1%nat); (js "day", 1%nat); (js "min", 2%nat);
   (js "max", 2%nat); (js "abs", 1%nat); (js "ceil", 1%nat); (js "floor", 1%nat)].

(** [BILLING_FUNCTIONS[name]], [None] when [Object.hasOwn] says it is absent. *)
Definition function_arity (name : jsstring) : option nat :=
  option_map snd (find (λ '(n, _), str_eqb name n) BILLING_FUNCTIONS).

(** ** The syntax tree *)
Inductive literal_value :=
| lit_null
| lit_bool (b : bool)
| lit_number (x : number)
| lit_string (s : jsstring).

(** [start] and [end] are the source span of the node.  A node object of the
    code is identified by its span: [Parser] proves that the spans of the nodes
    of a parsed tree are pairwise different. *)
Record Span := mkSpan { sp_start : nat; sp_end : nat }.

Inductive ExpressionNode :=
| literal (value : literal_value) (integer : option bool) (sp : Span)
| variable (name : BillingVariable) (sp : Span)
| call (name : jsstring) (args : list ExpressionNode) (sp : Span)
| unary (operator : jsstring) (operand : ExpressionNode) (sp : Span)
| binary (operator : jsstring) (left right : ExpressionNode) (sp : Span)
| conditional (condition yes no : ExpressionNode) (sp : Span).

Definition node_span (n : ExpressionNode) : Span :=
  match n with
  | literal _ _ sp | variable _ sp | call _ _ sp | unary _ _ sp
  | binary _ _ _ sp | conditional _ _ _ sp => sp
  end.

Definition node_start (n : ExpressionNode) : nat := sp_start (node_span n).
Definition node_end (n : ExpressionNode) : nat := sp_end (node_span n).

(** [{ ...node, start, end }] *)
Definition with_span (n : ExpressionNode) (sp : Span) : ExpressionNode :=
  match n with
  | literal v i _ => literal v i sp
  | variable x _ => variable x sp
  | call f args _ => call f args sp
  | unary op a _ => unary op a sp
  | binary op l r _ => binary op l r sp
  | conditional c y n' _ => conditional c y n' sp
  end.

Definition span_eqb (a b : Span) : bool :=
  (sp_start a =? sp_start b)%nat && (sp_end a =? sp_end b)%nat.

(** [a === b] on node objects. *)
Definition same_node (a b : ExpressionNode) : bool := span_eqb (node_span a) (node_span b).

Lemma span_eqb_eq a b : span_eqb a b = true ↔ a = b.
Proof.
  unfold span_eqb. rewrite andb_true_iff, !Nat.eqb_eq. destruct a, b; simpl.
  split; [by intros [-> ->]|by intros [= -> ->]].
Qed.

Lemma same_node_refl n : same_node n n = true.
Proof. by apply span_eqb_eq. Qed.

Definition children_of (n : ExpressionNode) : list ExpressionNode :=
  match n with
  | call _ args _ => args
  | unary _ operand _ => [operand]
  | binary _ l r _ => [l; r]
  | conditional condition yes no _ => [condition; yes; no]
  | _ => []
  end.

(** ** Diagnostics *)
Inductive DiagnosticCode :=
| diag_syntax | diag_unsupported | diag_missing_context | diag_type | diag_number | diag_limit.

Record ExpressionDiagnostic := mkDiagnostic {
  diag_code : DiagnosticCode;
  diag_detail : jsstring;
  diag_position : option nat;
}.

(** What the code can throw: its own error class, or an engine [Error] with
    its message. *)
Inductive exn :=
| BillingExpressionError (d : ExpressionDiagnostic)
| JsError (message : jsstring).

Abbreviation result := (outcome exn).

Definition billing_error (code : DiagnosticCode) (detail : jsstring) (position : option nat) : exn :=
  BillingExpressionError (mkDiagnostic code detail position).

Inductive FailureStatus := failure_unsupported | failure_invalid | failure_missing_context.

Record ExpressionFailure := mkFailure {
  failure_status : FailureStatus;
  failure_diagnostic : ExpressionDiagnostic;
}.

Definition expressionFailure (error : exn) : ExpressionFailure :=
  let diagnostic :=
    match error with
    | BillingExpressionError d => d
    | JsError message => mkDiagnostic diag_syntax message None
    end in
  let status :=
    match diag_code diagnostic with
    | diag_missing_context => failure_missing_context
    | diag_unsupported | diag_limit => failure_unsupported
    | _ => failure_invalid
    end in
  mkFailure status diagnostic.

(** ** Traversal *)
Fixpoint node_size (n : ExpressionNode) : nat :=
  S match n with
    | literal _ _ _ | variable _ _ => 0
    | call _ args _ => sum_list_with node_size args
    | unary _ a _ => node_size a
    | binary _ l r _ => node_size l + node_size r
    | conditional c y n' _ => node_size c + node_size y + node_size n'
    end.

(** The number of edges of the longest path from the root. *)
Fixpoint node_depth (n : ExpressionNode) : nat :=
  match n with
  | literal _ _ _ | variable _ _ => 0
  | call _ args _ => max_list_with (S ∘ node_depth) args
  | unary _ a _ => S (node_depth a)
  | binary _ l r _ => S (node_depth l `max` node_depth r)
  | conditional c y n' _ => S (node_depth c `max` node_depth y `max` node_depth n')
  end.

Record visit_entry := mkEntry {
  entry_node : ExpressionNode;
  entry_visited : bool;
  entry_depth : Z;
}.

Definition depth_error : exn := billing_error diag_limit (js "expression depth") None.

Section Visit.
Context {St : Type} (visitor : ExpressionNode → St → result St).

(** One turn of the loop pops an entry: it is visited when its children have
    been, otherwise it goes back under them.  The head of the list is the top
    of the stack. *)
Fixpoint visit_loop (fuel : nat) (stack : list visit_entry) (s : St) : result St :=
  match stack with
  | [] => Ok s
  | entry :: rest =>
      match fuel with
      | O => NoFuel
      | S fuel' =>
          if 256 <? entry_depth entry then throw depth_error
          else if entry_visited entry then
            s' ← visitor (entry_node entry) s; visit_loop fuel' rest s'
          else
            visit_loop fuel'
              (map (λ child, mkEntry child false (entry_depth entry + 1))
                   (children_of (entry_node entry))
               ++ mkEntry (entry_node entry) true (entry_depth entry) :: rest) s
      end
  end.

(** Every node is popped twice. *)
Definition visitExpression (node : ExpressionNode) (s : St) : result St :=
  visit_loop (2 * node_size node) [mkEntry node false 0] s.
End Visit.

(** [set.add(x)] on a JavaScript set, kept in insertion order. *)
Definition set_add {A} `{EqDecision A} (x : A) (l : list A) : list A :=
  if decide (x ∈ l) then l else l ++ [x].

Record Dependencies := mkDependencies {
  dep_variables : list BillingVariable;
  dep_functions : list jsstring;
}.

Definition dependency_visitor (part : ExpressionNode) (d : Dependencies) : result Dependencies :=
  Ok match part with
     | variable name _ => mkDependencies (set_add name (dep_variables d)) (dep_functions d)
     | call name _ _ => mkDependencies (dep_variables d) (set_add name (dep_functions d))
     | _ => d
     end.

Definition expressionDependencies (node : ExpressionNode) : result Dependencies :=
  visitExpression dependency_visitor node (mkDependencies [] []).

(** ** Induction over the tree *)

(** Every node follows from its children. *)
Lemma node_children_ind (P : ExpressionNode → Prop) :
  (∀ n, Forall P (children_of n) → P n) → ∀ n, P n.
Proof.
  intros H. fix IH 1. intros n. apply H.
  destruct n as [| |f args sp|op a sp|op l r sp|c y n' sp]; simpl; repeat constructor; auto.
  induction args as [|a args IHa]; constructor; auto.
Qed.

Lemma node_size_children n : node_size n = S (sum_list_with node_size (children_of n)).
Proof. destruct n; simpl; lia. Qed.

Lemma node_depth_children n :
  node_depth n = max_list_with (S ∘ node_depth) (children_of n).
Proof. destruct n; simpl; lia. Qed.

(** The nodes of a tree, children before their parent and left to right. *)
Fixpoint postorder (n : ExpressionNode) : list ExpressionNode :=
  match n with
  | literal _ _ _ | variable _ _ => []
  | call _ args _ => flat_map postorder args
  | unary _ a _ => postorder a
  | binary _ l r _ => postorder l ++ postorder r
  | conditional c y n' _ => postorder c ++ postorder y ++ postorder n'
  end ++ [n].

Lemma postorder_children n : postorder n = flat_map postorder (children_of n) ++ [n].
Proof. destruct n; simpl; rewrite ?app_nil_r; done. Qed.

(** [visit_at d n] is the traversal as a recursive function: the depth guard,
    the children from left to right, the node. *)
Section VisitSpec.
Context {St : Type} (visitor : ExpressionNode → St → result St).

Fixpoint visit_at (d : Z) (n : ExpressionNode) (s : St) : result St :=
  if 256 <? d then throw depth_error
  else
    s' ← match n with
         | literal _ _ _ | variable _ _ => Ok s
         | call _ args _ =>
             (fix go (l : list ExpressionNode) (s : St) : result St :=
                match l with
                | [] => Ok s
                | a :: l' => s' ← visit_at (d + 1) a s; go l' s'
                end) args s
         | unary _ a _ => visit_at (d + 1) a s
         | binary _ l r _ => s1 ← visit_at (d + 1) l s; visit_at (d + 1) r s1
         | conditional c y n' _ =>
             s1 ← visit_at (d + 1) c s; s2 ← visit_at (d + 1) y s1; visit_at (d + 1) n' s2
         end;
    visitor n s'.

Lemma visit_at_unfold d n s :
  visit_at d n s =
  if 256 <? d then throw depth_error
  else (foldM (visit_at (d + 1)) (children_of n) s ≫= visitor n).
Proof.
  destruct n as [| |f args sp|op a sp|op l r sp|c y n' sp]; simpl;
    destruct (256 <? d); try done.
  - f_equal. revert s. induction args as [|a args IH]; intros s; simpl; [done|].
    destruct (visit_at (d + 1) a s); simpl; auto.
  - by destruct (visit_at (d + 1) a s).
  - destruct (visit_at (d + 1) l s) as [s1| |]; simpl; [|done|done].
    by destruct (visit_at (d + 1) r s1).
  - destruct (visit_at (d + 1) c s) as [s1| |]; simpl; [|done|done].
    destruct (visit_at (d + 1) y s1) as [s2| |]; simpl; [|done|done].
    by destruct (visit_at (d + 1) n' s2).
Qed.

Lemma visit_loop_list_aux l :
  Forall (λ n, ∀ fuel d rest s, (2 * node_size n ≤ fuel)%nat →
            visit_loop visitor fuel (mkEntry n false d :: rest) s =
            (visit_at d n s ≫= visit_loop visitor (fuel - 2 * node_size n) rest)) l →
  ∀ fuel d rest s, (2 * sum_list_with node_size l ≤ fuel)%nat →
    visit_loop visitor fuel (map (λ c, mkEntry c false d) l ++ rest) s =
    (foldM (visit_at d) l s ≫= visit_loop visitor (fuel - 2 * sum_list_with node_size l) rest).
Proof.
  induction 1 as [|n l Hn _ IH]; intros fuel d rest s Hf; simpl in *.
  - by rewrite Nat.sub_0_r.
  - rewrite Hn by lia. destruct (visit_at d n s) as [s1| |]; simpl; [|done|done].
    rewrite IH by lia. do 2 f_equal. lia.
Qed.

Lemma visit_loop_node n : ∀ fuel d rest s, (2 * node_size n ≤ fuel)%nat →
  visit_loop visitor fuel (mkEntry n false d :: rest) s =
  (visit_at d n s ≫= visit_loop visitor (fuel - 2 * node_size n) rest).
Proof.
  induction n as [n IH] using node_children_ind. intros fuel d rest s Hf.
  rewrite node_size_children in *. rewrite visit_at_unfold.
  destruct fuel as [|fuel]; [lia|]. simpl.
  destruct (256 <? d) eqn:Ed; [done|].
  rewrite (visit_loop_list_aux _ IH) by lia.
  destruct (foldM _ _ s) as [s1| |]; simpl; [|done|done].
  destruct (fuel - _)%nat as [|f'] eqn:Ef; [lia|]. simpl. rewrite Ed.
  destruct (visitor n s1) as [s2| |]; simpl; [|done|done].
  f_equal. lia.
Qed.

(** The stack machine is the recursive traversal. *)
Lemma visitExpression_at n s : visitExpression visitor n s = visit_at 0 n s.
Proof.
  unfold visitExpression. rewrite visit_loop_node by lia.
  destruct (visit_at 0 n s); simpl; [|done|done]. by destruct (_ - _)%nat.
Qed.

Lemma visit_at_postorder n : ∀ d s,
  d + Z.of_nat (node_depth n) ≤ 256 → visit_at d n s = foldM visitor (postorder n) s.
Proof.
  induction n as [n IH] using node_children_ind. intros d s Hd.
  rewrite visit_at_unfold, postorder_children, foldM_app.
  rewrite node_depth_children in Hd.
  destruct (Z.ltb_spec 256 d); [lia|]. simpl.
  assert (∀ s, foldM (visit_at (d + 1)) (children_of n) s =
               foldM visitor (flat_map postorder (children_of n)) s) as ->.
  { clear s. induction IH as [|c l Hc _ IHl]; intros s; simpl in *; [done|].
    rewrite foldM_app, Hc by lia. destruct (foldM visitor (postorder c) s); simpl; [|done|done].
    apply IHl. lia. }
  destruct (foldM _ _ s); simpl; [|done|done]. by destruct (visitor n a).
Qed.

Lemma visit_at_too_deep n : ∀ d s,
  (∀ m s, visitor m s ≠ NoFuel) → visit_at d n s ≠ NoFuel.
Proof.
  induction n as [n IH] using node_children_ind. intros d s Hv.
  rewrite visit_at_unfold. destruct (256 <? d); [done|].
  apply bind_not_NoFuel; [|auto].
  revert s. induction IH as [|c l Hc _ IHl]; intros s; simpl; [done|].
  apply bind_not_NoFuel; auto.
Qed.

(** A traversal that returns has met no node deeper than the limit. *)
Lemma visit_at_Ok_depth n : ∀ d s s', visit_at d n s = Ok s' →
  d + Z.of_nat (node_depth n) ≤ 256.
Proof.
  induction n as [n IH] using node_children_ind. intros d s s' H.
  rewrite visit_at_unfold in H. destruct (Z.ltb_spec 256 d); [done|].
  inv_ok. clear H. rewrite node_depth_children. revert s x Hx.
  induction IH as [|c l Hc _ IHl]; intros s x Hx; simpl in *; [lia|].
  inv_ok. specialize (Hc _ _ _ Hx0). specialize (IHl _ _ Hx). lia.
Qed.

(** A traversal that meets a node deeper than the limit has visited an initial
    part of the postorder sequence and throws there. *)
Lemma visit_at_deep n : ∀ d s, 256 < d + Z.of_nat (node_depth n) →
  ∃ visited, visited `prefix_of` postorder n ∧
    visit_at d n s = (foldM visitor visited s ≫= λ _, throw depth_error).
Proof.
  induction n as [n IH] using node_children_ind. intros d s Hd.
  rewrite visit_at_unfold, postorder_children.
  destruct (Z.ltb_spec 256 d) as [|Hd'].
  { exists []. split; [apply prefix_nil|done]. }
  rewrite node_depth_children in Hd.
  assert (∃ visited, visited `prefix_of` flat_map postorder (children_of n) ∧
    foldM (visit_at (d + 1)) (children_of n) s =
    (foldM visitor visited s ≫= λ _, throw depth_error)) as (visited&Hp&->).
  { revert s. induction IH as [|c l Hc _ IHl]; intros s; simpl in *; [lia|].
    destruct (Z.leb_spec (d + 1 + Z.of_nat (node_depth c)) 256) as [Hle|Hgt].
    - rewrite visit_at_postorder by done.
      destruct (foldM visitor (postorder c) s) as [s1|e|] eqn:Ec; simpl;
        [destruct (IHl ltac:(lia) s1) as (v&Hv&->); exists (postorder c ++ v)
        |exists (postorder c)..];
        (split; [by eauto using prefix_app, prefix_app_r|]);
        rewrite ?foldM_app, Ec; done.
    - destruct (Hc (d + 1) s Hgt) as (v&Hv&->). exists v. split.
      + by apply prefix_app_r.
      + by destruct (foldM visitor v s). }
  exists visited. split; [by apply prefix_app_r|].
  by destruct (foldM visitor visited s).
Qed.
End VisitSpec.

(** ** Properties *)

(** C1: the stack machine of visitExpression visits exactly the nodes of the
    tree in postorder when the tree is at most 256 deep.  On a deeper tree it
    visits an initial part of that sequence and then throws the depth limit
    diagnostic, unless the visitor has thrown before; so a visitor that would
    complete on the whole tree ends in exactly the depth limit. *)
Theorem visit_bounded_postorder {St} (visitor : ExpressionNode → St → result St) n s :
  ((node_depth n ≤ 256)%nat → visitExpression visitor n s = foldM visitor (postorder n) s) ∧
  ((256 < node_depth n)%nat →
     (∃ visited, visited `prefix_of` postorder n ∧
        visitExpression visitor n s = (foldM visitor visited s ≫= λ _, throw depth_error)) ∧
     (∀ s', foldM visitor (postorder n) s = Ok s' →
        visitExpression visitor n s = Throw (billing_error diag_limit (js "expression depth") None))).
Proof.
  rewrite visitExpression_at. split.
  - intros H. apply visit_at_postorder. lia.
  - intros H. destruct (visit_at_deep visitor n 0 s) as (v&Hp&Hv); [lia|].
    split; [by exists v|]. intros s' Hs. rewrite Hv.
    destruct Hp as [rest Hrest]. rewrite Hrest, foldM_app in Hs.
    by destruct (foldM visitor v s).
Qed.

(** A conditional over a sum, visited by a visitor that records the spans. *)
Definition sample_tree : ExpressionNode :=
  (conditional (variable image_count (mkSpan 0 1))
    (binary (js "+") (literal lit_null None (mkSpan 2 3)) (literal (lit_bool true) None (mkSpan 4 5)) (mkSpan 2 5))
    (literal (lit_bool false) None (mkSpan 6 7)) (mkSpan 0 7))%nat.

(** A chain of 257 negations. *)
Definition deep_tree : ExpressionNode :=
  Nat.iter 257 (λ n, unary (js "-") n (mkSpan 0 1)) (literal lit_null None (mkSpan 0 1)).

Lemma visit_bounded_postorder_witness :
  visitExpression (λ n l, Ok (l ++ [node_start n])) sample_tree [] = Ok [0; 2; 4; 2; 6; 0]%nat ∧
  visitExpression (λ _ k, Ok (S k)) deep_tree O =
    Throw (billing_error diag_limit (js "expression depth") None).
Proof.
  split.
  - rewrite (proj1 (visit_bounded_postorder (λ n l, Ok (l ++ [node_start n])) sample_tree [])
               ltac:(vm_compute; lia)).
    vm_compute. reflexivity.
  - apply (proj2 (proj2 (visit_bounded_postorder (λ _ k, Ok (S k)) deep_tree O)
             ltac:(vm_compute; lia)) 258%nat).
    vm_compute. reflexivity.
Defined.
