(* ===== verification/Parser.v ===== *)
(** * Lexer and parser of billing expressions

    Models the class [BillingParser] of
    [web/src/features/pricing/lib/billing-expression/parser.ts]: the lexer
    [next], and the precedence-climbing parser [parse]/[expression]/[primary]
    with its limits on the length (65536 code units), the number of tokens
    (10000) and the nesting (128). *)
From S2P Require Import Prelude JsString JsNumber BillingTypes.
Local Open Scope Z_scope.

Inductive LexemeKind := lx_number | lx_string | lx_symbol | lx_name | lx_end.

Record Lexeme := mkLexeme {
  lex_kind : LexemeKind;
  lex_text : jsstring;
  lex_start : nat;
  lex_end : nat;
  lex_value : option literal_value;
  lex_integer : option bool;
}.

Definition PRECEDENCE : list (jsstring * Z) :=
  [(js "||", 1); (js "&&", 2); (js "==", 3); (js "!=", 3); (js "<", 4); (js "<=", 4);
   (js ">", 4); (js ">=", 4); (js "+", 5); (js "-", 5); (js "*", 6); (js "/", 6); (js "%", 6)].

(** [PRECEDENCE[text]], [None] when [Object.hasOwn] says it is absent. *)
Definition precedence_of (text : jsstring) : option Z :=
  option_map snd (find (λ '(op, _), str_eqb text op) PRECEDENCE).

(** ** The lexer *)

(** [/^\s*v(\d+):/]: the length of the match and the digits of the version. *)
Definition match_version (source : jsstring) : option (nat * jsstring) :=
  let ws := span_len is_space source in
  match drop ws source with
  | 118 :: r =>
      let nd := span_len is_digit r in
      match nd, drop nd r with
      | S _, 58 :: _ => Some ((ws + 1 + nd + 1)%nat, take nd r)
      | _, _ => None
      end
  | _ => None
  end.

(** [/^(?:\d+(?:\.\d* )?|\.\d+)(?:[eE][+-]?\d+)?/]: the matched text. *)
Definition match_number (rest : jsstring) : option jsstring :=
  match scan_decimal rest with
  | Some (n, _, _) => Some (take n rest)
  | None => None
  end.

(** [/^[A-Za-z_][\w]*/] *)
Definition match_name (rest : jsstring) : option jsstring :=
  match rest with
  | c :: _ => if is_name_start c then Some (take (span_len is_word rest) rest) else None
  | [] => None
  end.

(** [/^(?:&&|\|\||==|!=|<=|>=|[+\-*/%<>()!?:,])/] *)
Definition OPERATORS : list jsstring :=
  [js "&&"; js "||"; js "=="; js "!="; js "<="; js ">=";
   js "+"; js "-"; js "*"; js "/"; js "%"; js "<"; js ">"; js "("; js ")";
   js "!"; js "?"; js ":"; js ","].

Definition match_operator (rest : jsstring) : option jsstring :=
  find (starts_with rest) OPERATORS.

(** The [escapes] table of the string scanner. *)
Definition simple_escape (c : jschar) : option jschar :=
  match c with
  | 110 => Some 10 | 114 => Some 13 | 116 => Some 9 | 98 => Some 8
  | 102 => Some 12 | 118 => Some 11 | 92 => Some 92 | 34 => Some 34
  | 39 => Some 39 | 47 => Some 47
  | _ => None
  end.

(** [String.fromCharCode(Number.parseInt(hex, 16))] *)
Definition hex_char (hex : jsstring) : jschar := default 0 (radix_value 16 0 hex).

(** The loop over the body of a string literal.  [rest] is the source from
    [cursor] on; the answer is the value and the cursor after the closing quote,
    [None] when the loop breaks. *)
Fixpoint scan_string (quote : jschar) (rest : jsstring) (cursor : nat) (value : jsstring)
    : result (option (jsstring * nat)) :=
  match rest with
  | [] => Ok None
  | c :: r1 =>
      if c =? quote then Ok (Some (value, S cursor))
      else if (c =? 10) || (c =? 13) then Ok None
      else if negb (c =? 92) then scan_string quote r1 (S cursor) (value ++ [c])
      else
        let bad := throw (billing_error diag_unsupported (js "string escape") (Some (S cursor))) in
        match r1 with
        | [] => bad
        | escaped :: r2 =>
            match simple_escape escaped with
            | Some ch => scan_string quote r2 (cursor + 2)%nat (value ++ [ch])
            | None =>
                if escaped =? 117 then
                  match r2 with
                  | h1 :: h2 :: h3 :: h4 :: r3 =>
                      if forallb is_hex [h1; h2; h3; h4]
                      then scan_string quote r3 (cursor + 6)%nat (value ++ [hex_char [h1; h2; h3; h4]])
                      else Ok None
                  | _ => Ok None
                  end
                else if escaped =? 120 then
                  match r2 with
                  | h1 :: h2 :: r3 =>
                      if forallb is_hex [h1; h2]
                      then scan_string quote r3 (cursor + 4)%nat (value ++ [hex_char [h1; h2]])
                      else Ok None
                  | _ => Ok None
                  end
                else bad
            end
        end
  end.

Section WithSource.
Context (source : jsstring).

(** [next()] on the fields [cursor] and [count]. *)
Definition next_number (start : nat) (text : jsstring) : result Lexeme :=
  let value := Number_of_string text in
  let integer := negb (existsb (λ c, (c =? 46) || (c =? 101) || (c =? 69)) text) in
  if negb (isFinite value) then throw (billing_error diag_number text (Some start))
  else if integer && negb (isSafeInteger value)
  then throw (billing_error diag_unsupported (js "integer precision") (Some start))
  else Ok (mkLexeme lx_number text start (start + length text)
             (Some (lit_number value)) (Some integer)).

Definition next_string (start : nat) (quote : jschar) (body : jsstring) : result Lexeme :=
  o ← scan_string quote body (S start) [];
  match o with
  | Some (value, cursor) =>
      Ok (mkLexeme lx_string (slice source start cursor) start cursor (Some (lit_string value)) None)
  | None => throw (billing_error diag_syntax (js "unterminated string") (Some start))
  end.

Definition next_symbol (start : nat) (c : jschar) (rest : jsstring) : result Lexeme :=
  match match_name rest with
  | Some text => Ok (mkLexeme lx_name text start (start + length text) None None)
  | None =>
      match match_operator rest with
      | Some text => Ok (mkLexeme lx_symbol text start (start + length text) None None)
      | None => throw (billing_error diag_unsupported [c] (Some start))
      end
  end.

Definition next (cursor : nat) (count : Z) : result (Lexeme * (nat * Z)) :=
  let count := count + 1 in
  if 10000 <? count then throw (billing_error diag_limit (js "expression tokens") None)
  else
    let start := (cursor + span_len is_space (drop cursor source))%nat in
    let rest := drop start source in
    match rest with
    | [] => Ok (mkLexeme lx_end [] start start None None, (start, count))
    | c :: body =>
        token ← match match_number rest with
                | Some text => next_number start text
                | None => if (c =? 34) || (c =? 39) then next_string start c body
                          else next_symbol start c rest
                end;
        Ok (token, (lex_end token, count))
    end.

(** ** The parser *)
Record PState := mkPState {
  ps_cursor : nat;
  ps_count : Z;
  ps_depth : Z;
  ps_current : Lexeme;
}.

Definition set_depth (f : Z → Z) (st : PState) : PState :=
  mkPState (ps_cursor st) (ps_count st) (f (ps_depth st)) (ps_current st).

Abbreviation P := (ST PState exn).

Definition current : P Lexeme := λ st, Ok (ps_current st, st).

Definition take_ : P Lexeme := λ st,
  '(token, (cursor, count)) ← next (ps_cursor st) (ps_count st);
  Ok (ps_current st, mkPState cursor count (ps_depth st) token).

Definition is_ (text : jsstring) : P bool := λ st, Ok (str_eqb (lex_text (ps_current st)) text, st).

Definition expect (text : jsstring) : P Lexeme := λ st,
  if negb (str_eqb (lex_text (ps_current st)) text)
  then Throw (billing_error diag_syntax (js "expected " ++ text) (Some (lex_start (ps_current st))))
  else take_ st.

Definition enter_expression : P unit := λ st,
  if 128 <? ps_depth st + 1 then Throw depth_error
  else Ok (tt, set_depth (λ d, d + 1) st).

Definition leave_expression : P unit := st_modify (set_depth (λ d, d - 1)).

Definition token_span (t : Lexeme) : Span := mkSpan (lex_start t) (lex_end t).

(** The cases of [primary], given the parsers [expr] of a nested expression and
  [args] of an argument list. *)
Section Primary.
Context (expr : Z → P ExpressionNode) (args : P (list ExpressionNode)).

(** A variable: a name that is not followed by [(]. *)
Definition parse_variable (token : Lexeme) : P ExpressionNode :=
  match variable_of_text (lex_text token) with
  | Some v => mret (variable v (token_span token))
  | None => st_throw (billing_error diag_unsupported (lex_text token) (Some (lex_start token)))
  end.

Definition parse_call (token : Lexeme) : P ExpressionNode :=
  match function_arity (lex_text token) with
  | None => st_throw (billing_error diag_unsupported (lex_text token) (Some (lex_start token)))
  | Some arity =>
    take_;;
    actuals ← args;
    close ← expect (js ")");
    if negb (length actuals =? arity)%nat
    then st_throw (billing_error diag_type (lex_text token) (Some (lex_start token)))
    else mret (call (lex_text token) actuals (mkSpan (lex_start token) (lex_end close)))
  end.

Definition parse_name (token : Lexeme) : P ExpressionNode :=
  if str_eqb (lex_text token) (js "nil") then mret (literal lit_null None (token_span token))
  else if str_eqb (lex_text token) (js "true") || str_eqb (lex_text token) (js "false")
  then mret (literal (lit_bool (str_eqb (lex_text token) (js "true"))) None (token_span token))
  else
    following ← current;
    if negb (str_eqb (lex_text following) (js "(")) then parse_variable token
    else parse_call token.

Definition parse_group (token : Lexeme) : P ExpressionNode :=
  inner ← expr 0;
  close ← expect (js ")");
  mret (with_span inner (mkSpan (lex_start token) (lex_end close))).

Definition parse_unary (token : Lexeme) : P ExpressionNode :=
  operand ← expr 7;
  mret (unary (lex_text token) operand (mkSpan (lex_start token) (node_end operand))).

Definition parse_symbol (token : Lexeme) : P ExpressionNode :=
  if str_eqb (lex_text token) (js "(") then parse_group token
  else if str_in (lex_text token) [js "!"; js "+"; js "-"] then parse_unary token
  else match lex_kind token with
    | lx_name => parse_name token
    | _ => st_throw (billing_error diag_syntax (lex_text token) (Some (lex_start token)))
    end.

Definition parse_operand (token : Lexeme) : P ExpressionNode :=
  match lex_kind token, lex_value token with
  | lx_number, Some v => mret (literal v (lex_integer token) (token_span token))
  | lx_string, Some v => mret (literal v None (token_span token))
  | _, _ => parse_symbol token
  end.

(** The [? :] that may follow an expression of minimum 0. *)
Definition parse_conditional (minimum : Z) (lhs : ExpressionNode) : P ExpressionNode :=
  token ← current;
  if (minimum =? 0) && str_eqb (lex_text token) (js "?") then
    take_;;
    yes ← expr 0;
    expect (js ":");;
    no ← expr 0;
    mret (conditional lhs yes no (mkSpan (node_start lhs) (node_end no)))
  else mret lhs.
End Primary.

Fixpoint expression (fuel : nat) (minimum : Z) {struct fuel} : P ExpressionNode :=
  match fuel with
  | O => λ _, NoFuel
  | S fuel' =>
      enter_expression;;
      first ← primary fuel';
      lhs ← binary_loop fuel' minimum first;
      node ← parse_conditional (expression fuel') minimum lhs;
      leave_expression;;
      mret node
  end
with binary_loop (fuel : nat) (minimum : Z) (lhs : ExpressionNode) {struct fuel} : P ExpressionNode :=
  match fuel with
  | O => λ _, NoFuel
  | S fuel' =>
      token ← current;
      match precedence_of (lex_text token) with
      | Some prec =>
          if minimum <=? prec then
            take_;;
            rhs ← expression fuel' (prec + 1);
            binary_loop fuel' minimum
              (binary (lex_text token) lhs rhs (mkSpan (node_start lhs) (node_end rhs)))
          else mret lhs
      | None => mret lhs
      end
  end
with primary (fuel : nat) {struct fuel} : P ExpressionNode :=
  match fuel with
  | O => λ _, NoFuel
  | S fuel' =>
      token ← take_;
      parse_operand (expression fuel') (arguments fuel') token
  end
with arguments (fuel : nat) {struct fuel} : P (list ExpressionNode) :=
  match fuel with
  | O => λ _, NoFuel
  | S fuel' =>
      closed ← is_ (js ")");
      if (closed : bool) then mret []
      else
        arg ← expression fuel' 0;
        comma ← is_ (js ",");
        if (comma : bool) then take_;; args ← arguments fuel'; mret (arg :: args)
        else mret [arg]
  end.

(** Every loop turn and every nested call takes a token, and at most 10000
  tokens are read; four units of fuel per token are enough. *)
Definition parser_fuel : nat := Z.to_nat (4 * 10000 + 8).

(** The constructor: length and version guards, then the first token. *)
Definition parser_init : result PState :=
  if 65536 <? Z.of_nat (length source)
  then throw (billing_error diag_limit (js "expression length") None)
  else
    cursor ← match match_version source with
             | Some (n, version) =>
                 if negb (str_eqb version (js "1"))
                 then throw (billing_error diag_unsupported (take n source) None)
                 else Ok n
             | None => Ok 0%nat
             end;
    '(token, (cursor, count)) ← next cursor 0;
    Ok (mkPState cursor count 0 token).

Definition parse_from : P ExpressionNode :=
  node ← expression parser_fuel 0;
  token ← current;
  match lex_kind token with
  | lx_end => mret node
  | _ => st_throw (billing_error diag_unsupported (lex_text token) (Some (lex_start token)))
  end.
End WithSource.

(** [new BillingParser(source).parse()] *)
Definition parse (source : jsstring) : result ExpressionNode :=
  st ← parser_init source;
  '(node, _) ← parse_from source st;
  Ok node.
