(* ===== verification/Compile.v ===== *)
(** * Static checks and compilation of billing expressions

    Models the second half of
    [web/src/features/pricing/lib/billing-expression/parser.ts]: the type
    check [checkExpressionTypes], the collection of request rules, the shape
    check [validateFixedPricingTree] of expressions with [fixed], and
    [compileBillingExpression] with its cache of 128 results. *)
From S2P Require Import Prelude JsString JsNumber Host BillingTypes Parser.
Local Open Scope Z_scope.

(** ** Types *)
Inductive ExpressionType := ty_number | ty_string | ty_boolean | ty_nil | ty_dynamic.

#[global] Instance ExpressionType_eq_dec : EqDecision ExpressionType.
Proof. solve_decision. Defined.

Definition type_name (t : ExpressionType) : jsstring :=
  match t with
  | ty_number => js "number" | ty_string => js "string" | ty_boolean => js "boolean"
  | ty_nil => js "nil" | ty_dynamic => js "dynamic"
  end.

(** [new Map<ExpressionNode, ExpressionType>()]: the newest binding first. *)
Definition TypeMap := list (Span * ExpressionType).

Definition types_get (types : TypeMap) (n : ExpressionNode) : option ExpressionType :=
  option_map snd (find (λ '(sp, _), span_eqb (node_span n) sp) types).

Definition literal_type (v : literal_value) : ExpressionType :=
  match v with
  | lit_null => ty_nil
  | lit_number _ => ty_number
  | lit_string _ => ty_string
  | lit_bool _ => ty_boolean
  end.

Definition requireType (types : TypeMap) (child : ExpressionNode) (expected : ExpressionType)
    : result unit :=
  let actual := types_get types child in
  if bool_decide (actual ≠ Some expected) && bool_decide (actual ≠ Some ty_dynamic)
  then throw (billing_error diag_type (type_name expected ++ js " operand") (Some (node_start child)))
  else Ok tt.

(** The names tested by [node.name] in the [call] case. *)
Definition takes_string (name : jsstring) : bool :=
  str_in name ([js "param"; js "header"; js "u"] ++ map time_function_name TIME_FUNCTIONS).
Definition is_arithmetic_function (name : jsstring) : bool :=
  str_in name [js "fixed"; js "min"; js "max"; js "abs"; js "ceil"; js "floor"].

Definition is_logical (op : jsstring) : bool := str_in op [js "&&"; js "||"].
Definition is_comparison (op : jsstring) : bool :=
  str_in op [js "=="; js "!="; js "<"; js "<="; js ">"; js ">="].

Section WithHost.
Context {host : Host}.

Definition undefined_read {A} (property : string) : result A :=
  throw (JsError (undefined_read_message (js property))).

(** [requireType(node.args[i], expected)] *)
Definition requireArg (types : TypeMap) (args : list ExpressionNode) (i : nat)
    (expected : ExpressionType) : result unit :=
  match args !! i with
  | Some arg => requireType types arg expected
  | None => undefined_read "start"
  end.

Definition call_type (types : TypeMap) (name : jsstring) (args : list ExpressionNode)
    : result ExpressionType :=
  (if takes_string name then requireArg types args 0 ty_string else Ok tt);;
  if str_eqb name (js "header") then Ok ty_string
  else if str_eqb name (js "has") then
    requireArg types args 1 ty_string;; Ok ty_boolean
  else if str_eqb name (js "tier") then
    requireArg types args 0 ty_string;; requireArg types args 1 ty_number;; Ok ty_number
  else if is_time_function name then Ok ty_number
  else if is_arithmetic_function name then
    foldM (λ arg _, requireType types arg ty_number) args tt;; Ok ty_number
  else Ok ty_dynamic.

Definition binary_type (types : TypeMap) (op : jsstring) (l r : ExpressionNode)
    : result ExpressionType :=
  if is_logical op then
    requireType types l ty_boolean;; requireType types r ty_boolean;; Ok ty_boolean
  else if is_comparison op then Ok ty_boolean
  else if str_eqb op (js "+") && bool_decide (types_get types l = Some ty_string)
          && bool_decide (types_get types r = Some ty_string) then Ok ty_string
  else requireType types l ty_number;; requireType types r ty_number;; Ok ty_number.

(** The visitor of [checkExpressionTypes]. *)
Definition type_visitor (node : ExpressionNode) (types : TypeMap) : result TypeMap :=
  t ← match node with
      | literal v _ _ => Ok (literal_type v)
      | variable _ _ => Ok ty_number
      | unary op a _ =>
          let t := if str_eqb op (js "!") then ty_boolean else ty_number in
          requireType types a t;; Ok t
      | conditional c y n _ =>
          requireType types c ty_boolean;;
          Ok (if bool_decide (types_get types y = types_get types n)
              then default ty_dynamic (types_get types y) else ty_dynamic)
      | binary op l r _ => binary_type types op l r
      | call name args _ => call_type types name args
      end;
  Ok ((node_span node, t) :: types).

Definition checkExpressionTypes (ast : ExpressionNode) : result TypeMap :=
  visitExpression type_visitor ast [].

(** ** Request rules *)
Record CompiledRule := mkRule {
  rule_node : ExpressionNode;
  rule_condition : ExpressionNode;
  rule_multiplier : number;
  rule_cond : jsstring;
}.

Definition is_request_probe (name : jsstring) : bool :=
  str_in name ([js "param"; js "header"] ++ map time_function_name TIME_FUNCTIONS).

Definition rule_visitor (source : jsstring) (node : ExpressionNode) (rules : list CompiledRule)
    : result (list CompiledRule) :=
  match node with
  | conditional c (literal (lit_number m) _ _) (literal (lit_number one) _ _) _ =>
      if negb (num_eqb one (num_of_Z 1)) then Ok rules
      else
        d ← expressionDependencies c;
        if negb (existsb is_request_probe (dep_functions d)) then Ok rules
        else Ok (rules ++ [mkRule node c m (slice source (node_start c) (node_end c))])
  | _ => Ok rules
  end.

(** ** Fixed pricing *)
Definition containsPricingMarker (node : ExpressionNode) : result bool :=
  d ← expressionDependencies node;
  Ok (str_in (js "tier") (dep_functions d) || str_in (js "fixed") (dep_functions d)).

Definition fixed_shape_message : jsstring :=
  js "Use tier(name, fixed(amount)) with a finite, non-negative numeric literal; combine pricing branches only with conditions and request multipliers.".

Definition million : number := num_of_Z 1000000.

(** [amount.value >= 0 && Number.isFinite(amount.value * 1_000_000)] *)
Definition fixed_amount_ok (amount : ExpressionNode) : bool :=
  match amount with
  | literal (lit_number x) _ _ => num_leb num_zero x && isFinite (num_mul x million)
  | _ => false
  end.

(** Whether [factor] may multiply a pricing tree: the image count, or a
  nonnegative request rule whose condition has no pricing marker. *)
Definition is_pricing_factor (rules : list CompiledRule) (factor : ExpressionNode) : result bool :=
  match factor with
  | variable image_count _ => Ok true
  | _ =>
      match find (λ r, same_node (rule_node r) factor) rules with
      | Some r =>
          if num_leb num_zero (rule_multiplier r)
          then m ← containsPricingMarker (rule_condition r); Ok (negb m)
          else Ok false
      | None => Ok false
      end
  end.

Definition validate_tier (node : ExpressionNode) : result unit :=
  let bad := throw (billing_error diag_type fixed_shape_message (Some (node_start node))) in
  match node with
  | call name args _ =>
      if negb (str_eqb name (js "tier")) then bad
      else match args with
      | label :: price :: _ =>
          m ← containsPricingMarker label;
          if (m : bool) then bad
          else match price with
          | call pname pargs _ =>
              if str_eqb pname (js "fixed") then
                match pargs with
                | amount :: _ => if fixed_amount_ok amount then Ok tt else bad
                | [] => undefined_read "kind"
                end
              else m ← containsPricingMarker price; if (m : bool) then bad else Ok tt
          | _ => m ← containsPricingMarker price; if (m : bool) then bad else Ok tt
          end
      | _ => undefined_read "kind"
      end
  | _ => bad
  end.

Fixpoint validateFixedPricingTree (rules : list CompiledRule) (node : ExpressionNode) : result unit :=
  match node with
  | conditional c y n _ =>
      m ← containsPricingMarker c;
      if (m : bool) then validate_tier node
      else validateFixedPricingTree rules y;; validateFixedPricingTree rules n
  | binary op l r _ =>
      if str_eqb op (js "*") then
        f ← is_pricing_factor rules r;
        if (f : bool) then validateFixedPricingTree rules l
        else
          f ← is_pricing_factor rules l;
          if (f : bool) then validateFixedPricingTree rules r else validate_tier node
      else validate_tier node
  | _ => validate_tier node
  end.

(** ** Compilation *)
Record CompiledBillingExpression := mkCompiled {
  cp_source : jsstring;
  cp_ast : ExpressionNode;
  cp_variables : list BillingVariable;
  cp_functions : list jsstring;
  cp_requestRules : list CompiledRule;
}.

Inductive CompilationResult :=
| ready (c : CompiledBillingExpression)
| failed (f : ExpressionFailure).

(** The body of the [try]. *)
Definition compile_body (source : jsstring) : result CompiledBillingExpression :=
  ast ← parse source;
  checkExpressionTypes ast;;
  dependencies ← expressionDependencies ast;
  rules ← visitExpression (rule_visitor source) ast [];
  (if str_in (js "fixed") (dep_functions dependencies)
   then validateFixedPricingTree rules ast else Ok tt);;
  Ok (mkCompiled source ast (dep_variables dependencies) (dep_functions dependencies) rules).

(** The [try]/[catch].  The last case is never taken ([compile_body_total]). *)
Definition compile (source : jsstring) : CompilationResult :=
  match compile_body source with
  | Ok c => ready c
  | Throw e => failed (expressionFailure e)
  | NoFuel => failed (expressionFailure (JsError []))
  end.

(** ** The cache

  [compiledCache] is a [Map] in insertion order. *)
Definition CompiledCache := list (jsstring * CompilationResult).

Definition cache_get (cache : CompiledCache) (source : jsstring) : option CompilationResult :=
  option_map snd (find (λ '(k, _), str_eqb source k) cache).

Definition cache_delete (cache : CompiledCache) (key : jsstring) : CompiledCache :=
  List.filter (λ '(k, _), negb (str_eqb k key)) cache.

(** [Map.prototype.set]: an existing key keeps its place. *)
Fixpoint cache_set (cache : CompiledCache) (key : jsstring) (r : CompilationResult) : CompiledCache :=
  match cache with
  | [] => [(key, r)]
  | (k, v) :: rest => if str_eqb k key then (k, r) :: rest else (k, v) :: cache_set rest key r
  end.

Definition compileBillingExpression (source : jsstring) (cache : CompiledCache)
    : CompilationResult * CompiledCache :=
  match cache_get cache source with
  | Some cached => (cached, cache)
  | None =>
      let res := compile source in
      let cache' :=
        match cache with
        | (oldest, _) :: _ =>
            if 128 <=? Z.of_nat (length cache) then cache_delete cache oldest else cache
        | [] => cache
        end in
      (res, cache_set cache' source res)
  end.
End WithHost.
