(* ===== verification/Runtime.v ===== *)
(** * Evaluation of billing expressions

    Models [web/src/features/pricing/lib/billing-expression/runtime.ts]: the
    request path reader, the string form of request values, the calendar of a
    billing zone, and the interpreter [BillingRuntime] with its state (matched
    tier, billing unit, fixed price, matched request rules, time cache). *)
From S2P Require Import Prelude JsString JsNumber JsValue Host BillingTypes Parser Compile.
Local Open Scope Z_scope.

(** ** readRequestPath *)

(** The loop that splits a path: [None] for an unsupported path. *)
Fixpoint split_path (path part : jsstring) : option (list jsstring) :=
  match path with
  | [] => Some [part]
  | c :: r =>
      if c =? 92 then
        match r with
        | e :: r' => split_path r' (part ++ [e])
        | [] => None
        end
      else if c =? 46 then option_map (cons part) (split_path r [])
      else if existsb (Z.eqb c) (js "*?[]()|@!") then None
      else split_path r (part ++ [c])
  end.

Definition unsupported_path {A} (path : jsstring) : result A :=
  throw (billing_error diag_unsupported path None).

Definition index_of_key (key : jsstring) : option nat :=
  let index := Number_of_string key in
  if isSafeInteger index then option_map Z.to_nat (integer_value index) else None.

(** The loop over the keys. *)
Fixpoint walk_path (path : jsstring) (value : jsval) (parts : list jsstring) : result jsval :=
  match parts with
  | [] => Ok (or_null value)
  | key :: rest =>
      match value with
      | JArray items =>
          if str_eqb key (js "#") then
            match rest with
            | [] => Ok (JNumber (num_of_Z (Z.of_nat (length items))))
            | _ => unsupported_path path
            end
          else if negb (negb (str_eqb key []) && forallb is_digit key) then Ok JNull
          else walk_path path (default JUndefined (index_of_key key ≫= λ i, items !! i)) rest
      | JObject entries =>
          match own_property key entries with
          | Some v => walk_path path v rest
          | None => Ok JNull
          end
      | _ => Ok JNull
      end
  end.

Definition readRequestPath (body : jsval) (rawPath : jsstring) : result jsval :=
  let path := trim rawPath in
  match path with
  | [] => Ok JNull
  | _ =>
      match split_path path [] with
      | None => unsupported_path path
      | Some parts => walk_path path body parts
      end
  end.

(** ** billingString *)
Fixpoint sequence_results {A} (l : list (result A)) : result (list A) :=
  match l with
  | [] => Ok []
  | r :: l' => a ← r; rest ← sequence_results l'; Ok (a :: rest)
  end.

Definition pad2 (s : jsstring) : jsstring :=
  zeros (2 - Z.of_nat (length s)) ++ s.

Definition billing_number (x : number) : result jsstring :=
  if negb (isFinite x) then throw (billing_error diag_number (js "request number") None)
  else match x with
  | S754_zero true => Ok (js "-0")
  | _ =>
      let '(mantissa, exponent) := toExponential x in
      if (6 <=? exponent) || (exponent <? -4) then
        Ok (mantissa ++ js "e" ++ (if exponent <? 0 then js "-" else js "+")
            ++ pad2 (string_of_nonneg (Z.abs exponent)))
      else Ok (String_of_number x)
  end.

Fixpoint billingString (value : jsval) (depth : Z) : result jsstring :=
  if 128 <? depth then throw (billing_error diag_limit (js "request value depth") None)
  else match value with
  | JUndefined | JNull => Ok (js "<nil>")
  | JArray items =>
      parts ← sequence_results (map (λ item, billingString item (depth + 1)) items);
      Ok (js "[" ++ join (js " ") parts ++ js "]")
  | JObject entries =>
      parts ← sequence_results
        (map (λ '(key, item), text ← item; Ok (key ++ js ":" ++ text))
             (sort_entries (map (λ '(key, item), (key, billingString item (depth + 1))) entries)));
      Ok (js "map[" ++ join (js " ") parts ++ js "]")
  | JNumber x => billing_number x
  | JBool b => Ok (if b then js "true" else js "false")
  | JString s => Ok s
  end.

(** ** timeInBillingZone *)
Record TimeRecord := mkTime {
  t_hour : number; t_minute : number; t_weekday : number; t_month : number; t_day : number;
}.

Definition time_field (f : TimeFunction) (t : TimeRecord) : number :=
  match f with
  | time_hour => t_hour t | time_minute => t_minute t | time_weekday => t_weekday t
  | time_month => t_month t | time_day => t_day t
  end.

Definition ms_per_day : Z := 86400000.

(** Month (1 to 12) and day of the month of a day counted from the epoch, in
    the proleptic Gregorian calendar: eras of 400 years that start in March. *)
Definition civil_month_day (days : Z) : Z * Z :=
  let doe := (days + 719468) mod 146097 in
  let yoe := (doe - doe / 1460 + doe / 36524 - doe / 146096) / 365 in
  let doy := doe - (365 * yoe + yoe / 4 - yoe / 100) in
  let mp := (5 * doy + 2) / 153 in
  let d := doy - (153 * mp + 2) / 5 + 1 in
  (if mp <? 10 then mp + 3 else mp - 9, d).

(** [getUTCHours()], [getUTCMinutes()], [getUTCDay()], [getUTCMonth() + 1], [getUTCDate()] *)
Definition utc_time (t : Z) : TimeRecord :=
  let '(month, day) := civil_month_day (t / ms_per_day) in
  mkTime (num_of_Z (t / 3600000 mod 24)) (num_of_Z (t / 60000 mod 60))
         (num_of_Z ((t / ms_per_day + 4) mod 7)) (num_of_Z month) (num_of_Z day).

(** [/^[A-Z][A-Za-z0-9_+-]*(?:\/[A-Z][A-Za-z0-9_+-]* )*$/] *)
Definition is_zone_char (c : jschar) : bool :=
  is_upper c || is_lower c || is_digit c || (c =? 95) || (c =? 43) || (c =? 45).

Fixpoint zone_shape (at_start : bool) (s : jsstring) : bool :=
  match s with
  | [] => negb at_start
  | c :: r =>
      if at_start then is_upper c && zone_shape false r
      else if c =? 47 then zone_shape true r
      else is_zone_char c && zone_shape false r
  end.

Fixpoint index_of (s : jsstring) (l : list jsstring) (i : Z) : Z :=
  match l with
  | [] => -1
  | x :: l' => if str_eqb x s then i else index_of s l' (i + 1)
  end.

(** [Number(parts[key])] *)
Definition part_number (key : jsstring) (parts : list (jsstring * jsstring)) : number :=
  match part_value key parts with Some v => Number_of_string v | None => num_nan end.

Section WithHost.
Context {host : Host}.

(** The formatter, [None] when the [try] block throws. *)
Definition zone_formatter (timezone : jsstring) : option (Z → list (jsstring * jsstring)) :=
  if negb (zone_shape true timezone) then None
  else match intl_format timezone with
  | None => None
  | Some (resolved, format) =>
      if str_eqb (toLowerCase resolved) (toLowerCase timezone) && negb (str_eqb resolved timezone)
      then None else Some format
  end.

Definition zoned_time (parts : list (jsstring * jsstring)) : TimeRecord :=
  mkTime (part_number (js "hour") parts) (part_number (js "minute") parts)
         (num_of_Z (match part_value (js "weekday") parts with
                    | Some w => index_of w SHORT_WEEKDAYS 0
                    | None => -1
                    end))
         (part_number (js "month") parts) (part_number (js "day") parts).

Definition timeInBillingZone (now : Date) (zone : jsstring) : result TimeRecord :=
  match now with
  | None => throw (billing_error diag_type (js "simulation time") None)
  | Some t =>
      let timezone := match trim zone with [] => js "UTC" | z => z end in
      if str_eqb timezone (js "Local")
      then throw (billing_error diag_unsupported (js "server Local timezone") None)
      else match zone_formatter timezone with
      | None => Ok (utc_time t)
      | Some format => Ok (zoned_time (format t))
      end
  end.

(** ** BillingRuntime *)
Record BillingRequest := mkRequest {
  req_body : jsval;
  req_headers : option (list (jsstring * jsval));
}.

Record BillingSimulationContext := mkContext {
  ctx_imageCount : option number;
  ctx_tokens : option (list (jsstring * jsval));
  ctx_request : option BillingRequest;
  ctx_usage : option (list (jsstring * jsval));
  ctx_now : option Date;
}.

Record BillingRequestRule := mkRequestRule {
  rr_cond : jsstring;
  rr_multiplier : number;
  rr_matched : bool;
}.

Inductive BillingUnit := unit_token | unit_request.

Record RuntimeValue := mkValue { rv_value : jsval; rv_integer : option bool }.

(** The mutable fields of the interpreter. *)
Record RState := mkRState {
  rs_requestRules : list BillingRequestRule;
  rs_matchedTier : jsstring;
  rs_billingUnit : BillingUnit;
  rs_fixedPrice : option number;
  rs_timeValues : list (jsstring * TimeRecord);
}.

Definition set_requestRules (f : list BillingRequestRule → list BillingRequestRule) (st : RState) :=
  mkRState (f (rs_requestRules st)) (rs_matchedTier st) (rs_billingUnit st)
           (rs_fixedPrice st) (rs_timeValues st).
Definition set_matchedTier (name : jsstring) (st : RState) :=
  mkRState (rs_requestRules st) name (rs_billingUnit st) (rs_fixedPrice st) (rs_timeValues st).
Definition set_fixedPrice (amount : number) (st : RState) :=
  mkRState (rs_requestRules st) (rs_matchedTier st) unit_request (Some amount) (rs_timeValues st).
Definition set_timeValues (zone : jsstring) (t : TimeRecord) (st : RState) :=
  mkRState (rs_requestRules st) (rs_matchedTier st) (rs_billingUnit st) (rs_fixedPrice st)
           ((zone, t) :: rs_timeValues st).

Abbreviation R := (ST RState exn).

(** The constructor: the headers, normalised; the newest binding first. *)
Definition add_header (entry : jsstring * jsval) (headers : list (jsstring * jsstring))
    : result (list (jsstring * jsstring)) :=
  let '(name, rawValue) := entry in
  match rawValue with
  | JString raw =>
      let key := toLowerCase (trim name) in
      let value := trim raw in
      Ok (if negb (str_eqb key []) && negb (str_eqb value []) then (key, value) :: headers else headers)
  | _ => throw (billing_error diag_type (js "request header") None)
  end.

Definition runtime_headers (context : BillingSimulationContext) : result (list (jsstring * jsstring)) :=
  foldM add_header (default [] (ctx_request context ≫= req_headers)) [].

Definition initial_state (compiled : CompiledBillingExpression) : RState :=
  mkRState (map (λ r, mkRequestRule (rule_cond r) (rule_multiplier r) false) (cp_requestRules compiled))
           [] unit_token None [].

Section Evaluate.
Context (compiled : CompiledBillingExpression) (context : BillingSimulationContext).
Context (now : Date) (headers : list (jsstring * jsstring)).

(** The checks of [evaluate] on the value of a node. *)
Definition check_value (start : nat) (v : RuntimeValue) : R RuntimeValue :=
  match rv_value v with
  | JNumber x =>
    if negb (isFinite x)
    then st_throw (billing_error diag_number (js "non-finite result") (Some start))
    else if default false (rv_integer v) && negb (isSafeInteger x)
    then st_throw (billing_error diag_unsupported (js "integer precision") (Some start))
    else mret v
  | _ => mret v
  end.

(** [boolean(node)], [numeric(node)] and [string(node)], given [evaluate(node)]. *)
Definition to_boolean (start : nat) (c : R RuntimeValue) : R bool :=
  v ← c;
  match rv_value v with
  | JBool b => mret b
  | _ => st_throw (billing_error diag_type (js "boolean condition") (Some start))
  end.

Definition to_numeric (start : nat) (c : R RuntimeValue) : R (number * option bool) :=
  v ← c;
  match rv_value v with
  | JNumber x => mret (x, rv_integer v)
  | _ => st_throw (billing_error diag_type (js "numeric operand") (Some start))
  end.

Definition to_string (start : nat) (c : R RuntimeValue) : R jsstring :=
  v ← c;
  match rv_value v with
  | JString s => mret s
  | _ => st_throw (billing_error diag_type (js "string argument") (Some start))
  end.

Definition plain (v : jsval) : RuntimeValue := mkValue v None.

Definition literal_jsval (v : literal_value) : jsval :=
  match v with
  | lit_null => JNull
  | lit_bool b => JBool b
  | lit_number x => JNumber x
  | lit_string s => JString s
  end.

Definition eval_variable (name : BillingVariable) (start : nat) : R RuntimeValue :=
  match name with
  | image_count =>
    let value := default (num_of_Z 1) (ctx_imageCount context) in
    if negb (isInteger value) || num_ltb value (num_of_Z 1) || num_ltb (num_of_Z 128) value
    then st_throw (billing_error diag_number (js "image_count must be between 1 and 128") (Some start))
    else mret (plain (JNumber value))
  | token_variable v =>
    match default JUndefined (ctx_tokens context ≫= own_property (token_variable_name v)) with
    | JUndefined => st_throw (billing_error diag_missing_context (token_variable_name v) (Some start))
    | JNumber x =>
        if is_negative x
        then st_throw (billing_error diag_number (token_variable_name v) (Some start))
        else mret (plain (JNumber x))
    | _ => st_throw (billing_error diag_number (token_variable_name v) (Some start))
    end
  end.

(** The comparisons [<], [<=], [>], [>=] of two numbers or two strings. *)
Definition compare_values (op : jsstring) (a b : jsval) : option bool :=
  match a, b with
  | JNumber x, JNumber y =>
    if str_eqb op (js "<") then Some (num_ltb x y)
    else if str_eqb op (js "<=") then Some (num_leb x y)
    else if str_eqb op (js ">") then Some (num_ltb y x)
    else if str_eqb op (js ">=") then Some (num_leb y x) else None
  | JString x, JString y =>
    if str_eqb op (js "<") then Some (str_ltb x y)
    else if str_eqb op (js "<=") then Some (str_leb x y)
    else if str_eqb op (js ">") then Some (str_ltb y x)
    else if str_eqb op (js ">=") then Some (str_leb y x) else None
  | _, _ => None
  end.

Definition arithmetic (op : jsstring) (start : nat) (l r : RuntimeValue) (x y : number)
  : R RuntimeValue :=
  let integer := default false (rv_integer l) && default false (rv_integer r) in
  if str_eqb op (js "+") then mret (mkValue (JNumber (num_add x y)) (Some integer))
  else if str_eqb op (js "-") then mret (mkValue (JNumber (num_sub x y)) (Some integer))
  else if str_eqb op (js "*") then mret (mkValue (JNumber (num_mul x y)) (Some integer))
  else if str_eqb op (js "/") then mret (plain (JNumber (num_div x y)))
  else if str_eqb op (js "%") then
    if negb integer then st_throw (billing_error diag_type (js "integer modulo") (Some start))
    else mret (mkValue (JNumber (num_rem x y)) (Some true))
  else st_throw (billing_error diag_unsupported op (Some start)).

Definition binary_values (op : jsstring) (start : nat) (l r : RuntimeValue) : R RuntimeValue :=
  let a := rv_value l in
  let b := rv_value r in
  if str_eqb op (js "==") || str_eqb op (js "!=") then
    if (is_object a && match b with JNull => false | _ => true end)
       || (is_object b && match a with JNull => false | _ => true end)
    then st_throw (billing_error diag_unsupported (js "object comparison") (Some start))
    else
      let equal := strict_equals a b in
      mret (plain (JBool (if str_eqb op (js "==") then equal else negb equal)))
  else
    match a, b, str_eqb op (js "+") with
    | JString x, JString y, true => mret (plain (JString (x ++ y)))
    | _, _, _ =>
        match compare_values op a b with
        | Some c => mret (plain (JBool c))
        | None =>
            match a, b with
            | JNumber x, JNumber y => arithmetic op start l r x y
            | _, _ => st_throw (billing_error diag_type op (Some start))
            end
        end
    end.

Section Nodes.
(** [ev] is [evaluate] one level deeper. *)
Context (ev : ExpressionNode → R RuntimeValue) (ev_undefined : ∀ A, R A).

Definition boolean_ (n : ExpressionNode) : R bool := to_boolean (node_start n) (ev n).
Definition numeric (n : ExpressionNode) : R (number * option bool) :=
  to_numeric (node_start n) (ev n).
Definition string_ (n : ExpressionNode) : R jsstring := to_string (node_start n) (ev n).

(** [f(args[0])] and [f(args[1])] *)
Definition arg0 {A} (f : ExpressionNode → R A) (args : list ExpressionNode) : R A :=
  match args with a :: _ => f a | [] => ev_undefined A end.
Definition arg1 {A} (f : ExpressionNode → R A) (args : list ExpressionNode) : R A :=
  match args with _ :: b :: _ => f b | _ => ev_undefined A end.

Definition eval_binary (op : jsstring) (l r : ExpressionNode) (start : nat) : R RuntimeValue :=
  if str_eqb op (js "&&") then
    a ← boolean_ l;
    if (a : bool) then b ← boolean_ r; mret (plain (JBool b)) else mret (plain (JBool false))
  else if str_eqb op (js "||") then
    a ← boolean_ l;
    if (a : bool) then mret (plain (JBool true)) else b ← boolean_ r; mret (plain (JBool b))
  else
    a ← ev l; b ← ev r; binary_values op start a b.

Definition missing_context {A} (detail : string) (start : nat) : R A :=
  st_throw (billing_error diag_missing_context (js detail) (Some start)).

Definition zone_time (zone : jsstring) : R TimeRecord := λ st,
  match own_property zone (rs_timeValues st) with
  | Some t => Ok (t, st)
  | None =>
      t ← timeInBillingZone now zone;
      Ok (t, set_timeValues zone t st)
  end.

Definition eval_time (name : jsstring) (args : list ExpressionNode) : R RuntimeValue :=
  match time_function_of_name name with
  | None => st_throw (billing_error diag_unsupported name None)
  | Some f =>
      zone ← arg0 string_ args;
      values ← zone_time (trim zone);
      mret (mkValue (JNumber (time_field f values)) (Some true))
  end.

Definition eval_call (name : jsstring) (args : list ExpressionNode) (start : nat) : R RuntimeValue :=
  if str_eqb name (js "fixed") then
    amount ← arg0 numeric args;
    st_modify (set_fixedPrice (fst amount));;
    mret (plain (JNumber (num_mul (fst amount) million)))
  else if str_eqb name (js "tier") then
    label ← arg0 string_ args;
    value ← arg1 numeric args;
    st_modify (set_matchedTier label);;
    mret (plain (JNumber (fst value)))
  else if str_eqb name (js "param") then
    path ← arg0 string_ args;
    match ctx_request context with
    | None => missing_context "request body" start
    | Some request => v ← st_lift (readRequestPath (req_body request) path); mret (plain v)
    end
  else if str_eqb name (js "header") then
    raw ← arg0 string_ args;
    match ctx_request context with
    | None => missing_context "request headers" start
    | Some _ => mret (plain (JString (default [] (own_property (toLowerCase (trim raw)) headers))))
    end
  else if str_eqb name (js "u") then
    field ← arg0 string_ args;
    match ctx_usage context with
    | None => missing_context "task usage" start
    | Some usage => mret (plain (default JNull (own_property field usage)))
    end
  else if str_eqb name (js "has") then
    source ← arg0 ev args;
    substring ← arg1 string_ args;
    if is_nullish (rv_value source) || str_eqb substring [] then mret (plain (JBool false))
    else
      text ← st_lift (billingString (rv_value source) 0);
      mret (plain (JBool (str_includes text substring)))
  else if str_eqb name (js "min") then
    a ← arg0 numeric args; b ← arg1 numeric args;
    mret (plain (JNumber (Math_min (fst a) (fst b))))
  else if str_eqb name (js "max") then
    a ← arg0 numeric args; b ← arg1 numeric args;
    mret (plain (JNumber (Math_max (fst a) (fst b))))
  else if str_eqb name (js "abs") then
    a ← arg0 numeric args; mret (plain (JNumber (Math_abs (fst a))))
  else if str_eqb name (js "floor") then
    a ← arg0 numeric args; mret (plain (JNumber (Math_floor (fst a))))
  else if str_eqb name (js "ceil") then
    a ← arg0 numeric args; mret (plain (JNumber (Math_ceil (fst a))))
  else eval_time name args.
End Nodes.

(** [this.requestRules[findIndex(rule => rule.node === node)].matched = true] *)
Fixpoint mark_rules (node : ExpressionNode) (rules : list CompiledRule)
  (l : list BillingRequestRule) {struct rules} : list BillingRequestRule :=
  match rules, l with
  | r :: rules', x :: l' =>
    if same_node (rule_node r) node
    then mkRequestRule (rr_cond x) (rr_multiplier x) true :: l'
    else x :: mark_rules node rules' l'
  | _, _ => l
  end.

Definition mark_rule (node : ExpressionNode) : R unit :=
  st_modify (set_requestRules (mark_rules node (cp_requestRules compiled))).

Definition evaluation_depth_error : exn := billing_error diag_limit (js "evaluation depth") None.

(** [evaluate(undefined)] *)
Definition evaluate_undefined (depth : Z) (A : Type) : R A :=
  if 256 <? depth + 1 then st_throw evaluation_depth_error
  else st_throw (JsError (undefined_read_message (js "kind"))).

Definition evaluateNode (ev : ExpressionNode → R RuntimeValue) (ev_undefined : ∀ A, R A)
  (node : ExpressionNode) : R RuntimeValue :=
  match node with
  | literal v integer _ => mret (mkValue (literal_jsval v) integer)
  | variable name sp => eval_variable name (sp_start sp)
  | conditional c y n _ =>
    cond ← boolean_ ev c;
    if (cond : bool) then mark_rule node;; ev y else ev n
  | unary op a _ =>
    if str_eqb op (js "!") then
      b ← boolean_ ev a; mret (plain (JBool (negb b)))
    else
      operand ← numeric ev a;
      mret (mkValue (JNumber (if str_eqb op (js "-") then num_opp (fst operand)
                              else fst operand)) (snd operand))
  | binary op l r sp => eval_binary ev op l r (sp_start sp)
  | call name args sp => eval_call ev ev_undefined name args (sp_start sp)
  end.

(** [evaluate(node)] with [this.depth = depth]. *)
Fixpoint evaluate (depth : Z) (node : ExpressionNode) {struct node} : R RuntimeValue :=
  if 256 <? depth + 1 then st_throw evaluation_depth_error
  else
  value ← evaluateNode (evaluate (depth + 1)) (evaluate_undefined (depth + 1)) node;
  check_value (node_start node) value.
End Evaluate.

(** ** Entry points *)
Definition runtime_evaluate (compiled : CompiledBillingExpression) (context : BillingSimulationContext)
    (node : ExpressionNode) : result (RuntimeValue * RState) :=
  headers ← runtime_headers context;
  evaluate compiled context (default current_date (ctx_now context)) headers 0 node
    (initial_state compiled).

Definition empty_context : BillingSimulationContext := mkContext None None None None None.

Definition evaluateBillingCondition (compiled : CompiledBillingExpression) (node : ExpressionNode)
    (now : Date) : option bool :=
  match runtime_evaluate compiled (mkContext None None None None (Some now)) node with
  | Ok (v, _) => match rv_value v with JBool b => Some b | _ => None end
  | _ => None
  end.

Record BillingSuccess := mkSuccess {
  res_cost : number;
  res_billingUnit : BillingUnit;
  res_imageCount : option number;
  res_fixedPrice : option number;
  res_matchedTier : jsstring;
  res_requestRules : list BillingRequestRule;
}.

Inductive BillingEvaluationResult :=
| eval_success (s : BillingSuccess)
| eval_failure (f : ExpressionFailure).

(** The guard on [context.tokens]. *)
Definition check_token (entry : jsstring * jsval) (_ : unit) : result unit :=
  let bad := throw (billing_error diag_number (fst entry) None) in
  match snd entry with
  | JNumber x => if negb (isFinite x) || is_negative x then bad else Ok tt
  | _ => bad
  end.

(** The body of the [try]. *)
Definition evaluate_body (compiled : CompiledBillingExpression) (context : BillingSimulationContext)
    : result BillingSuccess :=
  foldM check_token (default [] (ctx_tokens context)) tt;;
  '(v, st) ← runtime_evaluate compiled context (cp_ast compiled);
  match rv_value v with
  | JNumber x =>
      if negb (isFinite x) || is_negative x
      then throw (billing_error diag_number (js "billing result") None)
      else Ok (mkSuccess x (rs_billingUnit st)
                 (if bool_decide (image_count ∈ cp_variables compiled)
                  then Some (default (num_of_Z 1) (ctx_imageCount context)) else None)
                 (rs_fixedPrice st) (rs_matchedTier st) (rs_requestRules st))
  | _ => throw (billing_error diag_number (js "billing result") None)
  end.

Definition evaluateCompiled (compiled : CompilationResult) (context : BillingSimulationContext)
    : BillingEvaluationResult :=
  match compiled with
  | failed f => eval_failure f
  | ready c =>
      match evaluate_body c context with
      | Ok s => eval_success s
      | Throw e => eval_failure (expressionFailure e)
      | NoFuel => eval_failure (expressionFailure (JsError []))
      end
  end.

(** [evaluateBillingExpression] on a source text. *)
Definition evaluateBillingExpression (source : jsstring) (context : BillingSimulationContext)
    : BillingEvaluationResult :=
  evaluateCompiled (compile source) context.
End WithHost.
