(* ===== verification/ParserFacts.v ===== *)
(** * The parser is total and its trees are well formed

    Lexer and parser facts: tokens are slices of the source, parsing never
    exhausts its fuel, and every tree it returns is well formed: spans are
    nonempty, children lie inside their parent in source order and are strictly
    shorter, calls have their arity, operators are those of the language.  Hence
    spans identify nodes. *)
From S2P Require Import Prelude JsString JsNumber JsNumberFacts BillingTypes Parser.
Local Open Scope nat_scope.

(** ** Matchers *)
Lemma scan_sign_le r sgn n : scan_sign r = (sgn, n) → n ≤ length r.
Proof. destruct r as [|d r]; simpl; intros H; repeat case_match; injection H as ? <-; lia. Qed.

Lemma scan_exponent_le s n e : scan_exponent s = (n, e) → n ≤ length s.
Proof.
  unfold scan_exponent. destruct s as [|c r]; intros H; [injection H as <- ?; simpl; lia|].
  revert H.
  destruct (_ || _); [|intros [= <- ?]; lia].
  destruct (scan_sign r) as [sgn n0] eqn:Esg. apply scan_sign_le in Esg as Hn0.
  pose proof (span_len_le is_digit (drop n0 r)) as Hs. rewrite length_drop in Hs.
  destruct (span_len _ _) eqn:E; intros [= <- ?]; simpl; lia.
Qed.

Lemma scan_mantissa_le s n m e : scan_mantissa s = Some (n, m, e) → 0 < n ≤ length s.
Proof.
  unfold scan_mantissa. pose proof (span_len_le is_digit s) as Hs.
  destruct (span_len is_digit s) as [|ni] eqn:E.
  - destruct s as [|c r]; [done|].
    destruct (decide (c = 46%Z)) as [->|Hc]; [|intros H; repeat case_match; congruence].
    pose proof (span_len_le is_digit r) as Hr.
    destruct (span_len is_digit r) as [|nf]; [done|]. intros [= <- ? ?]; simpl in *; lia.
  - set (d := drop (S ni) s). assert (length d = length s - S ni) as Hd by apply length_drop.
    destruct d as [|c r]; [intros [= <- ? ?]; lia|].
    destruct (decide (c = 46%Z)) as [->|Hc]; simpl in Hd.
    + pose proof (span_len_le is_digit r) as Hr. intros [= <- ? ?]. lia.
    + intros H. assert (n = S ni) as -> by (repeat case_match; congruence). lia.
Qed.

Lemma match_number_prefix rest text :
  match_number rest = Some text → text = take (length text) rest ∧ 0 < length text.
Proof.
  unfold match_number, scan_decimal. intros H.
  destruct (scan_mantissa rest) as [[[n m] e]|] eqn:E; [|done].
  destruct (scan_exponent (drop n rest)) as [n' e'] eqn:E'.
  injection H as <-. apply scan_mantissa_le in E. apply scan_exponent_le in E'.
  rewrite length_drop in E'. rewrite length_take. split; [|lia]. f_equal. lia.
Qed.

Lemma scan_mantissa_head c s n m e : scan_mantissa (c :: s) = Some (n, m, e) → is_digit c = true ∨ c = 46%Z.
Proof.
  unfold scan_mantissa. simpl. destruct (is_digit c); [by left|].
  destruct (decide (c = 46%Z)) as [->|Hc]; [by right|]. intros H. exfalso. repeat case_match; congruence.
Qed.

(** The value of a number token. *)
Lemma match_number_literal rest text : match_number rest = Some text →
  isFinite (Number_of_string text) = true → is_literal_number (Number_of_string text) = true.
Proof.
  intros H. destruct (match_number_prefix _ _ H) as [Ht Hpos]. destruct rest as [|c s]; [done|].
  unfold match_number, scan_decimal in H. destruct (scan_mantissa (c :: s)) as [[[n m] e]|] eqn:E; [|done].
  apply scan_mantissa_head in E. destruct text as [|d t]; simpl in *; [lia|]. injection Ht as -> _.
  unfold is_digit in E. apply read_literal_number; [unfold is_space|]; lia.
Qed.

Lemma match_name_prefix rest text :
  match_name rest = Some text → text = take (length text) rest ∧ 0 < length text.
Proof.
  unfold match_name. destruct rest as [|c r]; [done|].
  destruct (is_name_start c) eqn:E; [|done]. intros [= <-].
  pose proof (span_len_le is_word (c :: r)).
  assert (0 < span_len is_word (c :: r)) by (simpl; unfold is_word; rewrite E; simpl; lia).
  rewrite length_take. split; [|simpl in *; lia]. f_equal. simpl in *. lia.
Qed.

Lemma match_operator_prefix rest text :
  match_operator rest = Some text → text = take (length text) rest ∧ 0 < length text.
Proof.
  unfold match_operator. intros [Hin Hs]%find_some. split.
  - apply starts_with_inv in Hs. rewrite Hs, take_app_length. done.
  - assert (Forall (λ t, 0 < length t) OPERATORS) as Hall by (repeat constructor).
    rewrite Forall_forall in Hall. apply Hall. by apply list_elem_of_In.
Qed.

Lemma scan_string_bounds quote : ∀ k rest cursor value v c', length rest ≤ k →
  scan_string quote rest cursor value = Ok (Some (v, c')) →
  cursor < c' ≤ cursor + length rest.
Proof.
  induction k as [|k IH]; intros rest cursor value v c' Hk H;
    (destruct rest as [|c r1]; simpl in H; [done|simpl in Hk; try lia]).
  destruct (c =? quote)%Z; [injection H as ? <-; simpl; lia|].
  destruct ((c =? 10) || (c =? 13))%Z; [done|].
  destruct (negb (c =? 92)%Z); [apply IH in H; simpl; lia|].
  destruct r1 as [|esc r2]; simpl in *; [done|].
  destruct (simple_escape esc); [apply IH in H; simpl; lia|].
  destruct (esc =? 117)%Z.
  - destruct r2 as [|h1 [|h2 [|h3 [|h4 r3]]]]; try done.
    destruct (is_hex h1 && _); [|done]. apply IH in H; simpl in *; lia.
  - destruct (esc =? 120)%Z; [|done].
    destruct r2 as [|h1 [|h2 r3]]; try done.
    destruct (is_hex h1 && _); [|done]. apply IH in H; simpl in *; lia.
Qed.

(** ** Well-formed trees *)

(** The nodes of [l] lie between [lo] and [hi], in source order. *)
Fixpoint ordered (lo : nat) (l : list ExpressionNode) (hi : nat) : Prop :=
  match l with
  | [] => lo ≤ hi
  | c :: l' => lo ≤ node_start c ∧ ordered (node_end c) l' hi
  end.

Definition node_length (n : ExpressionNode) : nat := node_end n - node_start n.

(** Number literals are finite, not negative and canonical binary64. *)
Definition literal_ok (v : literal_value) : Prop :=
  match v with lit_number x => is_literal_number x = true | _ => True end.

(** Calls have their arity, operators are those of the language. *)
Definition node_shape (n : ExpressionNode) : Prop :=
  match n with
  | literal v _ _ => literal_ok v
  | call name args _ => function_arity name = Some (length args)
  | unary op _ _ => str_in op [js "!"; js "+"; js "-"] = true
  | binary op _ _ _ => is_Some (precedence_of op)
  | _ => True
  end.

Inductive wf_node (n : ExpressionNode) : Prop :=
| wf_intro :
    node_start n < node_end n →
    ordered (node_start n) (children_of n) (node_end n) →
    Forall (λ c, node_length c < node_length n) (children_of n) →
    node_shape n →
    Forall wf_node (children_of n) →
    wf_node n.

Lemma ordered_weaken lo lo' hi hi' l :
  ordered lo l hi → lo' ≤ lo → hi ≤ hi' → ordered lo' l hi'.
Proof.
  revert lo lo'; induction l as [|c l IH]; intros lo lo'; simpl; [lia|].
  intros [??] ??. split; [lia|]. by apply (IH (node_end c)).
Qed.

Lemma wf_nonempty n : wf_node n → node_start n < node_end n.
Proof. by destruct 1. Qed.

Lemma children_with_span n sp : children_of (with_span n sp) = children_of n.
Proof. by destruct n. Qed.

Lemma node_span_with n sp : node_span (with_span n sp) = sp.
Proof. by destruct n. Qed.

(** Parentheses widen the span of a node. *)
Lemma wf_with_span n a b :
  wf_node n → a ≤ node_start n → node_end n ≤ b → wf_node (with_span n (mkSpan a b)).
Proof.
  intros [Hlt Ho Hl Hs Hc] Ha Hb.
  assert (node_start (with_span n (mkSpan a b)) = a) as Es
    by (unfold node_start; by rewrite node_span_with).
  assert (node_end (with_span n (mkSpan a b)) = b) as Ee
    by (unfold node_end; by rewrite node_span_with).
  split; rewrite ?children_with_span, ?Es, ?Ee; [lia| | |by destruct n|done].
  - by apply (ordered_weaken (node_start n) _ (node_end n)).
  - eapply Forall_impl; [exact Hl|]. unfold node_length. rewrite Es, Ee. lia.
Qed.

(** ** Tokens *)
Section Source.
Context (source : jsstring).

(** A token is a slice of the source; only the end token is empty. *)
Definition token_ok (t : Lexeme) : Prop :=
  lex_start t ≤ lex_end t ≤ length source ∧
  lex_text t = slice source (lex_start t) (lex_end t) ∧
  (lex_kind t ≠ lx_end → lex_start t < lex_end t) ∧
  (lex_kind t = lx_end → lex_start t = length source) ∧
  (∀ v, lex_value t = Some v → literal_ok v).

Lemma prefix_token_ok start text kind v i :
  text = take (length text) (drop start source) → 0 < length text →
  start ≤ length source → kind ≠ lx_end → (∀ w, v = Some w → literal_ok w) →
  token_ok (mkLexeme kind text start (start + length text) v i).
Proof.
  intros Ht Hpos Hs Hk Hv. unfold token_ok; simpl.
  assert (length text ≤ length source - start).
  { rewrite <- length_drop. rewrite Ht. rewrite length_take. lia. }
  split_and!; [lia|lia| |lia|done|done].
  unfold slice. by replace (start + length text - start) with (length text) by lia.
Qed.

Lemma next_spec cursor count t c' n' :
  next source cursor count = Ok (t, (c', n')) → cursor ≤ length source →
  token_ok t ∧ cursor ≤ lex_start t ∧ c' = lex_end t ∧ (n' = count + 1 ∧ n' ≤ 10000)%Z.
Proof.
  unfold next. intros H Hc. destruct (Z.ltb_spec 10000 (count + 1)); [done|].
  pose proof (span_len_le is_space (drop cursor source)) as Hsp. rewrite length_drop in Hsp.
  set (start := cursor + span_len is_space (drop cursor source)) in *.
  destruct (drop start source) as [|c body] eqn:Er.
  - assert (length (drop start source) = 0) as Hl by by rewrite Er.
    rewrite length_drop in Hl. injection H as <- <- <-.
    unfold token_ok; simpl. rewrite slice_nil. split_and!; try lia; try done.
  - assert (length (drop start source) = S (length body)) as Hl by by rewrite Er.
    rewrite length_drop in Hl. inv_ok. split; [|split; [|split; [done|lia]]].
    + destruct (match_number (c :: body)) as [text|] eqn:En.
      * unfold next_number in Hx. split_in Hx. injection Hx as <-.
        pose proof (match_number_literal _ _ En) as Hlit.
        apply match_number_prefix in En as [??]. rewrite <- Er in *.
        apply prefix_token_ok; auto; [lia|]. intros w [= <-]. apply Hlit. by apply negb_false_iff.
      * destruct ((c =? 34) || (c =? 39))%Z.
        -- unfold next_string in Hx. inv_ok. split_in Hx. injection Hx as <-.
           apply (scan_string_bounds _ (length body)) in Hx0; [|done].
           unfold token_ok; simpl. split_and!; try lia; try done. by intros ? [= <-].
        -- unfold next_symbol in Hx.
           destruct (match_name (c :: body)) as [text|] eqn:Em.
           ++ injection Hx as <-. apply match_name_prefix in Em as [??]. rewrite <- Er in *.
              apply prefix_token_ok; try done; lia.
           ++ destruct (match_operator (c :: body)) as [text|] eqn:Eo; [|done].
              injection Hx as <-. apply match_operator_prefix in Eo as [??]. rewrite <- Er in *.
              apply prefix_token_ok; try done; lia.
    + assert (lex_start t = start) as ->; [|lia].
      destruct (match_number (c :: body)) as [text|].
      * unfold next_number in Hx. split_in Hx. by injection Hx as <-.
      * destruct ((c =? 34) || (c =? 39))%Z.
        -- unfold next_string in Hx. inv_ok. split_in Hx. by injection Hx as <-.
        -- unfold next_symbol in Hx. split_in Hx; by injection Hx as <-.
Qed.

Lemma next_not_NoFuel cursor count : next source cursor count ≠ NoFuel.
Proof.
  unfold next. destruct (10000 <? _)%Z; [done|]. destruct (drop _ source) as [|c body]; [done|].
  apply bind_not_NoFuel; [|done].
  destruct (match_number _); [unfold next_number; repeat case_match; done|].
  destruct (_ || _)%Z; [|unfold next_symbol; repeat case_match; done].
  unfold next_string. apply bind_not_NoFuel; [|intros; repeat case_match; done].
  generalize (S (cursor + span_len is_space (drop cursor source))), (@nil Z).
  assert (∀ k r n l, length r ≤ k → scan_string c r n l ≠ NoFuel) as Hscan.
  { clear. induction k as [|k IH]; intros r n l Hk; (destruct r as [|a r]; simpl; [done|simpl in Hk; try lia]).
    repeat match goal with
    | |- scan_string _ _ _ _ ≠ _ => apply IH; simpl in *; lia
    | |- _ => case_match; try done
    end; subst; simpl in *; try (apply IH; simpl in *; lia). }
  intros. by apply (Hscan (length body)).
Qed.

Lemma token_nonempty t : token_ok t → lex_text t ≠ [] → lex_start t < lex_end t.
Proof.
  intros (H1 & H2 & _ & _) Hne. destruct (decide (lex_start t = lex_end t)) as [E|]; [|lia].
  destruct Hne. by rewrite H2, E, slice_nil.
Qed.

Lemma precedence_nonempty text prec : precedence_of text = Some prec → text ≠ [].
Proof. by intros H ->. Qed.

(** ** Parser states *)
Definition st_ok (st : PState) : Prop :=
  token_ok (ps_current st) ∧ ps_cursor st = lex_end (ps_current st) ∧ (ps_count st ≤ 10000)%Z.

(** What a step from [st] to [st'] keeps: [st'] is reached by taking at least
  [k] tokens. *)
Definition advances (k : Z) (st st' : PState) : Prop :=
  st_ok st' ∧ (ps_count st + k ≤ ps_count st')%Z ∧ ps_depth st' = ps_depth st.

Lemma take_spec st t st' :
  take_ source st = Ok (t, st') → st_ok st →
  t = ps_current st ∧ advances 1 st st' ∧ lex_end t ≤ lex_start (ps_current st').
Proof.
  unfold take_. intros H (Ht & Hc & Hn0). inv_ok. destruct x as [tok [c n]]. inv_ok. simpl.
  destruct (next_spec _ _ _ _ _ Hx) as (Hok & Hle & -> & Hn).
  { rewrite Hc. destruct Ht as [[??] _]. lia. }
  rewrite Hc in Hle. unfold advances, st_ok; simpl.
  split; [done|]. split; [|lia]. split; [|split; [lia|done]]. split; [done|]. split; [done|lia].
Qed.

Lemma expect_spec text st t st' :
  expect source text st = Ok (t, st') → st_ok st → lex_text t = text ∧ take_ source st = Ok (t, st').
Proof.
  unfold expect. intros H Hst. destruct (negb _) eqn:E; [done|]. split; [|done].
  apply negb_false_iff, str_eqb_eq in E. by apply take_spec in H as (-> & _); [|done].
Qed.

Lemma advances_trans j k st1 st2 st3 :
  (0 ≤ j)%Z → (0 ≤ k)%Z → advances j st1 st2 → advances k st2 st3 → advances (j + k) st1 st3.
Proof. unfold advances. intros ?? (?&?&?) (?&?&?). split; [done|]. split; [lia|congruence]. Qed.

Lemma advances_le j k st st' : (0 ≤ j)%Z → (j ≤ k)%Z → advances k st st' → advances j st st'.
Proof. unfold advances. intros ?? (?&?&?). split; [done|]. split; [lia|done]. Qed.

(** ** The parser *)

(** The node read from [st] on lies between the current tokens of the two states. *)
Definition reads (st : PState) (n : ExpressionNode) (st' : PState) : Prop :=
  advances 1 st st' ∧ wf_node n ∧
  lex_start (ps_current st) ≤ node_start n ∧ node_end n ≤ lex_start (ps_current st').

Definition expression_spec (fuel : nat) : Prop := ∀ m st n st',
  expression source fuel m st = Ok (n, st') → st_ok st → reads st n st'.
Definition loop_spec (fuel : nat) : Prop := ∀ m lhs st n st',
  binary_loop source fuel m lhs st = Ok (n, st') → st_ok st →
  wf_node lhs → node_end lhs ≤ lex_start (ps_current st) →
  advances 0 st st' ∧ wf_node n ∧ node_start n = node_start lhs ∧
  node_end n ≤ lex_start (ps_current st').
Definition primary_spec (fuel : nat) : Prop := ∀ st n st',
  primary source fuel st = Ok (n, st') → st_ok st → reads st n st'.
Definition arguments_spec (fuel : nat) : Prop := ∀ st args st',
  arguments source fuel st = Ok (args, st') → st_ok st →
  advances 0 st st' ∧ Forall wf_node args ∧
  ordered (lex_start (ps_current st)) args (lex_start (ps_current st')).

Lemma st_ok_depth st f : st_ok st → st_ok (set_depth f st).
Proof. done. Qed.

Lemma advances_refl st : st_ok st → advances 0 st st.
Proof. split; [done|]. split; [lia|done]. Qed.

(** The goals of [wf_intro] for a node with a fixed number of children. *)
Local Ltac solve_wf :=
  split; simpl; rewrite ?Forall_cons, ?Forall_nil; unfold node_length, node_start, node_end in *;
    simpl in *; try done; try lia; tauto.

Lemma wf_leaf n : children_of n = [] → node_shape n → node_start n < node_end n → wf_node n.
Proof. intros Hc ??. split; rewrite ?Hc; auto. simpl. lia. Qed.

Lemma wf_binary op l r sp :
  wf_node l → wf_node r → is_Some (precedence_of op) → node_end l < node_start r →
  sp = mkSpan (node_start l) (node_end r) → wf_node (binary op l r sp).
Proof.
  intros Hl Hr Hop Hlt ->. pose proof (wf_nonempty _ Hl). pose proof (wf_nonempty _ Hr).
  solve_wf.
Qed.

Lemma wf_conditional c y n sp :
  wf_node c → wf_node y → wf_node n → node_end c < node_start y → node_end y < node_start n →
  sp = mkSpan (node_start c) (node_end n) → wf_node (conditional c y n sp).
Proof.
  intros Hc Hy Hn H1 H2 ->.
  pose proof (wf_nonempty _ Hc). pose proof (wf_nonempty _ Hy). pose proof (wf_nonempty _ Hn).
  solve_wf.
Qed.

Lemma wf_unary op a start :
  wf_node a → str_in op [js "!"; js "+"; js "-"] = true → start < node_start a →
  wf_node (unary op a (mkSpan start (node_end a))).
Proof.
  intros Ha Hop Hlt. pose proof (wf_nonempty _ Ha).
  solve_wf.
Qed.

Lemma ordered_bounds lo l hi :
  ordered lo l hi → Forall (λ c, node_start c < node_end c) l →
  lo ≤ hi ∧ Forall (λ c, lo ≤ node_start c ∧ node_end c ≤ hi) l.
Proof.
  revert lo; induction l as [|c l IH]; intros lo H Hne; simpl in *; [done|].
  destruct H as [Hlo H]. apply Forall_cons_1 in Hne as [Hc Hne].
  destruct (IH _ H Hne) as [Hle Hall]. split; [lia|]. constructor; [lia|].
  eapply Forall_impl; [exact Hall|]. simpl. lia.
Qed.

Lemma wf_call name args start endp lo hi :
  Forall wf_node args → function_arity name = Some (length args) →
  ordered lo args hi → start < lo → hi < endp →
  wf_node (call name args (mkSpan start endp)).
Proof.
  intros Hargs Har Ho Hs He.
  assert (Forall (λ c, node_start c < node_end c) args) as Hne
    by (eapply Forall_impl; [exact Hargs|apply wf_nonempty]).
  destruct (ordered_bounds _ _ _ Ho Hne) as [Hle Hb].
  split; try done; unfold node_length, node_start, node_end in *; simpl in *; try lia.
  - apply (ordered_weaken lo _ hi); [done|lia|lia].
  - eapply Forall_impl; [exact Hb|]. simpl. lia.
Qed.

Lemma loop_step fuel : expression_spec fuel → loop_spec fuel → loop_spec (S fuel).
Proof.
  intros HE HL m lhs st n st' H Hst Hwf Hend. simpl in H. inv_ok.
  unfold current in Hx. injection Hx as <- <-.
  destruct (precedence_of _) as [prec|] eqn:Ep; [|inv_ok; by split; [apply advances_refl|]].
  destruct (m <=? prec)%Z; [|inv_ok; by split; [apply advances_refl|]].
  inv_ok. apply take_spec in Hx as (-> & Hadv & Hlex); [|done].
  destruct (HE _ _ _ _ Hx0 (proj1 Hadv)) as (Hadv' & Hwf' & Hs & He).
  pose proof (token_nonempty _ (proj1 Hst) (precedence_nonempty _ _ Ep)).
  destruct (HL _ _ _ _ _ H (proj1 Hadv')) as (Hadv'' & Hwf'' & Hs'' & He''); [|done|].
  { apply wf_binary; [done|done|by eexists|lia|done]. }
  split; [|split; [done|split; [|done]]].
  - apply (advances_le 0 (1 + 1 + 0)); [lia..|].
    eapply advances_trans; [lia..|eapply advances_trans; [lia..|done|done]|done].
  - by rewrite Hs''.
Qed.

Section Cases.
Context (expr : Z → ST PState exn ExpressionNode) (args : ST PState exn (list ExpressionNode)).
Hypothesis expr_reads : ∀ m st n st', expr m st = Ok (n, st') → st_ok st → reads st n st'.
Hypothesis args_reads : ∀ st l st', args st = Ok (l, st') → st_ok st →
  advances 0 st st' ∧ Forall wf_node l ∧
  ordered (lex_start (ps_current st)) l (lex_start (ps_current st')).

Lemma token_leaf t leaf st :
  token_ok t → lex_kind t ≠ lx_end → children_of leaf = [] → node_shape leaf →
  node_span leaf = token_span t → lex_end t ≤ lex_start (ps_current st) →
  wf_node leaf ∧ lex_start t ≤ node_start leaf ∧ node_end leaf ≤ lex_start (ps_current st).
Proof.
  intros (? & ? & Hpos & ? & ?) Hk Hc Hsh Hsp Hlex. specialize (Hpos Hk).
  assert (node_start leaf = lex_start t) as Hs by (unfold node_start; by rewrite Hsp).
  assert (node_end leaf = lex_end t) as He by (unfold node_end; by rewrite Hsp).
  split; [|lia]. apply wf_leaf; auto; lia.
Qed.

(** What an operand that starts with the token [t] must satisfy. *)
Definition operand_post (t : Lexeme) (st : PState) (n : ExpressionNode) (st' : PState) : Prop :=
  advances 0 st st' ∧ wf_node n ∧ lex_start t ≤ node_start n ∧
  node_end n ≤ lex_start (ps_current st').

Lemma leaf_post t leaf st :
  st_ok st → token_ok t → lex_kind t ≠ lx_end → children_of leaf = [] → node_shape leaf →
  node_span leaf = token_span t → lex_end t ≤ lex_start (ps_current st) →
  operand_post t st leaf st.
Proof. intros. split; [by apply advances_refl|]. by eapply token_leaf. Qed.

Lemma parse_group_post t st n st' :
  parse_group source expr t st = Ok (n, st') → st_ok st → token_ok t →
  lex_text t = js "(" → lex_end t ≤ lex_start (ps_current st) → operand_post t st n st'.
Proof.
  unfold parse_group. intros H Hst Ht Htext Hlex. inv_ok.
  destruct (expr_reads _ _ _ _ Hx Hst) as (Hadv & Hwf & Hs & He).
  apply expect_spec in Hx0 as [Hclose Htake]; [|apply Hadv].
  apply take_spec in Htake as (-> & Hadv' & Hlex'); [|apply Hadv].
  assert (lex_start t < lex_end t) by (apply token_nonempty; [done|by rewrite Htext]).
  assert (lex_start (ps_current s) < lex_end (ps_current s))
  by (apply token_nonempty; [apply Hadv|by rewrite Hclose]).
  split; [|split; [|split]].
  - apply (advances_le 0 (1 + 1)); [lia..|]. by eapply advances_trans; [lia..|done|].
  - apply wf_with_span; [done|lia|lia].
  - unfold node_start. by rewrite node_span_with.
  - unfold node_end. by rewrite node_span_with.
Qed.

Lemma parse_unary_post t st n st' :
  parse_unary expr t st = Ok (n, st') → st_ok st → token_ok t →
  str_in (lex_text t) [js "!"; js "+"; js "-"] = true →
  lex_end t ≤ lex_start (ps_current st) → operand_post t st n st'.
Proof.
  unfold parse_unary. intros H Hst Ht Hop Hlex. inv_ok.
  destruct (expr_reads _ _ _ _ Hx Hst) as (Hadv & Hwf & Hs & He).
  assert (lex_start t < lex_end t) by (apply token_nonempty; [done|intros E; by rewrite E in Hop]).
  split; [by apply (advances_le 0 1); [lia..|]|].
  split; [apply wf_unary; [done|done|lia]|done].
Qed.

Lemma parse_call_post t st n st' :
  parse_call source args t st = Ok (n, st') → st_ok st → token_ok t → lex_kind t = lx_name →
  lex_text (ps_current st) = js "(" → lex_end t ≤ lex_start (ps_current st) →
  operand_post t st n st'.
Proof.
  unfold parse_call. intros H Hst Ht Hk Hopen Hlex.
  destruct (function_arity (lex_text t)) as [ar|] eqn:Ear; [|done].
  inv_ok. apply take_spec in Hx as (-> & Hadv & Hlex1); [|done].
  destruct (args_reads _ _ _ Hx0 (proj1 Hadv)) as (Hadv2 & Hwf & Ho).
  apply expect_spec in Hx1 as [Hclose Htake]; [|apply Hadv2].
  apply take_spec in Htake as (-> & Hadv3 & Hlex3); [|apply Hadv2].
  destruct (negb _) eqn:Elen; [done|]. inv_ok. bool_hyps.
  assert (lex_start t < lex_end t) by (apply Ht; by rewrite Hk).
  assert (lex_start (ps_current st) < lex_end (ps_current st))
  by (apply token_nonempty; [apply Hst|by rewrite Hopen]).
  assert (lex_start (ps_current s0) < lex_end (ps_current s0))
  by (apply token_nonempty; [apply Hadv2|by rewrite Hclose]).
  split; [|split; [|split; [done|done]]].
  - apply (advances_le 0 (1 + 0 + 1)); [lia..|].
  do 2 (eapply advances_trans; [lia..| |done]). done.
  - eapply wf_call; [done|by rewrite Ear, Elen|done|lia|lia].
Qed.

Lemma parse_name_post t st n st' :
  parse_name source args t st = Ok (n, st') → st_ok st → token_ok t → lex_kind t = lx_name →
  lex_end t ≤ lex_start (ps_current st) → operand_post t st n st'.
Proof.
  unfold parse_name. intros H Hst Ht Hk Hlex.
  assert (lex_kind t ≠ lx_end) by by rewrite Hk.
  destruct (str_eqb (lex_text t) (js "nil")); [inv_ok; by apply leaf_post|].
  destruct (_ || _); [inv_ok; by apply leaf_post|].
  inv_ok. unfold current in Hx. injection Hx as <- <-.
  destruct (negb _) eqn:E.
  - unfold parse_variable in H. destruct (variable_of_text _); [|done].
  inv_ok. by apply leaf_post.
  - apply negb_false_iff in E. str_hyps. by eapply parse_call_post.
Qed.

Lemma parse_operand_post t st n st' :
  parse_operand source expr args t st = Ok (n, st') → st_ok st → token_ok t →
  lex_end t ≤ lex_start (ps_current st) → operand_post t st n st'.
Proof.
  intros H Hst Ht Hlex.
  assert (parse_symbol source expr args t st = Ok (n, st') → operand_post t st n st') as Hsym.
  { clear H. unfold parse_symbol. intros H.
  destruct (str_eqb _ _) eqn:E1; [str_hyps; by eapply parse_group_post|].
  destruct (str_in _ _) eqn:E2; [by eapply parse_unary_post|].
  destruct (lex_kind t) eqn:Ek; try done. by eapply parse_name_post. }
  unfold parse_operand in H.
  destruct (lex_kind t) eqn:Ek, (lex_value t) as [v|] eqn:Ev; try (by apply Hsym);
  inv_ok; apply leaf_post; try done; try (by rewrite Ek); by apply Ht.
Qed.

Lemma parse_conditional_post m lhs st n st' :
  parse_conditional source expr m lhs st = Ok (n, st') → st_ok st → wf_node lhs →
  node_end lhs ≤ lex_start (ps_current st) →
  advances 0 st st' ∧ wf_node n ∧ node_start n = node_start lhs ∧
  node_end n ≤ lex_start (ps_current st').
Proof.
  unfold parse_conditional. intros H Hst Hwf Hend. inv_ok.
  unfold current in Hx. injection Hx as <- <-.
  destruct (_ && _) eqn:E; [|inv_ok; by split; [apply advances_refl|]].
  bool_hyps. str_hyps. inv_ok.
  apply take_spec in Hx as (-> & Hadv & Hlex); [|done].
  destruct (expr_reads _ _ _ _ Hx0 (proj1 Hadv)) as (Hadv1 & Hwf1 & Hs1 & He1).
  apply expect_spec in Hx1 as [Hcolon Htake]; [|apply Hadv1].
  apply take_spec in Htake as (-> & Hadv2 & Hlex2); [|apply Hadv1].
  destruct (expr_reads _ _ _ _ Hx2 (proj1 Hadv2)) as (Hadv3 & Hwf3 & Hs3 & He3).
  assert (lex_start (ps_current st) < lex_end (ps_current st))
  by (apply token_nonempty; [apply Hst|by rewrite H1]).
  assert (lex_start (ps_current s0) < lex_end (ps_current s0))
  by (apply token_nonempty; [apply Hadv1|by rewrite Hcolon]).
  split; [|split; [|done]].
  - apply (advances_le 0 (1 + 1 + 1 + 1)); [lia..|].
  do 3 (eapply advances_trans; [lia..| |done]). done.
  - apply wf_conditional; [done..|lia|lia|done].
Qed.
End Cases.

Lemma parser_specs fuel :
  expression_spec fuel ∧ loop_spec fuel ∧ primary_spec fuel ∧ arguments_spec fuel.
Proof.
  induction fuel as [|fuel (HE & HL & HP & HA)]; [done|].
  split; [|split; [|split]].
  - intros m st n st' H Hst. simpl in H. inv_ok.
    unfold enter_expression in Hx. destruct (128 <? _)%Z; [done|]. inv_ok.
    destruct (HP _ _ _ Hx0 Hst) as (Hadv & Hwf & Hs & He).
    destruct (HL _ _ _ _ _ Hx1 (proj1 Hadv) Hwf He) as (Hadv1 & Hwf1 & Hs1 & He1).
    destruct (parse_conditional_post _ HE _ _ _ _ _ Hx2 (proj1 Hadv1) Hwf1 He1)
      as (Hadv2 & Hwf2 & Hs2 & He2).
    unfold leave_expression, st_modify in Hx3. inv_ok.
    assert (advances (1 + 0 + 0) (set_depth (λ d, (d + 1)%Z) st) s2) as (Hok & Hc & Hd)
      by (do 2 (eapply advances_trans; [lia..| |done]); done).
    split; [|split; [done|split; [simpl in *; lia|done]]].
    split; [done|]. simpl in *. split; lia.
  - by apply loop_step.
  - intros st n st' H Hst. simpl in H. inv_ok.
    apply take_spec in Hx as (-> & Hadv & Hlex); [|done].
    destruct (parse_operand_post _ _ HE HA _ _ _ _ H (proj1 Hadv) (proj1 Hst) Hlex)
      as (Hadv1 & Hwf & Hs & He).
    split; [|done]. apply (advances_le 1 (1 + 0)); [lia..|]. by eapply advances_trans; [lia..|done|].
  - intros st args st' H Hst. simpl in H. inv_ok. unfold is_ in Hx. injection Hx as <- <-.
    destruct (str_eqb _ _); [inv_ok; split; [by apply advances_refl|by split; [apply Forall_nil_2|simpl]]|].
    inv_ok. destruct (HE _ _ _ _ Hx (proj1 (advances_refl _ Hst))) as (Hadv & Hwf & Hs & He).
    unfold is_ in Hx0. injection Hx0 as <- <-.
    destruct (str_eqb _ _).
    + inv_ok. apply take_spec in Hx0 as (-> & Hadv1 & Hlex1); [|apply Hadv].
      destruct (HA _ _ _ Hx1 (proj1 Hadv1)) as (Hadv2 & Hwf2 & Ho).
      split; [|split; [by constructor|]].
      * apply (advances_le 0 (1 + 1 + 0)); [lia..|].
        do 2 (eapply advances_trans; [lia..| |done]). done.
      * split; [done|]. destruct (proj1 Hadv) as ([[??] _] & _). eapply ordered_weaken; [done|lia|done].
    + inv_ok. split; [by apply (advances_le 0 1); [lia..|]|]. split; [by apply Forall_singleton|].
      by split.
Qed.

(** ** Fuel *)
Definition tokens_left (st : PState) : nat := Z.to_nat (10000 - ps_count st).

Lemma advances_left k st st' : (0 ≤ k)%Z → st_ok st → advances k st st' →
  tokens_left st' + Z.to_nat k ≤ tokens_left st.
Proof. unfold advances, st_ok, tokens_left. intros ? (?&?&?) ((?&?&?)&?&?). lia. Qed.

Lemma take_not_NoFuel st : take_ source st ≠ NoFuel.
Proof.
  unfold take_. apply bind_not_NoFuel; [apply next_not_NoFuel|]. by intros [? [??]] _.
Qed.

Lemma expect_not_NoFuel text st : expect source text st ≠ NoFuel.
Proof. unfold expect. destruct (negb _); [done|apply take_not_NoFuel]. Qed.

Definition runs (m : ST PState exn ExpressionNode) (k : nat) : Prop :=
  ∀ st, st_ok st → tokens_left st ≤ k → m st ≠ NoFuel.

Section FuelCases.
Context (fuel k : nat).
Hypothesis Hexpr : ∀ m, runs (expression source fuel m) k.
Hypothesis Hargs : ∀ st, st_ok st → S (tokens_left st) ≤ k → arguments source fuel st ≠ NoFuel.

Lemma parse_operand_runs t : runs (parse_operand source (expression source fuel) (arguments source fuel) t) k.
Proof.
  intros st Hst Hk.
  assert (parse_symbol source (expression source fuel) (arguments source fuel) t st ≠ NoFuel).
  { unfold parse_symbol. destruct (str_eqb _ _).
  { unfold parse_group. apply st_bind_not_NoFuel; [by apply Hexpr|]. intros n st1 _.
    apply st_bind_not_NoFuel; [apply expect_not_NoFuel|done]. }
  destruct (str_in _ _).
  { unfold parse_unary. apply st_bind_not_NoFuel; [by apply Hexpr|done]. }
  destruct (lex_kind t); try done. unfold parse_name.
  destruct (str_eqb _ _); [done|]. destruct (_ || _); [done|].
  apply st_bind_not_NoFuel; [done|]. intros f st1 Hf. unfold current in Hf. injection Hf as <- <-.
  destruct (negb _); [unfold parse_variable; by case_match|]. unfold parse_call.
  destruct (function_arity _); [|done].
  apply st_bind_not_NoFuel; [apply take_not_NoFuel|]. intros t' st1 Ht.
  apply take_spec in Ht as (-> & Hadv & _); [|done].
  pose proof (advances_left 1 _ _ ltac:(lia) Hst Hadv).
  apply st_bind_not_NoFuel; [apply Hargs; [apply Hadv|lia]|]. intros l st2 _.
  apply st_bind_not_NoFuel; [apply expect_not_NoFuel|]. intros ???. by case_match. }
  unfold parse_operand. by destruct (lex_kind t), (lex_value t).
Qed.

Lemma parse_conditional_runs m lhs : runs (parse_conditional source (expression source fuel) m lhs) k.
Proof.
  intros st Hst Hk. unfold parse_conditional.
  apply st_bind_not_NoFuel; [done|]. intros t st1 Ht. unfold current in Ht. injection Ht as <- <-.
  destruct (_ && _); [|done].
  apply st_bind_not_NoFuel; [apply take_not_NoFuel|]. intros t' st1 Ht.
  apply take_spec in Ht as (-> & Hadv & _); [|done].
  pose proof (advances_left 1 _ _ ltac:(lia) Hst Hadv).
  apply st_bind_not_NoFuel; [apply Hexpr; [apply Hadv|lia]|]. intros n st2 Hn.
  destruct (proj1 (parser_specs fuel) _ _ _ _ Hn (proj1 Hadv)) as [Hadv1 _].
  pose proof (advances_left 1 _ _ ltac:(lia) (proj1 Hadv) Hadv1).
  apply st_bind_not_NoFuel; [apply expect_not_NoFuel|]. intros t' st3 Ht.
  apply expect_spec in Ht as [_ Ht]; [|apply Hadv1].
  apply take_spec in Ht as (-> & Hadv2 & _); [|apply Hadv1].
  pose proof (advances_left 1 _ _ ltac:(lia) (proj1 Hadv1) Hadv2).
  apply st_bind_not_NoFuel; [apply Hexpr; [apply Hadv2|lia]|done].
Qed.
End FuelCases.

Lemma parser_runs fuel :
  (∀ m st, st_ok st → 4 * tokens_left st + 5 ≤ fuel → expression source fuel m st ≠ NoFuel) ∧
  (∀ m lhs st, st_ok st → 4 * tokens_left st + 2 ≤ fuel → binary_loop source fuel m lhs st ≠ NoFuel) ∧
  (∀ st, st_ok st → 4 * tokens_left st + 4 ≤ fuel → primary source fuel st ≠ NoFuel) ∧
  (∀ st, st_ok st → 4 * tokens_left st + 6 ≤ fuel → arguments source fuel st ≠ NoFuel).
Proof.
  induction fuel as [|fuel (HE & HL & HP & HA)]; [split_and!; intros; lia|].
  destruct (parser_specs fuel) as (SE & SL & SP & SA).
  split_and!.
  - intros m st Hst Hf. simpl. unfold enter_expression. unfold mbind at 1, st_bind at 1.
    destruct (128 <? _)%Z; [done|].
    set (st1 := set_depth _ st). assert (st_ok st1) as Hst1 by done.
    apply st_bind_not_NoFuel; [apply HP; [done|]; unfold tokens_left in *; simpl; lia|].
    intros n st2 Hn. destruct (SP _ _ _ Hn Hst1) as (Hadv & Hwf & _ & He).
    pose proof (advances_left 1 _ _ ltac:(lia) Hst1 Hadv). change (tokens_left st1) with (tokens_left st) in *.
    apply st_bind_not_NoFuel; [apply HL; [apply Hadv|lia]|].
    intros n' st3 Hn'. destruct (SL _ _ _ _ _ Hn' (proj1 Hadv) Hwf He) as (Hadv' & _).
    pose proof (advances_left 0 _ _ ltac:(lia) (proj1 Hadv) Hadv').
    apply st_bind_not_NoFuel; [|done].
    apply (parse_conditional_runs fuel (tokens_left st3)); [|apply Hadv'|done].
    intros ????. apply HE; [done|lia].
  - intros m lhs st Hst Hf. simpl. apply st_bind_not_NoFuel; [done|].
    intros t st1 Ht. unfold current in Ht. injection Ht as <- <-.
    destruct (precedence_of _); [|done]. destruct (_ <=? _)%Z; [|done].
    apply st_bind_not_NoFuel; [apply take_not_NoFuel|]. intros t' st1 Ht.
    apply take_spec in Ht as (-> & Hadv & _); [|done].
    pose proof (advances_left 1 _ _ ltac:(lia) Hst Hadv).
    apply st_bind_not_NoFuel; [apply HE; [apply Hadv|lia]|]. intros n st2 Hn.
    destruct (SE _ _ _ _ Hn (proj1 Hadv)) as [Hadv1 _].
    pose proof (advances_left 1 _ _ ltac:(lia) (proj1 Hadv) Hadv1).
    apply HL; [apply Hadv1|lia].
  - intros st Hst Hf. simpl. apply st_bind_not_NoFuel; [apply take_not_NoFuel|]. intros t' st1 Ht.
    apply take_spec in Ht as (-> & Hadv & _); [|done].
    pose proof (advances_left 1 _ _ ltac:(lia) Hst Hadv).
    apply (parse_operand_runs fuel (tokens_left st1)); [| |apply Hadv|done].
    + intros ????. apply HE; [done|lia].
    + intros ???. apply HA; [done|lia].
  - intros st Hst Hf. simpl. apply st_bind_not_NoFuel; [done|].
    intros b st1 Hb. unfold is_ in Hb. injection Hb as <- <-. destruct (str_eqb _ _); [done|].
    apply st_bind_not_NoFuel; [apply HE; [done|lia]|]. intros n st1 Hn.
    destruct (SE _ _ _ _ Hn Hst) as [Hadv _].
    pose proof (advances_left 1 _ _ ltac:(lia) Hst Hadv).
    apply st_bind_not_NoFuel; [done|]. intros b st2 Hb. unfold is_ in Hb. injection Hb as <- <-.
    destruct (str_eqb _ _); [|done].
    apply st_bind_not_NoFuel; [apply take_not_NoFuel|]. intros t' st2 Ht.
    apply take_spec in Ht as (-> & Hadv1 & _); [|apply Hadv].
    pose proof (advances_left 1 _ _ ltac:(lia) (proj1 Hadv) Hadv1).
    apply st_bind_not_NoFuel; [apply HA; [apply Hadv1|lia]|done].
Qed.

Lemma match_version_le n v : match_version source = Some (n, v) → n ≤ length source.
Proof.
  unfold match_version. pose proof (span_len_le is_space source) as Hs.
  destruct (drop _ source) as [|c r] eqn:Ed; [done|].
  assert (length (drop (span_len is_space source) source) = S (length r)) as Hl by by rewrite Ed.
  rewrite length_drop in Hl.
  pose proof (span_len_le is_digit r) as Hr.
  assert (length (drop (span_len is_digit r) r) = length r - span_len is_digit r) as Hd
    by apply length_drop.
  intros H. repeat (case_match; try done). injection H as <- ?. simpl in *. lia.
Qed.

Lemma parser_init_ok st : parser_init source = Ok st → st_ok st ∧ ps_count st = 1%Z ∧ ps_depth st = 0%Z.
Proof.
  unfold parser_init. destruct (65536 <? _)%Z; [done|]. intros H. inv_ok.
  destruct x0 as [t [c n]]. inv_ok.
  apply next_spec in Hx0 as (Hok & _ & -> & Hn).
  - split; [|split; [simpl; lia|done]]. split; [done|]. split; [done|simpl; lia].
  - destruct (match_version source) as [[n' v]|] eqn:E; [|injection Hx as <-; lia].
    apply match_version_le in E. destruct (negb _); [done|]. by injection Hx as <-.
Qed.
End Source.

(** Parsing always answers: a tree or a diagnostic. *)
Lemma parse_not_NoFuel source : parse source ≠ NoFuel.
Proof.
  unfold parse. apply bind_not_NoFuel.
  - unfold parser_init. destruct (65536 <? _)%Z; [done|].
    apply bind_not_NoFuel; [by repeat case_match|]. intros c _.
    apply bind_not_NoFuel; [apply next_not_NoFuel|]. by intros [? [??]] _.
  - intros st (Hst & Hc & _)%parser_init_ok.
    apply bind_not_NoFuel; [|by intros [??] _]. unfold parse_from.
    apply st_bind_not_NoFuel.
    + apply parser_runs; [done|]. unfold tokens_left, parser_fuel. rewrite Hc. lia.
    + intros n st' _. apply st_bind_not_NoFuel; [done|]. intros t ? Ht. by case_match.
Qed.

Lemma parse_wf_node source n : parse source = Ok n → wf_node n ∧ node_end n ≤ length source.
Proof.
  unfold parse. intros H. inv_ok. destruct x0 as [n' st']. inv_ok.
  apply parser_init_ok in Hx as (Hst & _). unfold parse_from in Hx0. inv_ok.
  destruct (proj1 (parser_specs source _) _ _ _ _ Hx Hst) as (Hadv & Hwf & _ & He).
  assert (n = x0) as -> by (repeat case_match; by inv_ok).
  split; [done|]. destruct (proj1 (proj1 Hadv)) as [[??] _]. lia.
Qed.

(** ** Spans identify nodes *)
Definition span_within (lo hi : nat) (sp : Span) : Prop :=
  lo ≤ sp_start sp ∧ sp_start sp < sp_end sp ∧ sp_end sp ≤ hi.

Lemma wf_postorder_within n : wf_node n →
  Forall (span_within (node_start n) (node_end n)) (map node_span (postorder n)).
Proof.
  induction n as [n IH] using node_children_ind. intros [Hlt Ho Hl Hs Hc].
  rewrite postorder_children, map_app, Forall_app. split; [|apply Forall_singleton; by split; [|split]].
  assert (Forall (λ c, node_start c < node_end c) (children_of n)) as Hne
    by (eapply Forall_impl; [exact Hc|apply wf_nonempty]).
  destruct (ordered_bounds _ _ _ Ho Hne) as [_ Hb].
  clear Ho Hl Hs Hne. induction (children_of n) as [|c l IHl]; [by apply Forall_nil_2|]. simpl.
  rewrite map_app, Forall_app.
  apply Forall_cons_1 in IH as [IHc IH]. apply Forall_cons_1 in Hc as [Hwc Hc].
  apply Forall_cons_1 in Hb as [Hbc Hb].
  split; [|by apply IHl]. eapply Forall_impl; [by apply IHc|]. unfold span_within. simpl. lia.
Qed.

Lemma ordered_postorder_NoDup l : ∀ lo hi,
  Forall (λ c, wf_node c → NoDup (map node_span (postorder c))) l → Forall wf_node l →
  ordered lo l hi →
  NoDup (map node_span (flat_map postorder l)) ∧
  Forall (span_within lo hi) (map node_span (flat_map postorder l)).
Proof.
  induction l as [|c l IHl]; intros lo hi IH Hc Ho; simpl in *;
    [by split; [apply NoDup_nil_2|apply Forall_nil_2]|].
  apply Forall_cons_1 in IH as [IHc IH]. apply Forall_cons_1 in Hc as [Hwc Hc].
  destruct Ho as [Hlo Ho]. destruct (IHl _ _ IH Hc Ho) as [Hnd Hw].
  assert (Forall (λ c, node_start c < node_end c) l) as Hne
    by (eapply Forall_impl; [exact Hc|apply wf_nonempty]).
  destruct (ordered_bounds _ _ _ Ho Hne) as [Hle _].
  pose proof (wf_postorder_within c Hwc) as Hwin. pose proof (wf_nonempty _ Hwc).
  rewrite map_app. split.
  - apply NoDup_app. split; [by apply IHc|]. split; [|done]. intros sp Hin1 Hin2.
    rewrite Forall_forall in Hwin, Hw. specialize (Hwin _ Hin1). specialize (Hw _ Hin2).
    unfold span_within in *. lia.
  - apply Forall_app. split; (eapply Forall_impl; [eassumption|]); unfold span_within; simpl; lia.
Qed.

Lemma wf_unique_spans n : wf_node n → NoDup (map node_span (postorder n)).
Proof.
  induction n as [n IH] using node_children_ind. intros Hwf. destruct Hwf as [Hlt Ho Hl Hs Hc] eqn:E. clear E.
  rewrite postorder_children, map_app.
  destruct (ordered_postorder_NoDup _ _ _ IH Hc Ho) as [Hnd _].
  apply NoDup_app. split; [done|]. split; [|apply NoDup_singleton].
  intros sp Hin ->%list_elem_of_singleton.
  apply list_elem_of_fmap in Hin as (m & Hsp & Hin).
  apply list_elem_of_In, in_flat_map in Hin as (c & Hin & Hm).
  rewrite Forall_forall in Hl, Hc. apply list_elem_of_In in Hin.
  specialize (Hl _ Hin). specialize (Hc _ Hin).
  pose proof (wf_postorder_within c Hc) as Hw. rewrite Forall_forall in Hw.
  specialize (Hw (node_span m)). unfold span_within, node_length, node_start, node_end in *.
  assert (node_span m ∈ map node_span (postorder c)) as Hin'
    by (apply list_elem_of_fmap; exists m; split; [done|by apply list_elem_of_In]).
  specialize (Hw Hin'). rewrite <- Hsp in *. lia.
Qed.

(** In a well-formed tree, comparing spans is comparing nodes. *)
Lemma same_node_eq root a b : wf_node root → a ∈ postorder root → b ∈ postorder root →
  same_node a b = true → a = b.
Proof.
  intros Hwf Ha Hb Hs. apply wf_unique_spans in Hwf.
  apply span_eqb_eq in Hs as Hsp.
  apply list_elem_of_lookup in Ha as [i Hi]. apply list_elem_of_lookup in Hb as [j Hj].
  assert (i = j) as ->; [|congruence].
  change (map node_span (postorder root)) with (node_span <$> postorder root) in Hwf.
  eapply NoDup_lookup; [exact Hwf| |]; rewrite list_lookup_fmap.
  - by rewrite Hi.
  - by rewrite Hj, Hsp.
Qed.

(** ** Properties *)

(** C2: parsing terminates: for every source text the parser answers with a
    tree or with a diagnostic; the loops and the mutual recursion never need
    more turns than the token limit allows. *)
Theorem parse_total source : (∃ n, parse source = Ok n) ∨ (∃ e, parse source = Throw e).
Proof.
  pose proof (parse_not_NoFuel source). destruct (parse source) as [n|e|]; eauto. done.
Qed.

(** C3: every parsed tree is well formed (children lie inside their parent in
    source order and are strictly shorter, calls have their arity, operators
    belong to the language, number literals are finite canonical binary64
    values), ends inside the source, and two nodes of it with
    the same span are the same node, so the span stands for the object identity
    the code compares. *)
Theorem parse_tree_well_formed source n : parse source = Ok n →
  wf_node n ∧ (node_end n ≤ length source) ∧
  NoDup (map node_span (postorder n)) ∧
  (∀ a b, a ∈ postorder n → b ∈ postorder n → same_node a b = true → a = b).
Proof.
  intros H. destruct (parse_wf_node _ _ H) as [Hwf He].
  split_and!; [done|done|by apply wf_unique_spans|]. intros a b. by apply same_node_eq.
Qed.

Lemma parse_tree_well_formed_witness :
  ∃ n, parse (js "tier('base', p * 2 + (c - 1) * 8)") = Ok n ∧ NoDup (map node_span (postorder n)).
Proof.
  eexists. split; [vm_compute; reflexivity|].
  apply (parse_tree_well_formed (js "tier('base', p * 2 + (c - 1) * 8)")). vm_compute. reflexivity.
Defined.
