(* ===== verification/Grammar.v ===== *)
(** * The grammar of billing expressions, and the parser's soundness

    [derives k ts n] is the stratified grammar of the language: at level [k]
    (0 for conditionals, 1 to 6 for the binary operators by precedence, 7 for
    operands) the tokens [ts] denote the tree [n].  Binary operators associate
    to the left, conditionals to the right, a call may end in a comma.  The
    precedence-climbing parser only builds trees of this grammar. *)
From S2P Require Import Prelude JsString JsNumber BillingTypes Parser ParserFacts.
Local Open Scope Z_scope.

Inductive derives : Z → list Lexeme → ExpressionNode → Prop :=
| D_weaken k ts n : 0 ≤ k → derives (k + 1) ts n → derives k ts n
| D_conditional ts1 q ts2 colon ts3 c y n :
    derives 1 ts1 c → lex_text q = js "?" → derives 0 ts2 y →
    lex_text colon = js ":" → derives 0 ts3 n →
    derives 0 (ts1 ++ q :: ts2 ++ colon :: ts3)
      (conditional c y n (mkSpan (node_start c) (node_end n)))
| D_binary p ts1 op ts2 l r :
    precedence_of (lex_text op) = Some p → derives p ts1 l → derives (p + 1) ts2 r →
    derives p (ts1 ++ op :: ts2) (binary (lex_text op) l r (mkSpan (node_start l) (node_end r)))
| D_literal t v : (lex_kind t = lx_number ∨ lex_kind t = lx_string) → lex_value t = Some v →
    derives 7 [t] (literal v (match lex_kind t with lx_number => lex_integer t | _ => None end)
                     (token_span t))
| D_nil t : lex_kind t = lx_name → lex_text t = js "nil" →
    derives 7 [t] (literal lit_null None (token_span t))
| D_boolean t b : lex_kind t = lx_name → lex_text t = (if b : bool then js "true" else js "false") →
    derives 7 [t] (literal (lit_bool b) None (token_span t))
| D_variable t v : lex_kind t = lx_name → variable_of_text (lex_text t) = Some v →
    derives 7 [t] (variable v (token_span t))
| D_unary t ts a : In (lex_text t) [js "!"; js "+"; js "-"] → derives 7 ts a →
    derives 7 (t :: ts) (unary (lex_text t) a (mkSpan (lex_start t) (node_end a)))
| D_group t ts n t' : lex_text t = js "(" → derives 0 ts n → lex_text t' = js ")" →
    derives 7 (t :: ts ++ [t']) (with_span n (mkSpan (lex_start t) (lex_end t')))
| D_call t o ts args t' : lex_kind t = lx_name → function_arity (lex_text t) = Some (length args) →
    lex_text o = js "(" → derives_args ts args → lex_text t' = js ")" →
    derives 7 (t :: o :: ts ++ [t']) (call (lex_text t) args (mkSpan (lex_start t) (lex_end t')))
with derives_args : list Lexeme → list ExpressionNode → Prop :=
| A_nil : derives_args [] []
| A_one ts n : derives 0 ts n → derives_args ts [n]
| A_cons ts n comma ts' ns : derives 0 ts n → lex_text comma = js "," → derives_args ts' ns →
    derives_args (ts ++ comma :: ts') (n :: ns).

Lemma derives_le k j ts n : 0 ≤ j → j ≤ k → derives k ts n → derives j ts n.
Proof.
  intros Hj. remember (Z.to_nat (k - j)) as d eqn:Hd. revert k Hd.
  induction d as [|d IH]; intros k Hd Hle H.
  - by replace j with k by lia.
  - apply (IH (k - 1)); [lia|lia|]. apply D_weaken; [lia|]. by replace (k - 1 + 1) with k by lia.
Qed.

Lemma precedence_range text p : precedence_of text = Some p → 1 ≤ p ≤ 6.
Proof.
  unfold precedence_of. destruct (find _ PRECEDENCE) as [[o q]|] eqn:E; [|done].
  intros [= <-]. apply find_some in E as [E _].
  assert (Forall (λ '(_, q), 1 ≤ q ≤ 6) PRECEDENCE) as Hall by (repeat constructor; lia).
  rewrite Forall_forall in Hall. specialize (Hall (o, q)). apply Hall. by apply list_elem_of_In.
Qed.

(** ** The token sequence of a source *)

(** All tokens from the current one on, up to the end token. *)
Fixpoint lex_all (source : jsstring) (fuel : nat) (cursor : nat) (count : Z) (t : Lexeme)
    : result (list Lexeme) :=
  match lex_kind t with
  | lx_end => Ok []
  | _ =>
      match fuel with
      | O => NoFuel
      | S fuel' =>
          '(t', (cursor', count')) ← next source cursor count;
          rest ← lex_all source fuel' cursor' count' t';
          Ok (t :: rest)
      end
  end.

(** The token sequence of a source: what successive calls of [next] return. *)
Definition tokenize (source : jsstring) : result (list Lexeme) :=
  st ← parser_init source;
  lex_all source (Z.to_nat 10001) (ps_cursor st) (ps_count st) (ps_current st).

Section Source.
Context (source : jsstring).

Definition same_lexer (st st' : PState) : Prop :=
  ps_cursor st = ps_cursor st' ∧ ps_count st = ps_count st' ∧ ps_current st = ps_current st'.

(** Taking the tokens [ts] leads from [st] to [st'] (up to the nesting depth). *)
Inductive takes : PState → list Lexeme → PState → Prop :=
| takes_nil st st' : same_lexer st st' → takes st [] st'
| takes_cons st t st1 ts st2 :
  lex_kind t ≠ lx_end → take_ source st = Ok (t, st1) → takes st1 ts st2 → takes st (t :: ts) st2.

Lemma take_same st st' t st1 : same_lexer st st' → take_ source st = Ok (t, st1) →
  ∃ st1', take_ source st' = Ok (t, st1') ∧ same_lexer st1 st1'.
Proof.
  intros (H1 & H2 & H3) H. unfold take_ in *. rewrite <- H1, <- H2, <- H3.
  destruct (next source _ _) as [[t' [c n]]| |]; simpl in *; try done.
  injection H as <- <-. by eexists.
Qed.

Lemma takes_same_l st st' ts st2 : same_lexer st st' → takes st ts st2 → takes st' ts st2.
Proof.
  intros Hs H. revert st' Hs. induction H as [st st1 Hs'|st t st1 ts st2 Hk Ht H IH]; intros st' Hs.
  - apply takes_nil. unfold same_lexer in *. intuition congruence.
  - destruct (take_same _ _ _ _ Hs Ht) as (st1' & Ht' & Hs1). by eapply takes_cons; [| |apply IH].
Qed.

Lemma takes_app st ts1 st1 ts2 st2 :
  takes st ts1 st1 → takes st1 ts2 st2 → takes st (ts1 ++ ts2) st2.
Proof.
  induction 1 as [st st1 Hs|st t st1 ts st1' Hk Ht H IH]; intros H2; simpl.
  - eapply takes_same_l; [|done]. unfold same_lexer in *. intuition congruence.
  - by eapply takes_cons; [| |apply IH].
Qed.

Lemma takes_one st t st' : lex_kind t ≠ lx_end → take_ source st = Ok (t, st') → takes st [t] st'.
Proof. intros Hk H. eapply takes_cons; [done|done|]. by apply takes_nil. Qed.

Lemma takes_depth st ts st' f : takes st ts st' → takes st ts (set_depth f st').
Proof. intros H. rewrite <- (app_nil_r ts). eapply takes_app; [done|]. by apply takes_nil. Qed.

Lemma token_text_kind t : token_ok source t → lex_text t ≠ [] → lex_kind t ≠ lx_end.
Proof.
  intros (H1 & H2 & H3 & H4 & _) Hne Hk. specialize (H4 Hk). apply Hne.
  rewrite H2. replace (lex_end t) with (lex_start t) by lia. apply slice_nil.
Qed.

(** [lex_all] reads the same tokens. *)
Lemma takes_lex_all st ts st' fuel :
  takes st ts st' → lex_kind (ps_current st') = lx_end → (length ts < fuel)%nat →
  lex_all source fuel (ps_cursor st) (ps_count st) (ps_current st) = Ok ts.
Proof.
  intros H Hend. revert fuel. induction H as [st st' (H1 & H2 & H3)|st t st1 ts st2 Hk Ht H IH];
    intros fuel Hf.
  - rewrite H3. destruct fuel; simpl; by rewrite Hend.
  - destruct fuel as [|fuel]; simpl in Hf; [lia|]. unfold take_ in Ht. inv_ok.
    destruct x as [t' [c n]]. inv_ok. simpl. rewrite Hx. simpl.
    specialize (IH Hend fuel ltac:(lia)). simpl in IH. rewrite IH.
    by destruct (lex_kind (ps_current st)).
Qed.

Lemma takes_count st ts st' : takes st ts st' → st_ok source st →
  st_ok source st' ∧ ps_count st' = ps_count st + Z.of_nat (length ts).
Proof.
  induction 1 as [st st' (H1 & H2 & H3)|st t st1 ts st2 Hk Ht H IH]; intros Hst.
  - unfold st_ok in *. rewrite <- H1, <- H2, <- H3. split; [done|simpl; lia].
  - assert (ps_count st1 = ps_count st + 1) as Hc.
    { unfold take_ in Ht. inv_ok. destruct x as [t' [c n]]. inv_ok. simpl.
      unfold next in Hx. destruct (10000 <? _); [done|].
      destruct (drop _ source); inv_ok; lia. }
    apply take_spec in Ht as (_ & Hadv & _); [|done].
    destruct (IH (proj1 Hadv)) as [??]. split; [done|]. simpl. lia.
Qed.

(** ** Soundness *)

(** The current token is no operator of precedence [m] or more. *)
Definition stops (m : Z) (st : PState) : Prop :=
  ∀ p, precedence_of (lex_text (ps_current st)) = Some p → p < m.

Definition expression_derives (fuel : nat) : Prop := ∀ m st n st',
  expression source fuel m st = Ok (n, st') → 0 ≤ m ≤ 7 → st_ok source st →
  ∃ ts, takes st ts st' ∧ derives m ts n ∧ stops m st'.
Definition loop_derives (fuel : nat) : Prop := ∀ m q ts0 lhs st n st',
  binary_loop source fuel m lhs st = Ok (n, st') → 0 ≤ m ≤ 7 → st_ok source st →
  wf_node lhs → (node_end lhs ≤ lex_start (ps_current st))%nat →
  m ≤ q → 1 ≤ q → derives q ts0 lhs → stops (q + 1) st →
  ∃ ts q', takes st ts st' ∧ m ≤ q' ∧ 1 ≤ q' ∧ derives q' (ts0 ++ ts) n ∧ stops m st'.
Definition primary_derives (fuel : nat) : Prop := ∀ st n st',
  primary source fuel st = Ok (n, st') → st_ok source st → ∃ ts, takes st ts st' ∧ derives 7 ts n.
Definition arguments_derives (fuel : nat) : Prop := ∀ st args st',
  arguments source fuel st = Ok (args, st') → st_ok source st →
  ∃ ts, takes st ts st' ∧ derives_args ts args.

Lemma expect_takes text st t st' : text ≠ [] →
  expect source text st = Ok (t, st') → st_ok source st →
  takes st [t] st' ∧ lex_text t = text ∧ st_ok source st'.
Proof.
  intros Hne H Hst. apply expect_spec in H as [Htext Ht]; [|done].
  destruct (take_spec _ _ _ _ Ht Hst) as (-> & Hadv & _).
  split; [|split; [done|apply Hadv]]. apply takes_one; [|done].
  apply token_text_kind; [apply Hst|by rewrite Htext].
Qed.

Section Cases.
Context (expr : Z → ST PState exn ExpressionNode) (args : ST PState exn (list ExpressionNode)).
Hypothesis expr_ok : ∀ m st n st', expr m st = Ok (n, st') → st_ok source st → st_ok source st'.
Hypothesis args_ok : ∀ st l st', args st = Ok (l, st') → st_ok source st → st_ok source st'.
Hypothesis expr_derives : ∀ m st n st', expr m st = Ok (n, st') → 0 ≤ m ≤ 7 → st_ok source st →
  ∃ ts, takes st ts st' ∧ derives m ts n ∧ stops m st'.
Hypothesis args_derives : ∀ st l st', args st = Ok (l, st') → st_ok source st →
  ∃ ts, takes st ts st' ∧ derives_args ts l.

Lemma parse_call_derives t st n st' :
  parse_call source args t st = Ok (n, st') → st_ok source st → lex_kind t = lx_name →
  lex_text (ps_current st) = js "(" → ∃ ts, takes st ts st' ∧ derives 7 (t :: ts) n.
Proof.
  unfold parse_call. intros H Hst Hk Hopen.
  destruct (function_arity (lex_text t)) as [ar|] eqn:Ear; [|done]. inv_ok.
  destruct (take_spec _ _ _ _ Hx Hst) as (-> & Hadv & _).
  destruct (args_derives _ _ _ Hx0 (proj1 Hadv)) as (ts & Hts & Hd).
  apply expect_takes in Hx1 as (Hclose & Htext & _); [|done|by eapply args_ok; [|apply Hadv]].
  destruct (negb _) eqn:Elen; [done|]. inv_ok. bool_hyps. subst ar.
  exists (ps_current st :: ts ++ [x1]). split; [|by apply D_call].
  eapply takes_cons; [|done|by eapply takes_app].
  apply token_text_kind; [apply Hst|by rewrite Hopen].
Qed.

Lemma parse_name_derives t st n st' :
  parse_name source args t st = Ok (n, st') → st_ok source st → lex_kind t = lx_name →
  ∃ ts, takes st ts st' ∧ derives 7 (t :: ts) n.
Proof.
  unfold parse_name. intros H Hst Hk.
  destruct (str_eqb (lex_text t) (js "nil")) eqn:E1.
  { str_hyps. inv_ok. exists []. split; [by apply takes_nil|by apply D_nil]. }
  destruct (_ || _) eqn:E2.
  { inv_ok. exists []. split; [by apply takes_nil|]. apply D_boolean; [done|].
  apply orb_true_iff in E2. destruct (str_eqb (lex_text t) (js "true")) eqn:E3.
  - by apply str_eqb_eq in E3.
  - destruct E2 as [?|E2]; [done|]. by apply str_eqb_eq in E2. }
  inv_ok. unfold current in Hx. injection Hx as <- <-. destruct (negb _) eqn:E3.
  - unfold parse_variable in H. destruct (variable_of_text _) eqn:Ev; [|done]. inv_ok.
  exists []. split; [by apply takes_nil|by apply D_variable].
  - apply negb_false_iff in E3. str_hyps. by apply parse_call_derives.
Qed.

Lemma parse_operand_derives t st n st' :
  parse_operand source expr args t st = Ok (n, st') → st_ok source st →
  ∃ ts, takes st ts st' ∧ derives 7 (t :: ts) n.
Proof.
  intros H Hst.
  assert (parse_symbol source expr args t st = Ok (n, st') →
        ∃ ts, takes st ts st' ∧ derives 7 (t :: ts) n) as Hsym.
  { clear H. unfold parse_symbol. intros H. destruct (str_eqb _ _) eqn:E1.
  - str_hyps. unfold parse_group in H. inv_ok.
    destruct (expr_derives _ _ _ _ Hx ltac:(lia) Hst) as (ts & Hts & Hd & _).
    apply expect_takes in Hx0 as (Hclose & Htext & _); [|done|by eapply expr_ok].
    exists (ts ++ [x0]). split; [by eapply takes_app|by apply D_group].
  - destruct (str_in _ _) eqn:E2.
    + unfold parse_unary in H. inv_ok.
      destruct (expr_derives _ _ _ _ Hx ltac:(lia) Hst) as (ts & Hts & Hd & _).
      exists ts. split; [done|]. apply D_unary; [by apply str_in_In|done].
    + destruct (lex_kind t) eqn:Ek; try done. by apply parse_name_derives. }
  unfold parse_operand in H.
  destruct (lex_kind t) eqn:Ek, (lex_value t) as [v|] eqn:Ev; try (by apply Hsym); inv_ok;
  exists []; (split; [by apply takes_nil|]).
  - pose proof (D_literal t v (or_introl Ek) Ev) as Hd. by rewrite Ek in Hd.
  - pose proof (D_literal t v (or_intror Ek) Ev) as Hd. by rewrite Ek in Hd.
Qed.

Lemma parse_conditional_derives m ts0 lhs st n st' :
  parse_conditional source expr m lhs st = Ok (n, st') → 0 ≤ m ≤ 7 → st_ok source st →
  derives (Z.max m 1) ts0 lhs → stops m st →
  ∃ ts, takes st ts st' ∧ derives m (ts0 ++ ts) n ∧ stops m st'.
Proof.
  unfold parse_conditional. intros H Hm Hst Hd Hstop. inv_ok.
  unfold current in Hx. injection Hx as <- <-. destruct (_ && _) eqn:E.
  - bool_hyps. str_hyps. subst m. inv_ok.
  destruct (take_spec _ _ _ _ Hx Hst) as (-> & Hadv & _).
  destruct (expr_derives _ _ _ _ Hx0 ltac:(lia) (proj1 Hadv)) as (ts1 & Hts1 & Hd1 & _).
  apply expect_takes in Hx1 as (Hcolon & Htext & Hok); [|done|by eapply expr_ok; [|apply Hadv]].
  destruct (expr_derives _ _ _ _ Hx2 ltac:(lia) Hok) as (ts2 & Hts2 & Hd2 & Hstop2).
  exists (ps_current st :: ts1 ++ x1 :: ts2). split; [|split; [by apply D_conditional|done]].
  eapply takes_cons; [|done|].
  + apply token_text_kind; [apply Hst|by rewrite H1].
  + eapply takes_app; [done|]. by apply (takes_app _ [x1] s1).
  - inv_ok. exists []. rewrite app_nil_r. split; [by apply takes_nil|]. split; [|done].
  eapply derives_le; [| |done]; lia.
Qed.
End Cases.

Lemma expression_keeps_ok fuel m st n st' :
  expression source fuel m st = Ok (n, st') → st_ok source st → st_ok source st'.
Proof. intros H Hst. apply (proj1 (parser_specs source fuel) _ _ _ _ H Hst). Qed.

Lemma arguments_keeps_ok fuel st l st' :
  arguments source fuel st = Ok (l, st') → st_ok source st → st_ok source st'.
Proof.
  intros H Hst. destruct (parser_specs source fuel) as (_ & _ & _ & SA).
  apply (SA _ _ _ H Hst).
Qed.

Lemma parser_derives fuel :
  expression_derives fuel ∧ loop_derives fuel ∧ primary_derives fuel ∧ arguments_derives fuel.
Proof.
  induction fuel as [|fuel (HE & HL & HP & HA)]; [done|].
  destruct (parser_specs source fuel) as (SE & SL & SP & SA).
  split; [|split; [|split]].
  - intros m st n st' H Hm Hst. simpl in H. inv_ok.
    unfold enter_expression in Hx. destruct (128 <? _); [done|]. inv_ok.
    destruct (SP _ _ _ Hx0 Hst) as (Hadv & Hwf & Hs & He).
    destruct (HP _ _ _ Hx0 Hst) as (ts1 & Hts1 & Hd1).
    destruct (HL _ 7 ts1 _ _ _ _ Hx1 Hm (proj1 Hadv) Hwf He) as (ts2 & q & Hts2 & Hq & Hq1 & Hd2 & Hstop);
      [lia|lia|done|by intros p ?%precedence_range; lia|].
    destruct (SL _ _ _ _ _ Hx1 (proj1 Hadv) Hwf He) as (Hadv1 & Hwf1 & Hs1 & He1).
    destruct (parse_conditional_derives _ (expression_keeps_ok fuel) HE m (ts1 ++ ts2) _ _ _ _ Hx2 Hm
                (proj1 Hadv1)) as (ts3 & Hts3 & Hd3 & Hstop3);
      [eapply derives_le; [| |done]; lia|done|].
    unfold leave_expression, st_modify in Hx3. inv_ok.
    exists ((ts1 ++ ts2) ++ ts3). split; [|done]. apply takes_depth.
    apply (takes_same_l (set_depth (λ d, d + 1) st)); [done|].
    exact (takes_app _ _ _ _ _ (takes_app _ _ _ _ _ Hts1 Hts2) Hts3).
  - intros m q ts0 lhs st n st' H Hm Hst Hwf Hend Hq Hq1 Hd Hstop. simpl in H. inv_ok.
    unfold current in Hx. injection Hx as <- <-.
    destruct (precedence_of _) as [p|] eqn:Ep.
    + pose proof (precedence_range _ _ Ep) as Hp. specialize (Hstop _ Ep).
      destruct (Z.leb_spec m p).
      * inv_ok. pose proof (token_nonempty _ _ (proj1 Hst) (precedence_nonempty _ _ Ep)).
        destruct (take_spec _ _ _ _ Hx Hst) as (-> & Hadv & Hlex).
        destruct (SE _ _ _ _ Hx0 (proj1 Hadv)) as (Hadv1 & Hwf1 & Hs1 & He1).
        destruct (HE _ _ _ _ Hx0 ltac:(lia) (proj1 Hadv)) as (ts1 & Hts1 & Hd1 & Hstop1).
        destruct (HL _ p (ts0 ++ ps_current st :: ts1) _ _ _ _ H Hm (proj1 Hadv1))
          as (ts2 & q' & Hts2 & Hq' & Hq1' & Hd2 & Hstop2); [|done|lia|lia| |done|].
        -- apply wf_binary; [done|done|by eexists|lia|done].
        -- apply D_binary; [done| |done]. eapply derives_le; [| |done]; lia.
        -- exists (ps_current st :: ts1 ++ ts2), q'. rewrite <- app_assoc in Hd2. split; [|done].
           eapply takes_cons; [|done|by eapply takes_app].
           apply token_text_kind; [apply Hst|]. by eapply precedence_nonempty.
      * inv_ok. exists [], q. rewrite app_nil_r. split; [by apply takes_nil|].
        split_and!; try done. intros p' Hp'. rewrite Ep in Hp'. injection Hp' as <-. lia.
    + inv_ok. exists [], q. rewrite app_nil_r. split; [by apply takes_nil|].
      split_and!; try done. intros p' Hp'. by rewrite Ep in Hp'.
  - intros st n st' H Hst. simpl in H. inv_ok.
    destruct (take_spec _ _ _ _ Hx Hst) as (-> & Hadv & Hlex).
    destruct (parse_operand_derives _ _ (expression_keeps_ok fuel) (arguments_keeps_ok fuel) HE HA
                _ _ _ _ H (proj1 Hadv)) as (ts & Hts & Hd).
    exists (ps_current st :: ts). split; [|done]. eapply takes_cons; [|done|done].
    intros Hk. unfold parse_operand, parse_symbol in H. rewrite Hk in H.
    assert (lex_text (ps_current st) = []) as Htext.
    { destruct Hst as ((H1 & H2 & H3 & H4 & _) & _). specialize (H4 Hk). rewrite H2.
      replace (lex_end (ps_current st)) with (lex_start (ps_current st)) by lia. apply slice_nil. }
    by rewrite Htext in H.
  - intros st args st' H Hst. simpl in H. inv_ok. unfold is_ in Hx. injection Hx as <- <-.
    destruct (str_eqb _ _).
    { inv_ok. exists []. split; [by apply takes_nil|by apply A_nil]. }
    inv_ok. destruct (HE _ _ _ _ Hx ltac:(lia) Hst) as (ts & Hts & Hd & _).
    unfold is_ in Hx0. injection Hx0 as <- <-. destruct (str_eqb _ _) eqn:Ecomma.
    + str_hyps. inv_ok. pose proof (expression_keeps_ok _ _ _ _ _ Hx Hst) as Hok.
      destruct (take_spec _ _ _ _ Hx0 Hok) as (-> & Hadv & _).
      destruct (HA _ _ _ Hx1 (proj1 Hadv)) as (ts' & Hts' & Hd').
      exists (ts ++ ps_current s :: ts'). split; [|by apply A_cons].
      eapply takes_app; [done|]. eapply takes_cons; [|done|done].
      apply token_text_kind; [apply Hok|by rewrite Ecomma].
    + inv_ok. exists ts. split; [done|by apply A_one].
Qed.
End Source.

Lemma parse_derives source n : parse source = Ok n →
  ∃ ts, tokenize source = Ok ts ∧ derives 0 ts n.
Proof.
  unfold parse, tokenize. intros H. inv_ok. rewrite Hx. destruct x0 as [n' st']. inv_ok.
  destruct (parser_init_ok _ _ Hx) as (Hst & Hc & _).
  unfold parse_from in Hx0. inv_ok. unfold current in Hx2. injection Hx2 as <- <-.
  destruct (lex_kind (ps_current s)) eqn:Ek; try done. inv_ok.
  destruct (proj1 (parser_derives source _) _ _ _ _ Hx1 ltac:(lia) Hst) as (ts & Hts & Hd & _).
  exists ts. split; [|done]. eapply takes_lex_all; [done|done|].
  destruct (takes_count _ _ _ _ Hts Hst) as [(_ & _ & Hcount) Hlen]. lia.
Qed.

(** ** Properties *)

(** C4: the parser is sound for the stratified grammar: a tree it returns is
    derived from the token sequence of the source, with the precedences of the
    operator table, left-associative binary operators and right-associative
    conditionals. *)
Theorem parse_sound source n : parse source = Ok n →
  ∃ ts, tokenize source = Ok ts ∧ derives 0 ts n.
Proof. apply parse_derives. Qed.

Lemma parse_sound_witness :
  ∃ n ts, parse (js "1 + 2 * c ? p : -3") = Ok n ∧
          tokenize (js "1 + 2 * c ? p : -3") = Ok ts ∧ derives 0 ts n.
Proof.
  destruct (parse (js "1 + 2 * c ? p : -3")) as [n|e|] eqn:E;
    [|vm_compute in E; discriminate E|vm_compute in E; discriminate E].
  destruct (parse_sound (js "1 + 2 * c ? p : -3") n E) as (ts & Ht & Hd).
  exists n, ts. split; [reflexivity|]. split; [exact Ht|exact Hd].
Defined.
