(* ===== verification/CompileFacts.v ===== *)
(** * Type inference, totality of compilation, the compilation cache

    [infer] is the type system of the language as a compositional function; the
    map-based visitor of [checkExpressionTypes] computes it on every parsed
    tree.  Compilation never runs out of fuel, and the bounded cache is
    transparent: it always answers what a fresh compilation would. *)
From S2P Require Import Prelude JsString JsNumber Host BillingTypes Parser ParserFacts Compile.
Local Open Scope Z_scope.

(** ** The type system *)

(** A child of type [t] may stand where [expected] is required. *)
Definition accepts (expected t : ExpressionType) : bool :=
  bool_decide (t = expected) || bool_decide (t = ty_dynamic).

Definition unary_ty (op : jsstring) (t : ExpressionType) : option ExpressionType :=
  let r := if str_eqb op (js "!") then ty_boolean else ty_number in
  if accepts r t then Some r else None.

Definition conditional_ty (c y n : ExpressionType) : option ExpressionType :=
  if accepts ty_boolean c then Some (if bool_decide (y = n) then y else ty_dynamic) else None.

Definition binary_ty (op : jsstring) (l r : ExpressionType) : option ExpressionType :=
  if is_logical op then
    if accepts ty_boolean l && accepts ty_boolean r then Some ty_boolean else None
  else if is_comparison op then Some ty_boolean
  else if str_eqb op (js "+") && bool_decide (l = ty_string) && bool_decide (r = ty_string)
  then Some ty_string
  else if accepts ty_number l && accepts ty_number r then Some ty_number else None.

Definition arg_accepts (expected : ExpressionType) (ts : list ExpressionType) (i : nat) : bool :=
  match ts !! i with Some t => accepts expected t | None => false end.

Definition call_ty (name : jsstring) (ts : list ExpressionType) : option ExpressionType :=
  if takes_string name && negb (arg_accepts ty_string ts 0) then None
  else if str_eqb name (js "header") then Some ty_string
  else if str_eqb name (js "has") then
    if arg_accepts ty_string ts 1 then Some ty_boolean else None
  else if str_eqb name (js "tier") then
    if arg_accepts ty_string ts 0 && arg_accepts ty_number ts 1 then Some ty_number else None
  else if is_time_function name then Some ty_number
  else if is_arithmetic_function name then
    if forallb (accepts ty_number) ts then Some ty_number else None
  else Some ty_dynamic.

(** The type of a node from the types of its children. *)
Definition node_ty (n : ExpressionNode) (ts : list ExpressionType) : option ExpressionType :=
  match n, ts with
  | literal v _ _, _ => Some (literal_type v)
  | variable _ _, _ => Some ty_number
  | unary op _ _, [t] => unary_ty op t
  | binary op _ _ _, [l; r] => binary_ty op l r
  | conditional _ _ _ _, [c; y; n'] => conditional_ty c y n'
  | call name _ _, _ => call_ty name ts
  | _, _ => None
  end.

Fixpoint infer (n : ExpressionNode) : option ExpressionType :=
  match n with
  | literal v _ _ => Some (literal_type v)
  | variable _ _ => Some ty_number
  | unary op a _ => t ← infer a; unary_ty op t
  | binary op l r _ => tl ← infer l; tr ← infer r; binary_ty op tl tr
  | conditional c y n' _ => tc ← infer c; ty ← infer y; tn ← infer n'; conditional_ty tc ty tn
  | call name args _ => ts ← mapM infer args; call_ty name ts
  end.

Lemma infer_children n : infer n = (mapM infer (children_of n) ≫= node_ty n).
Proof.
  destruct n as [| |f args sp|op a sp|op l r sp|c y n' sp]; try done; simpl;
    repeat match goal with |- context [infer ?x] => destruct (infer x) end; done.
Qed.

(** ** The visitor computes it *)
Section WithHost.
Context {host : Host}.

Lemma requireType_accepts types c expected t : types_get types c = Some t →
  requireType types c expected =
  if accepts expected t then Ok tt
  else Throw (billing_error diag_type (type_name expected ++ js " operand") (Some (node_start c))).
Proof.
  intros Ht. unfold requireType, accepts. rewrite Ht.
  destruct t, expected; reflexivity.
Qed.

Lemma bool_decide_Some_ty (a b : ExpressionType) :
  bool_decide (Some a = Some b) = bool_decide (a = b).
Proof. by destruct a, b. Qed.

(** [r] is [o] up to the choice of the error. *)
Definition agrees {A B} (P : A → B → Prop) (o : option A) (r : result B) : Prop :=
  match o, r with
  | Some a, Ok b => P a b
  | None, Throw _ => True
  | _, _ => False
  end.

Lemma agrees_bind {A B C D} (P : A → B → Prop) (Q : C → D → Prop) o r f g :
  agrees P o r → (∀ a b, P a b → agrees Q (f a) (g b)) → agrees Q (o ≫= f) (r ≫= g).
Proof. destruct o, r; simpl; try done. auto. Qed.

Definition typed (types : TypeMap) (c : ExpressionNode) (t : ExpressionType) : Prop :=
  types_get types c = Some t.

Lemma requireArg_agrees types args ts i expected :
  Forall2 (typed types) args ts →
  agrees (λ _ _, True) (if arg_accepts expected ts i then Some tt else None)
         (requireArg types args i expected).
Proof.
  intros H. unfold arg_accepts, requireArg.
  destruct (ts !! i) as [t|] eqn:Et.
  - destruct (Forall2_lookup_r _ _ _ _ _ H Et) as (a & Ha & Hty). rewrite Ha.
    rewrite (requireType_accepts _ _ _ _ Hty). by destruct (accepts _ _).
  - apply lookup_ge_None in Et. rewrite <- (Forall2_length _ _ _ H) in Et.
    apply lookup_ge_None in Et. by rewrite Et.
Qed.

Lemma requireAll_agrees types args ts expected :
  Forall2 (typed types) args ts →
  agrees (λ _ _, True) (if forallb (accepts expected) ts then Some tt else None)
         (foldM (λ arg _, requireType types arg expected) args tt).
Proof.
  induction 1 as [|a t args ts Ha _ IH]; simpl; [done|].
  rewrite (requireType_accepts _ _ _ _ Ha). destruct (accepts _ _); simpl; done.
Qed.

Lemma call_type_agrees types name args ts :
  Forall2 (typed types) args ts → agrees eq (call_ty name ts) (call_type types name args).
Proof.
  intros H. unfold call_ty, call_type.
  pose proof (requireArg_agrees types args ts 0 ty_string H) as H0s.
  pose proof (requireArg_agrees types args ts 1 ty_string H) as H1s.
  pose proof (requireArg_agrees types args ts 1 ty_number H) as H1n.
  pose proof (requireAll_agrees types args ts ty_number H) as Hall.
  destruct (takes_string name), (arg_accepts ty_string ts 0), (requireArg types args 0 ty_string)
    as [?| |]; simpl in *; try done;
  (destruct (str_eqb name (js "header")); [done|]);
  (destruct (str_eqb name (js "has"));
    [by destruct (arg_accepts ty_string ts 1), (requireArg types args 1 ty_string)|]);
  (destruct (str_eqb name (js "tier"));
    [by destruct (arg_accepts ty_number ts 1), (requireArg types args 1 ty_number)|]);
  (destruct (is_time_function name); [done|]);
  (destruct (is_arithmetic_function name); [|done]);
  by destruct (forallb _ ts), (foldM _ args tt).
Qed.

Lemma type_visitor_agrees types n ts :
  Forall2 (typed types) (children_of n) ts →
  agrees (λ t types', types' = (node_span n, t) :: types) (node_ty n ts) (type_visitor n types).
Proof.
  intros H. unfold type_visitor.
  assert (∀ (o : option ExpressionType) (r : result ExpressionType), agrees eq o r →
    agrees (λ t types', types' = (node_span n, t) :: types) o
      (r ≫= λ t, Ok ((node_span n, t) :: types))) as Hlift
    by (intros [?|] [?| |]; simpl; try done; by intros ->).
  apply Hlift. destruct n as [| |f args sp|op a sp|op l r sp|c y n' sp]; simpl in *; try done.
  - by apply call_type_agrees.
  - inversion H as [|? t ? ts' Ha Hnil]; subst. inversion Hnil; subst.
    unfold unary_ty. rewrite (requireType_accepts _ _ _ _ Ha). by destruct (accepts _ _).
  - inversion H as [|? tl ? ts' Hl H']; subst. inversion H' as [|? tr ? ts'' Hr Hnil]; subst.
    inversion Hnil; subst. unfold binary_ty, binary_type.
    rewrite !(requireType_accepts _ _ _ _ Hl), !(requireType_accepts _ _ _ _ Hr).
    unfold typed in Hl, Hr. rewrite Hl, Hr.
    destruct (is_logical op); [by destruct (accepts _ tl), (accepts _ tr)|].
    destruct (is_comparison op); [done|].
    rewrite !bool_decide_Some_ty.
    destruct (_ && _ && _); [done|]. by destruct (accepts _ tl), (accepts _ tr).
  - inversion H as [|? tc ? ts' Hc H']; subst. inversion H' as [|? ty ? ts'' Hy H'']; subst.
    inversion H'' as [|? tn ? ts''' Hn Hnil]; subst. inversion Hnil; subst.
    unfold conditional_ty. rewrite (requireType_accepts _ _ _ _ Hc).
    unfold typed in Hy, Hn. rewrite Hy, Hn. destruct (accepts _ _); simpl; [|done].
    rewrite !bool_decide_Some_ty. done.
Qed.

(** The bindings a traversal of [l] adds in front of the map. *)
Definition binds (l : list ExpressionNode) (types types' : TypeMap) : Prop :=
  ∃ bs, types' = bs ++ types ∧ map fst bs = rev (map node_span (flat_map postorder l)).

Lemma types_get_skip bs types c :
  node_span c ∉ map fst bs → types_get (bs ++ types) c = types_get types c.
Proof.
  intros Hn. unfold types_get. f_equal. induction bs as [|[sp t] bs IH]; simpl in *; [done|].
  destruct (span_eqb (node_span c) sp) eqn:E.
  - apply span_eqb_eq in E as <-. destruct Hn. by apply list_elem_of_In; left.
  - apply IH. intros Hin. apply Hn. apply list_elem_of_In. right. by apply list_elem_of_In.
Qed.

Lemma types_get_here types c t : types_get ((node_span c, t) :: types) c = Some t.
Proof. unfold types_get, span_eqb. simpl. by rewrite !Nat.eqb_refl. Qed.

Lemma type_visit n : ∀ d types, wf_node n → d + Z.of_nat (node_depth n) ≤ 256 →
  agrees (λ t types', binds [n] types types' ∧ typed types' n t) (infer n)
         (visit_at type_visitor d n types).
Proof.
  induction n as [n IH] using node_children_ind. intros d types Hwf Hd.
  rewrite visit_at_unfold, infer_children. rewrite node_depth_children in Hd.
  destruct (Z.ltb_spec 256 d); [lia|].
  pose proof (wf_unique_spans _ Hwf) as Hnd. rewrite postorder_children, map_app in Hnd.
  apply NoDup_app in Hnd as (Hnd & Hself & _).
  destruct Hwf as [_ _ _ _ Hc].
  eapply (agrees_bind (λ ts types', binds (children_of n) types types' ∧
                                     Forall2 (typed types') (children_of n) ts)).
  - clear Hself. revert types Hd Hnd Hc. induction (children_of n) as [|c l IHl]; intros types Hd Hnd Hc; simpl.
    { split; [by exists []|constructor]. }
    apply Forall_cons_1 in IH as [IHc IH]. apply Forall_cons_1 in Hc as [Hwc Hc].
    simpl in Hnd, Hd. rewrite map_app in Hnd. apply NoDup_app in Hnd as (Hnd1 & Hdis & Hnd2).
    pose proof (IHc (d + 1) types Hwc ltac:(simpl in Hd; lia)) as Hvc.
    destruct (infer c) as [t|], (visit_at type_visitor (d + 1) c types) as [types1| |];
      simpl in *; try done.
    destruct Hvc as [(bs & -> & Hbs) Htc]. simpl in Hbs. rewrite app_nil_r in Hbs.
    specialize (IHl IH (bs ++ types) ltac:(lia) Hnd2 Hc).
    destruct (mapM infer l) as [ts|], (foldM (visit_at type_visitor (d + 1)) l (bs ++ types))
      as [types2| |]; simpl in *; try done.
    destruct IHl as [(bs' & -> & Hbs') Hts]. split.
    + exists (bs' ++ bs). rewrite app_assoc. split; [done|].
      simpl. by rewrite !map_app, Hbs, Hbs', rev_app_distr.
    + constructor; [|done]. unfold typed. rewrite types_get_skip; [done|].
      rewrite Hbs', list_elem_of_In, <- in_rev, <- list_elem_of_In. apply Hdis. apply list_elem_of_fmap. exists c. split; [done|].
      rewrite postorder_children. apply elem_of_app. right. by apply list_elem_of_singleton.
  - intros ts types' [(bs & -> & Hbs) Hts]. pose proof (type_visitor_agrees _ _ _ Hts) as Hv.
    destruct (node_ty n ts) as [t|], (type_visitor n _) as [types''| |]; simpl in *; try done. subst.
    split; [|apply types_get_here].
    exists ((node_span n, t) :: bs). split; [done|]. simpl. rewrite app_nil_r, postorder_children.
    rewrite map_app, rev_app_distr. simpl. by rewrite Hbs.
Qed.

(** ** Totality *)
Lemma visit_not_NoFuel {St} (visitor : ExpressionNode → St → result St) n s :
  (∀ m s, visitor m s ≠ NoFuel) → visitExpression visitor n s ≠ NoFuel.
Proof. intros Hv. rewrite visitExpression_at. by apply visit_at_too_deep. Qed.

Lemma dependencies_not_NoFuel n : expressionDependencies n ≠ NoFuel.
Proof. by apply visit_not_NoFuel. Qed.

Lemma marker_not_NoFuel n : containsPricingMarker n ≠ NoFuel.
Proof. apply bind_not_NoFuel; [apply dependencies_not_NoFuel|done]. Qed.

Lemma type_visitor_not_NoFuel n types : type_visitor n types ≠ NoFuel.
Proof.
  assert (∀ c e, requireType types c e ≠ NoFuel) as Hr by (intros; unfold requireType; by case_match).
  assert (∀ a i e, requireArg types a i e ≠ NoFuel) as Ha
    by (intros; unfold requireArg; case_match; [apply Hr|done]).
  assert (∀ l, foldM (λ arg _, requireType types arg ty_number) l tt ≠ NoFuel) as Hf.
  { induction l as [|a l IH]; simpl; [done|]. apply bind_not_NoFuel; [apply Hr|]. by intros []. }
  apply bind_not_NoFuel; [|done]. destruct n; simpl; try done.
  - unfold call_type. apply bind_not_NoFuel; [by case_match|]. intros _ _.
    repeat case_match; try done; repeat (apply bind_not_NoFuel; [auto|intros _ _]); done.
  - apply bind_not_NoFuel; [apply Hr|done].
  - unfold binary_type. repeat case_match; try done;
      repeat (apply bind_not_NoFuel; [auto|intros _ _]); done.
  - apply bind_not_NoFuel; [apply Hr|done].
Qed.

Lemma rule_visitor_not_NoFuel source n rules : rule_visitor source n rules ≠ NoFuel.
Proof.
  unfold rule_visitor. repeat (case_match; try done).
  apply bind_not_NoFuel; [apply dependencies_not_NoFuel|]. intros d _. by case_match.
Qed.

Lemma pricing_factor_not_NoFuel rules n : is_pricing_factor rules n ≠ NoFuel.
Proof.
  assert (∀ r : CompiledRule, (if num_leb num_zero (rule_multiplier r)
    then m ← containsPricingMarker (rule_condition r); Ok (negb m) else Ok false) ≠ NoFuel)
    by (intros r; case_match; [apply bind_not_NoFuel; [apply marker_not_NoFuel|done]|done]).
  unfold is_pricing_factor. repeat (case_match; try done).
Qed.

Lemma validate_tier_not_NoFuel n : validate_tier n ≠ NoFuel.
Proof.
  unfold validate_tier. destruct n as [| |f args sp| | |]; try done.
  destruct (negb _); [done|]. destruct args as [|label [|price args]]; try done.
  apply bind_not_NoFuel; [apply marker_not_NoFuel|]. intros [] _; [done|].
  destruct price as [| |pf pargs psp| | |];
    try (apply bind_not_NoFuel; [apply marker_not_NoFuel|]; by intros []).
  destruct (str_eqb pf _); [by repeat case_match|].
  apply bind_not_NoFuel; [apply marker_not_NoFuel|]. by intros [].
Qed.

Lemma validate_not_NoFuel rules n : validateFixedPricingTree rules n ≠ NoFuel.
Proof.
  induction n as [n IH] using node_children_ind.
  destruct n as [| |f args sp|op a sp|op l r sp|c y n' sp];
    cbn [validateFixedPricingTree]; try apply validate_tier_not_NoFuel;
    simpl in IH; rewrite ?Forall_cons in IH.
  - destruct (str_eqb _ _); [|apply validate_tier_not_NoFuel].
    apply bind_not_NoFuel; [apply pricing_factor_not_NoFuel|]. intros [] _; [apply IH|].
    apply bind_not_NoFuel; [apply pricing_factor_not_NoFuel|]. intros [] _; [apply IH|].
    apply validate_tier_not_NoFuel.
  - apply bind_not_NoFuel; [apply marker_not_NoFuel|]. intros [] _.
    + apply validate_tier_not_NoFuel.
    + apply bind_not_NoFuel; [apply IH|]. intros _ _. apply IH.
Qed.

Lemma compile_body_not_NoFuel source : compile_body source ≠ NoFuel.
Proof.
  unfold compile_body.
  apply bind_not_NoFuel; [apply parse_not_NoFuel|]. intros ast _.
  apply bind_not_NoFuel; [apply visit_not_NoFuel, type_visitor_not_NoFuel|]. intros ? _.
  apply bind_not_NoFuel; [apply dependencies_not_NoFuel|]. intros d _.
  apply bind_not_NoFuel; [apply visit_not_NoFuel, rule_visitor_not_NoFuel|]. intros rules _.
  apply bind_not_NoFuel; [|done]. case_match; [apply validate_not_NoFuel|done].
Qed.

(** ** The dependency sets *)
Lemma set_add_elem {A} `{EqDecision A} (x y : A) l : x ∈ set_add y l ↔ x ∈ l ∨ x = y.
Proof.
  unfold set_add. case_match; rewrite ?elem_of_app, ?list_elem_of_singleton; naive_solver.
Qed.

Lemma dependencies_fold l : ∀ d d', foldM dependency_visitor l d = Ok d' →
  (∀ x, x ∈ dep_variables d' ↔ x ∈ dep_variables d ∨ ∃ sp, variable x sp ∈ l) ∧
  (∀ f, f ∈ dep_functions d' ↔ f ∈ dep_functions d ∨ ∃ args sp, call f args sp ∈ l).
Proof.
  induction l as [|m l IH]; intros d d' H; cbn [foldM] in H.
  - inv_ok. split; intros x; split; auto; intros [|H]; auto; destruct_and?;
      repeat destruct H as [? H]; by apply elem_of_nil in H.
  - apply bind_Ok_inv in H as (d1 & H1 & H). destruct (IH _ _ H) as [IHv IHf].
    unfold dependency_visitor in H1. injection H1 as <-.
    split; intros x; rewrite ?IHv, ?IHf; setoid_rewrite elem_of_cons;
      destruct m; simpl; rewrite ?set_add_elem; naive_solver.
Qed.

(** They hold exactly the variables and the functions of the tree. *)
Lemma expressionDependencies_spec n d : expressionDependencies n = Ok d →
  (∀ x, x ∈ dep_variables d ↔ ∃ sp, variable x sp ∈ postorder n) ∧
  (∀ f, f ∈ dep_functions d ↔ ∃ args sp, call f args sp ∈ postorder n).
Proof.
  unfold expressionDependencies. intros H. pose proof (visit_at_Ok_depth dependency_visitor n 0) as Hd.
  rewrite visitExpression_at in H. specialize (Hd _ _ H).
  rewrite visit_at_postorder in H by lia. apply dependencies_fold in H as [Hv Hf]. simpl in *.
  split; intros x; rewrite ?Hv, ?Hf; setoid_rewrite elem_of_nil; naive_solver.
Qed.

(** ** What a compiled expression satisfies *)
Lemma compile_ready source c : compile source = ready c → compile_body source = Ok c.
Proof. unfold compile. destruct (compile_body source); congruence. Qed.

Lemma visit_Ok_depth {St} (visitor : ExpressionNode → St → result St) n s s' :
  visitExpression visitor n s = Ok s' → Z.of_nat (node_depth n) ≤ 256.
Proof. rewrite visitExpression_at. intros H%visit_at_Ok_depth. lia. Qed.

(** The checks that succeeded. *)
Lemma compile_body_inv source c : compile_body source = Ok c →
  cp_source c = source ∧ parse source = Ok (cp_ast c) ∧
  wf_node (cp_ast c) ∧ (node_end (cp_ast c) ≤ length source)%nat ∧
  Z.of_nat (node_depth (cp_ast c)) ≤ 256 ∧
  (∃ t, infer (cp_ast c) = Some t) ∧
  expressionDependencies (cp_ast c) = Ok (mkDependencies (cp_variables c) (cp_functions c)) ∧
  visitExpression (rule_visitor source) (cp_ast c) [] = Ok (cp_requestRules c) ∧
  (str_in (js "fixed") (cp_functions c) = true →
   validateFixedPricingTree (cp_requestRules c) (cp_ast c) = Ok tt).
Proof.
  unfold compile_body. intros H. inv_ok. simpl.
  destruct (parse_wf_node _ _ Hx) as [Hwf Hend]. pose proof (visit_Ok_depth _ _ _ _ Hx0) as Hd.
  split_and!; try done.
  - unfold checkExpressionTypes in Hx0. rewrite visitExpression_at in Hx0.
    pose proof (type_visit x 0 [] Hwf ltac:(lia)) as Ht. rewrite Hx0 in Ht.
    destruct (infer x); [by eexists|done].
  - by destruct x1.
  - intros Hf. rewrite Hf in Hx3. by destruct x3.
Qed.

(** ** The cache *)
Definition cache_ok (cache : CompiledCache) : Prop :=
  NoDup (map fst cache) ∧ (length cache ≤ 128)%nat ∧
  Forall (λ '(k, r), r = compile k) cache.

Lemma cache_get_ok cache source r :
  cache_ok cache → cache_get cache source = Some r → r = compile source.
Proof.
  intros (_ & _ & Hall). unfold cache_get.
  destruct (find _ cache) as [[k v]|] eqn:E; [|done]. intros [= <-].
  apply find_some in E as [Hin ->%str_eqb_eq]. rewrite Forall_forall in Hall.
  apply list_elem_of_In in Hin. by apply (Hall _ Hin).
Qed.

Lemma cache_get_None cache source : cache_get cache source = None → source ∉ map fst cache.
Proof.
  unfold cache_get. induction cache as [|[k v] cache IH]; simpl; intros H Hin.
  - by apply list_elem_of_In in Hin.
  - destruct (str_eqb source k) eqn:E; [done|]. apply str_eqb_neq in E.
    apply list_elem_of_In in Hin as [->|Hin]; [done|]. by apply IH, list_elem_of_In.
Qed.

Lemma cache_set_fresh cache key r : key ∉ map fst cache → cache_set cache key r = cache ++ [(key, r)].
Proof.
  induction cache as [|[k v] cache IH]; simpl; intros Hn; [done|].
  rewrite list_elem_of_In in Hn. simpl in Hn.
  destruct (str_eqb k key) eqn:E; [apply str_eqb_eq in E as ->; tauto|].
  rewrite IH; [done|]. rewrite list_elem_of_In. tauto.
Qed.

(** Deleting the oldest key of a duplicate-free cache drops its first entry. *)
Lemma cache_delete_oldest k v cache :
  NoDup (map fst ((k, v) :: cache)) → cache_delete ((k, v) :: cache) k = cache.
Proof.
  simpl. intros [Hn _]%NoDup_cons. unfold cache_delete. simpl. rewrite str_eqb_refl. simpl.
  induction cache as [|[k' v'] cache IH]; simpl in *; [done|].
  rewrite list_elem_of_In in Hn. simpl in Hn.
  destruct (str_eqb k' k) eqn:E; [apply str_eqb_eq in E as ->; tauto|]. simpl. f_equal.
  apply IH. rewrite list_elem_of_In. tauto.
Qed.

(** The cache after a miss: room is made by dropping the oldest entry. *)
Definition evict (cache : CompiledCache) : CompiledCache :=
  if (128 <=? length cache)%nat then tail cache else cache.

Lemma compile_miss cache source : cache_ok cache → cache_get cache source = None →
  compileBillingExpression source cache = (compile source, evict cache ++ [(source, compile source)]).
Proof.
  intros (Hnd & Hlen & _) Hget. apply cache_get_None in Hget as Hn.
  unfold compileBillingExpression. rewrite Hget. f_equal.
  unfold evict. destruct cache as [|[k v] cache]; [done|].
  rewrite cache_delete_oldest by done.
  destruct (Z.leb_spec 128 (Z.of_nat (length ((k, v) :: cache)))),
    (Nat.leb_spec 128 (length ((k, v) :: cache))); try lia.
  - apply cache_set_fresh. intros Hin. apply Hn. rewrite list_elem_of_In in *. by right.
  - by apply cache_set_fresh.
Qed.

Lemma compile_cache_step cache source : cache_ok cache →
  fst (compileBillingExpression source cache) = compile source ∧
  cache_ok (snd (compileBillingExpression source cache)).
Proof.
  intros Hok. destruct (cache_get cache source) as [r|] eqn:E.
  - unfold compileBillingExpression. rewrite E. simpl. split; [by eapply cache_get_ok|done].
  - rewrite compile_miss by done. split; [done|]. simpl.
    destruct Hok as (Hnd & Hlen & Hall). apply cache_get_None in E as Hn.
    assert (NoDup (map fst (evict cache)) ∧ (length (evict cache) ≤ 127)%nat ∧
            Forall (λ '(k, r), r = compile k) (evict cache) ∧ source ∉ map fst (evict cache))
      as (Hnd' & Hlen' & Hall' & Hn').
    { unfold evict. destruct (Nat.leb_spec 128 (length cache)); [|by split_and!; [|lia| |]].
      destruct cache as [|[k v] cache]; simpl in *; [lia|].
      apply NoDup_cons in Hnd as [_ ?]. apply Forall_cons_1 in Hall as [_ ?].
      split_and!; [done|lia|done|]. intros Hin. apply Hn. rewrite list_elem_of_In in *. by right. }
    split_and!.
    + rewrite map_app. apply NoDup_app. split; [done|]. split; [|apply NoDup_singleton].
      intros k Hin ->%list_elem_of_singleton. done.
    + rewrite length_app. simpl. lia.
    + apply Forall_app. split; [done|]. by apply Forall_singleton.
Qed.

(** Any sequence of calls: [requests] in order, with their answers. *)
Fixpoint compile_all (requests : list jsstring) (cache : CompiledCache)
    : list CompilationResult * CompiledCache :=
  match requests with
  | [] => ([], cache)
  | source :: rest =>
      let '(r, cache') := compileBillingExpression source cache in
      let '(rs, cache'') := compile_all rest cache' in
      (r :: rs, cache'')
  end.

Lemma compile_all_transparent requests cache : cache_ok cache →
  fst (compile_all requests cache) = map compile requests ∧
  cache_ok (snd (compile_all requests cache)).
Proof.
  revert cache; induction requests as [|source rest IH]; intros cache Hok; simpl; [done|].
  destruct (compile_cache_step cache source Hok) as [Hr Hok'].
  destruct (compileBillingExpression source cache) as [r cache'].
  destruct (IH cache' Hok') as [Hrs Hok'']. destruct (compile_all rest cache') as [rs cache''].
  simpl in *. by rewrite Hr, Hrs.
Qed.
End WithHost.

(** ** Properties *)

(** C5: on a parsed tree within the traversal limit, the map-based visitor of
    checkExpressionTypes succeeds exactly when the compositional type system
    types the tree, and then every traversal ends with the inferred type of the
    root in the map. *)
Theorem check_types_is_inference {host : Host} source ast :
  parse source = Ok ast → (node_depth ast ≤ 256)%nat →
  match infer ast with
  | Some t => ∃ types, checkExpressionTypes ast = Ok types ∧ types_get types ast = Some t
  | None => ∃ e, checkExpressionTypes ast = Throw e
  end.
Proof.
  intros Hp Hd. destruct (parse_wf_node _ _ Hp) as [Hwf _].
  pose proof (type_visit ast 0 [] Hwf ltac:(lia)) as Ht.
  unfold checkExpressionTypes. rewrite visitExpression_at.
  destruct (infer ast) as [t|], (visit_at type_visitor 0 ast []) as [types|e|]; simpl in Ht; try done.
  - exists types. split; [done|]. apply Ht.
  - by exists e.
Qed.

Lemma check_types_is_inference_witness :
  ∃ ast types, parse (js "has('abc', 'b') ? p * 2 : 1") = Ok ast ∧
    @checkExpressionTypes plain_host ast = Ok types ∧ types_get types ast = Some ty_number.
Proof.
  destruct (parse (js "has('abc', 'b') ? p * 2 : 1")) as [ast|e|] eqn:E;
    [|vm_compute in E; discriminate E|vm_compute in E; discriminate E].
  assert (node_depth ast ≤ 256)%nat as Hd
    by (vm_compute in E; injection E as <-; vm_compute; lia).
  pose proof (@check_types_is_inference plain_host _ ast E Hd) as H.
  assert (infer ast = Some ty_number) as Hi
    by (vm_compute in E; injection E as <-; vm_compute; reflexivity).
  rewrite Hi in H. destruct H as (types & Hc & Hg).
  exists ast, types. split; [reflexivity|]. split; [exact Hc|exact Hg].
Defined.

(** C6: the compilation cache is transparent and bounded: whatever sequence of
    sources is compiled from an empty cache, every answer is the answer of a
    fresh compilation, and the cache never holds more than 128 entries, each of
    them correct and under its own key. *)
Theorem compile_cache_refines {host : Host} requests :
  fst (compile_all requests []) = map compile requests ∧
  cache_ok (snd (compile_all requests [])).
Proof.
  apply compile_all_transparent. split; [apply NoDup_nil_2|]. split; [simpl; lia|apply Forall_nil_2].
Qed.

(** C7: compilation always answers, and what a ready expression carries is
    justified: its tree is the parse of its source, well formed, at most 256
    deep and well typed, its dependency sets and request rules are those of the
    tree, and an expression that uses fixed() passed the fixed-price check. *)
Theorem compile_ready_justified {host : Host} source :
  match compile source with
  | ready c =>
      cp_source c = source ∧ parse source = Ok (cp_ast c) ∧ wf_node (cp_ast c) ∧
      (node_depth (cp_ast c) ≤ 256)%nat ∧ (∃ t, infer (cp_ast c) = Some t) ∧
      expressionDependencies (cp_ast c) = Ok (mkDependencies (cp_variables c) (cp_functions c)) ∧
      visitExpression (rule_visitor source) (cp_ast c) [] = Ok (cp_requestRules c) ∧
      (str_in (js "fixed") (cp_functions c) = true →
       validateFixedPricingTree (cp_requestRules c) (cp_ast c) = Ok tt)
  | failed f => ∃ e, compile_body source = Throw e ∧ f = expressionFailure e
  end.
Proof.
  unfold compile. pose proof (compile_body_not_NoFuel source).
  destruct (compile_body source) as [c|e|] eqn:E; [|by exists e|done].
  apply compile_body_inv in E as (H1 & H2 & H3 & _ & H4 & H5 & H6 & H7 & H8).
  split_and!; try done. lia.
Qed.
