(* ===== verification/RuntimeFacts.v ===== *)
(** * Facts about the interpreter

    A closure principle for properties of the interpreter's computations
    ([evaluate_good]), and its instances: evaluation always answers, request
    rules keep their shape and are only ever switched on, the time cache is
    transparent.  Then type soundness with respect to [infer], the value checks,
    and the evaluation depth. *)
From S2P Require Import Prelude JsString JsNumber JsValue Host BillingTypes Parser ParserFacts Compile CompileFacts Runtime.
Local Open Scope Z_scope.

(** ** Helpers that touch no state always answer *)
Lemma sequence_not_NoFuel {A} (l : list (result A)) :
  Forall (λ r, r ≠ NoFuel) l → sequence_results l ≠ NoFuel.
Proof.
  induction 1 as [|r l Hr _ IH]; simpl; [done|].
  apply bind_not_NoFuel; [done|]. intros a _. apply bind_not_NoFuel; [done|done].
Qed.

Lemma walk_path_not_NoFuel path parts : ∀ value, walk_path path value parts ≠ NoFuel.
Proof.
  induction parts as [|key rest IH]; intros value; simpl; [done|].
  destruct value; try done; repeat (case_match; try done); apply IH.
Qed.

Lemma readRequestPath_not_NoFuel body path : readRequestPath body path ≠ NoFuel.
Proof.
  unfold readRequestPath. repeat (case_match; try done). apply walk_path_not_NoFuel.
Qed.

Lemma In_insert_entry {A} (e x : jsstring * A) l : In x (insert_entry e l) ↔ x = e ∨ In x l.
Proof.
  induction l as [|y l IH]; simpl; [naive_solver|].
  destruct (str_ltb _ _); simpl; rewrite ?IH; naive_solver.
Qed.

Lemma In_sort_entries {A} (x : jsstring * A) l : In x (sort_entries l) ↔ In x l.
Proof.
  unfold sort_entries. rewrite <- (or_False (In x l)). change False with (In x []).
  generalize (@nil (jsstring * A)). induction l as [|e l IH]; intros acc; simpl; [tauto|].
  rewrite IH, In_insert_entry. naive_solver.
Qed.

Section JsvalInd.
Context (P : jsval → Prop).
Hypotheses (HU : P JUndefined) (HN : P JNull) (HB : ∀ b, P (JBool b))
  (HX : ∀ x, P (JNumber x)) (HS : ∀ s, P (JString s))
  (HA : ∀ l, Forall P l → P (JArray l))
  (HO : ∀ l, Forall (λ e, P (snd e)) l → P (JObject l)).
Lemma jsval_nested_ind v : P v.
Proof.
  revert v. fix IH 1. intros [| |b|x|s|items|entries];
    [exact HU|exact HN|apply HB|apply HX|apply HS| |].
  - apply HA. induction items as [|v l IHl]; constructor; [apply IH|exact IHl].
  - apply HO. induction entries as [|[k v] l IHl]; constructor; [apply IH|exact IHl].
Qed.
End JsvalInd.

Lemma billingString_not_NoFuel v : ∀ depth, billingString v depth ≠ NoFuel.
Proof.
  induction v as [| |b|x|s|items IH|entries IH] using jsval_nested_ind; intros depth; simpl;
    (destruct (128 <? depth); [done|]); try done.
  - unfold billing_number. by repeat (case_match; try done).
  - apply bind_not_NoFuel; [|done]. apply sequence_not_NoFuel, Forall_forall.
    intros r (i & <- & Hi)%list_elem_of_In%in_map_iff. rewrite Forall_forall in IH.
    apply IH. by apply list_elem_of_In.
  - apply bind_not_NoFuel; [|done]. apply sequence_not_NoFuel, Forall_forall.
    intros r ([k o] & <- & Hin)%list_elem_of_In%in_map_iff. apply bind_not_NoFuel; [|done].
    apply In_sort_entries, in_map_iff in Hin as ([k' v] & [= <- <-] & Hin).
    rewrite Forall_forall in IH. apply (IH (k', v)). by apply list_elem_of_In.
Qed.

(** None of them raises the interpreter's depth error. *)
Lemma walk_path_not_depth path parts : ∀ value, walk_path path value parts ≠ Throw evaluation_depth_error.
Proof.
  induction parts as [|key rest IH]; intros value; simpl; [done|].
  destruct value; try done; repeat (case_match; try done); apply IH.
Qed.

Lemma readRequestPath_not_depth body path : readRequestPath body path ≠ Throw evaluation_depth_error.
Proof. unfold readRequestPath. repeat (case_match; try done). apply walk_path_not_depth. Qed.

Lemma bind_not_Throw {A B} (m : result A) (f : A → result B) e :
  m ≠ Throw e → (∀ a, f a ≠ Throw e) → (m ≫= f) ≠ Throw e.
Proof. destruct m; simpl; intros Hm Hf; [apply Hf| |done]. intros [= ->]. by apply Hm. Qed.

Lemma sequence_not_Throw {A} (l : list (result A)) e :
  Forall (λ r, r ≠ Throw e) l → sequence_results l ≠ Throw e.
Proof.
  induction 1 as [|r l Hr _ IH]; simpl; [done|].
  apply bind_not_Throw; [done|]. intros a. apply bind_not_Throw; [done|done].
Qed.

Lemma billingString_not_depth v : ∀ depth, billingString v depth ≠ Throw evaluation_depth_error.
Proof.
  induction v as [| |b|x|s|items IH|entries IH] using jsval_nested_ind; intros depth; simpl;
    (destruct (128 <? depth); [by intros [=]|]); try done.
  - unfold billing_number. repeat (case_match; try done).
  - apply bind_not_Throw; [|done]. apply sequence_not_Throw, Forall_forall.
    intros r (i & <- & Hi)%list_elem_of_In%in_map_iff. rewrite Forall_forall in IH.
    apply IH. by apply list_elem_of_In.
  - apply bind_not_Throw; [|done]. apply sequence_not_Throw, Forall_forall.
    intros r ([k o] & <- & Hin)%list_elem_of_In%in_map_iff. apply bind_not_Throw; [|done].
    apply In_sort_entries, in_map_iff in Hin as ([k' v] & [= <- <-] & Hin).
    rewrite Forall_forall in IH. apply (IH (k', v)). by apply list_elem_of_In.
Qed.

Section WithHost.
Context {host : Host}.

Lemma timeInBillingZone_not_NoFuel now zone : timeInBillingZone now zone ≠ NoFuel.
Proof. unfold timeInBillingZone. by repeat (case_match; try done). Qed.

Lemma evaluate_unfold compiled context now headers depth node :
  evaluate compiled context now headers depth node =
  if 256 <? depth + 1 then st_throw evaluation_depth_error
  else
    value ← evaluateNode compiled context now headers
              (evaluate compiled context now headers (depth + 1))
              (evaluate_undefined (depth + 1)) node;
    check_value (node_start node) value.
Proof. by destruct node. Qed.

Section Good.
Context (compiled : CompiledBillingExpression) (context : BillingSimulationContext).
Context (now : option Z) (headers : list (jsstring * jsstring)).
Context (Good : ∀ A, ST RState exn A → Prop).
Arguments Good {A} _.
(** The functions the tree may call; only [fixed] and [tier] write fields. *)
Context (allowed : jsstring → bool).
Hypothesis good_ret : ∀ A (a : A), Good (mret a).
Hypothesis good_throw : ∀ A e, e ≠ evaluation_depth_error → Good (A := A) (st_throw e).
Hypothesis good_bind : ∀ A B (m : ST RState exn A) (f : A → ST RState exn B),
  Good m → (∀ a, Good (f a)) → Good (m ≫= f).
Hypothesis good_lift : ∀ A (o : result A), o ≠ NoFuel → o ≠ Throw evaluation_depth_error →
  Good (st_lift o).
Hypothesis good_mark : ∀ node, Good (mark_rule compiled node).
Hypothesis good_fixed : allowed (js "fixed") = true → ∀ x, Good (st_modify (set_fixedPrice x)).
Hypothesis good_tier : allowed (js "tier") = true → ∀ s, Good (st_modify (set_matchedTier s)).
Hypothesis good_time : ∀ zone, Good (zone_time now zone).

Local Ltac good :=
  repeat match goal with
  | |- Good (mbind _ _) => apply good_bind; [|intros ?]
  | |- Good (mret _) => apply good_ret
  | |- Good (st_throw _) => apply good_throw; try by intros [=]
  | |- Good (mark_rule _ _) => apply good_mark
  | |- Good (st_modify (set_fixedPrice _)) => apply good_fixed; assumption
  | |- Good (st_modify (set_matchedTier _)) => apply good_tier; assumption
  | |- Good (zone_time _ _) => apply good_time
  | |- Good (st_lift (readRequestPath _ _)) => apply good_lift; [apply readRequestPath_not_NoFuel|apply readRequestPath_not_depth]
  | |- Good (st_lift (billingString _ _)) => apply good_lift; [apply billingString_not_NoFuel|apply billingString_not_depth]
  | |- Good (if ?b then _ else _) => destruct b
  | |- Good (match ?x with _ => _ end) => destruct x
  end.

Lemma good_check start v : Good (check_value start v).
Proof. unfold check_value. good. Qed.

Lemma good_variable name start : Good (eval_variable context name start).
Proof. unfold eval_variable. good. Qed.

Lemma good_binary_values op start l r : Good (binary_values op start l r).
Proof. unfold binary_values, arithmetic. cbv zeta. good. Qed.

Section Nodes.
Context (ev : ExpressionNode → ST RState exn RuntimeValue).
Context (ev_undefined : ∀ A, ST RState exn A).
(** Either the missing-argument throw is fine, or no argument is missing. *)
Definition enough (args : list ExpressionNode) (k : nat) : Prop :=
  (∀ A, Good (ev_undefined A)) ∨ (k ≤ length args)%nat.

Lemma good_boolean n : Good (ev n) → Good (boolean_ ev n).
Proof. intros H. unfold boolean_, to_boolean. apply good_bind; [done|]. intros v. good. Qed.
Lemma good_numeric n : Good (ev n) → Good (numeric ev n).
Proof. intros H. unfold numeric, to_numeric. apply good_bind; [done|]. intros v. good. Qed.
Lemma good_string n : Good (ev n) → Good (string_ ev n).
Proof. intros H. unfold string_, to_string. apply good_bind; [done|]. intros v. good. Qed.

Lemma good_arg0 {A} (f : ExpressionNode → ST RState exn A) args :
  enough args 1 → Forall (λ n, Good (f n)) args → Good (arg0 ev_undefined f args).
Proof. intros [Hu|Hu]; destruct 1; simpl in *; auto; lia. Qed.
Lemma good_arg1 {A} (f : ExpressionNode → ST RState exn A) args :
  enough args 2 → Forall (λ n, Good (f n)) args → Good (arg1 ev_undefined f args).
Proof. intros [Hu|Hu]; destruct 1 as [|a l _ [|b l' Hb _]]; simpl in *; auto; lia. Qed.

Definition call_ok (name : jsstring) (args : list ExpressionNode) : Prop :=
  (∀ A, Good (ev_undefined A)) ∨ function_arity name = Some (length args).

Lemma call_enough name args k : call_ok name args →
  (∀ a, function_arity name = Some a → (k ≤ a)%nat) → enough args k.
Proof. intros [Hu|Ha] Hk; [by left|]. right. by apply Hk. Qed.

Local Ltac enough_at E Hok :=
  apply str_eqb_eq in E; rewrite E in Hok; eapply call_enough; [exact Hok|];
  let a := fresh in intros a; vm_compute; intros [= <-]; lia.

Lemma good_call name args start : call_ok name args → allowed name = true →
  Forall (λ n, Good (ev n)) args →
  Good (eval_call context now headers ev ev_undefined name args start).
Proof.
  intros Hok Hallowed H.
  assert (Forall (λ n, Good (numeric ev n)) args) as Hn
    by (eapply Forall_impl; [exact H|apply good_numeric]).
  assert (Forall (λ n, Good (string_ ev n)) args) as Hs
    by (eapply Forall_impl; [exact H|apply good_string]).
  unfold eval_call.
  repeat match goal with
  | |- Good (if str_eqb name (js ?s) then _ else _) =>
  let E := fresh "E" in destruct (str_eqb name (js s)) eqn:E;
  [try (assert (enough args 1) by (enough_at E Hok));
   try (assert (enough args 2) by (enough_at E Hok));
   apply str_eqb_eq in E; rewrite E in Hallowed; clear E Hok|]
  end;
  unfold missing_context;
  repeat match goal with
  | |- Good (arg0 _ _ _) => apply good_arg0; assumption
  | |- Good (arg1 _ _ _) => apply good_arg1; assumption
  | |- Good (eval_time _ _ _ _ _) => idtac
  | |- _ => progress good
  end.
  unfold eval_time. destruct (time_function_of_name name) as [f|] eqn:Ef; [|good].
  assert (enough args 1).
  { apply find_some in Ef as [_ ->%str_eqb_eq]. eapply call_enough; [exact Hok|].
    intros a. destruct f; vm_compute; intros [= <-]; lia. }
  apply good_bind; [by apply good_arg0|]. intros z. good.
Qed.

(** [node] is not a call of a function that is not allowed. *)
Definition node_allowed (node : ExpressionNode) : Prop :=
  match node with call f _ _ => allowed f = true | _ => True end.

Lemma good_node node :
  ((∀ A, Good (ev_undefined A)) ∨ node_shape node) → node_allowed node →
  Forall (λ n, Good (ev n)) (children_of node) →
  Good (evaluateNode compiled context now headers ev ev_undefined node).
Proof.
  intros Hok Hallowed H.
  destruct node as [v i sp|name sp|name args sp|op a sp|op l r sp|c y n sp]; simpl in *.
  - apply good_ret.
  - apply good_variable.
  - by apply good_call.
  - apply Forall_cons_1 in H as [Ha _]. destruct (str_eqb _ _);
  (apply good_bind; [auto using good_boolean, good_numeric|intros ?; apply good_ret]).
  - rewrite !Forall_cons in H. destruct H as (Hl & Hr & _). unfold eval_binary.
    pose proof (good_boolean _ Hl). pose proof (good_boolean _ Hr).
    repeat match goal with
    | |- Good (boolean_ _ _) => assumption
    | |- Good (ev _) => assumption
    | |- Good (binary_values _ _ _ _) => apply good_binary_values
    | |- _ => progress good
    end.
  - rewrite !Forall_cons in H. destruct H as (Hc & Hy & Hn & _).
    apply good_bind; [by apply good_boolean|]. intros [|]; [|done].
    by apply good_bind; [apply good_mark|].
Qed.
End Nodes.

(** Either the depth error is fine too, or the tree is well formed and fits. *)
Definition fits (depth : Z) (node : ExpressionNode) : Prop :=
  (∀ A, Good (A := A) (st_throw evaluation_depth_error)) ∨
  (wf_node node ∧ depth + Z.of_nat (node_depth node) < 256).

Lemma evaluate_good node : Forall node_allowed (postorder node) → ∀ depth, fits depth node →
  Good (evaluate compiled context now headers depth node).
Proof.
  induction node as [node IH] using node_children_ind. intros Hallowed depth Hfit.
  rewrite postorder_children in Hallowed. apply Forall_app in Hallowed as [Hall Hnode].
  apply Forall_cons_1 in Hnode as [Hnode _].
  assert (Forall (λ c, ∀ depth, fits depth c → Good (evaluate compiled context now headers depth c))
            (children_of node)) as IH'.
  { rewrite Forall_forall in IH, Hall |- *. intros c Hc depth' Hf.
    apply (IH c Hc); [|exact Hf]. apply Forall_forall. intros m Hm.
    apply Hall, list_elem_of_In, in_flat_map. exists c. by rewrite <- !list_elem_of_In. }
  clear IH Hall. rename IH' into IH.
  rewrite evaluate_unfold. destruct (Z.ltb_spec 256 (depth + 1)).
  { destruct Hfit as [Hg|[_ Hd]]; [apply Hg|lia]. }
  apply good_bind; [|intros ?; apply good_check]. apply good_node.
  - destruct Hfit as [Hg|[[] _]]; [left|by right]. intros A. unfold evaluate_undefined.
  case_match; [apply Hg|by apply good_throw].
  - done.
  - destruct Hfit as [Hg|[Hwf Hd]].
  + eapply Forall_impl; [exact IH|]. intros n Hn. apply Hn. by left.
  + destruct Hwf as [_ _ _ _ Hc]. rewrite node_depth_children in Hd.
    induction (children_of node) as [|c l IHl]; [by apply Forall_nil_2|].
    apply Forall_cons_1 in IH as [IHc IH]. apply Forall_cons_1 in Hc as [Hwc Hc].
    simpl in Hd. apply Forall_cons_2; [|apply IHl; first [done|lia]].
    apply IHc. right. split; [done|]. simpl in *. lia.
Qed.
End Good.

(** Every call is allowed. *)
Lemma all_allowed l : Forall (node_allowed (λ _, true)) l.
Proof. apply Forall_forall. by intros []. Qed.

(** ** Evaluation always answers *)
Lemma evaluate_not_NoFuel compiled context now headers depth node st :
  evaluate compiled context now headers depth node st ≠ NoFuel.
Proof.
  revert st. apply (evaluate_good compiled context now headers (λ A m, ∀ st, m st ≠ NoFuel) (λ _, true)); try done; try apply all_allowed; try by left.
  - intros A B m f Hm Hf st. apply st_bind_not_NoFuel; [done|]. intros a st' _. apply Hf.
  - intros A o Ho _ st. by destruct o.
  - intros zone st. unfold zone_time. case_match; [done|].
    apply bind_not_NoFuel; [apply timeInBillingZone_not_NoFuel|done].
Qed.

Lemma evaluate_body_not_NoFuel c context : evaluate_body c context ≠ NoFuel.
Proof.
  unfold evaluate_body. apply bind_not_NoFuel.
  - generalize (default [] (ctx_tokens context)), tt.
    induction l as [|e l IH]; intros u; simpl; [done|].
    apply bind_not_NoFuel; [unfold check_token; by repeat (case_match; try done)|auto].
  - intros _ _. apply bind_not_NoFuel; [|intros [v st] _; by repeat (case_match; try done)].
    unfold runtime_evaluate. apply bind_not_NoFuel; [|intros h _; apply evaluate_not_NoFuel].
    unfold runtime_headers. generalize (default [] (ctx_request context ≫= req_headers)), (@nil (jsstring * jsstring)).
    induction l as [|[n v] l IH]; intros h; simpl; [done|].
    apply bind_not_NoFuel; [by destruct v|auto].
Qed.

(** ** Depth *)

(** A well-formed tree of depth less than 256 never meets the evaluation limit. *)
Lemma evaluate_not_depth compiled context now headers depth node st :
  wf_node node → depth + Z.of_nat (node_depth node) < 256 →
  evaluate compiled context now headers depth node st ≠ Throw evaluation_depth_error.
Proof.
  intros Hwf Hd. revert st.
  apply (evaluate_good compiled context now headers
           (λ A m, ∀ st, m st ≠ Throw evaluation_depth_error) (λ _, true));
    try done; try apply all_allowed.
  - intros A e He st [= ?]. by apply He.
  - intros A B m f Hm Hf st. unfold mbind, st_bind. specialize (Hm st).
    destruct (m st) as [[a s]|e|]; [apply Hf| |done]. intros [= ->]. by apply Hm.
  - intros A o _ Ho st. unfold st_lift. destruct o; try done. intros [= ->]. by apply Ho.
  - intros zone st. unfold zone_time. case_match; [done|]. apply bind_not_Throw; [|done].
    unfold timeInBillingZone. by repeat (case_match; try done).
  - by right.
Qed.

(** ** Request rules *)

(** [st'] has the rules of [st], with possibly more of them matched. *)
Definition rule_grows (a b : BillingRequestRule) : Prop :=
  rr_cond a = rr_cond b ∧ rr_multiplier a = rr_multiplier b ∧ (rr_matched a = true → rr_matched b = true).

Definition rules_grow (st st' : RState) : Prop :=
  Forall2 rule_grows (rs_requestRules st) (rs_requestRules st').

Lemma rules_grow_refl st : rules_grow st st.
Proof. unfold rules_grow. induction (rs_requestRules st); constructor; [repeat split; done|done]. Qed.

Lemma rules_grow_trans st1 st2 st3 : rules_grow st1 st2 → rules_grow st2 st3 → rules_grow st1 st3.
Proof.
  unfold rules_grow. intros H. generalize (rs_requestRules st3).
  induction H as [|a b l l' (H1 & H2 & H3) _ IH]; intros l3 H'; inversion H' as [|? c ? ? (?&?&?)]; subst;
    constructor; auto. split_and!; [congruence|congruence|auto].
Qed.

Lemma mark_rules_grow node rules l : Forall2 rule_grows l (mark_rules node rules l).
Proof.
  assert (∀ x, rule_grows x x) as Hrefl by (intros x; repeat split; done).
  assert (∀ k, Forall2 rule_grows k k) as Hsame by (induction k; constructor; auto).
  revert l. induction rules as [|r rules IH]; intros [|x l]; simpl; auto.
  destruct (same_node _ _); constructor; auto. repeat split; done.
Qed.

Lemma evaluate_rules_grow compiled context now headers depth node st v st' :
  evaluate compiled context now headers depth node st = Ok (v, st') → rules_grow st st'.
Proof.
  revert st v st'.
  apply (evaluate_good compiled context now headers
           (λ A m, ∀ st a st', m st = Ok (a, st') → rules_grow st st') (λ _, true)).
  - intros A a st a' st' H. inv_ok. apply rules_grow_refl.
  - done.
  - intros A B m f Hm Hf st b st' H. inv_ok. eapply rules_grow_trans; eauto.
  - intros A o _ _ st a st' H. unfold st_lift in H. destruct o; inv_ok; try done. apply rules_grow_refl.
  - intros n st [] st' H. unfold mark_rule, st_modify in H. inv_ok. apply mark_rules_grow.
  - intros _ x st [] st' H. unfold st_modify in H. inv_ok. exact (rules_grow_refl st).
  - intros _ x st [] st' H. unfold st_modify in H. inv_ok. exact (rules_grow_refl st).
  - intros zone st t st' H. unfold zone_time in H. case_match; inv_ok;
      first [exact (rules_grow_refl st) | exact (rules_grow_refl st')].
  - apply all_allowed.
  - by left.
Qed.

(** ** The time cache is transparent *)

(** Every cached record is what the zone computation answers. *)
Definition time_cache_ok (now : option Z) (st : RState) : Prop :=
  Forall (λ '(zone, t), timeInBillingZone now zone = Ok t) (rs_timeValues st).

(** Two states that differ only in their (correct) caches. *)
Definition same_but_times (now : option Z) (st1 st2 : RState) : Prop :=
  rs_requestRules st1 = rs_requestRules st2 ∧ rs_matchedTier st1 = rs_matchedTier st2 ∧
  rs_billingUnit st1 = rs_billingUnit st2 ∧ rs_fixedPrice st1 = rs_fixedPrice st2 ∧
  time_cache_ok now st1 ∧ time_cache_ok now st2.

Definition same_outcome {A} (now : option Z) (o1 o2 : result (A * RState)) : Prop :=
  match o1, o2 with
  | Ok (a1, st1), Ok (a2, st2) => a1 = a2 ∧ same_but_times now st1 st2
  | Throw e1, Throw e2 => e1 = e2
  | NoFuel, NoFuel => True
  | _, _ => False
  end.

Lemma zone_time_cached now zone st : time_cache_ok now st →
  match timeInBillingZone now zone with
  | Ok t => ∃ st', zone_time now zone st = Ok (t, st') ∧ time_cache_ok now st' ∧
      rs_requestRules st' = rs_requestRules st ∧ rs_matchedTier st' = rs_matchedTier st ∧
      rs_billingUnit st' = rs_billingUnit st ∧ rs_fixedPrice st' = rs_fixedPrice st
  | Throw e => zone_time now zone st = Throw e
  | NoFuel => False
  end.
Proof.
  intros Hok. unfold zone_time, own_property.
  destruct (find _ (rs_timeValues st)) as [[z t]|] eqn:E; simpl.
  - apply find_some in E as [Hin Hz]. apply str_eqb_eq in Hz as ->.
    pose proof Hok as Hall. unfold time_cache_ok in Hall. rewrite Forall_forall in Hall.
    apply list_elem_of_In in Hin. specialize (Hall _ Hin). simpl in Hall. rewrite Hall. by exists st.
  - pose proof (timeInBillingZone_not_NoFuel now zone).
    destruct (timeInBillingZone now zone) as [t|e|] eqn:Et; simpl; [|done|done].
    exists (set_timeValues zone t st). split; [done|]. split; [|done].
    unfold time_cache_ok. simpl. by constructor.
Qed.

Lemma evaluate_time_transparent compiled context now headers depth node st1 st2 :
  same_but_times now st1 st2 →
  same_outcome now (evaluate compiled context now headers depth node st1)
                   (evaluate compiled context now headers depth node st2).
Proof.
  revert st1 st2.
  apply (evaluate_good compiled context now headers
           (λ A m, ∀ st1 st2, same_but_times now st1 st2 → same_outcome now (m st1) (m st2)) (λ _, true)).
  - intros A a st1 st2 H. by split.
  - done.
  - intros A B m f Hm Hf st1 st2 H. specialize (Hm _ _ H). unfold mbind, st_bind.
    destruct (m st1) as [[a1 s1]| |], (m st2) as [[a2 s2]| |]; simpl in *; try done.
    destruct Hm as [-> Hs]. by apply Hf.
  - intros A o Ho _ st1 st2 H. unfold st_lift. by destruct o.
  - intros n st1 st2 (H1 & H2 & H3 & H4 & H5 & H6). split; [done|].
    repeat split; simpl; try done. by rewrite H1.
  - intros _ x st1 st2 (H1 & H2 & H3 & H4 & H5 & H6). by split.
  - intros _ x st1 st2 (H1 & H2 & H3 & H4 & H5 & H6). by split.
  - intros zone st1 st2 (H1 & H2 & H3 & H4 & H5 & H6).
    pose proof (zone_time_cached now zone st1 H5) as Z1.
    pose proof (zone_time_cached now zone st2 H6) as Z2.
    destruct (timeInBillingZone now zone) as [t|e|]; [|by rewrite Z1, Z2|done].
    destruct Z1 as (s1 & -> & ? & ? & ? & ? & ?), Z2 as (s2 & -> & ? & ? & ? & ? & ?).
    split; [done|]. repeat split; try done; congruence.
  - apply all_allowed.
  - by left.
Qed.

(** ** Values and types *)
Lemma check_value_inv start v st v' st' : check_value start v st = Ok (v', st') →
  v' = v ∧ st' = st ∧
  match rv_value v with
  | JNumber x => isFinite x = true ∧ (rv_integer v = Some true → isSafeInteger x = true)
  | _ => True
  end.
Proof.
  unfold check_value. destruct (rv_value v); intros H; try (by inv_ok).
  destruct (isFinite x); [|done]. simpl in H.
  destruct (rv_integer v) as [[|]|], (isSafeInteger x); simpl in H; inv_ok; done.
Qed.

Lemma binary_values_st op start l r st v st' : binary_values op start l r st = Ok (v, st') → st' = st.
Proof.
  unfold binary_values, arithmetic. intros H. cbv zeta in H.
  repeat (case_match; try discriminate H); by inv_ok.
Qed.

(** Inversion of a successful evaluation of a node. *)
Lemma evaluate_inv compiled context now headers depth node st v st' :
  evaluate compiled context now headers depth node st = Ok (v, st') →
  evaluateNode compiled context now headers (evaluate compiled context now headers (depth + 1))
    (evaluate_undefined (depth + 1)) node st = Ok (v, st') ∧
  match rv_value v with
  | JNumber x => isFinite x = true ∧ (rv_integer v = Some true → isSafeInteger x = true)
  | _ => True
  end.
Proof.
  rewrite evaluate_unfold. destruct (256 <? _); [done|]. intros H. inv_ok.
  apply check_value_inv in H as (-> & -> & Hv). done.
Qed.

(** The values of a static type.  A sum of two dynamic operands has the static
  type number and may concatenate strings, see [may_be_string]. *)
Definition in_type (t : ExpressionType) (v : jsval) : Prop :=
  match t with
  | ty_number => match v with JNumber _ | JString _ => True | _ => False end
  | ty_string => match v with JString _ => True | _ => False end
  | ty_boolean => match v with JBool _ => True | _ => False end
  | ty_nil => v = JNull
  | ty_dynamic => True
  end.

Section Typing.
Context (compiled : CompiledBillingExpression) (context : BillingSimulationContext).
Context (now : option Z) (headers : list (jsstring * jsstring)).

Lemma numeric_inv ev n st x i st' : numeric ev n st = Ok ((x, i), st') →
  ev n st = Ok (mkValue (JNumber x) i, st').
Proof.
  unfold numeric, to_numeric. intros H. inv_ok. destruct x0 as [v j]. simpl in H.
  destruct v; inv_ok; done.
Qed.

Lemma comparison_inv op : is_comparison op = true →
  op ∈ [js "=="; js "!="; js "<"; js "<="; js ">"; js ">="].
Proof. unfold is_comparison. rewrite str_in_In, list_elem_of_In. done. Qed.

Lemma binary_values_type op start l r st v st' :
  binary_values op start l r st = Ok (v, st') →
  (is_comparison op = true → in_type ty_boolean (rv_value v)) ∧
  (is_comparison op = false → in_type ty_number (rv_value v)) ∧
  (op = js "+" → in_type ty_string (rv_value l) → in_type ty_string (rv_value r) →
   in_type ty_string (rv_value v)).
Proof.
  intros H. split; [|split].
  - intros Hop%comparison_inv. unfold binary_values, compare_values, arithmetic in H.
  rewrite list_elem_of_In in Hop. simpl in Hop.
  destruct Hop as [<-|[<-|[<-|[<-|[<-|[<-|[]]]]]]]; js_compute_in H; simpl in H;
    repeat (case_match; try discriminate H); inv_ok; done.
  - intros Hop. unfold is_comparison, str_in in Hop. simpl in Hop. bool_hyps.
  unfold binary_values, compare_values, arithmetic in H.
  repeat match goal with E : str_eqb op _ = false |- _ => rewrite E in H; clear E end.
  simpl in H. repeat (case_match; try discriminate H); inv_ok; done.
  - intros -> Hl Hr. unfold binary_values in H. destruct (rv_value l), (rv_value r); try done.
  js_compute_in H. simpl in H. by inv_ok.
Qed.

Local Ltac call_ty_at H :=
  unfold call_ty in H; js_compute_in H; simpl in H; repeat case_match; congruence.

Lemma call_ty_concrete name ts t : call_ty name ts = Some t →
  (str_eqb name (js "param") || str_eqb name (js "u") = true → t = ty_dynamic) ∧
  (str_eqb name (js "header") = true → t = ty_string) ∧
  (str_eqb name (js "has") = true → t = ty_boolean) ∧
  (str_in name [js "fixed"; js "tier"; js "min"; js "max"; js "abs"; js "floor"; js "ceil"] = true →
   t = ty_number) ∧
  (is_time_function name = true → t = ty_number).
Proof.
  intros H. split_and!.
  - intros [E|E]%orb_true_iff; apply str_eqb_eq in E as ->; call_ty_at H.
  - intros ->%str_eqb_eq. call_ty_at H.
  - intros ->%str_eqb_eq. call_ty_at H.
  - intros E%str_in_In. simpl in E.
  destruct E as [<-|[<-|[<-|[<-|[<-|[<-|[<-|[]]]]]]]]; call_ty_at H.
  - intros E. unfold is_time_function in E.
  destruct (time_function_of_name name) as [f|] eqn:Ef; [|done].
  apply find_some in Ef as [_ ->%str_eqb_eq]. destruct f; simpl in H; call_ty_at H.
Qed.

Lemma eval_call_type ev ev_u name args start st v st' ts t :
  eval_call context now headers ev ev_u name args start st = Ok (v, st') →
  call_ty name ts = Some t → in_type t (rv_value v).
Proof.
  intros H Ht. apply call_ty_concrete in Ht as (Hdyn & Hhd & Hhas & Hnum & Htime).
  unfold str_in in Hnum. simpl in Hnum. unfold eval_call in H.
  destruct (str_eqb name (js "fixed")) eqn:E1; [rewrite Hnum by done; by inv_ok|].
  destruct (str_eqb name (js "tier")) eqn:E2; [rewrite Hnum by done; by inv_ok|].
  destruct (str_eqb name (js "param")) eqn:E3; [by rewrite Hdyn|].
  destruct (str_eqb name (js "header")) eqn:E4.
  { rewrite Hhd by done. inv_ok. destruct (ctx_request context); by inv_ok. }
  destruct (str_eqb name (js "u")) eqn:E5; [by rewrite Hdyn|].
  destruct (str_eqb name (js "has")) eqn:E6.
  { rewrite Hhas by done. inv_ok. destruct (_ || _); by inv_ok. }
  destruct (str_eqb name (js "min")) eqn:E7; [rewrite Hnum by done; by inv_ok|].
  destruct (str_eqb name (js "max")) eqn:E8; [rewrite Hnum by done; by inv_ok|].
  destruct (str_eqb name (js "abs")) eqn:E9; [rewrite Hnum by done; by inv_ok|].
  destruct (str_eqb name (js "floor")) eqn:E10; [rewrite Hnum by done; by inv_ok|].
  destruct (str_eqb name (js "ceil")) eqn:E11; [rewrite Hnum by done; by inv_ok|].
  unfold eval_time in H. unfold is_time_function in Htime.
  destruct (time_function_of_name name); [|done]. rewrite Htime by done. by inv_ok.
Qed.

Lemma evaluate_type node : ∀ depth st v st' t,
  evaluate compiled context now headers depth node st = Ok (v, st') →
  infer node = Some t → in_type t (rv_value v).
Proof.
  induction node as [node IH] using node_children_ind. intros depth st v st' t H Ht.
  apply evaluate_inv in H as [H _].
  destruct node as [lv i sp|name sp|name args sp|op a sp|op l r sp|c y n sp]; cbn [evaluateNode] in H.
  - inv_ok. simpl in Ht. injection Ht as <-. by destruct lv.
  - injection Ht as <-. unfold eval_variable in H. repeat (case_match; try done); by inv_ok.
  - simpl in Ht. destruct (mapM infer args) as [ts|]; [|done]. by eapply eval_call_type.
  - simpl in Ht. destruct (infer a) as [ta|]; [|done]. simpl in Ht. unfold unary_ty in Ht.
  destruct (accepts _ _); [|done]. destruct (str_eqb op (js "!")); injection Ht as <-; by inv_ok.
  - simpl in IH. rewrite !Forall_cons in IH. destruct IH as (IHl & IHr & _).
  simpl in Ht. destruct (infer l) as [tl|] eqn:El; [|done].
  destruct (infer r) as [tr|] eqn:Er; [|done]. simpl in Ht. unfold binary_ty in Ht.
  unfold eval_binary in H. unfold is_logical, str_in in Ht. simpl in Ht.
  destruct (str_eqb op (js "&&")) eqn:E1.
  { simpl in Ht. destruct (_ && _) in Ht; [|done]. injection Ht as <-. inv_ok.
    destruct x; by inv_ok. }
  destruct (str_eqb op (js "||")) eqn:E2.
  { simpl in Ht. destruct (_ && _) in Ht; [|done]. injection Ht as <-. inv_ok.
    destruct x; by inv_ok. }
  simpl in Ht. inv_ok. apply binary_values_type in H as (Hcmp & Hnum & Hstr).
  destruct (is_comparison op); [injection Ht as <-; by apply Hcmp|].
  destruct (str_eqb op (js "+")) eqn:E3; simpl in Ht.
  + destruct (bool_decide (tl = ty_string)) eqn:Etl; [destruct (bool_decide (tr = ty_string)) eqn:Etr|].
    * apply bool_decide_eq_true in Etl as ->. apply bool_decide_eq_true in Etr as ->.
      injection Ht as <-. apply str_eqb_eq in E3. apply Hstr; [done| |]; eauto.
    * simpl in Ht. destruct (_ && _) in Ht; [|done]. injection Ht as <-. by apply Hnum.
    * simpl in Ht. destruct (_ && _) in Ht; [|done]. injection Ht as <-. by apply Hnum.
  + destruct (_ && _) in Ht; [|done]. injection Ht as <-. by apply Hnum.
  - simpl in IH. rewrite !Forall_cons in IH. destruct IH as (IHc & IHy & IHn & _).
  simpl in Ht. destruct (infer c) as [tc|]; [|done]. destruct (infer y) as [ty|] eqn:Ey; [|done].
  destruct (infer n) as [tn|] eqn:En; [|done]. simpl in Ht. unfold conditional_ty in Ht.
  destruct (accepts _ _); [|done]. injection Ht as <-.
  destruct (bool_decide (ty = tn)) eqn:E; [|done]. apply bool_decide_eq_true in E as ->.
  inv_ok. destruct x; [inv_ok|]; eauto.
Qed.

(** Whether the value of a node can be a string. *)
Fixpoint may_be_string (n : ExpressionNode) : bool :=
  match n with
  | literal (lit_string _) _ _ => true
  | literal _ _ _ | variable _ _ | unary _ _ _ => false
  | binary op l r _ => str_eqb op (js "+") && may_be_string l && may_be_string r
  | conditional _ y n' _ => may_be_string y || may_be_string n'
  | call name _ _ => str_in name [js "param"; js "header"; js "u"]
  end.

Lemma binary_values_string op start l r st v st' s :
  binary_values op start l r st = Ok (v, st') → rv_value v = JString s →
  str_eqb op (js "+") = true ∧ (∃ a, rv_value l = JString a) ∧ (∃ b, rv_value r = JString b).
Proof.
  intros H Hs. unfold binary_values, compare_values, arithmetic in H.
  destruct (str_eqb op (js "+")) eqn:E; cbv zeta in H;
  repeat (case_match; try discriminate H); inv_ok; simpl in Hs; try discriminate Hs; eauto.
Qed.

Lemma evaluate_string node : ∀ depth st v st' s,
  evaluate compiled context now headers depth node st = Ok (v, st') →
  rv_value v = JString s → may_be_string node = true.
Proof.
  induction node as [node IH] using node_children_ind. intros depth st v st' s H Hs.
  apply evaluate_inv in H as [H _].
  destruct node as [lv i sp|name sp|name args sp|op a sp|op l r sp|c y n sp]; cbn [evaluateNode] in H.
  - inv_ok. by destruct lv.
  - unfold eval_variable in H. repeat (case_match; try done); by inv_ok.
  - simpl. unfold eval_call in H. unfold str_in. simpl.
  repeat match type of H with
  | (if str_eqb name (js ?f) then _ else _) _ = _ =>
      let E := fresh "E" in destruct (str_eqb name (js f)) eqn:E; simpl; try done
  end; try (inv_ok; simpl in Hs; done).
  + inv_ok. destruct (_ || _) in H; by inv_ok.
  + unfold eval_time in H. destruct (time_function_of_name name); by inv_ok.
  - destruct (str_eqb op (js "!")); by inv_ok.
  - simpl in IH. rewrite !Forall_cons in IH. destruct IH as (IHl & IHr & _).
  unfold eval_binary in H.
  destruct (str_eqb op (js "&&")); [inv_ok; destruct x; by inv_ok|].
  destruct (str_eqb op (js "||")); [inv_ok; destruct x; by inv_ok|].
  inv_ok. apply (binary_values_string _ _ _ _ _ _ _ s) in H as (Hop & [a Ha] & [b Hb]); [|done].
  simpl. rewrite Hop. simpl. apply andb_true_iff. eauto.
  - simpl in IH. rewrite !Forall_cons in IH. destruct IH as (IHc & IHy & IHn & _).
  inv_ok. simpl. apply orb_true_iff. destruct x; [inv_ok|]; eauto.
Qed.
End Typing.

(** ** Successful evaluations *)
Lemma evaluate_success_inv source context s :
  evaluateBillingExpression source context = eval_success s →
  ∃ c headers v st, compile_body source = Ok c ∧ runtime_headers context = Ok headers ∧
    evaluate c context (default current_date (ctx_now context)) headers 0 (cp_ast c) (initial_state c)
      = Ok (v, st) ∧
    rv_value v = JNumber (res_cost s) ∧ isFinite (res_cost s) = true ∧
    is_negative (res_cost s) = false ∧
    res_billingUnit s = rs_billingUnit st ∧ res_fixedPrice s = rs_fixedPrice st ∧
    res_matchedTier s = rs_matchedTier st ∧ res_requestRules s = rs_requestRules st ∧
    (∀ e, In e (default [] (ctx_tokens context)) → ∃ x, snd e = JNumber x ∧ isFinite x = true ∧ is_negative x = false).
Proof.
  unfold evaluateBillingExpression, evaluateCompiled, compile. intros H.
  destruct (compile_body source) as [c| |]; [|done|done].
  destruct (evaluate_body c context) as [s'| |] eqn:E; [|done|done]. injection H as ->.
  unfold evaluate_body in E. inv_ok. destruct x0 as [v st].
  unfold runtime_evaluate in Hx0. inv_ok.
  destruct (rv_value v) eqn:Ev; try done. destruct (negb _ || _) eqn:Eb; [done|]. inv_ok. bool_hyps.
  exists c, x0, v, st. split_and!; try done.
  clear -Hx. revert x Hx. generalize (default [] (ctx_tokens context)), tt.
  induction l as [|e l IH]; intros u x Hx; simpl in *; [done|]. inv_ok.
  intros e' [<-|Hin]; [|by eapply IH]. unfold check_token in Hx0.
  destruct (snd e); try done. destruct (negb _ || _) eqn:Eb; [done|]. bool_hyps. eauto.
Qed.
End WithHost.

(** ** Properties *)

(** C8: type soundness: the value of a node of static type string, boolean or
    nil has that type, and the value of a node of static type number is a
    number unless it is a sum whose operands may both be strings at run time
    (only param, header, u and string literals introduce strings). *)
Theorem evaluation_type_sound {host : Host} compiled context now headers depth node st v st' t :
  evaluate compiled context now headers depth node st = Ok (v, st') → infer node = Some t →
  in_type t (rv_value v) ∧
  (t = ty_number → may_be_string node = false → ∃ x, rv_value v = JNumber x ∧ isFinite x = true).
Proof.
  intros H Ht. pose proof (evaluate_type _ _ _ _ _ _ _ _ _ _ H Ht) as Hin. split; [done|].
  intros -> Hs. apply evaluate_inv in H as Hv. destruct Hv as [_ Hv].
  destruct (rv_value v) eqn:Ev; simpl in Hin; try done.
  - exists x. by split; [|apply Hv].
  - pose proof (evaluate_string _ _ _ _ _ _ _ _ _ _ H Ev). congruence.
Qed.

(** the per-evaluation time cache is unobservable: with any correct cache
    the evaluation of a node throws the same error or yields the same value, the
    same tier, unit, fixed price and request rules as with an empty one. *)
Theorem time_cache_unobservable {host : Host} compiled context now headers depth node st :
  time_cache_ok now st →
  same_outcome now (evaluate compiled context now headers depth node st)
    (evaluate compiled context now headers depth node
       (mkRState (rs_requestRules st) (rs_matchedTier st) (rs_billingUnit st) (rs_fixedPrice st) [])).
Proof.
  intros Hok. apply evaluate_time_transparent. repeat split; try done. by apply Forall_nil_2.
Qed.

(** An expression that compiles and is less than 256 deep never fails with
    the evaluation depth limit, whatever the context. *)
Theorem shallow_expression_within_depth {host : Host} source c context now headers st :
  compile source = ready c → (node_depth (cp_ast c) < 256)%nat →
  evaluate c context now headers 0 (cp_ast c) st ≠ Throw evaluation_depth_error.
Proof.
  intros Hc Hd. apply compile_ready, compile_body_inv in Hc as (_ & _ & Hwf & _).
  apply evaluate_not_depth; [done|lia].
Qed.

(** ** Witnesses *)
Definition sample_context : BillingSimulationContext :=
  mkContext None (Some [(js "p", JNumber (num_of_Z 900)); (js "c", JNumber (num_of_Z 100))])
    (Some (mkRequest (JObject [(js "tier", JString (js "flex"))])
                     (Some [(js " X-Priority ", JString (js " high "))])))
    None (Some (Some 1700000000000)).

Definition sample_source : jsstring :=
  js "tier('base', p * 2 + c * 8) * (header('x-priority') == 'high' ? 2 : 1)".

Definition sample_node : ExpressionNode :=
  binary (js "+") (variable (token_variable var_p) (mkSpan 0%nat 1%nat))
         (call (js "hour") [literal (lit_string (js "UTC")) None (mkSpan 9%nat 14%nat)] (mkSpan 4%nat 15%nat)) (mkSpan 0%nat 15%nat).

Definition sample_compiled : CompiledBillingExpression :=
  mkCompiled (js "p + hour('UTC')") sample_node [token_variable var_p] [js "hour"] [].

Lemma evaluation_type_sound_witness :
  ∃ v st, @evaluate plain_host sample_compiled sample_context (Some 1700000000000) [] 0 sample_node
            (initial_state sample_compiled) = Ok (v, st) ∧ in_type ty_number (rv_value v).
Proof.
  destruct (@evaluate plain_host sample_compiled sample_context (Some 1700000000000) [] 0 sample_node
            (initial_state sample_compiled)) as [[v st]|e|] eqn:E;
    [|vm_compute in E; discriminate E|vm_compute in E; discriminate E].
  exists v, st. split; [reflexivity|].
  refine (proj1 (@evaluation_type_sound plain_host _ _ _ _ _ _ _ _ _ ty_number E _)).
  vm_compute. reflexivity.
Defined.

Lemma time_cache_unobservable_witness :
  let cached := set_timeValues (js "UTC") (utc_time 1700000000000) (initial_state sample_compiled) in
  @same_outcome plain_host RuntimeValue (Some 1700000000000)
    (@evaluate plain_host sample_compiled sample_context (Some 1700000000000) [] 0 sample_node cached)
    (@evaluate plain_host sample_compiled sample_context (Some 1700000000000) [] 0 sample_node
       (initial_state sample_compiled)).
Proof.
  apply (@time_cache_unobservable plain_host _ _ _ _ _ _
           (set_timeValues (js "UTC") (utc_time 1700000000000) (initial_state sample_compiled))).
  apply Forall_cons_2; [vm_compute; reflexivity|apply Forall_nil_2].
Defined.

Lemma shallow_expression_within_depth_witness :
  ∃ c, @compile plain_host sample_source = ready c ∧
       @evaluate plain_host c sample_context (Some 0) [] 0 (cp_ast c) (initial_state c)
         ≠ Throw evaluation_depth_error.
Proof.
  destruct (@compile plain_host sample_source) as [c|f] eqn:E; [|vm_compute in E; discriminate E].
  exists c. split; [reflexivity|].
  refine (@shallow_expression_within_depth plain_host sample_source c _ _ _ _ E _).
  vm_compute in E. injection E as <-. vm_compute. lia.
Defined.
