(* ===== verification/BillingFields.v ===== *)
(** * The billing fields of a result

    [evaluateBillingExpression] reports the unit, the fixed price, the tier
    and the image count beside the cost.  They are read from the fields the
    interpreter writes on the way, so what they say of the expression is a
    property of [validateFixedPricingTree] and of the interpreter together: the
    tier that was reached decides all of them. *)
From S2P Require Import Prelude JsString JsNumber JsValue Host BillingTypes Parser ParserFacts Compile CompileFacts Runtime RuntimeFacts.
Local Open Scope Z_scope.

(** The amount of a price written [fixed(amount)]. *)
Definition fixed_amount (price : ExpressionNode) : option number :=
  match price with
  | call name (literal (lit_number x) _ _ :: _) _ => if str_eqb name (js "fixed") then Some x else None
  | _ => None
  end.

(** Token pricing has no fixed price; a fixed price is per request. *)
Definition unit_of (price : option number) : BillingUnit :=
  match price with Some _ => unit_request | None => unit_token end.

Definition not_fixed (name : jsstring) : bool := negb (str_eqb name (js "fixed")).
Definition not_tier (name : jsstring) : bool := negb (str_eqb name (js "tier")).
Definition no_marker (name : jsstring) : bool := not_tier name && not_fixed name.

Lemma calls_allowed allowed n d : expressionDependencies n = Ok d →
  (∀ f, f ∈ dep_functions d → allowed f = true) → Forall (node_allowed allowed) (postorder n).
Proof.
  intros [_ Hf]%expressionDependencies_spec Hall. apply Forall_forall.
  intros [] Hm; simpl; try done. apply Hall, Hf. eauto.
Qed.

Lemma marker_free n : containsPricingMarker n = Ok false → Forall (node_allowed no_marker) (postorder n).
Proof.
  unfold containsPricingMarker. intros H. inv_ok. apply orb_false_iff in H as [Ht Hf].
  apply (calls_allowed _ _ _ Hx). intros f Hin. unfold no_marker, not_tier, not_fixed.
  apply list_elem_of_In, str_in_In in Hin.
  destruct (str_eqb f (js "tier")) eqn:E1; [apply str_eqb_eq in E1; congruence|].
  destruct (str_eqb f (js "fixed")) eqn:E2; [apply str_eqb_eq in E2; congruence|]. done.
Qed.

Section WithHost.
Context {host : Host}.
Context (compiled : CompiledBillingExpression) (context : BillingSimulationContext).
Context (now : option Z) (headers : list (jsstring * jsstring)).

(** A field that no allowed call writes keeps its value. *)
Lemma evaluate_keeps {X} (field : RState → X) (allowed : jsstring → bool) depth node st v st' :
  (∀ f st, field (set_requestRules f st) = field st) →
  (∀ z t st, field (set_timeValues z t st) = field st) →
  (allowed (js "fixed") = true → ∀ x st, field (set_fixedPrice x st) = field st) →
  (allowed (js "tier") = true → ∀ x st, field (set_matchedTier x st) = field st) →
  Forall (node_allowed allowed) (postorder node) →
  evaluate compiled context now headers depth node st = Ok (v, st') → field st' = field st.
Proof.
  intros Hr Ht Hfix Htier Hall. revert st v st'.
  apply (evaluate_good compiled context now headers
           (λ A m, ∀ st a st', m st = Ok (a, st') → field st' = field st) allowed); try done.
  - intros A a st a' st' H. by inv_ok.
  - intros A B m f Hm Hf st b st' H. inv_ok. by rewrite (Hf _ _ _ _ H), (Hm _ _ _ Hx).
  - intros A o _ _ st a st' H. unfold st_lift in H. by destruct o; inv_ok.
  - intros n st [] st' H. unfold mark_rule, st_modify in H. by inv_ok.
  - intros Ha x st [] st' H. unfold st_modify in H. inv_ok. auto.
  - intros Ha x st [] st' H. unfold st_modify in H. inv_ok. auto.
  - intros zone st t st' H. unfold zone_time in H. case_match; by inv_ok.
  - by left.
Qed.

Definition billing_fields (st : RState) : BillingUnit * option number :=
  (rs_billingUnit st, rs_fixedPrice st).
Definition pricing_fields (st : RState) : BillingUnit * option number * jsstring :=
  (rs_billingUnit st, rs_fixedPrice st, rs_matchedTier st).

Lemma evaluate_keeps_pricing depth node st v st' :
  Forall (node_allowed no_marker) (postorder node) →
  evaluate compiled context now headers depth node st = Ok (v, st') →
  pricing_fields st' = pricing_fields st.
Proof. by apply evaluate_keeps. Qed.

(** ** The tier that was reached *)

(** Between [st] and [st'] a tier of [root] was evaluated: it gave its label,
    and its price decided the unit and the fixed price. *)
Definition tier_reached (root : ExpressionNode) (st st' : RState) : Prop :=
  ∃ label price rest sp,
    call (js "tier") (label :: price :: rest) sp ∈ postorder root ∧
    (∀ s i lsp, label = literal (lit_string s) i lsp → rs_matchedTier st' = s) ∧
    billing_fields st' = match fixed_amount price with
                         | Some x => (unit_request, Some x)
                         | None => billing_fields st
                         end.

Lemma tier_reached_sub root sub st st' :
  (∀ m, m ∈ postorder sub → m ∈ postorder root) → tier_reached sub st st' → tier_reached root st st'.
Proof. intros Hsub (label & price & rest & sp & Hin & H). exists label, price, rest, sp. auto. Qed.

Lemma tier_reached_before root st0 st st' :
  pricing_fields st = pricing_fields st0 → tier_reached root st st' → tier_reached root st0 st'.
Proof.
  intros Hp (label & price & rest & sp & Hin & Hl & Hb). exists label, price, rest, sp.
  split_and!; [done|done|]. rewrite Hb. destruct (fixed_amount price); [done|].
  unfold pricing_fields, billing_fields in *. by injection Hp as [= -> ->].
Qed.

Lemma tier_reached_after root st st' st1 :
  pricing_fields st1 = pricing_fields st' → tier_reached root st st' → tier_reached root st st1.
Proof.
  intros Hp (label & price & rest & sp & Hin & Hl & Hb). unfold pricing_fields, billing_fields in *.
  injection Hp as [= Hu Hf Ht]. exists label, price, rest, sp. split_and!; [done| |unfold billing_fields; congruence].
  intros s i lsp E. rewrite <- (Hl _ _ _ E). congruence.
Qed.

Lemma check_value_state start v st v' st' : check_value start v st = Ok (v', st') → st' = st.
Proof. by intros (_ & -> & _)%check_value_inv. Qed.

Lemma postorder_self n : n ∈ postorder n.
Proof. rewrite postorder_children. apply elem_of_app. right. by apply list_elem_of_singleton. Qed.

Lemma evaluate_literal depth v i sp st r st' :
  evaluate compiled context now headers depth (literal v i sp) st = Ok (r, st') →
  rv_value r = literal_jsval v ∧ st' = st.
Proof.
  rewrite evaluate_unfold. destruct (256 <? _); [done|]. intros H. inv_ok. simpl in Hx. inv_ok.
  pose proof (check_value_state _ _ _ _ _ H) as ->. split; [|done].
  unfold check_value in H. by repeat (case_match; try done); inv_ok.
Qed.

(** A price: [fixed] of a literal records it, anything else is marker free. *)
Lemma evaluate_price depth price st v st' :
  (match fixed_amount price with
   | Some _ => True
   | None => Forall (node_allowed no_marker) (postorder price)
   end) →
  evaluate compiled context now headers depth price st = Ok (v, st') →
  billing_fields st' = match fixed_amount price with
                       | Some x => (unit_request, Some x)
                       | None => billing_fields st
                       end.
Proof.
  destruct (fixed_amount price) as [x|] eqn:Ef; intros Hp H.
  - destruct price as [| |name args sp| | |]; try done. simpl in Ef.
    destruct args as [|[[| |y|]| | | | |] args]; try done.
    destruct (str_eqb name (js "fixed")) eqn:En; [|done]. injection Ef as ->.
    rewrite evaluate_unfold in H. destruct (256 <? _); [done|]. inv_ok.
    apply check_value_state in H as ->. simpl in Hx. unfold eval_call in Hx. rewrite En in Hx.
    inv_ok. unfold arg0, numeric, to_numeric in Hx0. inv_ok.
    apply evaluate_literal in Hx as [Hv ->]. rewrite Hv in Hx0. simpl in Hx0. inv_ok.
    unfold st_modify in *. by inv_ok.
  - apply evaluate_keeps_pricing in H; [|done]. unfold pricing_fields, billing_fields in *. congruence.
Qed.

(** A tier accepted by the fixed-price check. *)
Lemma evaluate_tier depth node st v st' :
  validate_tier node = Ok tt →
  evaluate compiled context now headers depth node st = Ok (v, st') → tier_reached node st st'.
Proof.
  intros Hv H. destruct node as [| |name args sp| | |]; try done. simpl in Hv.
  destruct (str_eqb name (js "tier")) eqn:En; [|done]. apply str_eqb_eq in En as ->. simpl in Hv.
  destruct args as [|label [|price rest]]; try done. inv_ok. destruct x; [done|].
  apply marker_free in Hx.
  assert (match fixed_amount price with
          | Some _ => True
          | None => Forall (node_allowed no_marker) (postorder price)
          end) as Hprice.
  { destruct price as [| |pname pargs psp| | |]; cbn [fixed_amount] in *;
      try by (apply bind_Ok_inv in Hv as ([] & Hm & Hv); [done|apply marker_free]).
    destruct (str_eqb pname (js "fixed")) eqn:Ep.
    - by destruct pargs as [|[[]| | | | |] pargs].
    - apply bind_Ok_inv in Hv as ([] & Hm & Hv); [done|]. apply marker_free in Hm.
      by destruct pargs as [|[[]| | | | |] pargs]. }
  rewrite evaluate_unfold in H. destruct (256 <? _); [done|]. inv_ok.
  apply check_value_state in H as ->. simpl in Hx0. unfold eval_call in Hx0. simpl in Hx0. inv_ok.
  unfold numeric, to_numeric in Hx2. apply st_bind_Ok_inv in Hx2 as (pv & s2 & Hp & Hx2).
  destruct (rv_value pv); try done. inv_ok. apply (evaluate_price _ _ _ _ _ Hprice) in Hp.
  unfold string_, to_string in Hx1. apply st_bind_Ok_inv in Hx1 as (lv & s2 & Hl & Hx1).
  destruct (rv_value lv) eqn:El; try done. inv_ok. unfold st_modify in Hx3. inv_ok.
  exists label, price, rest, sp. split_and!; [apply postorder_self| |].
  - intros s' i lsp ->. apply evaluate_literal in Hl as [Hl _]. rewrite El in Hl. by injection Hl.
  - apply evaluate_keeps_pricing in Hl; [|done]. etrans; [exact Hp|].
    destruct (fixed_amount price); [done|]. unfold pricing_fields, billing_fields in *. congruence.
Qed.

Lemma evaluate_product depth l r sp st v st' :
  evaluate compiled context now headers depth (binary (js "*") l r sp) st = Ok (v, st') →
  ∃ a s1 b, evaluate compiled context now headers (depth + 1) l st = Ok (a, s1) ∧
            evaluate compiled context now headers (depth + 1) r s1 = Ok (b, st').
Proof.
  rewrite evaluate_unfold. destruct (256 <? _); [done|]. intros H. inv_ok.
  apply check_value_state in H as ->. simpl in Hx. unfold eval_binary in Hx. simpl in Hx. inv_ok.
  apply binary_values_st in Hx as ->. eauto 10.
Qed.

Lemma evaluate_conditional depth c y n sp st v st' :
  evaluate compiled context now headers depth (conditional c y n sp) st = Ok (v, st') →
  ∃ b s1 s2, evaluate compiled context now headers (depth + 1) c st = Ok (b, s1) ∧
    pricing_fields s2 = pricing_fields s1 ∧
    (evaluate compiled context now headers (depth + 1) y s2 = Ok (v, st') ∨
     evaluate compiled context now headers (depth + 1) n s2 = Ok (v, st')).
Proof.
  rewrite evaluate_unfold. destruct (256 <? _); [done|]. intros H. inv_ok.
  apply check_value_inv in H as (-> & -> & _). simpl in Hx. inv_ok.
  unfold boolean_, to_boolean in Hx0. apply st_bind_Ok_inv in Hx0 as (b & s2 & Hb & Hx0).
  destruct (rv_value b); try done. inv_ok. destruct x0.
  - apply st_bind_Ok_inv in Hx as ([] & s1 & Hm & Hx). unfold mark_rule, st_modify in Hm. inv_ok.
    eexists b, s0, _. split_and!; [done| |by left]. done.
  - exists b, s0, s0. auto.
Qed.

(** ** The pricing tree *)

(** What a request rule of a compiled expression is. *)
Definition rule_shape (root : ExpressionNode) (r : CompiledRule) : Prop :=
  rule_node r ∈ postorder root ∧
  ∃ m i isp one j jsp sp, rule_node r =
    conditional (rule_condition r) (literal (lit_number m) i isp) (literal (lit_number one) j jsp) sp.

Lemma rules_fold source root l : ∀ rules rules', (∀ m, m ∈ l → m ∈ postorder root) →
  Forall (rule_shape root) rules → foldM (rule_visitor source) l rules = Ok rules' →
  Forall (rule_shape root) rules'.
Proof.
  induction l as [|n l IH]; intros rules rules' Hl Hr H; simpl in H; [by inv_ok|].
  apply bind_Ok_inv in H as (r1 & H1 & H). revert H. apply IH; [by intros; apply Hl; right|].
  unfold rule_visitor in H1. repeat (case_match; try (inv_ok; done)). inv_ok.
  case_match; inv_ok; [done|]. apply Forall_app. split; [done|]. apply Forall_singleton.
  split; simpl; [apply Hl; left|]. by repeat eexists.
Qed.

Lemma compiled_rules_shape source ast rules :
  visitExpression (rule_visitor source) ast [] = Ok rules → Forall (rule_shape ast) rules.
Proof.
  intros H. pose proof (visit_Ok_depth _ _ _ _ H) as Hd.
  rewrite visitExpression_at, visit_at_postorder in H by lia.
  by apply (rules_fold _ ast) in H.
Qed.

Section Tree.
Context (root : ExpressionNode) (rules : list CompiledRule).
Hypothesis root_wf : wf_node root.
Hypothesis rules_shape : Forall (rule_shape root) rules.

Lemma factor_keeps_pricing factor : factor ∈ postorder root →
  is_pricing_factor rules factor = Ok true → Forall (node_allowed no_marker) (postorder factor).
Proof.
  intros Hin H. unfold is_pricing_factor in H.
  destruct (find (λ r, same_node (rule_node r) factor) rules) as [r|] eqn:E.
  - apply find_some in E as [Hr Hs]. apply list_elem_of_In in Hr.
    rewrite Forall_forall in rules_shape.
    destruct (rules_shape r Hr) as (Hn & m & i & isp & one & j & jsp & sp & Er).
    apply (same_node_eq root) in Hs; [|done..]. subst factor. rewrite Er in H |- *.
    destruct (num_leb _ _); [|done]. inv_ok. destruct x; [done|].
    apply marker_free in Hx. simpl. rewrite !Forall_app. split_and!; try done; by repeat constructor.
  - destruct factor as [|[]| | | |]; try done. by repeat constructor.
Qed.

(** Evaluating an accepted pricing tree reaches one of its tiers. *)
Lemma evaluate_pricing_tree node : (∀ m, m ∈ postorder node → m ∈ postorder root) →
  validateFixedPricingTree rules node = Ok tt →
  ∀ depth st v st', evaluate compiled context now headers depth node st = Ok (v, st') →
  tier_reached node st st'.
Proof.
  induction node as [| | | |op l IHl r IHr sp|c IHc y IHy n IHn sp]; intros Hsub Hv depth st v st' H;
    cbn [validateFixedPricingTree] in Hv; try (by eapply evaluate_tier).
  - destruct (str_eqb op (js "*")) eqn:Eop; [|by eapply evaluate_tier].
    assert (∀ m, m ∈ postorder l → m ∈ postorder (binary op l r sp)) as Hl
      by (intros m; simpl; rewrite !elem_of_app; auto).
    assert (∀ m, m ∈ postorder r → m ∈ postorder (binary op l r sp)) as Hr
      by (intros m; simpl; rewrite !elem_of_app; auto).
    apply bind_Ok_inv in Hv as (f & Hf & Hv). apply str_eqb_eq in Eop as Eop'. subst op.
    destruct f; [|apply bind_Ok_inv in Hv as ([] & Hg & Hv); [|by eapply evaluate_tier]];
      apply evaluate_product in H as (a & s1 & b & Ha & Hb).
    + apply factor_keeps_pricing in Hf; [|by apply Hsub, Hr, postorder_self].
      apply evaluate_keeps_pricing in Hb; [|done]. apply (tier_reached_after _ _ _ _ Hb).
      apply (tier_reached_sub _ l); [done|]. by eapply IHl; eauto.
    + apply factor_keeps_pricing in Hg; [|by apply Hsub, Hl, postorder_self].
      apply evaluate_keeps_pricing in Ha; [|done]. apply (tier_reached_before _ _ _ _ Ha).
      apply (tier_reached_sub _ r); [done|]. by eapply IHr; eauto.
  - apply bind_Ok_inv in Hv as ([] & Hm & Hv); [by eapply evaluate_tier|].
    apply bind_Ok_inv in Hv as ([] & Hvy & Hvn).
    apply evaluate_conditional in H as (b & s1 & s2 & Hc & Hs & H).
    apply marker_free in Hm. apply evaluate_keeps_pricing in Hc; [|done].
    apply (tier_reached_before _ _ s2); [congruence|].
    destruct H as [H|H]; [apply (tier_reached_sub _ y)|apply (tier_reached_sub _ n)];
      try (by intros m; simpl; rewrite !elem_of_app; auto).
    + eapply IHy; eauto. intros m Hy. apply Hsub. simpl. rewrite !elem_of_app. auto.
    + eapply IHn; eauto. intros m Hy. apply Hsub. simpl. rewrite !elem_of_app. auto.
Qed.
End Tree.
End WithHost.

Section Success.
Context {host : Host}.

Lemma success_imageCount source context s c :
  evaluateBillingExpression source context = eval_success s → compile_body source = Ok c →
  res_imageCount s = if bool_decide (image_count ∈ cp_variables c)
                     then Some (default (num_of_Z 1) (ctx_imageCount context)) else None.
Proof.
  unfold evaluateBillingExpression, evaluateCompiled, compile. intros H Hc. rewrite Hc in H.
  destruct (evaluate_body c context) as [s'| |] eqn:E; [|done|done]. injection H as ->.
  unfold evaluate_body in E. inv_ok. destruct x0 as [v st].
  destruct (rv_value v); try done. case_match; [done|]. by inv_ok.
Qed.

Lemma rules_grow_report c st : rules_grow (initial_state c) st →
  map (λ r, (rr_cond r, rr_multiplier r)) (rs_requestRules st) =
  map (λ r, (rule_cond r, rule_multiplier r)) (cp_requestRules c).
Proof.
  unfold rules_grow, initial_state. simpl. generalize (rs_requestRules st).
  induction (cp_requestRules c) as [|r rules IH]; intros l He;
    inversion He as [|? x ? l' (H1 & H2 & _) Hl]; subst; simpl; [done|].
  simpl in *. rewrite <- H1, <- H2. f_equal. by apply IH.
Qed.

(** Whether a compiled expression calls a function. *)
Lemma compiled_calls source c f : compile_body source = Ok c →
  str_in f (cp_functions c) = true ↔ ∃ args sp, call f args sp ∈ postorder (cp_ast c).
Proof.
  intros (_ & _ & _ & _ & _ & _ & [_ Hf]%expressionDependencies_spec & _)%compile_body_inv.
  rewrite str_in_In, <- list_elem_of_In. apply Hf.
Qed.

(** A function the expression never calls is not allowed in its tree. *)
Lemma compiled_never_calls c f : (∀ args sp, call f args sp ∉ postorder (cp_ast c)) →
  Forall (node_allowed (λ g, negb (str_eqb g f))) (postorder (cp_ast c)).
Proof.
  intros H. apply Forall_forall. intros [] Hm; simpl; try done.
  destruct (str_eqb name f) eqn:E; [|done]. apply str_eqb_eq in E as ->. by apply H in Hm.
Qed.
End Success.

(** ** Properties *)

(** C9: a result is only reported when it is a price, and its fields are those
    of the price that was reached.  A successful evaluation comes from a
    compiled expression, its cost is finite and not negative, all token counts
    were finite nonnegative numbers, and the reported request rules are the
    compiled ones, in order, with the same conditions and multipliers.  An
    expression without fixed() is billed by token and has no fixed price.  In an
    expression with fixed() one tier of the tree was reached: the matched tier
    is its label, and when its price is fixed(x) the unit is the request and the
    fixed price is x, otherwise the unit is the token and there is no fixed
    price.  An expression without tier() reports no tier, and the image count
    is reported exactly when the expression mentions it. *)
Theorem evaluation_success_is_price {host : Host} source context s :
  evaluateBillingExpression source context = eval_success s →
  isFinite (res_cost s) = true ∧ is_negative (res_cost s) = false ∧
  (∀ e, In e (default [] (ctx_tokens context)) →
        ∃ x, snd e = JNumber x ∧ isFinite x = true ∧ is_negative x = false) ∧
  ∃ c, compile source = ready c ∧
    map (λ r, (rr_cond r, rr_multiplier r)) (res_requestRules s) =
    map (λ r, (rule_cond r, rule_multiplier r)) (cp_requestRules c) ∧
    ((∀ args sp, call (js "fixed") args sp ∉ postorder (cp_ast c)) →
       res_billingUnit s = unit_token ∧ res_fixedPrice s = None) ∧
    ((∃ args sp, call (js "fixed") args sp ∈ postorder (cp_ast c)) →
       ∃ label price rest sp, call (js "tier") (label :: price :: rest) sp ∈ postorder (cp_ast c) ∧
         (∀ name i lsp, label = literal (lit_string name) i lsp → res_matchedTier s = name) ∧
         res_fixedPrice s = fixed_amount price ∧
         res_billingUnit s = unit_of (fixed_amount price)) ∧
    ((∀ args sp, call (js "tier") args sp ∉ postorder (cp_ast c)) → res_matchedTier s = []) ∧
    ((∃ sp, variable image_count sp ∈ postorder (cp_ast c)) →
       res_imageCount s = Some (default (num_of_Z 1) (ctx_imageCount context))) ∧
    ((∀ sp, variable image_count sp ∉ postorder (cp_ast c)) → res_imageCount s = None).
Proof.
  intros H. pose proof (success_imageCount source context s) as Hi.
  apply evaluate_success_inv in H as Hs.
  destruct Hs as (c & headers & v & st & Hc & _ & He & _ & Hfin & Hneg & Hu & Hp & Hm & Hr & Htok).
  specialize (Hi c H Hc). rewrite Hu, Hp, Hm, Hr.
  pose proof (compile_body_inv source c Hc) as (_ & _ & Hwf & _ & _ & _ & Hdep & Hrules & Hval).
  apply expressionDependencies_spec in Hdep as [Hvars _]. simpl in Hvars.
  split_and!; try done. exists c. split_and!; [by unfold compile; rewrite Hc| | | | | |].
  - eapply rules_grow_report, evaluate_rules_grow, He.
  - intros Hno%compiled_never_calls.
    apply (evaluate_keeps c context _ headers billing_fields not_fixed) in He; [|done..].
    by injection He as -> ->.
  - intros Hcall. apply (compiled_calls source c _ Hc), Hval in Hcall.
    apply (evaluate_pricing_tree c context _ headers _ _ Hwf
             (compiled_rules_shape _ _ _ Hrules) _ ltac:(done) Hcall) in He
      as (label & price & rest & sp & Hin & Hl & Hb).
    exists label, price, rest, sp. unfold billing_fields in Hb.
    by destruct (fixed_amount price); injection Hb as -> ->.
  - intros Hno%compiled_never_calls.
    by apply (evaluate_keeps c context _ headers rs_matchedTier not_tier) in He.
  - intros Hv%Hvars. by rewrite Hi, bool_decide_eq_true_2.
  - intros Hv. rewrite Hi, bool_decide_eq_false_2; [done|]. rewrite Hvars. by intros [sp Hsp%Hv].
Qed.

(** ** Witness *)
Definition fixed_source : jsstring :=
  js "p > 500 ? tier('large', fixed(0.5)) * image_count : tier('small', p * 2)".

Lemma evaluation_success_is_price_witness :
  ∃ s, @evaluateBillingExpression plain_host fixed_source sample_context = eval_success s ∧
       res_cost s = num_of_Z 500000 ∧ res_billingUnit s = unit_request ∧
       res_matchedTier s = js "large" ∧ isFinite (res_cost s) = true.
Proof.
  destruct (@evaluateBillingExpression plain_host fixed_source sample_context) as [s|f] eqn:E;
    [|vm_compute in E; discriminate E].
  exists s. pose proof (@evaluation_success_is_price plain_host fixed_source sample_context s E) as H.
  split; [reflexivity|]. vm_compute in E. injection E as <-.
  split; [vm_compute; reflexivity|]. split; [reflexivity|]. split; [reflexivity|]. exact (proj1 H).
Defined.
