(* ===== verification/Structure.v ===== *)
(** * Structural helpers on source text (billing-expression/structure.ts)

    [splitExpressionAtTopLevel] and [unwrapExpressionParens] work on the raw
    text, outside quotes and brackets.  Proved here: splitting and unwrapping
    always answer, splitting loses nothing but the operators and the blanks
    around the parts, its parts cannot be split again, and unwrapping is
    idempotent and removes matching pairs only. *)
From S2P Require Import Prelude JsString.
Local Open Scope Z_scope.

Definition ch_backslash : jschar := 92.
Definition is_quote (c : jschar) : bool := (c =? 34) || (c =? 39).
Definition is_open (c : jschar) : bool := (c =? 40) || (c =? 91) || (c =? 123).
Definition is_close (c : jschar) : bool := (c =? 41) || (c =? 93) || (c =? 125).

(** The two depth updates of the loop body. *)
Definition bump_depth (c : jschar) (depth : Z) : Z :=
  let depth := if is_open c then depth + 1 else depth in
  if is_close c then depth - 1 else depth.

(** The loop at index [i]: [rest] is [source.slice(i)], [seg] is
    [source.slice(start, i)], [quote] is [None] for the empty string.  The
    answer is [None] for the early return at a top-level question mark. *)
Fixpoint split_loop (operator : jsstring) (fuel : nat) (rest seg : jsstring) (depth : Z)
    (quote : option jschar) (parts : list jsstring) : outcome unit (option (list jsstring)) :=
  match rest with
  | [] => Ok (Some (parts ++ [seg]))
  | char :: rest' =>
      match fuel with
      | O => NoFuel
      | S fuel' =>
          match quote with
          | Some q =>
              if char =? ch_backslash
              then split_loop operator fuel' (drop 1 rest') (seg ++ char :: take 1 rest') depth quote parts
              else split_loop operator fuel' rest' (seg ++ [char]) depth
                     (if char =? q then None else quote) parts
          | None =>
              if is_quote char then split_loop operator fuel' rest' (seg ++ [char]) depth (Some char) parts
              else
                let depth := bump_depth char depth in
                if negb (depth =? 0) then split_loop operator fuel' rest' (seg ++ [char]) depth None parts
                else if char =? 63 then Ok None
                else if starts_with rest operator
                then split_loop operator fuel' (drop (length operator) rest) [] depth None (parts ++ [seg])
                else split_loop operator fuel' rest' (seg ++ [char]) depth None parts
          end
      end
  end.

Definition non_empty (s : jsstring) : bool := match s with [] => false | _ => true end.

(** Every turn of the loop consumes a character when the operator is not the
    empty string, so the length of the source is enough fuel. *)
Definition splitExpressionAtTopLevel (source operator : jsstring) : outcome unit (list jsstring) :=
  r ← split_loop operator (length source) source [] 0 None [];
  Ok (match r with
      | None => [trim source]
      | Some raw => List.filter non_empty (map trim raw)
      end).

(** The inner loop of [unwrapExpressionParens]: whether the first return to
    depth 0 is at the last character. *)
Fixpoint closes_at_end (fuel : nat) (rest : jsstring) (depth : Z) (quote : option jschar) : bool :=
  match fuel, rest with
  | S fuel', char :: rest' =>
      match quote with
      | Some q =>
          if char =? ch_backslash then closes_at_end fuel' (drop 1 rest') depth quote
          else closes_at_end fuel' rest' depth (if char =? q then None else quote)
      | None =>
          if is_quote char then closes_at_end fuel' rest' depth (Some char)
          else
            let depth := if char =? 40 then depth + 1 else depth in
            let depth := if char =? 41 then depth - 1 else depth in
            if depth =? 0 then match rest' with [] => true | _ => false end
            else closes_at_end fuel' rest' depth None
      end
  | _, _ => false
  end.

(** [expression.slice(1, -1)] *)
Definition strip_ends (s : jsstring) : jsstring := slice s 1 (length s - 1).

Definition wrapped (s : jsstring) : bool :=
  starts_with s (js "(") && ends_with s (js ")") && closes_at_end (length s) s 0 None.

(** The outer loop; every turn removes two characters. *)
Fixpoint unwrap_loop (fuel : nat) (expression : jsstring) : jsstring :=
  match fuel with
  | O => expression
  | S fuel' =>
      if wrapped expression then unwrap_loop fuel' (trim (strip_ends expression)) else expression
  end.

Definition unwrapExpressionParens (source : jsstring) : jsstring :=
  let expression := trim source in
  unwrap_loop (length expression) expression.

Example split_sample :
  splitExpressionAtTopLevel (js "a * (b * c) * f('*')  ") (js "*")
  = Ok [js "a"; js "(b * c)"; js "f('*')"].
Proof. reflexivity. Qed.
Example unwrap_sample : unwrapExpressionParens (js " ( (a) * (b) ) ") = js "(a) * (b)".
Proof. reflexivity. Qed.

(** ** Splitting loses nothing *)
Section Split.
Context (op : jsstring).

Lemma split_loop_total : op ≠ [] → ∀ fuel rest seg d q parts, (length rest ≤ fuel)%nat →
  split_loop op fuel rest seg d q parts ≠ NoFuel.
Proof.
  intros Hop. induction fuel as [|fuel IH]; intros [|c rest] seg d q parts Hf; simpl in *; try done; [lia|].
  assert (length (drop (length op) (c :: rest)) ≤ fuel)%nat.
  { rewrite length_drop. destruct op; simpl in *; [done|lia]. }
  pose proof (length_drop rest 1).
  repeat case_match; try done; apply IH; simpl in *; lia.
Qed.

Lemma split_loop_no_throw fuel : ∀ rest seg d q parts e,
  split_loop op fuel rest seg d q parts ≠ Throw e.
Proof.
  induction fuel as [|fuel IH]; intros [|c rest] seg d q parts e; simpl; try done.
  repeat case_match; try done; apply IH.
Qed.

Lemma join_snoc (parts : list jsstring) seg :
  join op (parts ++ [seg]) = concat (map (λ p, p ++ op) parts) ++ seg.
Proof.
  induction parts as [|p parts IH]; [done|].
  simpl. destruct parts as [|p' ps]; simpl in *; [by rewrite ?app_nil_r, <- ?app_assoc|].
  rewrite IH. by rewrite <- !app_assoc.
Qed.

Lemma split_loop_lossless fuel : ∀ rest seg d q parts raw,
  split_loop op fuel rest seg d q parts = Ok (Some raw) →
  join op raw = concat (map (λ p, p ++ op) parts) ++ seg ++ rest.
Proof.
  induction fuel as [|fuel IH]; intros [|c rest] seg d q parts raw H; simpl in H; try done.
  1, 2: inv_ok; by rewrite join_snoc, app_nil_r.
  split_in H; apply IH in H; rewrite H; clear H;
    rewrite ?map_app, ?concat_app; simpl; rewrite ?app_nil_r, <- ?app_assoc; simpl; try done.
  - destruct rest; done.
  - do 3 f_equal. symmetry. by apply starts_with_inv.
Qed.

(** [s] is scanned from [(d, q)] to its end without a split and without a
    top-level question mark. *)
Inductive atomic : jsstring → Z → option jschar → Prop :=
| atomic_nil d q : atomic [] d q
| atomic_escape d q rest : atomic (drop 1 rest) d (Some q) → atomic (ch_backslash :: rest) d (Some q)
| atomic_quoted c d q rest : (c =? ch_backslash) = false →
    atomic rest d (if c =? q then None else Some q) → atomic (c :: rest) d (Some q)
| atomic_quote c d rest : is_quote c = true → atomic rest d (Some c) → atomic (c :: rest) d None
| atomic_nested c d rest : is_quote c = false → (bump_depth c d =? 0) = false →
    atomic rest (bump_depth c d) None → atomic (c :: rest) d None
| atomic_plain c d rest : is_quote c = false → (bump_depth c d =? 0) = true → (c =? 63) = false →
    starts_with (c :: rest) op = false →
    atomic rest (bump_depth c d) None → atomic (c :: rest) d None.
Hint Constructors atomic : core.

Lemma atomic_run s d q : atomic s d q → ∀ fuel seg parts, (length s ≤ fuel)%nat →
  split_loop op fuel s seg d q parts = Ok (Some (parts ++ [seg ++ s])).
Proof.
  induction 1; intros fuel seg parts Hf; destruct fuel as [|fuel]; simpl in *;
    rewrite ?app_nil_r; try done; try lia;
    repeat match goal with E : ?b = _ |- context [?b] => rewrite E; simpl end;
    rewrite ?IHatomic by (rewrite ?length_drop; lia); rewrite <- ?app_assoc; simpl; try done.
  by destruct rest.
Qed.

Lemma split_loop_atomic fuel : ∀ rest seg d q parts raw,
  split_loop op fuel rest seg d q parts = Ok (Some raw) →
  ∃ s0 raws, raw = parts ++ (seg ++ s0) :: raws ∧ s0 `prefix_of` rest ∧ atomic s0 d q
             ∧ Forall (λ s, atomic s 0 None) raws.
Proof.
  induction fuel as [|fuel IH]; intros [|c rest] seg d q parts raw H; cbn [split_loop] in H; try done.
  1, 2: inv_ok; exists [], []; rewrite app_nil_r; auto.
  destruct q as [q|].
  - destruct (c =? ch_backslash) eqn:Ec.
    + apply Z.eqb_eq in Ec as ->. apply IH in H as (s0 & raws & -> & [t Ht] & Ha & Hr).
      exists (ch_backslash :: take 1 rest ++ s0), raws. rewrite <- app_assoc. split; [done|].
      split; [|split; [|done]].
      * exists t. simpl. f_equal. rewrite <- app_assoc, <- Ht. by rewrite take_drop.
      * constructor. destruct rest as [|r rest]; simpl in *; [|done].
        by destruct s0.
    + apply IH in H as (s0 & raws & -> & [t ->] & Ha & Hr).
      exists (c :: s0), raws. rewrite <- app_assoc. repeat split; auto. by exists t.
  - destruct (is_quote c) eqn:Eq; [|destruct (bump_depth c d =? 0) eqn:Ed; cbn [negb] in H;
      [destruct (c =? 63) eqn:E63; [done|]; destruct (starts_with (c :: rest) op) eqn:Es|]].
    2: { apply IH in H as (s0 & raws & -> & _ & Ha & Hr). exists [], (s0 :: raws).
         rewrite app_nil_r, <- app_assoc. repeat split; auto; [apply prefix_nil|].
         constructor; [|done]. by apply Z.eqb_eq in Ed as <-. }
    all: apply IH in H as (s0 & raws & -> & [t ->] & Ha & Hr);
      exists (c :: s0), raws; rewrite <- app_assoc; repeat split; auto; try (by exists t).
    apply atomic_plain; auto. destruct (starts_with (c :: s0) op) eqn:E; [|done].
    apply (starts_with_prefix _ t) in E. simpl in *. congruence.
Qed.

Lemma atomic_prefix s d q : atomic s d q → ∀ p, p `prefix_of` s → atomic p d q.
Proof.
  induction 1; intros [|c' p] [t Ht]; auto; simpl in Ht; try done; injection Ht as <- ->; auto.
  - constructor. apply IHatomic. exists (drop (1 - length p) t). by rewrite drop_app.
  - constructor; [done|]. apply IHatomic. by exists t.
  - apply atomic_quote; [done|]. apply IHatomic. by exists t.
  - apply atomic_nested; auto. apply IHatomic. by exists t.
  - apply atomic_plain; auto; [|apply IHatomic; by exists t].
    destruct (starts_with (c :: p) op) eqn:E; [|done].
    apply (starts_with_prefix _ t) in E. simpl in *. congruence.
Qed.

Lemma space_chars c : is_space c = true →
  is_quote c = false ∧ (c =? 63) = false ∧ (∀ d, bump_depth c d = d).
Proof.
  intros H. unfold is_quote, bump_depth, is_open, is_close.
  assert (c ≠ 34 ∧ c ≠ 39 ∧ c ≠ 63 ∧ c ≠ 40 ∧ c ≠ 91 ∧ c ≠ 123 ∧ c ≠ 41 ∧ c ≠ 93 ∧ c ≠ 125) as Hc.
  { repeat split; intros ->; vm_compute in H; done. }
  destruct Hc as (?&?&?&?&?&?&?&?&?).
  repeat match goal with E : c ≠ ?n |- _ => apply Z.eqb_neq in E; rewrite E; clear E end. done.
Qed.

Lemma atomic_space a s : all_space a = true → atomic (a ++ s) 0 None → atomic s 0 None.
Proof.
  induction a as [|c a IH]; simpl; [done|]. intros [Hc Ha]%andb_prop H.
  destruct (space_chars c Hc) as (Hq & _ & Hd). apply IH; [done|].
  inversion H; subst; rewrite ?Hd in *; congruence || done.
Qed.

Lemma atomic_trim s : atomic s 0 None → atomic (trim s) 0 None.
Proof.
  destruct (trim_split s) as (a & b & Hs & Ha & Hb). intros H.
  rewrite Hs in H. apply atomic_space in H; [|done].
  eapply atomic_prefix; [done|]. by exists b.
Qed.

(** A trimmed part is its own only part. *)
Lemma atomic_split s : atomic s 0 None → s ≠ [] → trim s = s → splitExpressionAtTopLevel s op = Ok [s].
Proof.
  intros Ha Hs Ht. unfold splitExpressionAtTopLevel.
  rewrite (atomic_run _ _ _ Ha) by done. simpl. rewrite Ht. by destruct s.
Qed.
(** The scan of a text stops at a top-level question mark. *)
Inductive asks : jsstring → Z → option jschar → Prop :=
| asks_here c d rest : is_quote c = false → (bump_depth c d =? 0) = true → (c =? 63) = true →
    asks (c :: rest) d None
| asks_split c d rest : is_quote c = false → (bump_depth c d =? 0) = true → (c =? 63) = false →
    starts_with (c :: rest) op = true →
    asks (drop (length op) (c :: rest)) (bump_depth c d) None → asks (c :: rest) d None
| asks_escape d q rest : asks (drop 1 rest) d (Some q) → asks (ch_backslash :: rest) d (Some q)
| asks_quoted c d q rest : (c =? ch_backslash) = false →
    asks rest d (if c =? q then None else Some q) → asks (c :: rest) d (Some q)
| asks_quote c d rest : is_quote c = true → asks rest d (Some c) → asks (c :: rest) d None
| asks_nested c d rest : is_quote c = false → (bump_depth c d =? 0) = false →
    asks rest (bump_depth c d) None → asks (c :: rest) d None
| asks_plain c d rest : is_quote c = false → (bump_depth c d =? 0) = true → (c =? 63) = false →
    starts_with (c :: rest) op = false →
    asks rest (bump_depth c d) None → asks (c :: rest) d None.
Hint Constructors asks : core.

Lemma split_loop_asks fuel : ∀ rest seg d q parts,
  split_loop op fuel rest seg d q parts = Ok None → asks rest d q.
Proof.
  induction fuel as [|fuel IH]; intros [|c rest] seg d q parts H; cbn [split_loop] in H; try done.
  destruct q as [q|].
  - destruct (c =? ch_backslash) eqn:Ec; [apply Z.eqb_eq in Ec as ->|]; eauto.
  - destruct (is_quote c) eqn:Eq; [eauto|]. destruct (bump_depth c d =? 0) eqn:Ed; cbn [negb] in H; [|eauto].
    destruct (c =? 63) eqn:E63; [by apply asks_here|].
    destruct (starts_with (c :: rest) op) eqn:Es; [apply asks_split|apply asks_plain]; eauto.
Qed.

Lemma asks_run s d q : op ≠ [] → asks s d q → ∀ fuel seg parts, (length s ≤ fuel)%nat →
  split_loop op fuel s seg d q parts = Ok None.
Proof.
  intros Hop. assert (∀ (c : Z) rest fuel, (length (c :: rest) ≤ S fuel)%nat →
    (length (drop (length op) (c :: rest)) ≤ fuel)%nat) as Hd.
  { intros. rewrite length_drop. destruct op; simpl in *; [done|lia]. }
  induction 1; intros fuel seg parts Hf; destruct fuel as [|fuel]; cbn [split_loop]; simpl length in Hf; try lia;
    repeat match goal with E : ?b = _ |- context [?b] => rewrite E; cbn [negb] end;
    try done; apply IHasks; first [apply Hd; simpl; lia | rewrite ?length_drop; lia].
Qed.

Section NoBlank.
Hypothesis op_ne : op ≠ [].
Hypothesis op_blank : forallb (λ c, negb (is_space c)) op = true.

Lemma asks_space a s : all_space a = true → asks (a ++ s) 0 None → asks s 0 None.
Proof.
  induction a as [|c a IH]; simpl; [done|]. intros [Hc Ha]%andb_prop H.
  destruct (space_chars c Hc) as (Hq & H63 & Hd). apply IH; [done|].
  inversion H; subst; rewrite ?Hd in *; try congruence || done.
  destruct op as [|o op']; simpl in *; [done|]. bool_hyps. subst. congruence.
Qed.

Lemma all_space_drop n s : all_space s = true → all_space (drop n s) = true.
Proof.
  revert n; induction s as [|c s IH]; intros [|n]; simpl; auto. intros [? ?]%andb_prop. by apply IH.
Qed.

Lemma blank_not_asks s d q : asks s d q → all_space s = true → False.
Proof.
  induction 1 as [c d rest|c d rest ???? H IH|d q rest H IH|c d q rest ? H IH|c d rest ? H IH
                 |c d rest ?? H IH|c d rest ???? H IH]; intros Hs;
    pose proof Hs as Hall; simpl in Hs; try done; apply andb_prop in Hs as [Hc Hs];
    destruct (space_chars _ Hc) as (? & ? & ?); try congruence; eauto using all_space_drop.
Qed.

Lemma asks_blank_tail s d q : asks s d q → ∀ p b, s = p ++ b → all_space b = true → asks p d q.
Proof.
  intros H. pose proof (blank_not_asks _ _ _ H) as Hnb. revert Hnb.
  induction H as [c d rest|c d rest ??? Hs0 H IH|d q rest H IH|c d q rest ? H IH|c d rest ? H IH
                 |c d rest ?? H IH|c d rest ??? Hs0 H IH]; intros Hnb [|c' p] b Hs Hb; simpl in Hs;
    try (exfalso; apply Hnb; by rewrite Hs); injection Hs as <- ->;
    try specialize (IH (blank_not_asks _ _ _ H)).
  - by apply asks_here.
  - assert (starts_with (c :: p) op = true) as Hp by (eapply starts_with_blank_tail; eauto).
    apply asks_split; auto. apply (IH _ b); [|done].
    pose proof (starts_with_inv _ _ Hp) as E. apply (f_equal length) in E.
    rewrite length_app, length_drop in E.
    rewrite (drop_app_le (c :: p) b) by lia. done.
  - apply asks_escape. apply (IH _ (drop (1 - length p) b)); [by rewrite drop_app|].
    by apply all_space_drop.
  - apply asks_quoted; eauto.
  - apply asks_quote; eauto.
  - apply asks_nested; eauto.
  - apply asks_plain; auto; [|by eapply IH]. destruct (starts_with (c :: p) op) eqn:E; [|done].
    apply (starts_with_prefix _ b) in E. simpl in *. congruence.
Qed.

Lemma asks_trim s : asks s 0 None → asks (trim s) 0 None.
Proof.
  destruct (trim_split s) as (a & b & Hs & Ha & Hb). intros H.
  rewrite Hs in H. apply asks_space in H; [|done]. by eapply asks_blank_tail.
Qed.
End NoBlank.
End Split.

(** C10: splitting at a non-empty operator always answers and loses nothing:
    without a top-level question mark, the untrimmed parts joined by the operator
    are the source, and the answer is those parts, trimmed, without the blank
    ones; with one, the answer is the whole trimmed source. *)
Theorem split_lossless source operator : operator ≠ [] →
  (∃ raw, splitExpressionAtTopLevel source operator = Ok (List.filter non_empty (map trim raw))
          ∧ join operator raw = source)
  ∨ (asks operator source 0 None ∧ splitExpressionAtTopLevel source operator = Ok [trim source]).
Proof.
  intros Hop. unfold splitExpressionAtTopLevel.
  destruct (split_loop operator (length source) source [] 0 None []) as [[raw|]|[]|] eqn:E; simpl.
  - left. exists raw. split; [done|]. by apply split_loop_lossless in E.
  - right. split; [|done]. by eapply split_loop_asks.
  - exfalso. by eapply split_loop_no_throw.
  - by apply split_loop_total in E.
Qed.

(** The parts are final: splitting a part at the same operator (one
    without blanks) gives that part alone. *)
Lemma split_parts_atomic source operator parts part :
  operator ≠ [] → forallb (λ c, negb (is_space c)) operator = true →
  splitExpressionAtTopLevel source operator = Ok parts → part ∈ parts →
  splitExpressionAtTopLevel part operator = Ok [part].
Proof.
  intros Hop Hblank H Hin. unfold splitExpressionAtTopLevel in H.
  destruct (split_loop operator (length source) source [] 0 None []) as [[raw|]|[]|] eqn:E; simpl in H; inv_ok.
  - apply list_elem_of_In, filter_In in Hin as [(s & <- & Hs)%in_map_iff Hne].
    apply split_loop_atomic in E as (s0 & raws & -> & _ & Ha & Hr).
    apply atomic_split; [|by intros Hn; rewrite Hn in Hne|apply trim_idemp].
    apply atomic_trim. simpl in Hs. destruct Hs as [<-|Hs]; [done|].
    rewrite Forall_forall in Hr. apply Hr. by apply list_elem_of_In.
  - apply list_elem_of_singleton in Hin as ->. unfold splitExpressionAtTopLevel.
    apply split_loop_asks, asks_trim in E; [|done..].
    rewrite (asks_run _ _ _ _ Hop E) by done. simpl. by rewrite trim_idemp.
Qed.

Lemma split_lossless_witness :
  js "*" ≠ [] ∧ ((∃ raw, splitExpressionAtTopLevel (js "a * 'x*y'") (js "*")
                         = Ok (List.filter non_empty (map trim raw)) ∧ join (js "*") raw = js "a * 'x*y'")
  ∨ (asks (js "*") (js "a * 'x*y'") 0 None
     ∧ splitExpressionAtTopLevel (js "a * 'x*y'") (js "*") = Ok [trim (js "a * 'x*y'")])).
Proof. split; [done|]. apply (split_lossless (js "a * 'x*y'") (js "*")). done. Defined.

(** ** Unwrapping *)
Lemma strip_ends_length s : wrapped s = true → (length (trim (strip_ends s)) + 2 ≤ length s)%nat.
Proof.
  intros H. unfold wrapped in H. bool_hyps.
  pose proof (trim_length (strip_ends s)) as Ht. unfold strip_ends in *.
  rewrite slice_length in Ht by lia.
  destruct s as [|a [|b s]]; [done| |simpl in *; lia].
  exfalso. apply starts_with_inv in H, H1. cbv in H, H1. congruence.
Qed.

Lemma unwrap_loop_done fuel : ∀ s, (length s ≤ fuel)%nat → wrapped (unwrap_loop fuel s) = false.
Proof.
  induction fuel as [|fuel IH]; intros s Hf; simpl.
  - destruct s; simpl in *; [done|lia].
  - destruct (wrapped s) eqn:E; [|done]. apply IH. apply strip_ends_length in E. lia.
Qed.

Lemma unwrap_loop_trimmed fuel : ∀ s, trim s = s → trim (unwrap_loop fuel s) = unwrap_loop fuel s.
Proof.
  induction fuel as [|fuel IH]; intros s Hs; simpl; [done|].
  destruct (wrapped s); [|done]. apply IH, trim_idemp.
Qed.

(** [n] pairs of parentheses and the blanks around them are removed. *)
Inductive peels : jsstring → jsstring → Prop :=
| peels_done s : wrapped s = false → peels s s
| peels_pair s r : wrapped s = true → peels (trim (strip_ends s)) r → peels s r.

Lemma unwrap_loop_peels fuel : ∀ s, (length s ≤ fuel)%nat → peels s (unwrap_loop fuel s).
Proof.
  induction fuel as [|fuel IH]; intros s Hf; simpl.
  - apply peels_done. destruct s; simpl in *; [done|lia].
  - destruct (wrapped s) eqn:E; [|by apply peels_done].
    apply peels_pair; [done|]. apply IH. apply strip_ends_length in E. lia.
Qed.

(** Unwrapping removes whole enclosing pairs of parentheses until none is
    left, and is idempotent. *)
Theorem unwrap_idempotent source :
  peels (trim source) (unwrapExpressionParens source)
  ∧ wrapped (unwrapExpressionParens source) = false
  ∧ unwrapExpressionParens (unwrapExpressionParens source) = unwrapExpressionParens source.
Proof.
  unfold unwrapExpressionParens at 1 2 4. repeat split.
  - by apply unwrap_loop_peels.
  - by apply unwrap_loop_done.
  - pose proof (unwrap_loop_done (length (trim source)) (trim source) (le_n _)) as Hw.
    unfold unwrapExpressionParens. rewrite unwrap_loop_trimmed by apply trim_idemp.
    set (r := unwrap_loop _ _) in *. destruct r as [|c r]; [done|]. simpl. by rewrite Hw.
Qed.
