(* ===== verification/Balanced.v ===== *)
(** * Expressions that parse are balanced text

    The text helpers walk over raw characters, the lexer over tokens.  [path]
    describes how both walk over quotes and parentheses; the text of an
    expression that parses is such a path that returns to the level it started
    at.  So a parsed expression in parentheses is one unit for the splitter and
    the unwrapper, whatever it contains. *)
From S2P Require Import Prelude JsString JsNumber BillingTypes Parser ParserFacts Grammar Structure.
Local Open Scope Z_scope.

(** Neither quotes nor brackets. *)
Definition nested (c : jschar) : bool := negb (is_quote c) && negb (is_open c) && negb (is_close c).

(** The body of a string: no closing quote but after a backslash. *)
Inductive quoted (q : jschar) : jsstring → Prop :=
| quoted_nil : quoted q []
| quoted_char c s : c ≠ q → c ≠ ch_backslash → quoted q s → quoted q (c :: s)
| quoted_escape c s : quoted q s → quoted q (ch_backslash :: c :: s).

(** [path d s d']: reading [s] leads from level [d] to level [d'] and never
    below level 1. *)
Inductive path : Z → jsstring → Z → Prop :=
| path_nil d : path d [] d
| path_char c d s d' : nested c = true → path d s d' → path d (c :: s) d'
| path_open d s d' : path (d + 1) s d' → path d (40 :: s) d'
| path_close d s d' : 0 < d → path d s d' → path (d + 1) (41 :: s) d'
| path_quoted q body d s d' : is_quote q = true → quoted q body → path d s d' → path d (q :: body ++ q :: s) d'.

Lemma path_app d1 s d2 t d3 : path d1 s d2 → path d2 t d3 → path d1 (s ++ t) d3.
Proof.
  induction 1 as [d|c d s d' Hc H IH|d s d' H IH|d s d' Hd H IH|q body d s d' Hq Hb H IH]; intros Ht; simpl; auto.
  - by apply path_char; auto.
  - by apply path_open; auto.
  - by apply path_close; auto.
  - rewrite <- app_assoc. simpl. by apply path_quoted; auto.
Qed.

Lemma path_nested d s : forallb nested s = true → path d s d.
Proof. induction s as [|c s IH]; simpl; [constructor|]. intros [Hc Hs]%andb_prop. by apply path_char; auto. Qed.

Lemma path_parens d s : 0 < d → path (d + 1) s (d + 1) → path d ([40] ++ s ++ [41]) d.
Proof.
  intros Hd H. simpl. apply path_open. eapply path_app; [done|]. apply path_close; [done|constructor].
Qed.

Lemma path_string d q s : is_quote q = true → quoted q s → path d (q :: s ++ [q]) d.
Proof. intros Hq Hs. apply path_quoted; [done|done|constructor]. Qed.

Lemma plain_quoted q s : forallb (λ c, negb (c =? q) && negb (c =? ch_backslash)) s = true → quoted q s.
Proof.
  induction s as [|c s IH]; simpl; [constructor|]. intros [Hc Hs]%andb_prop. bool_hyps. by apply quoted_char; auto.
Qed.

Lemma quoted_app q s t : quoted q s → quoted q t → quoted q (s ++ t).
Proof. induction 1; simpl; auto using quoted_char, quoted_escape. Qed.

Lemma nested_bump c d : nested c = true → is_quote c = false ∧ bump_depth c d = d ∧ c ≠ 40 ∧ c ≠ 41.
Proof.
  unfold nested, bump_depth. intros H. destruct (is_quote c) eqn:E1, (is_open c) eqn:E2, (is_close c) eqn:E3; try done.
  unfold is_open, is_close in *. bool_hyps. done.
Qed.

(** ** The text of a token *)
Definition delta (text : jsstring) : Z :=
  if str_eqb text (js "(") then 1 else if str_eqb text (js ")") then -1 else 0.

Definition walks (text : jsstring) : Prop := ∀ d, 0 < d → 0 < d + delta text → path d text (d + delta text).

Lemma nested_not_parens s : forallb nested s = true → delta s = 0.
Proof. intros H. unfold delta. repeat case_match; str_hyps; by subst. Qed.

Lemma walks_nested s : forallb nested s = true → walks s.
Proof. intros H d _ _. rewrite nested_not_parens by done. rewrite Z.add_0_r. by apply path_nested. Qed.

Lemma digit_nested c : is_digit c = true → nested c = true.
Proof. unfold is_digit, nested, is_quote, is_open, is_close. intros H. lia. Qed.

Lemma space_nested s : all_space s = true → forallb nested s = true.
Proof.
  unfold all_space. intros H. rewrite forallb_forall in *. intros c Hc. specialize (H c Hc).
  destruct (space_chars c H) as (Hq & _ & Hd). unfold nested. rewrite Hq. unfold is_open, is_close.
  unfold is_space in H. lia.
Qed.

(** *** Numbers, names, operators and strings *)
Lemma nested_digits n s : (n ≤ span_len is_digit s)%nat → forallb nested (take n s) = true.
Proof.
  revert n. induction s as [|c s IH]; intros [|n] H; simpl in *; try done.
  destruct (is_digit c) eqn:E; [|lia]. rewrite digit_nested by done. apply IH. lia.
Qed.

Lemma nested_take_app n m s : forallb nested (take n s) = true → forallb nested (take m (drop n s)) = true →
  forallb nested (take (n + m) s) = true.
Proof. intros H1 H2. by rewrite <- take_take_drop, forallb_app, H1, H2. Qed.

Lemma mantissa_nested s n m e : scan_mantissa s = Some (n, m, e) → forallb nested (take n s) = true.
Proof.
  unfold scan_mantissa. pose proof (nested_digits (span_len is_digit s) s (le_n _)) as Hi.
  destruct (span_len is_digit s) as [|ni].
  - destruct s as [|c r]; [done|]. destruct (decide (c = 46)) as [->|Hc]; [|intros H; repeat case_match; congruence].
    pose proof (nested_digits (span_len is_digit r) r (le_n _)) as Hr.
    destruct (span_len is_digit r) as [|nf]; [done|]. intros [= <- _ _]. done.
  - destruct (drop (S ni) s) as [|c r] eqn:E; [by intros [= <- _ _]|].
    destruct (decide (c = 46)) as [->|Hc].
    + intros [= <- _ _]. rewrite <- Nat.add_assoc. apply (nested_take_app (S ni)); [done|]. rewrite E.
      simpl. by apply nested_digits.
    + intros H. by assert (n = S ni) as -> by (repeat case_match; congruence).
Qed.

Lemma exponent_nested s n e : scan_exponent s = (n, e) → forallb nested (take n s) = true.
Proof.
  unfold scan_exponent. destruct s as [|c r]; [by intros [= <- _]|].
  destruct ((c =? 101) || (c =? 69)) eqn:Ec; [|by intros [= <- _]].
  destruct (scan_sign r) as [sgn n0] eqn:Es.
  assert (forallb nested (take n0 r) = true) as H0.
  { unfold scan_sign in Es. destruct r as [|d r]; [by injection Es as _ <-|].
    destruct (Z.eqb_spec d 45) as [->|_]; [by injection Es as _ <-|].
    destruct (Z.eqb_spec d 43) as [->|_]; by injection Es as _ <-. }
  pose proof (nested_digits (span_len is_digit (drop n0 r)) _ (le_n _)) as Hd.
  destruct (span_len is_digit (drop n0 r)) as [|k]; [by intros [= <- _]|]. intros [= <- _].
  change (nested c && forallb nested (take (n0 + S k) r) = true).
  rewrite nested_take_app by done. rewrite andb_true_r.
  unfold nested, is_quote, is_open, is_close. lia.
Qed.

Lemma match_number_nested rest text : match_number rest = Some text → forallb nested text = true.
Proof.
  unfold match_number, scan_decimal. destruct (scan_mantissa rest) as [[[n m] e]|] eqn:E; [|done].
  destruct (scan_exponent (drop n rest)) as [n' e'] eqn:E'. intros [= <-].
  apply nested_take_app; [by eapply mantissa_nested|by eapply exponent_nested].
Qed.

Lemma match_name_nested rest text : match_name rest = Some text → forallb nested text = true.
Proof.
  unfold match_name. destruct rest as [|c r]; [done|]. destruct (is_name_start c); [|done]. intros [= <-].
  pose proof (span_len_forall is_word (c :: r)) as H. rewrite forallb_forall in *. intros d Hd. specialize (H d Hd).
  unfold is_word, is_name_start, is_lower, is_upper, is_digit in H. unfold nested, is_quote, is_open, is_close. lia.
Qed.

Lemma match_operator_walks rest text : match_operator rest = Some text → walks text.
Proof.
  unfold match_operator. intros [Hin _]%find_some.
  repeat (destruct Hin as [<-|Hin]; [first [by apply walks_nested | intros d Hd Hd'; unfold delta in *; simpl in *]|]); try done.
  - apply path_open. constructor.
  - replace d with ((d + -1) + 1) at 1 by lia. apply path_close; [done|constructor].
Qed.

Definition closes (q : jschar) (rest : jsstring) (cursor c' : nat) : Prop := ∃ inner tail,
  rest = inner ++ q :: tail ∧ quoted q inner ∧ c' = (cursor + length inner + 1)%nat.

Lemma closes_prefix q pre rest cursor c' : quoted q pre → closes q rest (cursor + length pre)%nat c' →
  closes q (pre ++ rest) cursor c'.
Proof.
  intros Hp (inner & tail & -> & Hi & ->). exists (pre ++ inner), tail.
  rewrite <- app_assoc, length_app. split_and!; [done|by apply quoted_app|lia].
Qed.

Lemma hex_quoted q hs : is_quote q = true → forallb is_hex hs = true → quoted q hs.
Proof.
  intros Hq. induction hs as [|h hs IH]; simpl; [constructor|]. intros [Hh Hs]%andb_prop.
  unfold is_hex, is_digit, is_quote in *. apply quoted_char; [| |auto]; unfold ch_backslash; lia.
Qed.

Lemma scan_string_quoted q : is_quote q = true → ∀ k rest cursor value v c', (length rest ≤ k)%nat →
  scan_string q rest cursor value = Ok (Some (v, c')) → closes q rest cursor c'.
Proof.
  intros Hq. induction k as [|k IH]; intros rest cursor value v c' Hk H;
    (destruct rest as [|c r1]; simpl in H; [done|simpl in Hk; try lia]).
  destruct (Z.eqb_spec c q) as [->|Hc]; [injection H as _ <-; exists [], r1; split_and!; [done|constructor|simpl; lia]|].
  destruct ((c =? 10) || (c =? 13)); [done|].
  destruct (Z.eqb_spec c 92) as [->|Hb]; simpl in H.
  - destruct r1 as [|esc r2]; simpl in *; [done|].
    destruct (simple_escape esc).
    { apply (closes_prefix q [92; esc]); [by repeat constructor|]. apply IH in H; [done|lia]. }
    destruct (esc =? 117).
    + destruct r2 as [|h1 [|h2 [|h3 [|h4 r3]]]]; try done. destruct (is_hex h1 && _) eqn:Eh; [|done].
      apply (closes_prefix q ([92; esc] ++ [h1; h2; h3; h4])).
      * apply quoted_escape. by apply hex_quoted.
      * apply IH in H; [done|simpl in *; lia].
    + destruct (esc =? 120); [|done]. destruct r2 as [|h1 [|h2 r3]]; try done.
      destruct (is_hex h1 && _) eqn:Eh; [|done]. apply (closes_prefix q ([92; esc] ++ [h1; h2])).
      * apply quoted_escape. by apply hex_quoted.
      * apply IH in H; [done|simpl in *; lia].
  - apply (closes_prefix q [c]); [by repeat constructor|]. apply IH in H; [|lia]. simpl.
    by replace (cursor + 1)%nat with (S cursor) by lia.
Qed.

(** ** What one call of the lexer consumes *)
Definition name_like (t : Lexeme) : Prop :=
  lex_kind t = lx_number ∨ lex_kind t = lx_string ∨ lex_kind t = lx_name → delta (lex_text t) = 0.

Definition good_token (t : Lexeme) : Prop := walks (lex_text t) ∧ name_like t.

Lemma nested_token kind text a b v i : forallb nested text = true → good_token (mkLexeme kind text a b v i).
Proof. intros H. split; [by apply walks_nested|]. intros _. by apply nested_not_parens. Qed.

Section Source.
Context (source : jsstring).

Lemma next_consumes cursor count t c' n' : next source cursor count = Ok (t, (c', n')) →
  (cursor ≤ length source)%nat →
  ∃ blank, all_space blank = true ∧ drop cursor source = blank ++ lex_text t ++ drop c' source ∧ good_token t.
Proof.
  intros H Hc. destruct (next_spec _ _ _ _ _ _ H Hc) as ((Hb & Htext & _) & Hle & -> & _).
  exists (take (lex_start t - cursor) (drop cursor source)).
  assert (drop cursor source = take (lex_start t - cursor) (drop cursor source) ++ lex_text t ++ drop (lex_end t) source) as Hd.
  { rewrite Htext. unfold slice. rewrite <- (take_drop (lex_start t - cursor) (drop cursor source)) at 1. f_equal.
    rewrite drop_drop. replace (cursor + (lex_start t - cursor))%nat with (lex_start t) by lia.
    rewrite <- (take_drop (lex_end t - lex_start t) (drop (lex_start t) source)) at 1. f_equal.
    rewrite drop_drop. f_equal. lia. }
  cut (all_space (take (lex_start t - cursor) (drop cursor source)) = true ∧ good_token t); [intros [??]; done|].
  clear Hd. unfold next in H. destruct (10000 <? count + 1); [done|].
  set (start := (cursor + span_len is_space (drop cursor source))%nat) in *.
  assert (∀ t, lex_start t = start → all_space (take (lex_start t - cursor) (drop cursor source)) = true) as Hsp.
  { intros t' ->. subst start. replace (_ + _ - cursor)%nat with (span_len is_space (drop cursor source)) by lia.
    apply span_len_forall. }
  destruct (drop start source) as [|c body] eqn:Er.
  { injection H as <- _. split; [by apply Hsp|]. apply nested_token. done. }
  inv_ok. clear Hb Htext Hle.
  destruct (match_number (c :: body)) as [text|] eqn:En.
  { unfold next_number in Hx. split_in Hx. injection Hx as <-. split; [by apply Hsp|].
    apply nested_token. by eapply match_number_nested. }
  destruct ((c =? 34) || (c =? 39)) eqn:Eq.
  - unfold next_string in Hx. inv_ok. destruct x as [[v cur]|]; [|done]. injection Hx as <-.
    split; [by apply Hsp|]. apply (scan_string_quoted c Eq (length body)) in Hx0 as (inner & tail & -> & Hq & ->); [|done].
    assert (slice source start (S start + length inner + 1) = c :: inner ++ [c]) as Hs.
    { unfold slice. rewrite Er. replace (S start + length inner + 1 - start)%nat with (S (S (length inner))) by lia.
      cbn [take]. f_equal. replace (S (length inner)) with (length inner + 1)%nat by lia. by rewrite take_app_add. }
    assert (delta (c :: inner ++ [c]) = 0) as Hz.
    { unfold delta. repeat case_match; [| |done]; str_hyps; destruct inner; done. }
    split; [|intros _; cbn [lex_text]; by rewrite Hs].
    intros d _ _. cbn [lex_text]. rewrite Hs, Hz, Z.add_0_r. by apply path_string.
  - unfold next_symbol in Hx. destruct (match_name (c :: body)) as [text|] eqn:Em.
    + injection Hx as <-. split; [by apply Hsp|]. apply nested_token. by eapply match_name_nested.
    + destruct (match_operator (c :: body)) as [text|] eqn:Eo; [|done]. injection Hx as <-.
      split; [by apply Hsp|]. split; [by eapply match_operator_walks|]. intros [?|[?|?]]; done.
Qed.

(** ** Token sequences *)
Fixpoint levels (ts : list Lexeme) (d : Z) : option Z :=
  match ts with
  | [] => Some d
  | t :: ts' => let d' := d + delta (lex_text t) in if 0 <? d' then levels ts' d' else None
  end.

Lemma levels_app ts1 ts2 d : levels (ts1 ++ ts2) d = levels ts1 d ≫= levels ts2.
Proof. revert d. induction ts1 as [|t ts1 IH]; intros d; simpl; [done|]. by destruct (0 <? _). Qed.

Lemma takes_path st ts st' : takes source st ts st' → st_ok source st → good_token (ps_current st) →
  ∃ w, lex_text (ps_current st) ++ drop (ps_cursor st) source = w ++ lex_text (ps_current st') ++ drop (ps_cursor st') source
    ∧ Forall good_token ts ∧ good_token (ps_current st')
    ∧ ∀ d d', 0 < d → levels ts d = Some d' → path d w d'.
Proof.
  induction 1 as [st st' (H1 & H2 & H3)|st t st1 ts st2 Hk Ht H IH]; intros Hst Hg.
  - exists []. rewrite <- H1, <- H3. split_and!; try done. intros d d' _ [= <-]. constructor.
  - destruct (take_spec _ _ _ _ Ht Hst) as (-> & Hadv & _). destruct Hst as ((Hb & _) & Hcur & _).
    unfold take_ in Ht. inv_ok. destruct x as [t1 [c n]]. inv_ok. simpl in *.
    apply next_consumes in Hx as (blank & Hbl & Hd & Hg1); [|lia].
    destruct IH as (w & Hw & Hts & Hg2 & Hp); [apply Hadv|done|].
    exists (lex_text (ps_current st) ++ blank ++ w). split_and!; try done.
    + rewrite Hd, Hw. by rewrite <- !app_assoc.
    + by constructor.
    + intros d d' Hd0 Hl. simpl in Hl. destruct (Z.ltb_spec 0 (d + delta (lex_text (ps_current st)))); [|done].
      eapply path_app; [by apply Hg|]. eapply path_app; [by apply path_nested, space_nested|]. by apply Hp.
Qed.
End Source.

Scheme derives_mut := Minimality for derives Sort Prop
  with derives_args_mut := Minimality for derives_args Sort Prop.

Lemma delta_other t : lex_text t ≠ js "(" → lex_text t ≠ js ")" → delta (lex_text t) = 0.
Proof. intros H1 H2. unfold delta. by repeat case_match; str_hyps. Qed.

Lemma level_one t ts d : 0 < d → delta (lex_text t) = 0 → levels (t :: ts) d = levels ts d.
Proof. intros Hd H. simpl. rewrite H, Z.add_0_r. by destruct (Z.ltb_spec 0 d); [|lia]. Qed.

(** The tokens of a derivation are balanced. *)
Lemma derives_levels k ts n : derives k ts n → Forall good_token ts → ∀ d, 0 < d → levels ts d = Some d.
Proof.
  assert (∀ (t t' : Lexeme) ts d, lex_text t = js "(" → lex_text t' = js ")" → 0 < d →
    (∀ d, 0 < d → levels ts d = Some d) → levels (t :: ts ++ [t']) d = Some d) as Hparens.
  { intros t t' ts0 d Ht Ht' Hd IH. simpl. rewrite Ht. change (delta (js "(")) with 1.
    destruct (Z.ltb_spec 0 (d + 1)); [|lia]. rewrite levels_app, IH by lia. simpl. rewrite Ht'.
    change (delta (js ")")) with (-1). destruct (Z.ltb_spec 0 (d + 1 + -1)); [|lia]. f_equal. lia. }
  intros H. pattern k, ts, n. eapply derives_mut with (P0 := λ ts args, Forall good_token ts → ∀ d, 0 < d → levels ts d = Some d);
    [..|exact H]; clear k ts n H.
  - auto.
  - intros ts1 q ts2 colon ts3 c y n _ IH1 Hq _ IH2 Hcol _ IH3 (H1 & (_ & (H2 & (_ & H3)%Forall_cons)%Forall_app)%Forall_cons)%Forall_app d Hd.
    rewrite levels_app, IH1 by done. cbn [mbind option_bind]. rewrite level_one by (try done; by rewrite Hq).
    rewrite levels_app, IH2 by done. cbn [mbind option_bind]. rewrite level_one by (try done; by rewrite Hcol). auto.
  - intros p ts1 op ts2 l r Hp _ IH1 _ IH2 (H1 & (_ & H2)%Forall_cons)%Forall_app d Hd.
    rewrite levels_app, IH1 by done. cbn [mbind option_bind]. rewrite level_one; [auto|done|].
    apply delta_other; intros E; by rewrite E in Hp.
  - intros t v Hk _ ((_ & Hn) & _)%Forall_cons d Hd. rewrite level_one; [done|done|]. apply Hn. tauto.
  - intros t Hk _ ((_ & Hn) & _)%Forall_cons d Hd. rewrite level_one; [done|done|]. apply Hn. auto.
  - intros t b Hk _ ((_ & Hn) & _)%Forall_cons d Hd. rewrite level_one; [done|done|]. apply Hn. auto.
  - intros t v Hk _ ((_ & Hn) & _)%Forall_cons d Hd. rewrite level_one; [done|done|]. apply Hn. auto.
  - intros t ts a Hin _ IH (_ & H1)%Forall_cons d Hd. rewrite level_one; [auto|done|].
    repeat (destruct Hin as [<-|Hin]; [done|]). done.
  - intros t ts n t' Ht _ IH Ht' (_ & (H1 & _)%Forall_app)%Forall_cons d Hd. apply Hparens; auto.
  - intros t o ts args t' Hk _ Ho _ IH Ht' ((_ & Hn) & (_ & (H1 & _)%Forall_app)%Forall_cons)%Forall_cons d Hd.
    rewrite level_one; [|done|apply Hn; auto]. apply Hparens; auto.
  - done.
  - auto.
  - intros ts n comma ts' ns _ IH1 Hcomma _ IH2 (H1 & (_ & H2)%Forall_cons)%Forall_app d Hd.
    rewrite levels_app, IH1 by done. cbn [mbind option_bind]. rewrite level_one by (try done; by rewrite Hcomma). auto.
Qed.

Lemma version_nested source n v : match_version source = Some (n, v) → forallb nested (take n source) = true.
Proof.
  unfold match_version. set (ws := span_len is_space source). destruct (drop ws source) as [|c r] eqn:E; [done|].
  intros H. assert (c = 118) as -> by (repeat case_match; congruence).
  pose proof (nested_digits (span_len is_digit r) r (le_n _)) as Hd.
  destruct (span_len is_digit r) as [|nd]; [done|]. destruct (drop (S nd) r) as [|c r'] eqn:E'; [done|].
  assert (c = 58 ∧ n = (ws + 1 + S nd + 1)%nat) as [-> ->] by (repeat case_match; simplify_eq; done).
  rewrite <- !Nat.add_assoc. apply nested_take_app; [apply space_nested, span_len_forall|]. rewrite E.
  change (forallb nested (take (S nd + 1) r) = true). apply nested_take_app; [done|]. by rewrite E'.
Qed.

Lemma parse_path source n : parse source = Ok n → ∀ d, 0 < d → path d source d.
Proof.
  unfold parse. intros H d Hd. inv_ok. destruct x0 as [n' st']. inv_ok.
  destruct (parser_init_ok _ _ Hx) as (Hst & _). unfold parser_init in Hx. destruct (65536 <? _); [done|]. inv_ok.
  destruct x1 as [t [c k]]. inv_ok.
  assert (forallb nested (take x0 source) = true ∧ (x0 ≤ length source)%nat) as [Hpre Hlen].
  { destruct (match_version source) as [[m v]|] eqn:E; [|injection Hx1 as <-; split; [done|lia]].
    destruct (negb _); [done|]. injection Hx1 as <-. split; [by eapply version_nested|by eapply match_version_le]. }
  apply next_consumes in Hx2 as (blank & Hbl & Hdrop & Hg); [|done].
  unfold parse_from in Hx0. inv_ok. unfold current in Hx2. injection Hx2 as <- <-.
  destruct (lex_kind (ps_current s)) eqn:Ek; try done. inv_ok.
  destruct (proj1 (parser_derives source _) _ _ _ _ Hx ltac:(lia) Hst) as (ts & Hts & Hder & _).
  pose proof (expression_keeps_ok _ _ _ _ _ _ Hx Hst) as ((Hb & Htx & _ & Hend & _) & Hcur & _).
  destruct (takes_path _ _ _ _ Hts Hst Hg) as (w & Hw & Hgood & _ & Hp). simpl in Hw.
  specialize (Hend Ek). assert (lex_text (ps_current st') ++ drop (ps_cursor st') source = []) as Hnil.
  { rewrite Htx, Hcur, Hend. rewrite drop_ge by lia. unfold slice. rewrite drop_ge by lia. by rewrite take_nil. }
  rewrite Hnil, app_nil_r in Hw. rewrite <- (take_drop x0 source), Hdrop, Hw.
  eapply path_app; [by apply path_nested|]. eapply path_app; [by apply path_nested, space_nested|].
  apply Hp; [done|]. by eapply derives_levels.
Qed.

(** ** Parentheses around a path *)
Lemma closes_skip_string q body : is_quote q = true → quoted q body → ∀ fuel rest d,
  (length (body ++ q :: rest) ≤ fuel)%nat → ∃ fuel', (length rest ≤ fuel')%nat ∧
  closes_at_end fuel (body ++ q :: rest) d (Some q) = closes_at_end fuel' rest d None.
Proof.
  intros Hq. induction 1 as [|c s Hc Hb H IH|c s H IH]; intros fuel rest d Hf; destruct fuel as [|fuel]; simpl in Hf; try lia.
  - exists fuel. split; [lia|]. simpl. rewrite Z.eqb_refl.
    destruct (Z.eqb_spec q ch_backslash) as [->|_]; [done|]. done.
  - destruct (IH fuel rest d) as (fuel' & Hf' & E); [lia|]. exists fuel'. split; [done|]. simpl.
    by rewrite (proj2 (Z.eqb_neq c ch_backslash)), (proj2 (Z.eqb_neq c q)).
  - destruct (IH fuel rest d) as (fuel' & Hf' & E); [lia|]. by exists fuel'.
Qed.

Lemma closes_path s d d' : path d s d' → 0 < d → ∀ fuel rest, (length (s ++ rest) ≤ fuel)%nat →
  ∃ fuel', (length rest ≤ fuel')%nat ∧ closes_at_end fuel (s ++ rest) d None = closes_at_end fuel' rest d' None.
Proof.
  induction 1 as [d|c d s d' Hc H IH|d s d' H IH|d s d' Hd H IH|q body d s d' Hq Hb H IH]; intros Hpos fuel rest Hf.
  - by exists fuel.
  - destruct fuel as [|fuel]; simpl in Hf; [lia|]. destruct (IH Hpos fuel rest) as (fuel' & Hf' & E); [lia|].
    exists fuel'. split; [done|]. destruct (nested_bump c d Hc) as (Hq & _ & H40 & H41). simpl.
    rewrite Hq, (proj2 (Z.eqb_neq c 40)), (proj2 (Z.eqb_neq c 41)), (proj2 (Z.eqb_neq d 0)) by lia. done.
  - destruct fuel as [|fuel]; simpl in Hf; [lia|]. destruct (IH ltac:(lia) fuel rest) as (fuel' & Hf' & E); [lia|].
    exists fuel'. split; [done|]. simpl. rewrite (proj2 (Z.eqb_neq (d + 1) 0)) by lia. done.
  - destruct fuel as [|fuel]; simpl in Hf; [lia|]. destruct (IH Hd fuel rest) as (fuel' & Hf' & E); [lia|].
    exists fuel'. split; [done|]. simpl. replace (d + 1 - 1) with d by lia.
    rewrite (proj2 (Z.eqb_neq d 0)) by lia. done.
  - destruct fuel as [|fuel]; simpl in Hf; [lia|].
    destruct (closes_skip_string q body Hq Hb fuel (s ++ rest) d) as (f1 & Hf1 & E1); [rewrite <- app_assoc in Hf; simpl in *; lia|].
    destruct (IH Hpos f1 rest Hf1) as (f2 & Hf2 & E2). exists f2. split; [done|]. simpl. rewrite Hq, <- app_assoc.
    simpl. by rewrite E1.
Qed.

Lemma path_wrapped s : path 1 s 1 → wrapped (js "(" ++ s ++ js ")") = true.
Proof.
  intros H. unfold wrapped. replace (js "(" ++ s ++ js ")") with (40 :: s ++ [41]) by done.
  assert (ends_with (40 :: s ++ [41]) (js ")") = true) as ->.
  { change (40 :: s ++ [41]) with ((40 :: s) ++ js ")"). unfold ends_with. rewrite rev_app_distr. apply starts_with_app. }
  assert (starts_with (40 :: s ++ [41]) (js "(") = true) as -> by exact (starts_with_app (s ++ [41]) (js "(")).
  change (closes_at_end (length (s ++ [41])) (s ++ [41]) 1 None = true).
  destruct (closes_path s 1 1 H ltac:(lia) (length (s ++ [41])) [41]) as (fuel & Hf & E); [done|].
  rewrite E. by destruct fuel; simpl in *; [lia|].
Qed.

(** ** The splitter on a path *)
Section Scan.
Context (op : jsstring).
Hypothesis op_ne : op ≠ [].

(** The loop with enough fuel. *)
Definition scan (rest seg : jsstring) (d : Z) (q : option jschar) (parts : list jsstring) :=
  split_loop op (length rest) rest seg d q parts.

Lemma split_loop_fuel f1 : ∀ f2 rest seg d q parts, (length rest ≤ f1)%nat → (length rest ≤ f2)%nat →
  split_loop op f1 rest seg d q parts = split_loop op f2 rest seg d q parts.
Proof.
  assert (∀ (c : Z) rest fuel, (length (c :: rest) ≤ S fuel)%nat →
    (length (drop (length op) (c :: rest)) ≤ fuel)%nat) as Hd.
  { intros. rewrite length_drop. destruct op; simpl in *; [done|lia]. }
  induction f1 as [|f1 IH]; intros [|f2] [|c rest] seg d q parts H1 H2; try done; try (simpl in *; lia).
  cbn [split_loop]. simpl length in H1, H2.
  destruct q as [q|].
  - destruct (c =? ch_backslash); apply IH; rewrite ?length_drop; lia.
  - destruct (is_quote c); [apply IH; lia|]. destruct (negb _); [apply IH; lia|].
    destruct (c =? 63); [done|]. destruct (starts_with _ _); apply IH; try lia; by apply Hd; simpl; lia.
Qed.

Lemma scan_step c rest seg d parts : is_quote c = false → (bump_depth c d =? 0) = false ∨
    ((c =? 63) = false ∧ starts_with (c :: rest) op = false) →
  scan (c :: rest) seg d None parts = scan rest (seg ++ [c]) (bump_depth c d) None parts.
Proof.
  intros Hq H. unfold scan. cbn [length split_loop]. rewrite Hq.
  destruct H as [-> | [H1 H2]]; [done|]. rewrite H1, H2. by destruct (negb _).
Qed.

Lemma scan_op rest seg parts : (∀ c t, op = c :: t → is_quote c = false ∧ bump_depth c 0 = 0 ∧ (c =? 63) = false) →
  scan (op ++ rest) seg 0 None parts = scan rest [] 0 None (parts ++ [seg]).
Proof.
  intros Hop. assert (∃ c t, op = c :: t) as (c & t & E) by (destruct op; [done|by eexists _, _]).
  destruct (Hop c t E) as (H1 & H2 & H3).
  assert (op ++ rest = c :: t ++ rest) as Eq by (by rewrite E).
  assert (length rest ≤ length (t ++ rest))%nat by (rewrite length_app; lia).
  unfold scan. rewrite Eq. cbn [length split_loop]. rewrite H1, H2, H3. cbn [negb Z.eqb].
  rewrite <- Eq, starts_with_app, drop_app_length. by apply split_loop_fuel.
Qed.

(** [s] is consumed at depth [d] without a split. *)
Definition steps (d : Z) (s : jsstring) : Prop := ∀ rest seg parts,
  scan (s ++ rest) seg d None parts = scan rest (seg ++ s) d None parts.

Lemma steps_nil d : steps d [].
Proof. intros rest seg parts. by rewrite app_nil_r. Qed.

Lemma steps_app d s t : steps d s → steps d t → steps d (s ++ t).
Proof. intros Hs Ht rest seg parts. by rewrite <- app_assoc, Hs, Ht, <- app_assoc. Qed.

(** Characters that are neither quotes, brackets, question marks nor the start
    of the operator. *)
Definition inert (c : jschar) : bool :=
  negb (is_quote c) && negb (is_open c) && negb (is_close c) && negb (c =? 63)
  && match op with o :: _ => negb (o =? c) | [] => false end.

Lemma inert_facts c : inert c = true → is_quote c = false ∧ (∀ d, bump_depth c d = d) ∧ (c =? 63) = false
  ∧ ∀ rest, starts_with (c :: rest) op = false.
Proof.
  unfold inert. intros [[[[H1 H2]%andb_prop H3]%andb_prop H4]%andb_prop H5]%andb_prop.
  apply negb_true_iff in H1, H2, H3, H4. split_and!; [done| |done|].
  - intros d. unfold bump_depth. by rewrite H2, H3.
  - intros rest. destruct op as [|o t]; [done|]. apply negb_true_iff in H5. simpl. by rewrite H5.
Qed.

Lemma steps_inert d s : forallb inert s = true → steps d s.
Proof.
  induction s as [|c s IH]; intros H; [apply steps_nil|]. simpl in H. apply andb_prop in H as [Hc Hs].
  destruct (inert_facts c Hc) as (H1 & H2 & H3 & H4).
  change (c :: s) with ([c] ++ s). apply steps_app; [|by apply IH]. intros rest seg parts. simpl.
  rewrite scan_step by auto. by rewrite H2.
Qed.

Lemma scan_string_body q body d : is_quote q = true → quoted q body → ∀ rest seg parts,
  scan (body ++ q :: rest) seg d (Some q) parts = scan rest (seg ++ body ++ [q]) d None parts.
Proof.
  intros Hq. induction 1 as [|c s Hc Hb H IH|c s H IH]; intros rest seg parts; simpl app.
  - unfold scan. cbn [length split_loop]. rewrite Z.eqb_refl.
    by destruct (Z.eqb_spec q ch_backslash) as [->|_].
  - unfold scan. cbn [length split_loop].
    rewrite (proj2 (Z.eqb_neq c ch_backslash)), (proj2 (Z.eqb_neq c q)) by done.
    etransitivity; [exact (IH rest (seg ++ [c]) parts)|]. by rewrite <- app_assoc.
  - transitivity (split_loop op (S (length (s ++ q :: rest))) (s ++ q :: rest) (seg ++ [ch_backslash; c]) d (Some q) parts);
      [done|]. rewrite (split_loop_fuel _ (length (s ++ q :: rest))) by lia.
    etransitivity; [exact (IH rest (seg ++ [ch_backslash; c]) parts)|]. by rewrite <- app_assoc.
Qed.

Lemma scan_path d s d' : path d s d' → 0 < d → ∀ rest seg parts,
  scan (s ++ rest) seg d None parts = scan rest (seg ++ s) d' None parts.
Proof.
  induction 1 as [d|c d s d' Hc H IH|d s d' H IH|d s d' Hd H IH|q body d s d' Hq Hb H IH]; intros Hpos rest seg parts;
    [by rewrite app_nil_r|..]; simpl app.
  - destruct (nested_bump c d Hc) as (Hq & Hd & _).
    rewrite scan_step, Hd, IH, <- app_assoc; [done|done|done|]. left. rewrite Hd. apply Z.eqb_neq. lia.
  - rewrite scan_step; [|done|left; apply Z.eqb_neq; change (d + 1 ≠ 0); lia].
    change (bump_depth 40 d) with (d + 1). rewrite IH, <- app_assoc; [done|lia].
  - assert (bump_depth 41 (d + 1) = d) as Hb by (unfold bump_depth; simpl; lia).
    rewrite scan_step; [|done|left; rewrite Hb; apply Z.eqb_neq; lia]. rewrite Hb, IH, <- app_assoc; done.
  - rewrite <- app_assoc. transitivity (scan (body ++ q :: s ++ rest) (seg ++ [q]) d (Some q) parts).
    + unfold scan. cbn [length split_loop app]. by rewrite Hq.
    + rewrite scan_string_body, IH by done. by rewrite <- !app_assoc.
Qed.

(** A path in parentheses is one step at the top level. *)
Lemma steps_parens s : (∀ rest, starts_with (41 :: rest) op = false) → path 1 s 1 → steps 0 (js "(" ++ s ++ js ")").
Proof.
  intros Hop Hs rest seg parts. change (js "(" ++ s ++ js ")") with (40 :: s ++ [41]). simpl app.
  rewrite scan_step; [|done|by left].
  change (bump_depth 40 0) with 1. rewrite <- app_assoc, (scan_path _ _ _ Hs) by done. simpl app.
  rewrite scan_step; [|done|right; by split].
  change (bump_depth 41 1) with 0. by rewrite <- !app_assoc.
Qed.
End Scan.

(** ** Splitting what was joined *)
Definition solid (op s : jsstring) : Prop := steps op 0 s ∧ trim s = s ∧ s ≠ [].

Section Joined.
Context (op : jsstring).
Hypothesis op_ne : op ≠ [].
Hypothesis op_plain : ∀ c t, op = c :: t → is_quote c = false ∧ bump_depth c 0 = 0 ∧ (c =? 63) = false ∧ (c =? 32) = false.

Lemma steps_blank d : steps op d [32].
Proof.
  apply steps_inert; [done|]. simpl. unfold inert. destruct op as [|c t]; [done|].
  destruct (op_plain c t eq_refl) as (_ & _ & _ & H). simpl. by rewrite H.
Qed.

Lemma trim_blank_left s : trim (32 :: s) = trim s.
Proof. done. Qed.

Lemma trim_blank_right s : trim s = s → trim (s ++ [32]) = s.
Proof.
  intros H. destruct s as [|c s]; [done|].
  assert (is_space c = false) as Hc.
  { destruct (trim_split (c :: s)) as (a & b & _). apply (trim_start_head (c :: s) c s). rewrite <- H. apply trim_start_trim. }
  unfold trim in *. rewrite <- app_comm_cons, (trim_start_id (c :: s ++ [32]) c (s ++ [32])) by done.
  rewrite (trim_start_id (c :: s) c s) in H by done.
  unfold trim_end in *. rewrite app_comm_cons, rev_app_distr. exact H.
Qed.

(** The untrimmed parts of a joined text. *)
Fixpoint padded (parts : list jsstring) : list jsstring :=
  match parts with
  | [] => []
  | [p] => [p]
  | p :: rest => (p ++ [32]) :: match padded rest with q :: qs => (32 :: q) :: qs | [] => [] end
  end.

Lemma scan_joined parts : Forall (solid op) parts → parts ≠ [] → ∀ seg acc,
  scan op (join ([32] ++ op ++ [32]) parts) seg 0 None acc
  = Ok (Some (acc ++ match padded parts with q :: qs => (seg ++ q) :: qs | [] => [] end)).
Proof.
  induction parts as [|p [|p' rest] IH]; intros Hp Hne seg acc; [done| |].
  - apply Forall_cons in Hp as [(Hs & _) _]. simpl. specialize (Hs [] seg acc). rewrite app_nil_r in Hs.
    by rewrite Hs.
  - apply Forall_cons in Hp as [(Hs & _) Hrest].
    change (join ([32] ++ op ++ [32]) (p :: p' :: rest))
      with (p ++ ([32] ++ op ++ [32]) ++ join ([32] ++ op ++ [32]) (p' :: rest)).
    rewrite Hs, <- !app_assoc, steps_blank, scan_op, steps_blank; [|done|].
    + rewrite IH by done. change (padded (p :: p' :: rest))
        with ((p ++ [32]) :: match padded (p' :: rest) with q :: qs => (32 :: q) :: qs | [] => [] end).
      destruct (padded (p' :: rest)) as [|q qs] eqn:E; [by destruct rest|].
      by rewrite <- !app_assoc.
    + intros c t E. destruct (op_plain c t E) as (? & ? & ? & _). done.
Qed.

Lemma trim_padded parts : Forall (solid op) parts →
  map trim (padded parts) = parts.
Proof.
  induction parts as [|p [|p' rest] IH]; intros Hp; [done| |].
  - apply Forall_cons in Hp as [(_ & H & _) _]. simpl. by rewrite H.
  - apply Forall_cons in Hp as [(_ & H & _) Hrest]. specialize (IH Hrest).
    change (padded (p :: p' :: rest))
      with ((p ++ [32]) :: match padded (p' :: rest) with q :: qs => (32 :: q) :: qs | [] => [] end).
    destruct (padded (p' :: rest)) as [|q qs]; [done|]. cbn [map] in *.
    by rewrite trim_blank_right, trim_blank_left, IH.
Qed.

Lemma split_joined parts : Forall (solid op) parts → parts ≠ [] →
  splitExpressionAtTopLevel (join ([32] ++ op ++ [32]) parts) op = Ok parts.
Proof.
  intros Hp Hne. unfold splitExpressionAtTopLevel. pose proof (scan_joined parts Hp Hne [] []) as Hs.
  unfold scan in Hs. rewrite Hs. cbn [mbind]. simpl.
  replace (match padded parts with [] => [] | q :: qs => q :: qs end) with (padded parts) by (by destruct (padded parts)).
  rewrite trim_padded by done. f_equal. clear Hs Hne. induction Hp as [|p ps (_ & _ & H) Hp IH]; [done|].
  cbn [List.filter]. rewrite IH. by destruct p.
Qed.
End Joined.

(** ** One unit *)
Lemma trimmed_ends s : trim s = s → s ≠ [] → is_space (hd 0 s) = false ∧ is_space (List.last s 0) = false.
Proof.
  intros Ht Hne. split.
  - destruct s as [|c s]; [done|]. apply (trim_start_head (c :: s) c s). rewrite <- Ht. apply trim_start_trim.
  - destruct (exists_last Hne) as (t & e & ->). rewrite last_last. destruct (is_space e) eqn:E; [|done].
    assert (trim_end (t ++ [e]) = t ++ [e]) as H
      by (transitivity (trim_end (trim (t ++ [e]))); [by rewrite Ht|etransitivity; [apply trim_end_idemp|exact Ht]]).
    apply (f_equal length) in H. unfold trim_end in H. rewrite rev_app_distr in H. simpl in H. rewrite E in H.
    destruct (trim_start_suffix (rev t)) as [n Hn]. rewrite Hn, length_rev, length_drop, length_rev, length_app in H.
    simpl in H. lia.
Qed.

Lemma trimmed_app s m t : trim s = s → s ≠ [] → trim t = t → t ≠ [] → trim (s ++ m ++ t) = s ++ m ++ t.
Proof.
  intros Hs Hs' Ht Ht'. destruct (trimmed_ends s Hs Hs') as [Hc _]. destruct (trimmed_ends t Ht Ht') as [_ He].
  destruct s as [|c s]; [done|]. destruct (exists_last Ht') as (t' & e & ->). rewrite last_last in He.
  replace ((c :: s) ++ m ++ t' ++ [e]) with (c :: (s ++ m ++ t') ++ [e]) by (simpl; by rewrite <- !app_assoc).
  by apply trim_ends.
Qed.

Lemma trimmed_join sep parts : Forall (λ p, trim p = p ∧ p ≠ []) parts → parts ≠ [] →
  trim (join sep parts) = join sep parts ∧ join sep parts ≠ [].
Proof.
  induction parts as [|p [|p' rest] IH]; intros Hp Hne; [done| |].
  - by apply Forall_cons in Hp as [H _].
  - apply Forall_cons in Hp as [[H1 H2] Hrest]. destruct (IH Hrest ltac:(done)) as [H3 H4].
    change (join sep (p :: p' :: rest)) with (p ++ sep ++ join sep (p' :: rest)).
    split; [by apply trimmed_app|]. by destruct p.
Qed.

Lemma parens_solid op s : op ≠ [] → (∀ rest, starts_with (41 :: rest) op = false) → path 1 s 1 →
  solid op (js "(" ++ s ++ js ")").
Proof. intros Hne Hop H. split_and!; [by apply steps_parens|by apply trim_ends|done]. Qed.

Lemma split_solid op s : op ≠ [] → solid op s → splitExpressionAtTopLevel s op = Ok [s].
Proof.
  intros Hne (Hs & Ht & Hn). unfold splitExpressionAtTopLevel. specialize (Hs [] [] []).
  unfold scan in Hs. rewrite app_nil_r in Hs. rewrite Hs. simpl. rewrite Ht. by destruct s.
Qed.

Lemma peels_unique s r1 r2 : peels s r1 → peels s r2 → r1 = r2.
Proof.
  intros H. revert r2. induction H as [s Hw|s r Hw H IH]; intros r2 H2; inversion H2; subst; try congruence. by apply IH.
Qed.

Lemma strip_parens s : strip_ends (js "(" ++ s ++ js ")") = s.
Proof.
  unfold strip_ends, slice. simpl. rewrite length_app. simpl.
  replace (length s + 1 - 0 - 1)%nat with (length s) by lia. rewrite ?Nat.sub_0_r, ?Nat.add_sub. apply take_app_length.
Qed.

Lemma unwrap_parens s : path 1 s 1 → unwrapExpressionParens (js "(" ++ s ++ js ")") = unwrapExpressionParens s.
Proof.
  intros H. unfold unwrapExpressionParens at 1.
  assert (trim (js "(" ++ s ++ js ")") = js "(" ++ s ++ js ")") as -> by (by apply trim_ends).
  pose proof (unwrap_loop_peels _ (js "(" ++ s ++ js ")") (le_n _)) as H1.
  inversion H1 as [? Hw|? ? Hw H2]; subst; [by rewrite path_wrapped in Hw|].
  rewrite strip_parens in H2. eapply peels_unique; [exact H2|]. by apply unwrap_loop_peels.
Qed.

(** ** Properties *)

(** C11: an expression that parses, put in parentheses, is one unit of text: the
    splitter does not look inside it, whatever strings and operators it
    contains, and the unwrapper takes exactly those parentheses off. *)
Theorem parsed_text_is_one_unit source node operator : parse source = Ok node →
  operator ≠ [] → (∀ rest, starts_with (41 :: rest) operator = false) →
  splitExpressionAtTopLevel (js "(" ++ source ++ js ")") operator = Ok [js "(" ++ source ++ js ")"]
  ∧ unwrapExpressionParens (js "(" ++ source ++ js ")") = unwrapExpressionParens source.
Proof.
  intros Hp Hne Hop. pose proof (parse_path _ _ Hp 1 ltac:(lia)) as H.
  split; [|by apply unwrap_parens]. apply split_solid; [done|]. by apply parens_solid.
Qed.

Lemma parsed_text_is_one_unit_witness :
  ∃ node, parse (js "p * 2 > 3 ? has('a)*(', 'b\'c') : (c) * 2") = Ok node
  ∧ splitExpressionAtTopLevel (js "(" ++ js "p * 2 > 3 ? has('a)*(', 'b\'c') : (c) * 2" ++ js ")") (js "*")
    = Ok [js "(" ++ js "p * 2 > 3 ? has('a)*(', 'b\'c') : (c) * 2" ++ js ")"].
Proof.
  destruct (parse (js "p * 2 > 3 ? has('a)*(', 'b\'c') : (c) * 2")) as [n|e|] eqn:E;
    [|vm_compute in E; discriminate E|vm_compute in E; discriminate E].
  exists n. split; [reflexivity|].
  apply (parsed_text_is_one_unit (js "p * 2 > 3 ? has('a)*(', 'b\'c') : (c) * 2") n (js "*") E); [discriminate|].
  intros rest. reflexivity.
Defined.
