(* ===== verification/Display.v ===== *)
(** * Price summaries (billing-expression/display.ts)

    The readers that recognise, in a compiled expression, an ordered chain of
    priced tiers: token tiers ([readTokenTierChain]), time-dependent token tiers
    ([readTimeTokenPricing]) and task tiers over a usage schema
    ([readTaskTierChain]).  A reader answers [None] for JavaScript's [null].
    A missing argument of a call is the code's read of [undefined]; the trees of
    the parser never have one. *)
From S2P Require Import Prelude JsString JsNumber JsValue Host BillingTypes Parser Compile Runtime.
Local Open Scope Z_scope.

Record TokenTierCondition := mkTierCondition {
  tc_var : TokenVariable;
  tc_op : jsstring;
  tc_value : number;
}.

Record TokenTier := mkTokenTier {
  tt_conditionText : option jsstring;
  tt_imageCount : bool;
  tt_billingUnit : option BillingUnit;
  tt_fixedPrice : option number;
  tt_label : jsstring;
  tt_conditions : list TokenTierCondition;
  tt_prices : list (TokenVariable * number);
}.

(** [{ ...tier, conditionText }], [{ ...tier, imageCount: true }] *)
Definition with_conditionText (text : jsstring) (t : TokenTier) : TokenTier :=
  mkTokenTier (Some text) (tt_imageCount t) (tt_billingUnit t) (tt_fixedPrice t) (tt_label t)
    (tt_conditions t) (tt_prices t).
Definition with_imageCount (t : TokenTier) : TokenTier :=
  mkTokenTier (tt_conditionText t) true (tt_billingUnit t) (tt_fixedPrice t) (tt_label t)
    (tt_conditions t) (tt_prices t).

Record TimeTokenTier := mkTimeTier {
  ti_tier : TokenTier;
  ti_timeConditions : list (ExpressionNode * bool);
}.

Fixpoint flattenBinary (node : ExpressionNode) (operator : jsstring) : list ExpressionNode :=
  match node with
  | binary op l r _ =>
      if str_eqb op operator then flattenBinary l operator ++ flattenBinary r operator else [node]
  | _ => [node]
  end.

(** ** Token tiers *)
Definition is_order (op : jsstring) : bool := str_in op [js "<"; js "<="; js ">"; js ">="].
Definition is_tier_variable (v : TokenVariable) : bool :=
  match v with var_p | var_c | var_len => true | _ => false end.

(** One conjunct of [tokenConditions]. *)
Definition token_condition (part : ExpressionNode) : option TokenTierCondition :=
  match part with
  | binary op (variable (token_variable v) _) (literal (lit_number x) _ _) _ =>
      if is_order op && is_tier_variable v && negb (is_negative x)
      then Some (mkTierCondition v op x) else None
  | _ => None
  end.

Definition tokenConditions (node : ExpressionNode) : option (list TokenTierCondition) :=
  mapM token_condition (flattenBinary node (js "&&")).

(** [node.kind === 'literal' && node.value === 0] *)
Definition is_zero_literal (node : ExpressionNode) : bool :=
  match node with literal (lit_number x) _ _ => num_eqb x num_zero | _ => false end.

Definition nonnegativePriceLiteral (node : ExpressionNode) : option number :=
  match node with
  | literal (lit_number x) _ _ => if num_leb num_zero x then Some x else None
  | unary op operand _ =>
      if str_eqb op (js "-") && is_zero_literal operand then Some (num_opp num_zero) else None
  | _ => None
  end.

(** The variable a priced input stands for: a token variable other than [len],
    or [max(0, len - ai)] in either argument order, which stands for [p]. *)
Definition remainder_variable (remainder : ExpressionNode) : option TokenVariable :=
  match remainder with
  | binary op (variable (token_variable var_len) _) (variable (token_variable var_ai) _) _ =>
      if str_eqb op (js "-") then Some var_p else None
  | _ => None
  end.

Definition input_variable (input : ExpressionNode) : option TokenVariable :=
  match input with
  | variable (token_variable v) _ => if decide (v = var_len) then None else Some v
  | call name [a; b] _ =>
      if str_eqb name (js "max") then
        if is_zero_literal a then remainder_variable b
        else if is_zero_literal b then remainder_variable a else None
      else None
  | _ => None
  end.

(** One term of a tier body: the input and its price, in either order. *)
Definition price_term (term : ExpressionNode) : option (TokenVariable * number) :=
  match term with
  | binary op l r _ =>
      if str_eqb op (js "*") then
        match nonnegativePriceLiteral r with
        | Some price => v ← input_variable l; Some (v, price)
        | None =>
            price ← nonnegativePriceLiteral l;
            v ← input_variable r; Some (v, price)
        end
      else None
  | _ => None
  end.

Fixpoint token_prices (terms : list ExpressionNode) (prices : list (TokenVariable * number))
    : option (list (TokenVariable * number)) :=
  match terms with
  | [] => Some prices
  | term :: terms' =>
      '(v, price) ← price_term term;
      if bool_decide (v ∈ prices.*1) then None else token_prices terms' (prices ++ [(v, price)])
  end.

Section WithHost.
Context {host : Host}.

(** [body.kind === 'call' && body.name === 'fixed' && body.args[0].kind ===
    'literal' && typeof body.args[0].value === 'number'], with the amount. *)
Definition fixed_literal (body : ExpressionNode) : result (option number) :=
  match body with
  | call name args _ =>
      if str_eqb name (js "fixed") then
        match args with
        | [] => undefined_read "kind"
        | literal (lit_number x) _ _ :: _ => Ok (Some x)
        | _ :: _ => Ok None
        end
      else Ok None
  | _ => Ok None
  end.

Definition tokenTier (node : ExpressionNode) (conditions : list TokenTierCondition)
    : result (option TokenTier) :=
  match node with
  | call name (literal (lit_string label) _ _ :: rest) _ =>
      if str_eqb name (js "tier") then
        match rest with
        | [] => undefined_read "kind"
        | body :: _ =>
            amount ← fixed_literal body;
            match amount with
            | Some x => Ok (Some (mkTokenTier None false (Some unit_request) (Some x) label conditions []))
            | None =>
                Ok (match token_prices (flattenBinary body (js "+")) [] with
                    | Some ((_ :: _) as prices) =>
                        Some (mkTokenTier None false None None label conditions prices)
                    | _ => None
                    end)
            end
        end
      else Ok None
  | _ => Ok None
  end.

(** The [while] loop of [readTokenTierChain], after the accumulated tiers. *)
Fixpoint tier_chain (remaining : ExpressionNode) : result (option (list TokenTier)) :=
  match remaining with
  | conditional c yes no _ =>
      match tokenConditions c with
      | None => Ok None
      | Some conditions =>
          tier ← tokenTier yes conditions;
          match tier with
          | None => Ok None
          | Some t => tiers ← tier_chain no; Ok (option_map (cons t) tiers)
          end
      end
  | _ => tier ← tokenTier remaining []; Ok (option_map (λ t, [t]) tier)
  end.

(** [part.left.name] for [ai > 0] and [ao > 0] *)
Definition audio_input (part : ExpressionNode) : option TokenVariable :=
  match part with
  | binary op (variable (token_variable v) _) (literal (lit_number x) _ _) _ =>
      if str_eqb op (js ">") && num_eqb x num_zero
      then match v with var_ai | var_ao => Some v | _ => None end
      else None
  | _ => None
  end.

(** [present.size === 2] *)
Definition audio_pair (a b : ExpressionNode) : bool :=
  match audio_input a, audio_input b with
  | Some v, Some w => negb (bool_decide (v = w))
  | _, _ => false
  end.

Definition audio_tiers (node : ExpressionNode) : result (option (list TokenTier)) :=
  match node with
  | conditional (binary op a b _) yes no _ =>
      if str_eqb op (js "||") && audio_pair a b then
        audio ← tokenTier yes [];
        text ← tokenTier no [];
        Ok (match audio, text with
            | Some x, Some y => Some [with_conditionText (js "Audio requests") x;
                                      with_conditionText (js "Text-only requests") y]
            | _, _ => None
            end)
      else Ok None
  | _ => Ok None
  end.

Definition is_image_count (node : ExpressionNode) : bool :=
  match node with variable image_count _ => true | _ => false end.

Fixpoint readTokenTierChain (node : ExpressionNode) : result (option (list TokenTier)) :=
  audio ← audio_tiers node;
  match audio with
  | Some tiers => Ok (Some tiers)
  | None =>
      match node with
      | binary op l r _ =>
          if str_eqb op (js "*") && is_image_count l
          then tiers ← readTokenTierChain r; Ok (option_map (map with_imageCount) tiers)
          else if str_eqb op (js "*") && is_image_count r
          then tiers ← readTokenTierChain l; Ok (option_map (map with_imageCount) tiers)
          else tier_chain node
      | _ => tier_chain node
      end
  end.

(** ** Time-dependent tiers *)
Definition TIME_CONDITION_FUNCTIONS : list jsstring :=
  map time_function_name TIME_FUNCTIONS ++ [js "min"; js "max"; js "abs"; js "ceil"; js "floor"].

Definition isTimeCondition (node : ExpressionNode) : result bool :=
  dependencies ← expressionDependencies node;
  Ok (match dep_variables dependencies with [] => true | _ => false end
      && existsb is_time_function (dep_functions dependencies)
      && forallb (λ name, str_in name TIME_CONDITION_FUNCTIONS) (dep_functions dependencies)).

Definition condition_text (condition : TokenTierCondition) : jsstring :=
  token_variable_name (tc_var condition) ++ js " " ++ tc_op condition ++ js " "
  ++ String_of_number (tc_value condition).

(** The text of a path of time conditions. *)
Definition time_description (source : jsstring) (path : list (ExpressionNode * bool)) : jsstring :=
  join (js " && ")
    (map (λ '(condition, matches),
            let text := slice source (node_start condition) (node_end condition) in
            if matches : bool then js "(" ++ text ++ js ")" else js "!(" ++ text ++ js ")") path).

Definition time_tier (source : jsstring) (path : list (ExpressionNode * bool)) (tier : TokenTier)
    : TimeTokenTier :=
  mkTimeTier
    (with_conditionText
       (join (js " && ") (time_description source path :: map condition_text (tt_conditions tier))) tier)
    path.

(** The leaf of [timeTierBranches]. *)
Definition time_leaf (source : jsstring) (node : ExpressionNode) (path : list (ExpressionNode * bool))
    : result (option (list TimeTokenTier)) :=
  tiers ← readTokenTierChain node;
  Ok (match tiers, path with
      | Some tiers, _ :: _ => Some (map (time_tier source path) tiers)
      | _, _ => None
      end).

Fixpoint timeTierBranches (source : jsstring) (node : ExpressionNode)
    (path : list (ExpressionNode * bool)) : result (option (list TimeTokenTier)) :=
  match node with
  | conditional c yes no _ =>
      timed ← isTimeCondition c;
      if (timed : bool) then
        y ← timeTierBranches source yes (path ++ [(c, true)]);
        n ← timeTierBranches source no (path ++ [(c, false)]);
        Ok (match y, n with Some y, Some n => Some (y ++ n) | _, _ => None end)
      else time_leaf source node path
  | _ => time_leaf source node path
  end.

Record TimePricing := mkTimePricing {
  tp_tiers : list TimeTokenTier;
  tp_currentTiers : list TimeTokenTier;
}.

(** [timeConditions.every(({condition, matches}) => evaluateBillingCondition(...) === matches)] *)
Definition time_tier_current (compiled : CompiledBillingExpression) (now : Date) (tier : TimeTokenTier)
    : bool :=
  forallb (λ '(condition, matches),
             bool_decide (evaluateBillingCondition compiled condition now = Some matches))
    (ti_timeConditions tier).

Definition readTimeTokenPricing (source : jsstring) (now : option Date) : result (option TimePricing) :=
  match compile source with
  | failed _ => Ok None
  | ready compiled =>
      tiers ← timeTierBranches (cp_source compiled) (cp_ast compiled) [];
      Ok (match tiers with
          | None => None
          | Some tiers =>
              Some (mkTimePricing tiers
                      (match now with
                       | Some date => List.filter (time_tier_current compiled date) tiers
                       | None => []
                       end))
          end)
  end.

(** ** Task tiers *)
Inductive UsageType := usage_number | usage_boolean.
Inductive BillingUsageUnit := unit_second | unit_count | unit_token_usage | unit_credit.

(** The fields of a usage schema entry the readers look at. *)
Record BillingUsageFieldSchema := mkUsageField {
  uf_type : option UsageType;
  uf_unit : option BillingUsageUnit;
  uf_enum : option (list jsstring);
}.

Definition BillingUsageSchema := list (jsstring * BillingUsageFieldSchema).

Record TaskTier := mkTaskTier {
  tk_label : jsstring;
  tk_conditions : list (jsstring * jsstring);
  tk_constant : number;
  tk_unitPrices : list (jsstring * number);
}.

(** [term.left.kind === 'call' && term.left.name === 'u' &&
    term.left.args[0].kind === 'literal' && typeof term.left.args[0].value === 'string'] *)
Definition usage_field (node : ExpressionNode) : result (option jsstring) :=
  match node with
  | call name args _ =>
      if str_eqb name (js "u") then
        match args with
        | [] => undefined_read "kind"
        | literal (lit_string field) _ _ :: _ => Ok (Some field)
        | _ :: _ => Ok None
        end
      else Ok None
  | _ => Ok None
  end.

Definition string_of_bool (b : bool) : jsstring := if b then js "true" else js "false".

(** One conjunct of [taskConditions]. *)
Definition task_condition (schema : BillingUsageSchema) (includeBoolean : bool) (term : ExpressionNode)
    : result (option (jsstring * jsstring)) :=
  match term with
  | binary op l r _ =>
      if str_eqb op (js "==") then
        field ← usage_field l;
        Ok (match field, r with
            | Some field, literal value _ _ =>
                let definition := own_property field schema in
                match definition ≫= uf_type, value with
                | Some usage_boolean, lit_bool b =>
                    if includeBoolean then Some (field, string_of_bool b) else None
                | Some usage_boolean, _ => None
                | _, lit_string s =>
                    if str_in s (default [] (definition ≫= uf_enum)) then Some (field, s) else None
                | _, _ => None
                end
            | _, _ => None
            end)
      else Ok None
  | _ => Ok None
  end.

Fixpoint task_conditions (schema : BillingUsageSchema) (includeBoolean : bool)
    (terms : list ExpressionNode) : result (option (list (jsstring * jsstring))) :=
  match terms with
  | [] => Ok (Some [])
  | term :: terms' =>
      c ← task_condition schema includeBoolean term;
      match c with
      | None => Ok None
      | Some c => cs ← task_conditions schema includeBoolean terms'; Ok (option_map (cons c) cs)
      end
  end.

Definition taskConditions (node : ExpressionNode) (schema : BillingUsageSchema) (includeBoolean : bool)
    : result (option (list (jsstring * jsstring))) :=
  task_conditions schema includeBoolean (flattenBinary node (js "&&")).

(** [u(field) * price], with [/ 1000000] for token units. *)
Definition unit_price (schema : BillingUsageSchema) (scaled : bool) (term : ExpressionNode)
    : result (option (jsstring * number)) :=
  match term with
  | binary op l r _ =>
      if str_eqb op (js "*") then
        field ← usage_field l;
        Ok (match field, nonnegativePriceLiteral r with
            | Some field, Some price =>
                match own_property field schema with
                | Some (mkUsageField (Some usage_number) (Some u) _) =>
                    if eqb (match u with unit_token_usage => true | _ => false end) scaled
                    then Some (field, price) else None
                | _ => None
                end
            | _, _ => None
            end)
      else Ok None
  | _ => Ok None
  end.

(** A term that is not a constant. *)
Definition scaled_unit_price (schema : BillingUsageSchema) (term : ExpressionNode)
    : result (option (jsstring * number)) :=
  match term with
  | binary op l r _ =>
      if str_eqb op (js "/") then
        match r with
        | literal (lit_number x) _ _ =>
            if num_eqb x million then unit_price schema true l else Ok None
        | _ => Ok None
        end
      else unit_price schema false term
  | _ => unit_price schema false term
  end.

Fixpoint task_terms (schema : BillingUsageSchema) (terms : list ExpressionNode)
    (constant : option number) (unitPrices : list (jsstring * number))
    : result (option (number * list (jsstring * number))) :=
  match terms with
  | [] => Ok (Some (default num_zero constant, unitPrices))
  | term :: terms' =>
      match nonnegativePriceLiteral term with
      | Some x =>
          match constant with
          | Some _ => Ok None
          | None => task_terms schema terms' (Some x) unitPrices
          end
      | None =>
          p ← scaled_unit_price schema term;
          match p with
          | None => Ok None
          | Some (field, price) =>
              if str_in field unitPrices.*1 then Ok None
              else task_terms schema terms' constant (unitPrices ++ [(field, price)])
          end
      end
  end.

Definition taskTier (node : ExpressionNode) (conditions : list (jsstring * jsstring))
    (schema : BillingUsageSchema) : result (option TaskTier) :=
  match node with
  | call name args _ =>
      if str_eqb name (js "tier") then
        match args with
        | [] => undefined_read "kind"
        | literal (lit_string label) _ _ :: rest =>
            match rest with
            | [] => undefined_read "kind"
            | body :: _ =>
                r ← task_terms schema (flattenBinary body (js "+")) None [];
                Ok (match r with
                    | Some (constant, (_ :: _) as unitPrices) =>
                        Some (mkTaskTier label conditions constant unitPrices)
                    | _ => None
                    end)
            end
        | _ :: _ => Ok None
        end
      else Ok None
  | _ => Ok None
  end.

Fixpoint readTaskTierChain (node : ExpressionNode) (schema : BillingUsageSchema) (includeBoolean : bool)
    : result (option (list TaskTier)) :=
  match node with
  | conditional c yes no _ =>
      conditions ← taskConditions c schema includeBoolean;
      match conditions with
      | None => Ok None
      | Some conditions =>
          tier ← taskTier yes conditions schema;
          match tier with
          | None => Ok None
          | Some t => tiers ← readTaskTierChain no schema includeBoolean; Ok (option_map (cons t) tiers)
          end
      end
  | _ => tier ← taskTier node [] schema; Ok (option_map (λ t, [t]) tier)
  end.
End WithHost.
