(* ===== verification/DisplayFacts.v ===== *)
(** * What a price summary promises

    The rows a reader shows are the rows the interpreter charges: whenever the
    expression evaluates, the matched tier is the first row whose conditions
    hold, with the row's unit, fixed price and prices; the rows shown as current
    at an instant contain the one that is charged at that instant. *)
From S2P Require Import Prelude JsString JsNumber JsValue Host BillingTypes Parser ParserFacts Compile CompileFacts Runtime RuntimeFacts Display.
Local Open Scope Z_scope.

Section WithHost.
Context {host : Host}.
Section Charged.
Context (compiled : CompiledBillingExpression) (context : BillingSimulationContext).
Context (now : option Z) (headers : list (jsstring * jsstring)).

Abbreviation ev := (evaluate compiled context now headers).

(** Whether a displayed condition holds for the token counts of the context. *)
Definition condition_holds (c : TokenTierCondition) : bool :=
  match ctx_tokens context ≫= own_property (token_variable_name (tc_var c)) with
  | Some count => default false (compare_values (tc_op c) count (JNumber (tc_value c)))
  | None => false
  end.

Lemma boolean_inv depth n st b st' : boolean_ (ev depth) n st = Ok (b, st') →
  ∃ v, ev depth n st = Ok (v, st') ∧ rv_value v = JBool b.
Proof.
  unfold boolean_, to_boolean. intros H. inv_ok.
  destruct (rv_value x) eqn:E; try done. inv_ok. eauto.
Qed.

Lemma eval_literal_inv depth lv i sp st v st' :
  ev depth (literal lv i sp) st = Ok (v, st') → v = mkValue (literal_jsval lv) i ∧ st' = st.
Proof. intros [H _]%evaluate_inv. cbn [evaluateNode] in H. by inv_ok. Qed.

Lemma eval_token_inv depth x sp st v st' :
  ev depth (variable (token_variable x) sp) st = Ok (v, st') →
  st' = st ∧ ∃ y, v = plain (JNumber y) ∧
    ctx_tokens context ≫= own_property (token_variable_name x) = Some (JNumber y).
Proof.
  intros [H _]%evaluate_inv. cbn [evaluateNode] in H. unfold eval_variable in H.
  destruct (ctx_tokens context ≫= _) as [[]|]; simpl in H; try done.
  destruct (is_negative x0); [done|]. inv_ok. eauto.
Qed.

Lemma order_cases op : is_order op = true →
  op = js "<" ∨ op = js "<=" ∨ op = js ">" ∨ op = js ">=".
Proof. unfold is_order. rewrite str_in_In. simpl. intuition. Qed.

Lemma binary_values_order op start l r x y (st : RState) : is_order op = true →
  rv_value l = JNumber x → rv_value r = JNumber y →
  ∃ b, compare_values op (JNumber x) (JNumber y) = Some b
       ∧ binary_values op start l r st = Ok (plain (JBool b), st).
Proof.
  intros Ho Hl Hr. unfold binary_values. rewrite Hl, Hr.
  apply order_cases in Ho as [ -> | [ -> | [ -> | -> ] ] ]; eexists; split; reflexivity.
Qed.

Lemma token_condition_eval depth n c st v st' :
  token_condition n = Some c → ev depth n st = Ok (v, st') →
  st' = st ∧ rv_value v = JBool (condition_holds c).
Proof.
  intros Hc H. destruct n as [| | | |op l r sp|]; try done. simpl in Hc.
  destruct l as [|[x|]| | | |]; try done. destruct r as [[| |y|]| | | | |]; try done.
  destruct (is_order op) eqn:Eo; [|done]. destruct (_ && _) eqn:Eb; [|done]. injection Hc as <-.
  apply evaluate_inv in H as [H _]. cbn [evaluateNode] in H. unfold eval_binary in H.
  destruct (str_eqb op (js "&&")) eqn:E1; [apply str_eqb_eq in E1; by subst|].
  destruct (str_eqb op (js "||")) eqn:E2; [apply str_eqb_eq in E2; by subst|].
  inv_ok. apply eval_token_inv in Hx as (-> & z & -> & Hz). apply eval_literal_inv in Hx0 as [-> ->].
  unfold condition_holds. simpl. rewrite Hz.
  destruct (binary_values_order op (sp_start sp) (plain (JNumber z)) (mkValue (JNumber y) integer)
              z y st Eo eq_refl eq_refl) as (b & Hb & Hv).
  simpl in H. rewrite Hv in H. inv_ok. by rewrite Hb.
Qed.

Lemma mapM_app_Some {A B} (f : A → option B) l1 l2 k :
  mapM f (l1 ++ l2) = Some k → ∃ k1 k2, k = k1 ++ k2 ∧ mapM f l1 = Some k1 ∧ mapM f l2 = Some k2.
Proof.
  revert k; induction l1 as [|x l1 IH]; intros k H; simpl in *; [by exists [], k|].
  destruct (f x); simpl in *; [|done]. destruct (mapM f (l1 ++ l2)); simpl in *; [|done].
  injection H as <-. destruct (IH _ eq_refl) as (k1 & k2 & -> & -> & ->). by exists (b :: k1), k2.
Qed.

(** A conjunction evaluates to the conjunction of its displayed conditions. *)
Lemma token_conditions_eval n : ∀ depth cs st v st',
  tokenConditions n = Some cs → ev depth n st = Ok (v, st') →
  st' = st ∧ rv_value v = JBool (forallb condition_holds cs).
Proof.
  unfold tokenConditions. induction n as [n IH] using node_children_ind. intros depth cs st v st' Hc H.
  assert (∀ c, mapM token_condition [n] = Some c → c = cs →
    st' = st ∧ rv_value v = JBool (forallb condition_holds cs)) as Hone.
  { intros c Hm ->. simpl in Hm. destruct (token_condition n) eqn:E; simpl in Hm; [|done].
    injection Hm as <-. simpl. rewrite andb_true_r. by eapply token_condition_eval. }
  destruct n as [| | | |op l r sp|]; try (by eapply Hone).
  simpl in Hc. destruct (str_eqb op (js "&&")) eqn:Eop; [|by eapply Hone].
  clear Hone. simpl in IH. rewrite !Forall_cons in IH. destruct IH as (IHl & IHr & _).
  apply mapM_app_Some in Hc as (c1 & c2 & -> & H1 & H2).
  apply evaluate_inv in H as [H _]. cbn [evaluateNode] in H. unfold eval_binary in H. rewrite Eop in H.
  inv_ok. apply boolean_inv in Hx as (v1 & Hv1 & Hb1).
  eapply IHl in Hv1 as [-> Hv1]; [|done]. rewrite forallb_app.
  assert (x = forallb condition_holds c1) as -> by congruence.
  destruct (forallb condition_holds c1); inv_ok; [|done].
  apply boolean_inv in Hx as (v2 & Hv2 & Hb2). eapply IHr in Hv2 as [-> Hv2]; [|done]. split; [done|].
  simpl. congruence.
Qed.
(** Tier bodies touch no field of the interpreter. *)
Fixpoint quiet (n : ExpressionNode) : bool :=
  match n with
  | literal _ _ _ | variable _ _ => true
  | unary _ a _ => quiet a
  | binary _ l r _ => quiet l && quiet r
  | call name args _ => str_eqb name (js "max") && forallb quiet args
  | conditional _ _ _ _ => false
  end.

Lemma numeric_st depth n st x st' : numeric (ev depth) n st = Ok (x, st') →
  ∃ v, ev depth n st = Ok (v, st') ∧ rv_value v = JNumber (fst x).
Proof.
  unfold numeric, to_numeric. intros H. inv_ok. destruct (rv_value x0) eqn:E; try done. inv_ok. eauto.
Qed.

Lemma eval_variable_st name start st v st' : eval_variable context name start st = Ok (v, st') → st' = st.
Proof.
  unfold eval_variable. intros H. cbv zeta in H. repeat (case_match; try discriminate H); by inv_ok.
Qed.

Lemma quiet_eval n : ∀ depth st v st', quiet n = true → ev depth n st = Ok (v, st') → st' = st.
Proof.
  induction n as [n IH] using node_children_ind. intros depth st v st' Hq H.
  apply evaluate_inv in H as [H _].
  destruct n as [lv i sp|name sp|name args sp|op a sp|op l r sp|]; cbn [evaluateNode] in H; simpl in Hq, IH; [..|done].
  - by inv_ok.
  - by eapply eval_variable_st.
  - apply andb_prop in Hq as [->%str_eqb_eq Hq]. unfold eval_call in H. js_compute_in H.
    cbv iota in H.
    destruct args as [|a [|b args]]; cbn [arg0 arg1] in H.
    + inv_ok. unfold evaluate_undefined in Hx. by destruct (256 <? _).
    + inv_ok. unfold evaluate_undefined in Hx0. by destruct (256 <? _).
    + inv_ok. apply numeric_st in Hx as (v1 & Hx & _), Hx0 as (v2 & Hx0 & _).
      rewrite !Forall_cons in IH. destruct IH as (IHa & IHb & _).
      apply andb_prop in Hq as [Ha [Hb _]%andb_prop].
      apply IHa in Hx; [|done]. apply IHb in Hx0; [congruence|done].
  - rewrite Forall_cons in IH. destruct IH as [IH _].
    destruct (str_eqb op (js "!")); inv_ok.
    + apply boolean_inv in Hx as (w & Hw & _). by eapply IH.
    + apply numeric_st in Hx as (w & Hx & _). by eapply IH.
  - rewrite !Forall_cons in IH. destruct IH as (IHl & IHr & _). apply andb_prop in Hq as [Hl Hr].
    unfold eval_binary in H.
    destruct (str_eqb op (js "&&")); [|destruct (str_eqb op (js "||"))]; inv_ok.
    1, 2: apply boolean_inv in Hx as (w & Hw & _); eapply IHl in Hw as ->; [|done];
      destruct x; inv_ok; try done;
      apply boolean_inv in Hx as (w2 & Hw & _); by eapply IHr.
    eapply IHl in Hx as ->; [|done]. eapply IHr in Hx0 as ->; [|done]. by eapply binary_values_st.
Qed.

Lemma flatten_quiet op n : Forall (λ t, quiet t = true) (flattenBinary n op) → quiet n = true.
Proof.
  induction n as [n IH] using node_children_ind.
  destruct n as [| | | |o l r sp|]; simpl; try (by rewrite Forall_singleton).
  simpl in IH. rewrite !Forall_cons in IH. destruct IH as (IHl & IHr & _).
  destruct (str_eqb o op); [|by rewrite Forall_singleton].
  rewrite Forall_app. intros [H1 H2]. apply andb_true_iff. auto.
Qed.

Lemma price_literal_quiet n x : nonnegativePriceLiteral n = Some x → quiet n = true.
Proof.
  destruct n as [| | |op [[]| | | | |] sp| |]; simpl; try done; by destruct (str_eqb op (js "-")).
Qed.

Lemma zero_literal_quiet n : is_zero_literal n = true → quiet n = true.
Proof. by destruct n as [[]| | | | |]. Qed.

Lemma remainder_quiet n x : remainder_variable n = Some x → quiet n = true.
Proof. by destruct n as [| | | |? [|[[]|]| | | |] [|[[]|]| | | |] ?|]. Qed.

Lemma input_quiet n x : input_variable n = Some x → quiet n = true.
Proof.
  destruct n as [| |name args sp| | |]; simpl; try done.
  destruct args as [|a [|b [|]]]; try done. destruct (str_eqb name (js "max")); [|done].
  simpl. intros H.
  destruct (is_zero_literal a) eqn:Ea; [|destruct (is_zero_literal b) eqn:Eb; [|done]].
  all: apply remainder_quiet in H; rewrite H; by rewrite zero_literal_quiet.
Qed.

Lemma price_term_quiet n p : price_term n = Some p → quiet n = true.
Proof.
  destruct n as [| | | |op l r sp|]; simpl; try done. destruct (str_eqb op (js "*")); [|done].
  destruct (nonnegativePriceLiteral r) eqn:Er.
  - destruct (input_variable l) eqn:El; [|done]. intros _.
    by rewrite (input_quiet _ _ El), (price_literal_quiet _ _ Er).
  - destruct (nonnegativePriceLiteral l) eqn:El; [|done]. simpl.
    destruct (input_variable r) eqn:Ei; [|done]. intros _.
    by rewrite (input_quiet _ _ Ei), (price_literal_quiet _ _ El).
Qed.

Lemma token_prices_quiet terms : ∀ prices r, token_prices terms prices = Some r →
  Forall (λ t, quiet t = true) terms.
Proof.
  induction terms as [|t terms IH]; intros prices r H; [done|]. simpl in H.
  destruct (price_term t) as [[v p]|] eqn:E; simpl in H; [|done].
  destruct (bool_decide _); [done|]. constructor; [by eapply price_term_quiet|by eapply IH].
Qed.

(** The unit and the fixed price a row announces. *)
Definition row_charge (t : TokenTier) (before : BillingUnit * option number) : BillingUnit * option number :=
  match tt_fixedPrice t with
  | Some x => (unit_request, Some x)
  | None => before
  end.

Definition charged (st : RState) : BillingUnit * option number := (rs_billingUnit st, rs_fixedPrice st).

Lemma string_st depth n st x st' : string_ (ev depth) n st = Ok (x, st') →
  ∃ v, ev depth n st = Ok (v, st') ∧ rv_value v = JString x.
Proof.
  unfold string_, to_string. intros H. inv_ok. destruct (rv_value x0) eqn:E; try done. inv_ok. eauto.
Qed.

Lemma fixed_literal_eval depth body x st v st' :
  fixed_literal body = Ok (Some x) → ev depth body st = Ok (v, st') → charged st' = (unit_request, Some x).
Proof.
  destruct body as [| |name args sp| | |]; try done. intros Hf [H _]%evaluate_inv. simpl in Hf.
  destruct (str_eqb name (js "fixed")) eqn:E; [|done]. apply str_eqb_eq in E as ->.
  destruct args as [|[[| |y|]| | | | |] args]; try done. injection Hf as ->.
  cbn [evaluateNode] in H. unfold eval_call in H. js_compute_in H. cbv iota in H. cbn [arg0] in H. inv_ok.
  apply numeric_st in Hx as (w & Hw & Hn). apply eval_literal_inv in Hw as [-> ->].
  unfold st_modify in Hx0. inv_ok. simpl in Hn. injection Hn as ->. done.
Qed.

(** ** What a row costs *)
Definition token_count (v : TokenVariable) : option number :=
  match ctx_tokens context ≫= own_property (token_variable_name v) with
  | Some (JNumber y) => Some y
  | _ => None
  end.

(** The quantity a displayed variable stands for: its token count, or the text
    part of the input, the input length without the audio tokens. *)
Inductive quantity : TokenVariable → number → Prop :=
| quantity_count v y : token_count v = Some y → quantity v y
| quantity_remainder s len ai : token_count var_len = Some len → token_count var_ai = Some ai →
    quantity var_p (Math_max (S754_zero s) (num_sub len ai)).

(** A displayed price times its quantity; the displayed price equals the one in
    the expression as a number. *)
Definition priced (entry : TokenVariable * number) (y : number) : Prop :=
  ∃ q price, quantity (fst entry) q ∧ num_eqb price (snd entry) = true ∧ y = num_mul q price.

(** A sum in some association, in the order of the terms. *)
Inductive float_sum : list number → number → Prop :=
| float_sum_one x : float_sum [x] x
| float_sum_add l r a b : float_sum l a → float_sum r b → float_sum (l ++ r) (num_add a b).

Definition row_value (t : TokenTier) (x : number) : Prop :=
  match tt_fixedPrice t with
  | Some amount => x = num_mul amount million
  | None => ∃ ys, Forall2 priced (tt_prices t) ys ∧ float_sum ys x
  end.

(** Once per image, for each factor [image_count] of the expression. *)
Inductive per_image (x : number) : number → Prop :=
| per_image_once : per_image x (num_mul x (default (num_of_Z 1) (ctx_imageCount context)))
| per_image_again y : per_image x y → per_image x (num_mul y (default (num_of_Z 1) (ctx_imageCount context))).

Definition row_total (t : TokenTier) (x : number) : Prop :=
  if tt_imageCount t then ∃ y, row_value t y ∧ per_image y x else row_value t x.

Lemma num_mul_comm x y : num_mul x y = num_mul y x.
Proof.
  destruct x as [[]|[]| |[] m e], y as [[]|[]| |[] n f]; try done; cbv [num_mul SFmul xorb];
    by rewrite (Pos.mul_comm m n), (Z.add_comm e f).
Qed.

Lemma Math_max_zero s x : Math_max x (S754_zero s) = Math_max (S754_zero s) x.
Proof. destruct s, x as [[]|[]| |[] m e]; done. Qed.

Lemma zero_eqb x : num_eqb x num_zero = true → ∃ s, x = S754_zero s.
Proof. destruct x as [s|[]| |[] m e]; try done. by exists s. Qed.

Lemma plain_binary depth op l r sp st v st' :
  ev depth (binary op l r sp) st = Ok (v, st') → str_eqb op (js "&&") = false → str_eqb op (js "||") = false →
  ∃ vl s1 vr, ev (depth + 1) l st = Ok (vl, s1) ∧ ev (depth + 1) r s1 = Ok (vr, st')
    ∧ binary_values op (sp_start sp) vl vr st' = Ok (v, st').
Proof.
  intros [H _]%evaluate_inv H1 H2. cbn [evaluateNode] in H. unfold eval_binary in H. rewrite H1, H2 in H.
  inv_ok. pose proof (binary_values_st _ _ _ _ _ _ _ H) as ->. eauto 8.
Qed.

Lemma number_times start vl vr x y st v st' : rv_value vl = JNumber x → rv_value vr = JNumber y →
  binary_values (js "*") start vl vr st = Ok (v, st') → rv_value v = JNumber (num_mul x y).
Proof.
  intros Hl Hr H. unfold binary_values, compare_values, arithmetic in H. rewrite Hl, Hr in H.
  js_compute_in H. cbv iota beta zeta delta [orb] in H. by inv_ok.
Qed.

Lemma number_minus start vl vr x y st v st' : rv_value vl = JNumber x → rv_value vr = JNumber y →
  binary_values (js "-") start vl vr st = Ok (v, st') → rv_value v = JNumber (num_sub x y).
Proof.
  intros Hl Hr H. unfold binary_values, compare_values, arithmetic in H. rewrite Hl, Hr in H.
  js_compute_in H. cbv iota beta zeta delta [orb] in H. by inv_ok.
Qed.

Lemma number_plus start vl vr x y st v st' : rv_value vl = JNumber x → rv_value vr = JNumber y →
  binary_values (js "+") start vl vr st = Ok (v, st') → rv_value v = JNumber (num_add x y).
Proof.
  intros Hl Hr H. unfold binary_values, compare_values, arithmetic in H. rewrite Hl, Hr in H.
  js_compute_in H. cbv iota beta zeta delta [orb] in H. by inv_ok.
Qed.

Lemma zero_literal_eval depth n st v st' : is_zero_literal n = true → ev depth n st = Ok (v, st') →
  ∃ s, rv_value v = JNumber (S754_zero s).
Proof.
  intros Hn H. destruct n as [[| |x|] i sp| | | | |]; try done. simpl in Hn.
  apply zero_eqb in Hn as [s ->]. apply eval_literal_inv in H as [-> _]. by exists s.
Qed.

Lemma price_literal_eval depth n x st v st' : nonnegativePriceLiteral n = Some x → ev depth n st = Ok (v, st') →
  ∃ price, rv_value v = JNumber price ∧ num_eqb price x = true.
Proof.
  intros Hn H. destruct n as [[| |y|] i sp| | |op a sp| |]; try done; simpl in Hn.
  - destruct (num_leb num_zero y) eqn:E; [|done]. injection Hn as <-. apply eval_literal_inv in H as [-> _].
    exists y. split; [done|].
    destruct y as [|[]| |[] m e]; try done; unfold num_eqb, SFeqb, SFcompare; rewrite Z.compare_refl;
      change (Pos.compare_cont Eq m m) with (Pos.compare m m); by rewrite Pos.compare_refl.
  - destruct (str_eqb op (js "-")) eqn:Eo; simpl in Hn; [|done]. apply str_eqb_eq in Eo as ->.
    destruct (is_zero_literal a) eqn:Ez; [|done]. injection Hn as <-. apply evaluate_inv in H as [H _].
    cbn [evaluateNode] in H. js_compute_in H. cbv iota in H. inv_ok.
    apply numeric_st in Hx as (w & Hw & Hn). destruct (zero_literal_eval _ _ _ _ _ Ez Hw) as [s' Hs].
    assert (fst x = S754_zero s') as E by congruence.
    exists (num_opp (S754_zero s')). rewrite E. by split.
Qed.

Lemma remainder_eval depth n st v st' x : remainder_variable n = Some x → ev depth n st = Ok (v, st') →
  x = var_p ∧ ∃ len ai, token_count var_len = Some len ∧ token_count var_ai = Some ai
    ∧ rv_value v = JNumber (num_sub len ai).
Proof.
  intros Hn H. destruct n as [| | | |op [|[[]|]| | | |] [|[[]|]| | | |] ?|]; try done. simpl in Hn.
  destruct (str_eqb op (js "-")) eqn:Eo; [|done]. apply str_eqb_eq in Eo as ->. injection Hn as <-.
  apply plain_binary in H as (vl & s1 & vr & Hl & Hr & Hb); [|done|done].
  apply eval_token_inv in Hl as (-> & len & -> & Hlen). apply eval_token_inv in Hr as (-> & ai & -> & Hai).
  split; [done|]. exists len, ai. unfold token_count. rewrite Hlen, Hai. split_and!; [done|done|].
  refine (number_minus _ _ _ _ _ _ _ _ _ _ Hb); done.
Qed.

Lemma input_eval depth n x st v st' : input_variable n = Some x → ev depth n st = Ok (v, st') →
  ∃ q, quantity x q ∧ rv_value v = JNumber q.
Proof.
  intros Hn H. destruct n as [|[y|] ?|name args sp| | |]; try done; simpl in Hn.
  - destruct (decide (y = var_len)); [done|]. injection Hn as <-.
    apply eval_token_inv in H as (_ & q & -> & Hq). exists q. split; [|done]. constructor.
    unfold token_count. by rewrite Hq.
  - destruct args as [|a [|b [|]]]; try done. destruct (str_eqb name (js "max")) eqn:E; [|done].
    apply str_eqb_eq in E as ->. apply evaluate_inv in H as [H _]. cbn [evaluateNode] in H.
    unfold eval_call in H. js_compute_in H. cbv iota in H. cbn [arg0 arg1] in H. inv_ok.
    apply numeric_st in Hx as (va & Ha & Hva), Hx0 as (vb & Hb & Hvb).
    destruct (is_zero_literal a) eqn:Ea; [|destruct (is_zero_literal b) eqn:Eb; [|done]].
    + destruct (zero_literal_eval _ _ _ _ _ Ea Ha) as [z Hz].
      destruct (remainder_eval _ _ _ _ _ _ Hn Hb) as (-> & len & ai & H1 & H2 & H3).
      assert (fst x0 = S754_zero z) as -> by congruence. assert (fst x1 = num_sub len ai) as -> by congruence.
      eexists; split; [by econstructor|done].
    + destruct (zero_literal_eval _ _ _ _ _ Eb Hb) as [z Hz].
      destruct (remainder_eval _ _ _ _ _ _ Hn Ha) as (-> & len & ai & H1 & H2 & H3).
      assert (fst x1 = S754_zero z) as -> by congruence. assert (fst x0 = num_sub len ai) as -> by congruence.
      rewrite Math_max_zero. eexists; split; [by econstructor|done].
Qed.

Lemma price_term_eval depth n entry st v st' : price_term n = Some entry → ev depth n st = Ok (v, st') →
  ∃ y, priced entry y ∧ rv_value v = JNumber y.
Proof.
  intros Hn H. destruct n as [| | | |op l r sp|]; try done. simpl in Hn.
  destruct (str_eqb op (js "*")) eqn:E; [|done]. apply str_eqb_eq in E as ->.
  apply plain_binary in H as (vl & s1 & vr & Hl & Hr & Hb); [|done|done].
  destruct (nonnegativePriceLiteral r) as [price|] eqn:Er.
  - destruct (input_variable l) as [x|] eqn:El; [|done]. injection Hn as <-.
    destruct (input_eval _ _ _ _ _ _ El Hl) as (q & Hq & Hvq).
    destruct (price_literal_eval _ _ _ _ _ _ Er Hr) as (p & Hp & Hpe).
    exists (num_mul q p). split; [by exists q, p|]. by eapply number_times.
  - destruct (nonnegativePriceLiteral l) as [price|] eqn:El; [|done]. simpl in Hn.
    destruct (input_variable r) as [x|] eqn:Ei; [|done]. injection Hn as <-.
    destruct (input_eval _ _ _ _ _ _ Ei Hr) as (q & Hq & Hvq).
    destruct (price_literal_eval _ _ _ _ _ _ El Hl) as (p & Hp & Hpe).
    exists (num_mul q p). split; [by exists q, p|]. rewrite num_mul_comm. by eapply number_times.
Qed.

Lemma token_prices_terms terms : ∀ prices out, token_prices terms prices = Some out →
  ∃ new, out = prices ++ new ∧ Forall2 (λ t e, price_term t = Some e) terms new.
Proof.
  induction terms as [|t terms IH]; simpl; intros prices out H.
  - injection H as <-. exists []. by rewrite app_nil_r.
  - destruct (price_term t) as [[v p]|] eqn:E; simpl in H; [|done]. case_bool_decide; [done|].
    apply IH in H as (new & -> & Hf). exists ((v, p) :: new). rewrite <- app_assoc. split; [done|]. by constructor.
Qed.

(** A body evaluates to the sum of its priced terms. *)
Lemma body_eval n : ∀ depth prices st v st',
  Forall2 (λ t e, price_term t = Some e) (flattenBinary n (js "+")) prices → ev depth n st = Ok (v, st') →
  ∃ ys x, Forall2 priced prices ys ∧ float_sum ys x ∧ rv_value v = JNumber x.
Proof.
  induction n as [n IH] using node_children_ind. intros depth prices st v st' Hf H.
  assert (Forall2 (λ t e, price_term t = Some e) [n] prices →
    ∃ ys x, Forall2 priced prices ys ∧ float_sum ys x ∧ rv_value v = JNumber x) as Hone.
  { intros Hn. apply Forall2_cons_inv_l in Hn as (e & rest & He & Hrest & ->).
    apply Forall2_nil_inv_l in Hrest as ->. destruct (price_term_eval _ _ _ _ _ _ He H) as (y & Hy & Hv).
    exists [y], y. split_and!; [by constructor|constructor|done]. }
  destruct n as [| | | |op l r sp|]; try (by apply Hone). simpl in Hf.
  destruct (str_eqb op (js "+")) eqn:E; [|by apply Hone]. apply str_eqb_eq in E as ->. clear Hone.
  simpl in IH. rewrite !Forall_cons in IH. destruct IH as (IHl & IHr & _).
  apply plain_binary in H as (vl & s1 & vr & Hl & Hr & Hb); [|done|done].
  apply Forall2_app_inv_l in Hf as (p1 & p2 & H1 & H2 & ->).
  destruct (IHl _ _ _ _ _ H1 Hl) as (y1 & x1 & A1 & B1 & C1).
  destruct (IHr _ _ _ _ _ H2 Hr) as (y2 & x2 & A2 & B2 & C2).
  exists (y1 ++ y2), (num_add x1 x2). split_and!; [by apply Forall2_app|by constructor|by eapply number_plus].
Qed.

Lemma fixed_literal_value depth body x st v st' : fixed_literal body = Ok (Some x) → ev depth body st = Ok (v, st') →
  rv_value v = JNumber (num_mul x million).
Proof.
  destruct body as [| |name args sp| | |]; try done. intros Hf [H _]%evaluate_inv. simpl in Hf.
  destruct (str_eqb name (js "fixed")) eqn:E; [|done]. apply str_eqb_eq in E as ->.
  destruct args as [|[[| |y|]| | | | |] args]; try done. injection Hf as ->.
  cbn [evaluateNode] in H. unfold eval_call in H. js_compute_in H. cbv iota in H. cbn [arg0] in H. inv_ok.
  apply numeric_st in Hx as (w & Hw & Hn). apply eval_literal_inv in Hw as [-> ->].
  simpl in *. congruence.
Qed.

(** What evaluating a row records and yields. *)
Definition pays (t : TokenTier) (st : RState) (v : RuntimeValue) (st' : RState) : Prop :=
  rs_matchedTier st' = tt_label t ∧ charged st' = row_charge t (charged st)
  ∧ ∃ x, rv_value v = JNumber x ∧ row_total t x.

(** The row of a tier announces what evaluating the tier records. *)
Lemma tier_eval depth node conds t st v st' :
  tokenTier node conds = Ok (Some t) → ev depth node st = Ok (v, st') →
  pays t st v st'.
Proof.
  destruct node as [| |name args sp| | |]; try done. intros Ht [H _]%evaluate_inv. simpl in Ht.
  destruct args as [|[[| | |label]| | | | |] rest]; try done.
  destruct (str_eqb name (js "tier")) eqn:E; [|done]. apply str_eqb_eq in E as ->.
  destruct rest as [|body rest]; [done|].
  cbn [evaluateNode] in H. unfold eval_call in H. js_compute_in H. cbv iota in H. cbn [arg0 arg1] in H.
  inv_ok. apply string_st in Hx0 as (w & Hw & Hl). apply eval_literal_inv in Hw as [-> ->].
  simpl in Hl. injection Hl as <-. apply numeric_st in Hx1 as (w & Hw & Hn).
  unfold st_modify in Hx2. inv_ok. unfold pays. simpl.
  destruct x as [x|].
  - inv_ok. split; [done|]. split; [exact (fixed_literal_eval _ _ _ _ _ _ Hx Hw)|].
    eexists; split; [done|]. unfold row_total, row_value. simpl.
    pose proof (fixed_literal_value _ _ _ _ _ _ Hx Hw). congruence.
  - destruct (token_prices _ _) as [[|p prices]|] eqn:Ep; try done. injection Ht as <-. split; [done|].
    pose proof Ep as Hq. apply token_prices_quiet, flatten_quiet in Hq. split; [by eapply quiet_eval in Hw as ->|].
    eexists; split; [done|]. unfold row_total, row_value. simpl.
    apply token_prices_terms in Ep as (new & Hnew & Hf). simpl in Hnew. subst new.
    destruct (body_eval _ _ _ _ _ _ Hf Hw) as (ys & y & Hys & Hsum & Hv).
    exists ys. split; [done|]. by assert (fst x1 = y) as -> by congruence.
Qed.

Lemma tier_conditions node conds t : tokenTier node conds = Ok (Some t) →
  tt_conditions t = conds ∧ tt_conditionText t = None.
Proof.
  destruct node as [| |name [|[[]| | | | |] [|body rest]] sp| | |]; simpl; try done;
    destruct (str_eqb name (js "tier")); try done.
  intros H. inv_ok. destruct x; [by inv_ok|].
  destruct (token_prices _ _) as [[|]|]; try done. by inv_ok.
Qed.

(** ** Which row applies *)
Definition some_tokens (v : TokenVariable) : bool :=
  match token_count v with Some y => num_ltb num_zero y | None => false end.

(** A request with audio input or audio output tokens. *)
Definition audio_request : bool := some_tokens var_ai || some_tokens var_ao.

(** What the condition text of a row says of the token counts. *)
Definition text_holds (text : jsstring) : bool :=
  if str_eqb text (js "Audio requests") then audio_request
  else if str_eqb text (js "Text-only requests") then negb audio_request
  else false.

(** All conditions of a row, and its condition text. *)
Definition row_holds (t : TokenTier) : bool :=
  forallb condition_holds (tt_conditions t) && from_option text_holds true (tt_conditionText t).

(** The first row whose conditions hold is [t]. *)
Definition first_row (tiers : list TokenTier) (t : TokenTier) : Prop :=
  ∃ pre post, tiers = pre ++ t :: post ∧ row_holds t = true ∧ Forall (λ u, row_holds u = false) pre.

Lemma tier_chain_eval n : ∀ depth tiers st v st',
  tier_chain n = Ok (Some tiers) → ev depth n st = Ok (v, st') →
  ∃ t, first_row tiers t ∧ pays t st v st'.
Proof.
  induction n as [n IH] using node_children_ind. intros depth tiers st v st' Ht H.
  assert (∀ t, tokenTier n [] = Ok (Some t) → tiers = [t] →
    ∃ t, first_row tiers t ∧ pays t st v st') as Hlast.
  { intros t Hn ->. exists t. split; [|by eapply tier_eval].
    exists [], []. split_and!; [done| |by apply Forall_nil_2].
    unfold row_holds. by destruct (tier_conditions _ _ _ Hn) as [-> ->]. }
  destruct n as [| | | | |c y n sp]; cbn [tier_chain] in Ht;
    try (apply bind_Ok_inv in Ht as ([t|] & Hx & Ht); [|done]; injection Ht as Ht; by eapply Hlast).
  clear Hlast. simpl in IH. rewrite !Forall_cons in IH. destruct IH as (_ & _ & IHn & _).
  destruct (tokenConditions c) as [conds|] eqn:Ec; [|done]. inv_ok. destruct x as [t|]; [|done].
  inv_ok. destruct x as [tiers'|]; [|done]. injection Ht as <-.
  apply evaluate_inv in H as [H _]. cbn [evaluateNode] in H. inv_ok.
  apply boolean_inv in Hx1 as (w & Hw & Hb). eapply token_conditions_eval in Hw as [-> Hw]; [|done].
  destruct (tier_conditions _ _ _ Hx) as [Hcond Htext].
  assert (x = row_holds t) as -> by (unfold row_holds; rewrite Htext, andb_true_r; congruence).
  destruct (row_holds t) eqn:Er.
  - inv_ok. unfold mark_rule, st_modify in Hx1. inv_ok. exists t. split.
    { exists [], tiers'. split_and!; [done|done|by apply Forall_nil_2]. }
    by eapply tier_eval in H.
  - destruct (IHn _ _ _ _ _ Hx0 H) as (u & (pre & post & -> & Hu & Hpre) & Hpay).
    exists u. split; [|done]. exists (t :: pre), post. split_and!; [done|done|by constructor].
Qed.

(** The first row of the summary that applies is charged. *)
Definition charges (tiers : list TokenTier) (st : RState) (v : RuntimeValue) (st' : RState) : Prop :=
  ∃ t, first_row tiers t ∧ pays t st v st'.

Lemma first_row_In tiers t : first_row tiers t → In t tiers.
Proof. intros (pre & post & -> & _). apply in_or_app. right. by left. Qed.

Lemma audio_input_eval depth n x st v st' : audio_input n = Some x → ev depth n st = Ok (v, st') →
  (x = var_ai ∨ x = var_ao) ∧ st' = st ∧ rv_value v = JBool (some_tokens x).
Proof.
  intros Hn H. destruct n as [| | | |op [|[y|]| | | |] [[| |z|]| | | | |] sp|]; try done. simpl in Hn.
  destruct (str_eqb op (js ">")) eqn:Eo; [|done]. apply str_eqb_eq in Eo as ->. simpl in Hn.
  destruct (num_eqb z num_zero) eqn:Ez; [|done]. apply zero_eqb in Ez as [sg ->].
  apply plain_binary in H as (vl & s1 & vr & Hl & Hr & Hb); [|done|done].
  apply eval_token_inv in Hl as (-> & q & -> & Hq). apply eval_literal_inv in Hr as [-> ->].
  assert (y = x ∧ (x = var_ai ∨ x = var_ao)) as [-> Hx] by (destruct y; naive_solver).
  split; [done|]. split; [done|]. unfold some_tokens, token_count. rewrite Hq.
  unfold binary_values, compare_values in Hb. simpl in Hb. js_compute_in Hb. cbv iota in Hb. inv_ok.
  simpl. by destruct sg.
Qed.

(** The condition of an audio table tells audio requests from the others. *)
Lemma audio_pair_eval depth a b sp st v st' : audio_pair a b = true →
  ev depth (binary (js "||") a b sp) st = Ok (v, st') → st' = st ∧ rv_value v = JBool audio_request.
Proof.
  unfold audio_pair, audio_request. intros Hp [H _]%evaluate_inv.
  destruct (audio_input a) as [x|] eqn:Ea; [|done]. destruct (audio_input b) as [y|] eqn:Eb; [|done].
  apply negb_true_iff, bool_decide_eq_false_1 in Hp.
  cbn [evaluateNode] in H. unfold eval_binary in H. js_compute_in H. cbv iota in H. inv_ok.
  apply boolean_inv in Hx as (w & Hw & Hwb).
  destruct (audio_input_eval _ _ _ _ _ _ Ea Hw) as (Hx & -> & Hv).
  assert (x0 = some_tokens x) as -> by congruence.
  destruct (some_tokens x) eqn:Es; inv_ok.
  - split; [done|]. simpl. destruct Hx as [-> | ->]; rewrite Es; by rewrite ?orb_true_r.
  - apply boolean_inv in Hx0 as (w2 & Hw2 & Hwb2).
    destruct (audio_input_eval _ _ _ _ _ _ Eb Hw2) as (Hy & -> & Hv2). split; [done|]. simpl.
    f_equal. destruct Hx as [-> | ->], Hy as [-> | ->]; try done; rewrite Es, ?orb_false_r; simpl; congruence.
Qed.

Lemma audio_tiers_eval depth n tiers st v st' :
  audio_tiers n = Ok (Some tiers) → ev depth n st = Ok (v, st') → charges tiers st v st'.
Proof.
  destruct n as [| | | | |[| | | |op a b sp1|] y n sp]; try done. intros Ht H. cbn [audio_tiers] in Ht.
  destruct (str_eqb op (js "||")) eqn:Eop; simpl in Ht; [|done]. apply str_eqb_eq in Eop as ->.
  destruct (audio_pair a b) eqn:Ep; [|done]. inv_ok. destruct x as [t1|]; [|done]. destruct x0 as [t2|]; [|done].
  injection Ht as <-. apply evaluate_inv in H as [H _]. cbn [evaluateNode] in H. inv_ok.
  apply boolean_inv in Hx1 as (w & Hw & Hwb).
  destruct (audio_pair_eval _ _ _ _ _ _ _ Ep Hw) as [-> Hv]. assert (x = audio_request) as -> by congruence.
  destruct (tier_conditions _ _ _ Hx) as [Hc1 _], (tier_conditions _ _ _ Hx0) as [Hc2 _].
  destruct audio_request eqn:Er; inv_ok.
  - unfold mark_rule, st_modify in Hx1. inv_ok.
    exists (with_conditionText (js "Audio requests") t1). split; [|exact (tier_eval _ _ _ _ _ _ _ Hx H)].
    exists [], [with_conditionText (js "Text-only requests") t2]. split_and!; [done| |by apply Forall_nil_2].
    unfold row_holds, text_holds. simpl. by rewrite Hc1, Er.
  - exists (with_conditionText (js "Text-only requests") t2). split; [|exact (tier_eval _ _ _ _ _ _ _ Hx0 H)].
    exists [with_conditionText (js "Audio requests") t1], []. split_and!; [done| |].
    + unfold row_holds, text_holds. simpl. by rewrite Hc2, Er.
    + apply Forall_singleton. unfold row_holds, text_holds. simpl. by rewrite Hc1, Er.
Qed.

Lemma image_rows_charge tiers st v w x st' : charges tiers st v st' → rv_value v = JNumber x →
  rv_value w = JNumber (num_mul x (default (num_of_Z 1) (ctx_imageCount context))) →
  charges (map with_imageCount tiers) st w st'.
Proof.
  intros (t & Hf & (Hl & Hc & x' & Hx & Ht)) Hv Hw. exists (with_imageCount t).
  assert (x' = x) as -> by congruence. split; [|split_and!; [done|done|]]; cycle 1.
  { eexists; split; [exact Hw|]. unfold row_total in *. simpl. destruct (tt_imageCount t).
    - destruct Ht as (y & Hy & Hp). exists y. split; [done|by apply per_image_again].
    - exists x. split; [done|apply per_image_once]. }
  destruct Hf as (pre & post & -> & Htt & Hpre).
  exists (map with_imageCount pre), (map with_imageCount post). rewrite map_app. split_and!; try done.
  by rewrite Forall_map.
Qed.

Lemma charges_number tiers st v st' : charges tiers st v st' → ∃ x, rv_value v = JNumber x.
Proof. intros (t & _ & (_ & _ & x & Hx & _)). eauto. Qed.

Lemma image_count_eval depth n st v st' : is_image_count n = true → ev depth n st = Ok (v, st') →
  rv_value v = JNumber (default (num_of_Z 1) (ctx_imageCount context)).
Proof.
  destruct n as [|[]| | | |]; try done. intros _ [H _]%evaluate_inv. cbn [evaluateNode] in H.
  unfold eval_variable in H. case_match; [done|]. by inv_ok.
Qed.

Lemma chain_eval n : ∀ depth tiers st v st',
  readTokenTierChain n = Ok (Some tiers) → ev depth n st = Ok (v, st') → charges tiers st v st'.
Proof.
  induction n as [n IH] using node_children_ind. intros depth tiers st v st' Ht H.
  assert (tier_chain n = Ok (Some tiers) → charges tiers st v st') as Hplain.
  { intros Hc. by eapply tier_chain_eval. }
  assert (∃ audio, audio_tiers n = Ok audio) as [[a|] Ha].
  { destruct n; simpl in Ht; by inv_ok; eauto. }
  { assert (a = tiers) as -> by (destruct n; cbn [readTokenTierChain] in Ht; rewrite Ha in Ht; by injection Ht).
    by eapply audio_tiers_eval. }
  destruct n as [| | | |op l r sp|]; cbn [readTokenTierChain] in Ht; rewrite Ha in Ht; simpl in Ht; auto.
  simpl in IH. rewrite !Forall_cons in IH. destruct IH as (IHl & IHr & _).
  assert (∀ vl vr s1, ev (depth + 1) l st = Ok (vl, s1) → ev (depth + 1) r s1 = Ok (vr, st') →
    (is_image_count l = true → s1 = st) ∧ (is_image_count r = true → st' = s1)) as Hst.
  { intros vl vr s1 H1 H2.
    split; intros E; [destruct l as [|[]| | | |]|destruct r as [|[]| | | |]]; try done.
    - by refine (quiet_eval _ _ _ _ _ _ H1).
    - by refine (quiet_eval _ _ _ _ _ _ H2). }
  destruct (str_eqb op (js "*")) eqn:Eop; simpl in Ht; [|by auto]. apply str_eqb_eq in Eop as ->.
  destruct (is_image_count l) eqn:El; [|destruct (is_image_count r) eqn:Er; [|by auto]].
  all: apply bind_Ok_inv in Ht as ([ts|] & Hx & Ht); [|done]; injection Ht as <-;
    apply plain_binary in H as (vl & s1 & vr & Hl & Hr & Hb); [|done|done];
    destruct (Hst _ _ _ Hl Hr) as [H1 H2].
  - pose proof (image_count_eval _ _ _ _ _ El Hl) as Hc. rewrite <- (H1 eq_refl).
    pose proof (IHr _ _ _ _ _ Hx Hr) as Hrow. destruct (charges_number _ _ _ _ Hrow) as [x Hvx].
    eapply image_rows_charge; [exact Hrow|exact Hvx|]. rewrite num_mul_comm. by eapply number_times.
  - pose proof (image_count_eval _ _ _ _ _ Er Hr) as Hc. rewrite (H2 eq_refl).
    pose proof (IHl _ _ _ _ _ Hx Hl) as Hrow. destruct (charges_number _ _ _ _ Hrow) as [x Hvx].
    eapply image_rows_charge; [exact Hrow|exact Hvx|]. by eapply number_times.
Qed.
End Charged.

(** ** Time conditions depend on the instant only *)

(** Everything a node reads is the clock. *)
Definition clock_node (m : ExpressionNode) : Prop :=
  match m with
  | variable _ _ => False
  | call f _ _ => str_in f TIME_CONDITION_FUNCTIONS = true
  | _ => True
  end.

Lemma isTimeCondition_clock n : isTimeCondition n = Ok true → Forall clock_node (postorder n).
Proof.
  unfold isTimeCondition. intros H. inv_ok. bool_hyps.
  apply expressionDependencies_spec in Hx as [Hvars Hfuns].
  destruct (dep_variables x) eqn:Ev; [|done].
  apply Forall_forall. intros m Hm. destruct m; simpl in *; try done.
  - apply (not_elem_of_nil name). apply Hvars. eauto.
  - rewrite forallb_forall in H0. apply H0, list_elem_of_In, Hfuns. eauto.
Qed.

Section Clock.
Context (compiled : CompiledBillingExpression) (now : option Z).
Context (context1 context2 : BillingSimulationContext) (headers1 headers2 : list (jsstring * jsstring)).

(** What [m1] answers, [m2] answers too, whatever the interpreter fields. *)
Definition mirrors {A} (m1 m2 : ST RState exn A) : Prop :=
  ∀ st1 st2 a st1', time_cache_ok now st1 → time_cache_ok now st2 → m1 st1 = Ok (a, st1') →
  ∃ st2', m2 st2 = Ok (a, st2') ∧ time_cache_ok now st1' ∧ time_cache_ok now st2'.

Lemma mirrors_ret {A} (a : A) : mirrors (mret a) (mret a).
Proof. intros st1 st2 b st1' H1 H2 H. inv_ok. by exists st2. Qed.

Lemma mirrors_throw {A} e (m : ST RState exn A) : mirrors (st_throw e) m.
Proof. by intros st1 st2 b st1' H1 H2 H. Qed.

Lemma mirrors_bind {A B} (m1 m2 : ST RState exn A) (f1 f2 : A → ST RState exn B) :
  mirrors m1 m2 → (∀ a, mirrors (f1 a) (f2 a)) → mirrors (m1 ≫= f1) (m2 ≫= f2).
Proof.
  intros Hm Hf st1 st2 b st1' H1 H2 H. inv_ok.
  destruct (Hm _ _ _ _ H1 H2 Hx) as (s2 & E2 & Hs1 & Hs2).
  destruct (Hf _ _ _ _ _ Hs1 Hs2 H) as (s3 & E3 & ?). exists s3. split; [|done].
  unfold mbind, st_bind. by rewrite E2.
Qed.

Lemma mirrors_mark n : mirrors (mark_rule compiled n) (mark_rule compiled n).
Proof.
  intros st1 st2 b st1' H1 H2 H. unfold mark_rule, st_modify in *. inv_ok. eexists. by split.
Qed.

Lemma mirrors_zone zone : mirrors (zone_time now zone) (zone_time now zone).
Proof.
  intros st1 st2 t st1' H1 H2 H.
  pose proof (zone_time_cached now zone st1 H1) as Z1. pose proof (zone_time_cached now zone st2 H2) as Z2.
  destruct (timeInBillingZone now zone) as [t'|e|]; [|congruence|done].
  destruct Z1 as (s1 & E1 & Hs1 & _), Z2 as (s2 & E2 & Hs2 & _).
  rewrite E1 in H. inv_ok. eauto.
Qed.

Lemma mirrors_binary op start l r : mirrors (binary_values op start l r) (binary_values op start l r).
Proof.
  intros st1 st2 v st1' H1 H2 H. exists st2. pose proof (binary_values_st _ _ _ _ _ _ _ H) as ->.
  split; [|done]. revert H. unfold binary_values, arithmetic. cbv zeta. intros H.
  repeat (case_match; try discriminate H); by inv_ok.
Qed.

Create HintDb mirrors.
Hint Resolve mirrors_ret mirrors_throw mirrors_bind mirrors_mark mirrors_zone mirrors_binary : mirrors.

Lemma mirrors_check start v : mirrors (check_value start v) (check_value start v).
Proof. unfold check_value. repeat case_match; auto with mirrors. Qed.

Section Node.
Context (ev1 ev2 : ExpressionNode → ST RState exn RuntimeValue) (u1 u2 : ∀ A, ST RState exn A).
Hypothesis u1_throws : ∀ A (m : ST RState exn A), mirrors (u1 A) m.

Lemma mirrors_boolean n : mirrors (ev1 n) (ev2 n) → mirrors (boolean_ ev1 n) (boolean_ ev2 n).
Proof. intros. apply mirrors_bind; [done|]. intros. case_match; auto with mirrors. Qed.
Lemma mirrors_numeric n : mirrors (ev1 n) (ev2 n) → mirrors (numeric ev1 n) (numeric ev2 n).
Proof. intros. apply mirrors_bind; [done|]. intros. case_match; auto with mirrors. Qed.
Lemma mirrors_string n : mirrors (ev1 n) (ev2 n) → mirrors (string_ ev1 n) (string_ ev2 n).
Proof. intros. apply mirrors_bind; [done|]. intros. case_match; auto with mirrors. Qed.

Lemma mirrors_arg0 {A} (f1 f2 : ExpressionNode → ST RState exn A) args :
  Forall (λ n, mirrors (f1 n) (f2 n)) args → mirrors (arg0 u1 f1 args) (arg0 u2 f2 args).
Proof. destruct args; simpl; [auto|]. by inversion 1. Qed.
Lemma mirrors_arg1 {A} (f1 f2 : ExpressionNode → ST RState exn A) args :
  Forall (λ n, mirrors (f1 n) (f2 n)) args → mirrors (arg1 u1 f1 args) (arg1 u2 f2 args).
Proof. destruct args as [|a [|b args]]; simpl; auto. rewrite !Forall_cons. tauto. Qed.

Lemma clock_call name args start :
  str_in name TIME_CONDITION_FUNCTIONS = true → Forall (λ n, mirrors (ev1 n) (ev2 n)) args →
  mirrors (eval_call context1 now headers1 ev1 u1 name args start)
          (eval_call context2 now headers2 ev2 u2 name args start).
Proof.
  intros Hn Hargs.
  assert (Forall (λ n, mirrors (numeric ev1 n) (numeric ev2 n)) args) as Hnum
    by (apply (Forall_impl _ _ _ Hargs); intros; by apply mirrors_numeric).
  assert (Forall (λ n, mirrors (string_ ev1 n) (string_ ev2 n)) args) as Hstr
    by (apply (Forall_impl _ _ _ Hargs); intros; by apply mirrors_string).
  assert (mirrors (eval_time now ev1 u1 name args) (eval_time now ev2 u2 name args)) as Htime.
  { unfold eval_time. destruct (time_function_of_name name); [|auto with mirrors].
    apply mirrors_bind; [by apply mirrors_arg0|]. intros. apply mirrors_bind; auto with mirrors. }
  assert (∀ f : number → RuntimeValue, mirrors (a ← arg0 u1 (numeric ev1) args; mret (f (fst a)))
                       (a ← arg0 u2 (numeric ev2) args; mret (f (fst a)))) as H1.
  { intros f. apply mirrors_bind; [by apply mirrors_arg0|auto with mirrors]. }
  assert (∀ f : number → number → RuntimeValue,
    mirrors (a ← arg0 u1 (numeric ev1) args; b ← arg1 u1 (numeric ev1) args; mret (f (fst a) (fst b)))
                       (a ← arg0 u2 (numeric ev2) args; b ← arg1 u2 (numeric ev2) args; mret (f (fst a) (fst b))))
    as H2.
  { intros f. apply mirrors_bind; [by apply mirrors_arg0|]. intros.
    apply mirrors_bind; [by apply mirrors_arg1|auto with mirrors]. }
  apply str_in_In in Hn. simpl in Hn.
  repeat destruct Hn as [<-|Hn]; try done;
    solve [ apply Htime
          | apply (H2 (λ x y, plain (JNumber (Math_min x y))))
          | apply (H2 (λ x y, plain (JNumber (Math_max x y))))
          | apply (H1 (λ x, plain (JNumber (Math_abs x))))
          | apply (H1 (λ x, plain (JNumber (Math_ceil x))))
          | apply (H1 (λ x, plain (JNumber (Math_floor x)))) ].
Qed.
End Node.

Lemma mirrors_undefined d A (m : ST RState exn A) : mirrors (evaluate_undefined d A) m.
Proof. unfold evaluate_undefined. case_match; apply mirrors_throw. Qed.

(** A clock expression has one value at an instant, whatever the request. *)
Lemma clock_eval n : Forall clock_node (postorder n) → ∀ d1 d2, d2 ≤ d1 →
  mirrors (evaluate compiled context1 now headers1 d1 n) (evaluate compiled context2 now headers2 d2 n).
Proof.
  induction n as [n IH] using node_children_ind. rewrite postorder_children. rewrite Forall_app.
  intros [Hch Hn] d1 d2 Hd. rewrite Forall_singleton in Hn.
  assert (Forall (λ m, mirrors (evaluate compiled context1 now headers1 (d1 + 1) m)
                               (evaluate compiled context2 now headers2 (d2 + 1) m)) (children_of n)) as Hc.
  { clear Hn. induction IH as [|m l Hm _ IHl]; simpl in Hch; [by apply Forall_nil_2|].
    rewrite Forall_app in Hch. destruct Hch as [H1 H2]. constructor; [|by apply IHl]. apply Hm; [done|lia]. }
  clear IH Hch. rewrite !evaluate_unfold.
  destruct (Z.ltb_spec 256 (d1 + 1)); [apply mirrors_throw|].
  destruct (Z.ltb_spec 256 (d2 + 1)); [lia|].
  apply mirrors_bind; [|intros; apply mirrors_check].
  destruct n as [lv i sp|name sp|name args sp|op a sp|op l r sp|c y n sp]; cbn [evaluateNode children_of] in *.
  - apply mirrors_ret.
  - done.
  - apply clock_call; [|done..]. intros. apply mirrors_undefined.
  - rewrite Forall_singleton in Hc. destruct (str_eqb op (js "!"));
      (apply mirrors_bind; [|intros; apply mirrors_ret]); first [by apply mirrors_boolean|by apply mirrors_numeric].
  - rewrite !Forall_cons in Hc. destruct Hc as (Hl & Hr & _). unfold eval_binary.
    destruct (str_eqb op (js "&&")); [|destruct (str_eqb op (js "||"))].
    1, 2: apply mirrors_bind; [by apply mirrors_boolean|]; intros [|]; try apply mirrors_ret;
      (apply mirrors_bind; [by apply mirrors_boolean|]; intros; apply mirrors_ret).
    apply mirrors_bind; [done|]. intros. apply mirrors_bind; [done|]. intros. apply mirrors_binary.
  - rewrite !Forall_cons in Hc. destruct Hc as (Hcond & Hy & Hno & _).
    apply mirrors_bind; [by apply mirrors_boolean|]. intros [|]; [|done].
    apply mirrors_bind; [apply mirrors_mark|done].
Qed.
End Clock.

(** The answer of a time condition during an evaluation is the one
    [evaluateBillingCondition] gives for the same instant. *)
Lemma time_condition_agrees compiled context now headers depth c st v st' b :
  isTimeCondition c = Ok true → 0 ≤ depth → time_cache_ok now st →
  evaluate compiled context now headers depth c st = Ok (v, st') → rv_value v = JBool b →
  evaluateBillingCondition compiled c now = Some b ∧ time_cache_ok now st'.
Proof.
  intros Hc%isTimeCondition_clock Hd Hst H Hv.
  assert (time_cache_ok now (initial_state compiled)) as Hi by (by apply Forall_nil_2).
  destruct (clock_eval compiled now context (mkContext None None None None (Some now)) headers [] c Hc
              depth 0 Hd st (initial_state compiled) v st' Hst Hi H) as (st2 & E & Hs & _).
  split; [|done]. unfold evaluateBillingCondition, runtime_evaluate. simpl. rewrite E. by rewrite Hv.
Qed.

(** Reading a chain of rows in an evaluation leaves the time cache correct. *)
Definition holds_now (compiled : CompiledBillingExpression) (now : option Z) (p : ExpressionNode * bool) : bool :=
  bool_decide (evaluateBillingCondition compiled (fst p) now = Some (snd p)).

Lemma time_leaf_charged compiled context now headers source node path rows depth st v st' :
  time_leaf source node path = Ok (Some rows) → forallb (holds_now compiled now) path = true →
  evaluate compiled context now headers depth node st = Ok (v, st') →
  ∃ row, In row rows ∧ time_tier_current compiled now row = true ∧ tt_label (ti_tier row) = rs_matchedTier st'.
Proof.
  unfold time_leaf. intros Hr Hp H. inv_ok. destruct x as [tiers|]; [|done]. destruct path as [|p path]; [done|].
  injection Hr as <-. destruct (chain_eval _ _ _ _ _ _ _ _ _ _ Hx H) as (t & Hin%first_row_In & (Hl & _)).
  exists (time_tier source (p :: path) t). split; [by apply in_map|]. split; [|by rewrite Hl].
  unfold time_tier_current, time_tier. simpl ti_timeConditions. rewrite <- Hp.
  clear. induction (p :: path) as [|[c b] l IH]; [done|]. simpl. by rewrite IH.
Qed.

Lemma time_branches_charged compiled context now headers source node :
  ∀ path rows depth st v st', timeTierBranches source node path = Ok (Some rows) →
  forallb (holds_now compiled now) path = true → 0 ≤ depth → time_cache_ok now st →
  evaluate compiled context now headers depth node st = Ok (v, st') →
  ∃ row, In row rows ∧ time_tier_current compiled now row = true ∧ tt_label (ti_tier row) = rs_matchedTier st'.
Proof.
  induction node as [node IH] using node_children_ind. intros path rows depth st v st' Hr Hp Hd Hst H.
  destruct node as [| | | | |c y n sp]; cbn [timeTierBranches] in Hr; try (by eapply time_leaf_charged).
  simpl in IH. rewrite !Forall_cons in IH. destruct IH as (_ & IHy & IHn & _).
  apply bind_Ok_inv in Hr as ([|] & Ht & Hr); [|by eapply time_leaf_charged].
  apply bind_Ok_inv in Hr as ([ys|] & Hy & Hr); apply bind_Ok_inv in Hr as ([ns|] & Hn & Hr); try done.
  injection Hr as <-. apply evaluate_inv in H as [H _]. cbn [evaluateNode] in H.
  apply st_bind_Ok_inv in H as (b & s1 & Hb & H). apply boolean_inv in Hb as (w & Hw & Hwb).
  eapply time_condition_agrees in Hw as [Hcur Hs1]; [|done|lia|done|done].
  assert (forallb (holds_now compiled now) (path ++ [(c, b)]) = true) as Hp'.
  { rewrite forallb_app, Hp. simpl. unfold holds_now. simpl. by rewrite bool_decide_true. }
  destruct b.
  - apply st_bind_Ok_inv in H as (u & s2 & Hm & H). unfold mark_rule, st_modify in Hm. inv_ok.
    eapply IHy in H as (row & Hin & ?); [|done|done|lia|exact Hs1].
    exists row. split; [|done]. apply in_or_app. by left.
  - destruct (IHn _ _ (depth + 1) _ _ _ Hn Hp' ltac:(lia) Hs1 H) as (row & Hin & ?).
    exists row. split; [|done]. apply in_or_app. by right.
Qed.

(** ** Task rows *)
Section Task.
Context (compiled : CompiledBillingExpression) (context : BillingSimulationContext).
Context (now : option Z) (headers : list (jsstring * jsstring)).
Abbreviation ev := (evaluate compiled context now headers).

(** Whether the reported usage has the displayed value. *)
Definition usage_holds (c : jsstring * jsstring) : bool :=
  match ctx_usage context ≫= own_property (fst c) with
  | Some (JString s) => str_eqb s (snd c)
  | Some (JBool b) => str_eqb (string_of_bool b) (snd c)
  | _ => false
  end.

(** The values of boolean fields are shown as text, so a schema must not also
    enumerate the texts true and false for a field whose usage is a boolean. *)
Definition usage_typed (schema : BillingUsageSchema) : Prop :=
  ∀ field d v, own_property field schema = Some d → ctx_usage context ≫= own_property field = Some v →
  match uf_type d with
  | Some usage_boolean => match v with JBool _ => True | _ => False end
  | _ => match v with JBool _ => False | _ => True end
  end.

Lemma usage_field_eval depth n field st v st' :
  usage_field n = Ok (Some field) → ev depth n st = Ok (v, st') →
  st' = st ∧ ∃ usage, ctx_usage context = Some usage ∧ rv_value v = default JNull (own_property field usage).
Proof.
  destruct n as [| |name args sp| | |]; try done. intros Hf [H _]%evaluate_inv. simpl in Hf.
  destruct (str_eqb name (js "u")) eqn:E; [|done]. apply str_eqb_eq in E as ->.
  destruct args as [|[[]| | | | |] args]; try done. injection Hf as ->.
  cbn [evaluateNode] in H. unfold eval_call in H. js_compute_in H. cbv iota in H. cbn [arg0] in H.
  apply st_bind_Ok_inv in H as (x & s1 & Hx & H). apply string_st in Hx as (w & Hw & Hs).
  apply eval_literal_inv in Hw as [-> ->]. simpl in Hs. injection Hs as <-.
  destruct (ctx_usage context) as [usage|]; [|done]. inv_ok. eauto.
Qed.

Lemma task_condition_eval schema flag depth n c st v st' : usage_typed schema →
  task_condition schema flag n = Ok (Some c) → ev depth n st = Ok (v, st') →
  st' = st ∧ rv_value v = JBool (usage_holds c).
Proof.
  intros Hty Hc H. destruct n as [| | | |op l r sp|]; try done. cbn [task_condition] in Hc.
  destruct (str_eqb op (js "==")) eqn:E; [|done]. apply str_eqb_eq in E as ->.
  apply bind_Ok_inv in Hc as ([field|] & Hf & Hc); [|done]. injection Hc as Hc.
  destruct r as [lv i sp'| | | | |]; try done.
  apply evaluate_inv in H as [H _]. cbn [evaluateNode] in H. unfold eval_binary in H.
  change (str_eqb (js "==") (js "&&")) with false in H.
  change (str_eqb (js "==") (js "||")) with false in H. cbv iota in H.
  apply st_bind_Ok_inv in H as (vl & s1 & Hl & H). apply st_bind_Ok_inv in H as (vr & s2 & Hr & H).
  apply (usage_field_eval _ _ field) in Hl as (-> & usage & Hu & Hvl); [|done].
  apply eval_literal_inv in Hr as [-> ->].
  pose proof (binary_values_st _ _ _ _ _ _ _ H) as ->. split; [done|].
  unfold binary_values in H. change (str_eqb (js "==") (js "==")) with true in H. cbn [orb rv_value] in H.
  destruct (_ || _) in H; [done|]. inv_ok. cbn [rv_value plain]. f_equal. rewrite Hvl.
  destruct (own_property field schema) as [d|] eqn:Ed; simpl in Hc; [|by destruct lv].
  specialize (Hty field d). rewrite Ed, Hu in Hty. simpl in Hty. unfold usage_holds.
  destruct (uf_type d) as [[|]|] eqn:Et; simpl in Hc.
  all: destruct lv as [|b|x|s]; try done; try (destruct flag; [|done]); try (case_match; [|done]);
    injection Hc as <-; cbn [fst snd]; rewrite Hu; cbn [mbind option_bind];
    destruct (own_property field usage) as [w|]; [|done]; specialize (Hty w eq_refl eq_refl);
    destruct w; try done; cbn; try (by destruct b0, b).
Qed.

Lemma task_conditions_app schema flag l1 l2 : ∀ cs,
  task_conditions schema flag (l1 ++ l2) = Ok (Some cs) →
  ∃ c1 c2, cs = c1 ++ c2 ∧ task_conditions schema flag l1 = Ok (Some c1)
           ∧ task_conditions schema flag l2 = Ok (Some c2).
Proof.
  induction l1 as [|t l1 IH]; intros cs H; [by exists [], cs|]. cbn [app task_conditions] in *.
  apply bind_Ok_inv in H as ([c|] & Hc & H); [|done]. rewrite Hc.
  apply bind_Ok_inv in H as ([cs'|] & Hcs & H); [|done]. injection H as <-.
  destruct (IH _ Hcs) as (c1 & c2 & -> & H1 & H2). exists (c :: c1), c2. simpl. by rewrite H1.
Qed.

Lemma task_conditions_eval schema flag n : usage_typed schema → ∀ depth cs st v st',
  taskConditions n schema flag = Ok (Some cs) → ev depth n st = Ok (v, st') →
  st' = st ∧ rv_value v = JBool (forallb usage_holds cs).
Proof.
  intros Hty. unfold taskConditions. induction n as [n IH] using node_children_ind.
  intros depth cs st v st' Hc H.
  assert (task_conditions schema flag [n] = Ok (Some cs) →
    st' = st ∧ rv_value v = JBool (forallb usage_holds cs)) as Hone.
  { cbn [task_conditions]. intros Hm. apply bind_Ok_inv in Hm as ([c|] & E & Hm); [|done].
    injection Hm as <-. simpl. rewrite andb_true_r. by eapply task_condition_eval. }
  destruct n as [| | | |op l r sp|]; try (by apply Hone).
  simpl in Hc. destruct (str_eqb op (js "&&")) eqn:Eop; [|by apply Hone].
  clear Hone. simpl in IH. rewrite !Forall_cons in IH. destruct IH as (IHl & IHr & _).
  apply task_conditions_app in Hc as (c1 & c2 & -> & H1 & H2).
  apply evaluate_inv in H as [H _]. cbn [evaluateNode] in H. unfold eval_binary in H. rewrite Eop in H.
  apply st_bind_Ok_inv in H as (b & s1 & Hb & H). apply boolean_inv in Hb as (v1 & Hv1 & Hb1).
  eapply IHl in Hv1 as [-> Hv1]; [|done]. rewrite forallb_app.
  assert (b = forallb usage_holds c1) as -> by congruence.
  destruct (forallb usage_holds c1); inv_ok; [|done].
  apply boolean_inv in Hx as (v2 & Hv2 & Hb2). eapply IHr in Hv2 as [-> Hv2]; [|done]. split; [done|].
  simpl. congruence.
Qed.

Lemma task_tier_eval schema conds depth n t st v st' :
  taskTier n conds schema = Ok (Some t) → ev depth n st = Ok (v, st') →
  rs_matchedTier st' = tk_label t.
Proof.
  destruct n as [| |name args sp| | |]; try done. intros Ht [H _]%evaluate_inv. cbn [taskTier] in Ht.
  destruct (str_eqb name (js "tier")) eqn:E; [|done]. apply str_eqb_eq in E as ->.
  destruct args as [|[[| | |label]| | | | |] [|body rest]]; try done.
  cbn [evaluateNode] in H. unfold eval_call in H. js_compute_in H. cbv iota in H. cbn [arg0 arg1] in H.
  apply st_bind_Ok_inv in H as (x & s1 & Hx & H). apply string_st in Hx as (w & Hw & Hs).
  apply eval_literal_inv in Hw as [-> ->]. simpl in Hs. injection Hs as <-.
  apply st_bind_Ok_inv in H as (y & s2 & Hy & H). apply st_bind_Ok_inv in H as (u & s3 & Hm & H).
  unfold st_modify in Hm. inv_ok. destruct x as [[constant [|p prices]]|]; try done. injection Ht as <-. done.
Qed.

Lemma task_tier_conditions schema conds n t :
  taskTier n conds schema = Ok (Some t) → tk_conditions t = conds.
Proof.
  destruct n as [| |name args sp| | |]; try done. cbn [taskTier]. destruct (str_eqb name (js "tier")); [|done].
  destruct args as [|[[| | |label]| | | | |] [|body rest]]; try done. intros Ht.
  apply bind_Ok_inv in Ht as ([[constant [|p prices]]|] & _ & Ht); try done. by injection Ht as <-.
Qed.

Definition task_row_holds (t : TaskTier) : bool := forallb usage_holds (tk_conditions t).

Lemma task_chain_eval schema flag n : usage_typed schema → ∀ depth tiers st v st',
  readTaskTierChain n schema flag = Ok (Some tiers) → ev depth n st = Ok (v, st') →
  ∃ pre t post, tiers = pre ++ t :: post ∧ task_row_holds t = true
    ∧ Forall (λ u, task_row_holds u = false) pre ∧ rs_matchedTier st' = tk_label t.
Proof.
  intros Hty. induction n as [n IH] using node_children_ind. intros depth tiers st v st' Ht H.
  assert (∀ t, taskTier n [] schema = Ok (Some t) → tiers = [t] →
    ∃ pre t post, tiers = pre ++ t :: post ∧ task_row_holds t = true
      ∧ Forall (λ u, task_row_holds u = false) pre ∧ rs_matchedTier st' = tk_label t) as Hlast.
  { intros t Hn ->. pose proof (task_tier_eval _ _ _ _ _ _ _ _ Hn H) as Hl.
    exists [], t, []. split_and!; [done| |by apply Forall_nil_2|done].
    unfold task_row_holds. by rewrite (task_tier_conditions _ _ _ _ Hn). }
  destruct n as [| | | | |c y n sp]; cbn [readTaskTierChain] in Ht;
    try (apply bind_Ok_inv in Ht as ([t|] & Hx & Ht); [|done]; injection Ht as Ht; by eapply Hlast).
  clear Hlast. simpl in IH. rewrite !Forall_cons in IH. destruct IH as (_ & _ & IHn & _).
  apply bind_Ok_inv in Ht as ([conds|] & Hc & Ht); [|done].
  apply bind_Ok_inv in Ht as ([t|] & Hy & Ht); [|done].
  apply bind_Ok_inv in Ht as ([ts|] & Hn & Ht); [|done]. injection Ht as <-.
  apply evaluate_inv in H as [H _]. cbn [evaluateNode] in H.
  apply st_bind_Ok_inv in H as (b & s1 & Hb & H). apply boolean_inv in Hb as (w & Hw & Hwb).
  eapply task_conditions_eval in Hw as [-> Hw]; [|done|done].
  destruct b.
  - apply st_bind_Ok_inv in H as (u & s2 & Hm & H).
    pose proof (task_tier_eval _ _ _ _ _ _ _ _ Hy H) as Hl.
    exists [], t, ts. split_and!; [done| |by apply Forall_nil_2|done].
    unfold task_row_holds. rewrite (task_tier_conditions _ _ _ _ Hy). congruence.
  - destruct (IHn _ _ _ _ _ Hn H) as (pre & u & post & -> & Hu & Hpre & Hl).
    exists (t :: pre), u, post. split_and!; [done|done| |done]. constructor; [|done].
    unfold task_row_holds. rewrite (task_tier_conditions _ _ _ _ Hy). congruence.
Qed.
End Task.
End WithHost.

(** ** Properties *)


(** the rows shown as current at an instant contain the row an evaluation
    at that instant charges. *)
Theorem current_rows_contain_charged {host : Host} source now pricing context s :
  readTimeTokenPricing source (Some now) = Ok (Some pricing) → ctx_now context = Some now →
  evaluateBillingExpression source context = eval_success s →
  ∃ row, In row (tp_currentTiers pricing) ∧ tt_label (ti_tier row) = res_matchedTier s.
Proof.
  intros Hp Hnow Hs. apply evaluate_success_inv in Hs
    as (c & headers & v & st & Hc & _ & He & _ & _ & _ & _ & _ & Hm & _).
  unfold readTimeTokenPricing, compile in Hp. rewrite Hc in Hp.
  apply bind_Ok_inv in Hp as ([tiers|] & Ht & Hp); [|done]. injection Hp as <-.
  rewrite Hnow in He. cbn [default] in He.
  eapply time_branches_charged in He as (row & Hin & Hcur & Hl); [|exact Ht|done|done|by apply Forall_nil_2].
  exists row. split; [by apply filter_In|]. congruence.
Qed.

(** C13: the summary of task prices is what is charged: for usage facts of the
    kinds the schema declares, the matched tier is the first displayed row all of
    whose usage conditions hold. *)
Theorem task_row_is_charged {host : Host} source c schema flag tiers context s :
  compile source = ready c → readTaskTierChain (cp_ast c) schema flag = Ok (Some tiers) →
  usage_typed context schema → evaluateBillingExpression source context = eval_success s →
  ∃ pre t post, tiers = pre ++ t :: post ∧ task_row_holds context t = true
    ∧ Forall (λ u, task_row_holds context u = false) pre ∧ res_matchedTier s = tk_label t.
Proof.
  intros Hc Ht Hty Hs. apply evaluate_success_inv in Hs
    as (c' & headers & v & st & Hc' & _ & He & _ & _ & _ & _ & _ & Hm & _).
  apply compile_ready in Hc. assert (c' = c) as -> by congruence.
  rewrite Hm. by eapply task_chain_eval.
Qed.

(** ** Witnesses *)
Definition tokens_context (p c len : Z) (now : option Z) : BillingSimulationContext :=
  mkContext None (Some [(js "p", JNumber (num_of_Z p)); (js "c", JNumber (num_of_Z c));
                        (js "len", JNumber (num_of_Z len))]) None None (Some now).




Definition night_source : jsstring :=
  js "hour('UTC') < 8 ? tier('night', p * 1) : tier('day', p * 2)".

Lemma current_rows_contain_charged_witness :
  ∃ pricing s, @readTimeTokenPricing plain_host night_source (Some (Some 36000000)) = Ok (Some pricing) ∧
    @evaluateBillingExpression plain_host night_source (tokens_context 5 0 5 (Some 36000000)) = eval_success s ∧
    res_matchedTier s = js "day" ∧
    ∃ row, In row (tp_currentTiers pricing) ∧ tt_label (ti_tier row) = res_matchedTier s.
Proof.
  destruct (@readTimeTokenPricing plain_host night_source (Some (Some 36000000))) as [[pricing|]| |] eqn:Ep;
    try (vm_compute in Ep; discriminate).
  destruct (@evaluateBillingExpression plain_host night_source (tokens_context 5 0 5 (Some 36000000)))
    as [s|f] eqn:Es; [|vm_compute in Es; discriminate].
  exists pricing, s. do 2 (split; [reflexivity|]). split; [vm_compute in Es; injection Es as <-; reflexivity|].
  exact (current_rows_contain_charged night_source (Some 36000000) pricing
           (tokens_context 5 0 5 (Some 36000000)) s Ep eq_refl Es).
Defined.

Definition task_source : jsstring :=
  js "u('mode') == 'pro' && u('audio') == true ? tier('pro', u('seconds') * 0.5) : tier('std', 1 + u('seconds') * 0.25)".
Definition task_schema : BillingUsageSchema :=
  [(js "mode", mkUsageField None None (Some [js "pro"; js "std"]));
   (js "audio", mkUsageField (Some usage_boolean) None None);
   (js "seconds", mkUsageField (Some usage_number) (Some unit_second) None)].
Definition task_context : BillingSimulationContext :=
  mkContext None None None
    (Some [(js "mode", JString (js "pro")); (js "audio", JBool false); (js "seconds", JNumber (num_of_Z 4))]) None.

Lemma task_row_is_charged_witness :
  ∃ c tiers s, @compile plain_host task_source = ready c ∧
    @readTaskTierChain plain_host (cp_ast c) task_schema true = Ok (Some tiers) ∧
    @evaluateBillingExpression plain_host task_source task_context = eval_success s ∧
    ∃ pre t post, tiers = pre ++ t :: post ∧ task_row_holds task_context t = true
      ∧ Forall (λ u, task_row_holds task_context u = false) pre ∧ res_matchedTier s = tk_label t.
Proof.
  destruct (@compile plain_host task_source) as [c|f] eqn:Ec; [|vm_compute in Ec; discriminate].
  destruct (@readTaskTierChain plain_host (cp_ast c) task_schema true) as [[tiers|]| |] eqn:Et;
    try (vm_compute in Ec; injection Ec as <-; vm_compute in Et; discriminate).
  destruct (@evaluateBillingExpression plain_host task_source task_context) as [s|f] eqn:Es;
    [|vm_compute in Es; discriminate].
  exists c, tiers, s. split; [reflexivity|]. split; [exact Et|]. split; [reflexivity|].
  refine (task_row_is_charged task_source c task_schema true tiers task_context s Ec Et _ Es).
  intros field d v Hd Hv. unfold own_property, task_schema, task_context in *. cbn [find mbind option_bind ctx_usage] in *.
  destruct (str_eqb (js "mode") field); [cbn in *; injection Hd as <-; injection Hv as <-; done|].
  destruct (str_eqb (js "audio") field); [cbn in *; injection Hd as <-; injection Hv as <-; done|].
  destruct (str_eqb (js "seconds") field); [cbn in *; injection Hd as <-; injection Hv as <-; done|done].
Defined.
