(* ===== verification/Visual.v ===== *)
(** * The visual editor's documents (billing-expression/visual.ts)

    A document is the source text and a tree of tiers, branches and conditions
    read from its compiled form; every part remembers the node it was read from
    (its origin), so that writing reuses the source text of untouched parts.
    [issues], the array the writers push to, is the state of a monad. *)
From S2P Require Import Prelude JsString JsNumber JsJson JsValue Host BillingTypes Parser Compile Runtime Display.
Local Open Scope Z_scope.

(** ** Documents *)
Inductive VisualProbe := probe_token (v : TokenVariable) | probe_time (f : TimeFunction).

Definition probe_name (p : VisualProbe) : jsstring :=
  match p with
  | probe_token v => token_variable_name v
  | probe_time f => time_function_name f
  end.

Record VisualComparison := mkComparison {
  vc_probe : VisualProbe;
  vc_timezone : jsstring;
  vc_operator : jsstring;
  vc_value : jsstring;
}.

Record Origin := mkOrigin { or_id : jsstring; or_origin : option ExpressionNode }.

Inductive VisualCondition :=
| vis_comparison (o : Origin) (c : VisualComparison)
| vis_all (o : Origin) (children : list VisualCondition)
| vis_any (o : Origin) (children : list VisualCondition)
| vis_not (o : Origin) (child : VisualCondition).

Definition condition_origin (c : VisualCondition) : Origin :=
  match c with
  | vis_comparison o _ | vis_all o _ | vis_any o _ | vis_not o _ => o
  end.

Record VisualPrice := mkPrice {
  vp_variable : TokenVariable;
  vp_value : jsstring;
  vp_origin : option ExpressionNode;
}.

Record VisualTier := mkVisualTier {
  vt_label : jsstring;
  vt_prices : list VisualPrice;
  vt_billingUnit : BillingUnit;
  vt_fixedPrice : jsstring;
}.

Inductive VisualPricingNode :=
| vis_tier (o : Origin) (t : VisualTier)
| vis_branch (o : Origin) (condition : VisualCondition) (yes no : VisualPricingNode).

Definition pricing_id (n : VisualPricingNode) : jsstring :=
  match n with vis_tier o _ | vis_branch o _ _ _ => or_id o end.

Record VisualBillingDocument := mkDocument { doc_source : jsstring; doc_root : VisualPricingNode }.

Record VisualBillingIssue := mkIssue { issue_id : jsstring; issue_message : jsstring }.

Inductive VisualBillingSerialization :=
| serial_ok (source : jsstring)
| serial_issues (issues : list VisualBillingIssue).

Definition COMPARISONS : list jsstring := [js "<"; js "<="; js ">"; js ">="; js "=="; js "!="].

Definition TIME_DOMAINS (f : TimeFunction) : Z * Z :=
  match f with
  | time_hour => (0, 23) | time_minute => (0, 59) | time_weekday => (0, 6)
  | time_month => (1, 12) | time_day => (1, 31)
  end.

(** The module counter [nextId]. *)
Definition visualNodeId (nextId : Z) : jsstring * Z :=
  (js "draft-" ++ string_of_Z (nextId + 1), nextId + 1).

Definition createEmptyVisualCondition (nextId : Z) : VisualCondition * Z :=
  let '(id, nextId') := visualNodeId nextId in
  (vis_comparison (mkOrigin id None)
     (mkComparison (probe_time time_hour) (js "Asia/Shanghai") (js ">=") []), nextId').

(** ** Reading *)
Definition span_id (kind : string) (node : ExpressionNode) : jsstring :=
  js kind ++ string_of_Z (Z.of_nat (node_start node)) ++ js "-" ++ string_of_Z (Z.of_nat (node_end node)).

(** [children.some(child => child === null) ? null : children] *)
Fixpoint all_some {A} (l : list (option A)) : option (list A) :=
  match l with
  | [] => Some []
  | x :: l' => a ← x; l'' ← all_some l'; Some (a :: l'')
  end.

Definition string_of_literal (v : literal_value) : jsstring :=
  match v with
  | lit_null => js "null"
  | lit_bool b => string_of_bool b
  | lit_number x => String_of_number x
  | lit_string s => s
  end.

Section WithHost.
Context {host : Host}.

(** The probe of a comparison: a token variable, or a time function with its
    time zone. *)
Definition read_probe (l : ExpressionNode) : result (option (VisualProbe * jsstring)) :=
  match l with
  | variable (token_variable v) _ =>
      Ok (if is_tier_variable v then Some (probe_token v, []) else None)
  | call name args _ =>
      match time_function_of_name name with
      | None => Ok None
      | Some f =>
          match args with
          | [] => undefined_read "kind"
          | literal (lit_string zone) _ _ :: _ => Ok (Some (probe_time f, zone))
          | _ :: _ => Ok None
          end
      end
  | _ => Ok None
  end.

Definition read_comparison (node : ExpressionNode) (o : Origin) : result (option VisualCondition) :=
  match node with
  | binary op l (literal (lit_number x) _ _) _ =>
      if str_in op COMPARISONS then
        probe ← read_probe l;
        Ok (match probe with
            | Some (p, zone) => Some (vis_comparison o (mkComparison p zone op (String_of_number x)))
            | None => None
            end)
      else Ok None
  | _ => Ok None
  end.

(** The recursion goes through [flattenBinary]; the size of the node bounds it. *)
Fixpoint read_condition (fuel : nat) (node : ExpressionNode) : result (option VisualCondition) :=
  match fuel with
  | O => NoFuel
  | S fuel' =>
      let o := mkOrigin (span_id "condition-" node) (Some node) in
      match node with
      | unary op operand _ =>
          if str_eqb op (js "!") then
            child ← read_condition fuel' operand;
            Ok (option_map (vis_not o) child)
          else read_comparison node o
      | binary op _ _ _ =>
          if is_logical op then
            children ← sequence_results (map (read_condition fuel') (flattenBinary node op));
            Ok (option_map (if str_eqb op (js "&&") then vis_all o else vis_any o) (all_some children))
          else read_comparison node o
      | _ => read_comparison node o
      end
  end.

Definition readVisualCondition (node : ExpressionNode) : result (option VisualCondition) :=
  read_condition (node_size node) node.

(** One term of a tier body. *)
Definition read_price (term : ExpressionNode) : option VisualPrice :=
  match term with
  | binary op (variable (token_variable v) _) (literal (lit_number x) _ _) _ =>
      if str_eqb op (js "*") && negb (bool_decide (v = var_len)) && negb (is_negative x)
      then Some (mkPrice v (String_of_number x) (Some term)) else None
  | _ => None
  end.

Fixpoint read_prices (terms : list ExpressionNode) (prices : list VisualPrice)
    : option (list VisualPrice) :=
  match terms with
  | [] => Some prices
  | term :: terms' =>
      price ← read_price term;
      if bool_decide (vp_variable price ∈ map vp_variable prices) then None
      else read_prices terms' (prices ++ [price])
  end.

(** The literal of [fixed(literal)]. *)
Definition read_fixed (body : ExpressionNode) : result (option literal_value) :=
  match body with
  | call name args _ =>
      if str_eqb name (js "fixed") then
        match args with
        | [] => undefined_read "kind"
        | literal v _ _ :: _ => Ok (Some v)
        | _ :: _ => Ok None
        end
      else Ok None
  | _ => Ok None
  end.

Fixpoint readVisualPricing (node : ExpressionNode) : result (option VisualPricingNode) :=
  let o := mkOrigin (span_id "pricing-" node) (Some node) in
  match node with
  | conditional c yes no _ =>
      condition ← readVisualCondition c;
      y ← readVisualPricing yes;
      n ← readVisualPricing no;
      Ok (match condition, y, n with
          | Some condition, Some y, Some n => Some (vis_branch o condition y n)
          | _, _, _ => None
          end)
  | call name args _ =>
      if str_eqb name (js "tier") then
        match args with
        | [] => undefined_read "kind"
        | literal (lit_string label) _ _ :: rest =>
            match rest with
            | [] => undefined_read "kind"
            | body :: _ =>
                fixed ← read_fixed body;
                Ok (match fixed with
                    | Some v => Some (vis_tier o (mkVisualTier label [] unit_request (string_of_literal v)))
                    | None =>
                        prices ← read_prices (flattenBinary body (js "+")) [];
                        Some (vis_tier o (mkVisualTier label prices unit_token []))
                    end)
            end
        | _ :: _ => Ok None
        end
      else Ok None
  | _ => Ok None
  end.

(** ** Writing *)

(** [s.slice(a, b)] with JavaScript's relative indices. *)
Definition relative_index (s : jsstring) (i : Z) : nat :=
  let len := Z.of_nat (length s) in
  Z.to_nat (if i <? 0 then Z.max 0 (len + i) else Z.min i len).
Definition js_slice (s : jsstring) (a b : Z) : jsstring := slice s (relative_index s a) (relative_index s b).
Definition js_slice_from (s : jsstring) (a : Z) : jsstring := drop (relative_index s a) s.

Definition node_text (source : jsstring) (n : ExpressionNode) : jsstring :=
  slice source (node_start n) (node_end n).

(** A stable sort of the patches, the greatest start first. *)
Fixpoint insert_patch (p : ExpressionNode * jsstring) (l : list (ExpressionNode * jsstring))
    : list (ExpressionNode * jsstring) :=
  match l with
  | [] => [p]
  | q :: l' =>
      if (node_start (fst q) <? node_start (fst p))%nat then p :: l else q :: insert_patch p l'
  end.
Definition sort_patches (l : list (ExpressionNode * jsstring)) : list (ExpressionNode * jsstring) :=
  fold_left (λ acc p, insert_patch p acc) l [].

Definition apply_patch (origin : ExpressionNode) (text : jsstring) (patch : ExpressionNode * jsstring)
    : jsstring :=
  let base := Z.of_nat (node_start origin) in
  js_slice text 0 (Z.of_nat (node_start (fst patch)) - base) ++ snd patch
  ++ js_slice_from text (Z.of_nat (node_end (fst patch)) - base).

Definition patchSource (source : jsstring) (origin : ExpressionNode)
    (patches : list (ExpressionNode * jsstring)) : jsstring :=
  fold_left (apply_patch origin) (sort_patches patches) (node_text source origin).

Definition parseNonNegativeNumber (value : jsstring) : option number :=
  match match_number (trim value) with
  | Some text =>
      if str_eqb text (trim value) then
        let x := Number_of_string value in
        if isFinite x && num_leb num_zero x then Some x else None
      else None
  | None => None
  end.

(** [value === literal.value] for a parsed number or [null]. *)
Definition is_literal_value (value : option number) (v : literal_value) : bool :=
  match value, v with
  | Some x, lit_number y => num_eqb x y
  | None, lit_null => true
  | _, _ => false
  end.

Abbreviation W := (ST (list VisualBillingIssue) exn).

Definition push_issue (id : jsstring) (message : string) : W unit :=
  st_modify (λ issues, issues ++ [mkIssue id (js message)]).
Definition push_issue_if (b : bool) (id : jsstring) (message : string) : W unit :=
  if b then push_issue id message else mret tt.

(** [a === b] where [a] may be undefined. *)
Definition same_origin (a : option ExpressionNode) (b : ExpressionNode) : bool :=
  match a with Some n => same_node n b | None => false end.

Fixpoint all_origins (origins : list (option ExpressionNode)) (nodes : list ExpressionNode) : bool :=
  match origins, nodes with
  | [], [] => true
  | a :: origins', b :: nodes' => same_origin a b && all_origins origins' nodes'
  | _, _ => false
  end.

(** [0 <= value <= max] in the domain of a time function; [<] also takes
    [max + 1]. *)
Definition in_time_domain (f : TimeFunction) (op : jsstring) (value : option number) : bool :=
  match value with
  | None => false
  | Some x =>
      let '(lo, hi) := TIME_DOMAINS f in
      isInteger x && num_leb (num_of_Z lo) x
      && num_leb x (num_of_Z (hi + (if str_eqb op (js "<") then 1 else 0)))
  end.

Definition valid_comparison (c : VisualComparison) (value : option number) : bool :=
  match vc_probe c with
  | probe_time f => in_time_domain f (vc_operator c) value
  | probe_token _ => match value with Some _ => true | None => false end
  end.

(** The time zone literal of the original probe. *)
Definition original_zone (origin : option ExpressionNode) : result (option literal_value) :=
  match origin with
  | Some (binary _ (call _ args _) _ _) =>
      match args with
      | [] => undefined_read "kind"
      | literal v _ _ :: _ => Ok (Some v)
      | _ :: _ => Ok None
      end
  | _ => Ok None
  end.

Definition is_string_literal (s : jsstring) (v : literal_value) : bool :=
  match v with lit_string t => str_eqb s t | _ => false end.

(** The time zone of an edited time probe must be one the environment knows. *)
Definition check_timezone (id : jsstring) (c : VisualComparison) (origin : option ExpressionNode) : W unit :=
  match vc_probe c with
  | probe_token _ => mret tt
  | probe_time _ =>
      zone ← st_lift (original_zone origin);
      let unchanged := match zone with Some v => is_string_literal (vc_timezone c) v | None => false end in
      let known := negb (str_eqb (trim (vc_timezone c)) []) && valid_time_zone (trim (vc_timezone c)) in
      push_issue_if (negb unchanged && negb known) id "Choose a valid IANA timezone."
  end.

Definition probe_text (c : VisualComparison) : jsstring :=
  match vc_probe c with
  | probe_time _ => probe_name (vc_probe c) ++ js "(" ++ JSON_stringify (vc_timezone c) ++ js ")"
  | probe_token _ => probe_name (vc_probe c)
  end.

(** The text of the probe, reused from the source when it is unchanged. *)
Definition patched_probe (source : jsstring) (c : VisualComparison) (oldProbe : ExpressionNode)
    : result jsstring :=
  match oldProbe with
  | variable name _ =>
      Ok (if str_eqb (variable_name name) (probe_name (vc_probe c)) then node_text source oldProbe
          else probe_text c)
  | call name args _ =>
      if str_eqb name (probe_name (vc_probe c)) then
        match args with
        | [] => undefined_read "kind"
        | literal v _ _ :: _ =>
            Ok (if is_string_literal (vc_timezone c) v then node_text source oldProbe else probe_text c)
        | _ :: _ => Ok (probe_text c)
        end
      else Ok (probe_text c)
  | _ => Ok (probe_text c)
  end.

Definition patched_value (source : jsstring) (value : option number) (old : ExpressionNode)
    (new : jsstring) : jsstring :=
  match old with
  | literal v _ _ => if is_literal_value value v then node_text source old else new
  | _ => new
  end.

Definition writeComparison (o : Origin) (c : VisualComparison) (source : jsstring) : W jsstring :=
  let value := parseNonNegativeNumber (vc_value c) in
  push_issue_if (negb (valid_comparison c value)) (or_id o) "Enter a valid condition value.";;
  check_timezone (or_id o) c (or_origin o);;
  let fresh := js "(" ++ probe_text c ++ js " " ++ vc_operator c ++ js " " ++ vc_value c ++ js ")" in
  match or_origin o with
  | Some (binary op l r _ as origin) =>
      if str_eqb op (vc_operator c) then
        probeText ← st_lift (patched_probe source c l);
        mret (patchSource source origin [(l, probeText); (r, patched_value source value r (vc_value c))])
      else mret fresh
  | _ => mret fresh
  end.

Fixpoint map_W {A B} (f : A → W B) (l : list A) : W (list B) :=
  match l with
  | [] => mret []
  | a :: l' => b ← f a; bs ← map_W f l'; mret (b :: bs)
  end.

(** The text of a group, given the texts of its children. *)
Definition group_text (source : jsstring) (o : Origin) (operator : jsstring)
    (origins : list (option ExpressionNode)) (texts : list jsstring) : jsstring :=
  let fresh := js "(" ++ join (js " " ++ operator ++ js " ")
                           (map (λ child, js "(" ++ child ++ js ")") texts) ++ js ")" in
  match or_origin o with
  | Some (binary op _ _ _ as origin) =>
      let original := flattenBinary origin operator in
      if str_eqb op operator && all_origins origins original
      then patchSource source origin (zip original texts) else fresh
  | _ => fresh
  end.

Definition write_group (source : jsstring) (o : Origin) (operator : jsstring)
    (children : list VisualCondition) (write : VisualCondition → W jsstring) : W jsstring :=
  push_issue_if (match children with [] => true | _ => false end) (or_id o)
    "Add at least one condition to this group.";;
  texts ← map_W write children;
  mret (group_text source o operator (map (λ c, or_origin (condition_origin c)) children) texts).

Fixpoint writeVisualCondition (source : jsstring) (node : VisualCondition) : W jsstring :=
  match node with
  | vis_not o child =>
      text ← writeVisualCondition source child;
      match or_origin o with
      | Some (unary _ operand _ as origin) =>
          if same_origin (or_origin (condition_origin child)) operand
          then mret (patchSource source origin [(operand, text)])
          else mret (js "!(" ++ text ++ js ")")
      | _ => mret (js "!(" ++ text ++ js ")")
      end
  | vis_all o children => write_group source o (js "&&") children (writeVisualCondition source)
  | vis_any o children => write_group source o (js "||") children (writeVisualCondition source)
  | vis_comparison o c => writeComparison o c source
  end.

Definition visualConditionExpression (node : VisualCondition) (source : jsstring)
    : result (option jsstring) :=
  '(expression, issues) ← writeVisualCondition source node [];
  Ok (match issues with [] => Some expression | _ => None end).

(** The first two arguments of the original [tier] call. *)
Definition tier_arguments (args : list ExpressionNode) : result (ExpressionNode * ExpressionNode) :=
  match args with
  | label :: price :: _ => Ok (label, price)
  | _ => undefined_read "kind"
  end.

Definition label_text (source : jsstring) (old : ExpressionNode) (label : jsstring) : jsstring :=
  match old with
  | literal v _ _ => if is_string_literal label v then node_text source old else JSON_stringify label
  | _ => JSON_stringify label
  end.

Definition fixed_text (source : jsstring) (value : option number) (price : ExpressionNode)
    (fixedPrice : jsstring) : result jsstring :=
  let fresh := js "fixed(" ++ fixedPrice ++ js ")" in
  match price with
  | call name args _ =>
      if str_eqb name (js "fixed") then
        match args with
        | [] => undefined_read "kind"
        | literal v _ _ as amount :: _ =>
            Ok (patchSource source price [(amount, patched_value source value amount fixedPrice)])
        | _ :: _ => Ok fresh
        end
      else Ok fresh
  | _ => Ok fresh
  end.

Definition price_message : string := "Enter a finite, non-negative price.".

Definition write_request_tier (source : jsstring) (o : Origin) (t : VisualTier) : W jsstring :=
  let value := parseNonNegativeNumber (vt_fixedPrice t) in
  let bad := match value with Some x => negb (isFinite (num_mul x million)) | None => true end in
  push_issue_if bad (or_id o ++ js ":fixed") price_message;;
  let fresh := js "tier(" ++ JSON_stringify (vt_label t) ++ js ", fixed(" ++ vt_fixedPrice t ++ js "))" in
  match or_origin o with
  | Some (call name args _ as origin) =>
      if str_eqb name (js "tier") then
        '(label, price) ← st_lift (tier_arguments args);
        priceText ← st_lift (fixed_text source value price (vt_fixedPrice t));
        mret (patchSource source origin [(label, label_text source label (vt_label t)); (price, priceText)])
      else mret fresh
  | _ => mret fresh
  end.

(** One price of a token tier: its patches and its term. *)
Definition write_price (source : jsstring) (o : Origin) (p : VisualPrice)
    : W (list (ExpressionNode * jsstring) * jsstring) :=
  let value := parseNonNegativeNumber (vp_value p) in
  push_issue_if (match value with None => true | _ => false end)
    (or_id o ++ js ":" ++ token_variable_name (vp_variable p)) price_message;;
  match vp_origin p with
  | Some (binary _ _ (literal _ _ _ as r) _ as origin) =>
      let text := patched_value source value r (vp_value p) in
      mret ([(r, text)], patchSource source origin [(r, text)])
  | _ => mret ([], token_variable_name (vp_variable p) ++ js " * " ++ vp_value p)
  end.

Definition write_token_tier (source : jsstring) (o : Origin) (t : VisualTier) : W jsstring :=
  push_issue_if (match vt_prices t with [] => true | _ => false end) (or_id o)
    "Include at least one price variable.";;
  written ← map_W (write_price source o) (vt_prices t);
  let terms := join (js " + ") (map snd written) in
  let fresh := js "tier(" ++ JSON_stringify (vt_label t) ++ js ", " ++ terms ++ js ")" in
  match or_origin o with
  | Some (call name args _ as origin) =>
      if str_eqb name (js "tier") then
        '(label, body) ← st_lift (tier_arguments args);
        let labelPatch := (label, label_text source label (vt_label t)) in
        mret (if all_origins (map vp_origin (vt_prices t)) (flattenBinary body (js "+"))
              then patchSource source origin (labelPatch :: concat (map fst written))
              else patchSource source origin [labelPatch; (body, terms)])
      else mret fresh
  | _ => mret fresh
  end.

Fixpoint writeVisualPricing (source : jsstring) (node : VisualPricingNode) : W jsstring :=
  match node with
  | vis_branch o condition yes no =>
      c ← writeVisualCondition source condition;
      y ← writeVisualPricing source yes;
      n ← writeVisualPricing source no;
      match or_origin o with
      | Some (conditional oc oy on _ as origin) => mret (patchSource source origin [(oc, c); (oy, y); (on, n)])
      | _ => mret (js "(" ++ c ++ js ") ? (" ++ y ++ js ") : (" ++ n ++ js ")")
      end
  | vis_tier o t =>
      match vt_billingUnit t with
      | unit_request => write_request_tier source o t
      | unit_token => write_token_tier source o t
      end
  end.

Definition serializeVisualBillingDocument (document : VisualBillingDocument)
    : result VisualBillingSerialization :=
  '(body, issues) ← writeVisualPricing (doc_source document) (doc_root document) [];
  Ok (match issues with
      | _ :: _ => serial_issues issues
      | [] =>
          let id := pricing_id (doc_root document) in
          match compile (doc_source document) with
          | failed _ =>
              serial_issues
                [mkIssue id (js "This expression cannot be edited visually without losing information.")]
          | ready original =>
              let source := take (node_start (cp_ast original)) (doc_source document) ++ body
                            ++ drop (node_end (cp_ast original)) (doc_source document) in
              match compile source with
              | failed _ => serial_issues [mkIssue id (js "Enter a valid condition value.")]
              | ready _ => serial_ok source
              end
          end
      end).

Definition parseVisualBillingDocument (source : jsstring) : result (option VisualBillingDocument) :=
  match compile source with
  | failed _ => Ok None
  | ready compiled =>
      root ← readVisualPricing (cp_ast compiled);
      match root with
      | None => Ok None
      | Some root =>
          let document := mkDocument source root in
          serialized ← serializeVisualBillingDocument document;
          Ok (match serialized with serial_ok _ => Some document | serial_issues _ => None end)
      end
  end.
End WithHost.
