(* ===== verification/VisualFacts.v ===== *)
(** * Visual documents are lossless

    Reading an expression as a document and writing the untouched document
    gives the same text.  Every part is written by patching the text of the
    node it was read from; a patch that puts back a node's own text changes
    nothing, and a literal's text field reads back as the literal's value. *)
From S2P Require Import Prelude JsString JsNumber JsNumberFacts JsJson JsValue Host BillingTypes Parser ParserFacts Compile CompileFacts Runtime Display Visual.
Local Open Scope Z_scope.

(** ** Patches that change nothing *)
Definition within (o n : ExpressionNode) : Prop :=
  (node_start o ≤ node_start n)%nat ∧ (node_start n ≤ node_end n)%nat ∧ (node_end n ≤ node_end o)%nat.

Lemma within_refl n : wf_node n → within n n.
Proof. intros H%wf_nonempty. unfold within. lia. Qed.

Lemma within_trans a b c : within a b → within b c → within a c.
Proof. unfold within. lia. Qed.

Lemma wf_children_within n : wf_node n → Forall (λ c, within n c ∧ wf_node c) (children_of n).
Proof.
  intros [Hlt Ho Hl Hs Hc].
  assert (Forall (λ c, node_start c < node_end c)%nat (children_of n)) as Hne
    by (eapply Forall_impl; [exact Hc|apply wf_nonempty]).
  destruct (ordered_bounds _ _ _ Ho Hne) as [_ Hb]. rewrite Forall_forall in *.
  intros c Hin. split; [|auto]. specialize (Hb c Hin). specialize (Hne c Hin). unfold within. simpl in *. lia.
Qed.

Lemma relative_index_in s i : 0 ≤ i ≤ Z.of_nat (length s) → relative_index s i = Z.to_nat i.
Proof. intros H. unfold relative_index. rewrite (proj2 (Z.ltb_ge _ _)) by lia. f_equal. lia. Qed.

Section Source.
Context (source : jsstring).

Lemma apply_patch_id o n : within o n → (node_end o ≤ length source)%nat →
  apply_patch o (node_text source o) (n, node_text source n) = node_text source o.
Proof.
  intros (H1 & H2 & H3) Hlen. unfold apply_patch, js_slice, js_slice_from. cbn [fst snd].
  assert (length (node_text source o) = node_end o - node_start o)%nat as Hl by (by apply slice_length).
  rewrite !relative_index_in by lia. unfold node_text at 1 2 3.
  replace (Z.to_nat 0) with 0%nat by done.
  replace (Z.to_nat (Z.of_nat (node_start n) - Z.of_nat (node_start o))) with (node_start n - node_start o)%nat by lia.
  replace (Z.to_nat (Z.of_nat (node_end n) - Z.of_nat (node_start o))) with (node_end n - node_start o)%nat by lia.
  rewrite slice_slice by lia.
  replace (drop (node_end n - node_start o) (slice source (node_start o) (node_end o)))
    with (slice (slice source (node_start o) (node_end o)) (node_end n - node_start o) (node_end o - node_start o)).
  - rewrite slice_slice by lia.
    replace (node_start o + 0)%nat with (node_start o) by lia.
    replace (node_start o + (node_start n - node_start o))%nat with (node_start n) by lia.
    replace (node_start o + (node_end n - node_start o))%nat with (node_end n) by lia.
    replace (node_start o + (node_end o - node_start o))%nat with (node_end o) by lia.
    unfold node_text. rewrite <- slice_split, <- slice_split by lia. done.
  - unfold slice at 1. apply take_ge. rewrite length_drop. unfold node_text in Hl. lia.
Qed.

Definition keeps (o : ExpressionNode) (p : ExpressionNode * jsstring) : Prop :=
  within o (fst p) ∧ snd p = node_text source (fst p).

Lemma insert_patch_Forall P p l : P p → Forall P l → Forall P (insert_patch p l).
Proof. intros Hp. induction 1 as [|q l Hq Hl IH]; simpl; [by repeat constructor|]. case_match; by repeat constructor. Qed.

Lemma sort_patches_Forall P l : Forall P l → Forall P (sort_patches l).
Proof.
  unfold sort_patches. assert (Forall P []) as H0 by constructor. revert H0. generalize (@nil (ExpressionNode * jsstring)).
  induction l as [|p l IH]; intros acc Ha Hl; simpl; [done|].
  apply Forall_cons in Hl as [Hp Hl]. apply IH; [|done]. by apply insert_patch_Forall.
Qed.

Lemma patchSource_id o patches : (node_end o ≤ length source)%nat → Forall (keeps o) patches →
  patchSource source o patches = node_text source o.
Proof.
  intros Hlen Hp%sort_patches_Forall. unfold patchSource. induction Hp as [|[n t] l [Hw Ht] Hl IH]; simpl; [done|].
  simpl in *. subst t. by rewrite apply_patch_id.
Qed.

(** ** Writers that answer with a given text, whatever issues they report *)
Definition runs {A} (w : ST (list VisualBillingIssue) exn A) (P : A → Prop) : Prop :=
  ∀ issues, ∃ a issues', w issues = Ok (a, issues') ∧ P a.

Lemma runs_ret {A} (a : A) (P : A → Prop) : P a → runs (mret a) P.
Proof. intros H issues. by exists a, issues. Qed.

Lemma runs_bind {A B} (w : ST (list VisualBillingIssue) exn A) (f : A → ST (list VisualBillingIssue) exn B) P Q :
  runs w P → (∀ a, P a → runs (f a) Q) → runs (w ≫= f) Q.
Proof.
  intros Hw Hf issues. destruct (Hw issues) as (a & i1 & E1 & Ha). destruct (Hf a Ha i1) as (b & i2 & E2 & Hb).
  exists b, i2. unfold mbind, st_bind. by rewrite E1.
Qed.

Lemma runs_push_if b id m : runs (push_issue_if b id m) (λ _, True).
Proof. intros issues. destruct b; simpl; eexists _, _; by split. Qed.

Lemma runs_lift {A} (a : A) (P : A → Prop) : P a → runs (st_lift (Ok a)) P.
Proof. intros H issues. by exists a, issues. Qed.

Lemma runs_map {A B} (f : A → ST (list VisualBillingIssue) exn B) l (R : A → B → Prop) :
  Forall (λ a, runs (f a) (R a)) l → runs (map_W f l) (Forall2 R l).
Proof.
  induction 1 as [|a l Ha Hl IH]; simpl; [by apply runs_ret|].
  eapply runs_bind; [exact Ha|]. intros b Hb. eapply runs_bind; [exact IH|]. intros bs Hbs.
  apply runs_ret. by constructor.
Qed.

Lemma runs_map_eq {A B} (f : A → ST (list VisualBillingIssue) exn B) l (g : A → B) :
  Forall (λ a, runs (f a) (eq (g a))) l → runs (map_W f l) (eq (map g l)).
Proof.
  induction 1 as [|a l Ha Hl IH]; simpl; [by apply runs_ret|].
  eapply runs_bind; [exact Ha|]. intros b <-. eapply runs_bind; [exact IH|]. intros bs <-. by apply runs_ret.
Qed.

(** ** Reading *)
Lemma flatten_wf op n : wf_node n → Forall (λ m, within n m ∧ wf_node m) (flattenBinary n op).
Proof.
  induction n as [n IH] using node_children_ind. intros Hwf. pose proof (wf_children_within n Hwf) as Hc.
  assert (Forall (λ m, within n m ∧ wf_node m) [n]) as Hn by (apply Forall_singleton; auto using within_refl).
  destruct n as [v i sp|v sp|name args sp|o a sp|o l r sp|c y e sp]; simpl in *;
    try exact Hn.
  apply Forall_cons in IH as [IHl IH]. apply Forall_cons in IH as [IHr _].
  apply Forall_cons in Hc as [[Hl Hwl] Hc]. apply Forall_cons in Hc as [[Hr' Hwr] _].
  case_match; [|exact Hn].
  apply Forall_app; split.
  - eapply Forall_impl; [by apply IHl|]. intros m [Hm ?]. split; [|done]. exact (within_trans _ _ _ Hl Hm).
  - eapply Forall_impl; [by apply IHr|]. intros m [Hm ?]. split; [|done]. exact (within_trans _ _ _ Hr' Hm).
Qed.

Lemma literal_number_inv x : is_literal_number x = true →
  isFinite x = true ∧ num_leb num_zero x = true ∧ isNaN x = false ∧ is_negative x = false.
Proof. intros [_ H]%andb_prop. by destruct x as [[]|[]| |[] ? ?]. Qed.

Lemma parse_String_of_literal x : is_literal_number x = true →
  parseNonNegativeNumber (String_of_number x) = Some x.
Proof.
  intros Hx. unfold parseNonNegativeNumber, match_number.
  destruct (String_of_number_scan x Hx) as [-> (m & e & ->)].
  rewrite firstn_all, str_eqb_refl, Number_of_String by done.
  by destruct (literal_number_inv x Hx) as (-> & -> & _).
Qed.

Lemma num_eqb_refl x : isNaN x = false → num_eqb x x = true.
Proof.
  destruct x as [[]|[]| |[] m e]; simpl; try done; intros _; unfold num_eqb, SFeqb, SFcompare;
    rewrite Z.compare_refl; change (Pos.compare_cont Eq m m) with (Pos.compare m m); by rewrite Pos.compare_refl.
Qed.

Lemma patched_literal x integer sp : is_literal_number x = true →
  patched_value source (parseNonNegativeNumber (String_of_number x)) (literal (lit_number x) integer sp)
    (String_of_number x) = node_text source (literal (lit_number x) integer sp).
Proof.
  intros Hx. rewrite parse_String_of_literal by done. simpl. rewrite num_eqb_refl; [done|].
  by apply literal_number_inv.
Qed.

Lemma time_function_of_name_inv name f : time_function_of_name name = Some f → time_function_name f = name.
Proof. intros H%find_some. destruct H as [_ H]. by apply str_eqb_eq in H. Qed.

Section WithHost.
Context {host : Host}.

(** A written condition keeps its text, and its origin is its node. *)
Definition reads_back (n : ExpressionNode) (c : VisualCondition) : Prop :=
  or_origin (condition_origin c) = Some n ∧ runs (writeVisualCondition source c) (eq (node_text source n)).

(** A probe read from a node keeps its time zone and its text. *)
Lemma timezone_runs id p zone op op' value l r sp : read_probe l = Ok (Some (p, zone)) →
  runs (check_timezone id (mkComparison p zone op value) (Some (binary op' l r sp))) (λ _, True).
Proof.
  intros Hp. unfold check_timezone. cbn [vc_probe]. destruct p as [v|f]; [by apply runs_ret|].
  unfold read_probe in Hp. destruct l as [| [v|] ?|name args spl| | |]; try done; [by case_match|].
  destruct (time_function_of_name name); [|done]. cbn [original_zone].
  destruct args as [|[[] ? ?| | | | |] ?]; try done.
  eapply runs_bind; [by apply (runs_lift _ (λ _, True))|]. intros ? _. apply runs_push_if.
Qed.

Lemma probe_kept p zone op value l : read_probe l = Ok (Some (p, zone)) →
  patched_probe source (mkComparison p zone op value) l = Ok (node_text source l).
Proof.
  intros Hp. unfold read_probe in Hp. destruct l as [| [v|] ?|name args spl| | |]; try done.
  - simpl in Hp. destruct (is_tier_variable v); [|done]. injection Hp as <- <-. simpl. by rewrite str_eqb_refl.
  - destruct (time_function_of_name name) as [f|] eqn:Ef; [|done].
    apply time_function_of_name_inv in Ef as <-.
    destruct args as [|[[] ? ?| | | | |] ?]; try done. injection Hp as <- <-. simpl. by rewrite !str_eqb_refl.
Qed.

Lemma comparison_reads_back n id c : wf_node n → (node_end n ≤ length source)%nat →
  read_comparison n (mkOrigin id (Some n)) = Ok (Some c) → reads_back n c.
Proof.
  intros Hwf Hlen H. unfold read_comparison in H.
  destruct n as [v i sp|v sp|name args sp|o a sp|op l r sp|cc y e sp]; try done.
  destruct r as [[| |x|] i sp'| | | | |]; try done. destruct (str_in op COMPARISONS); [|done].
  pose proof (wf_children_within _ Hwf) as Hc. simpl in Hc.
  apply Forall_cons in Hc as [[Hl _] Hc]. apply Forall_cons in Hc as [[Hr Hwr] _].
  assert (is_literal_number x = true) as Hx by (by destruct Hwr as [_ _ _ Hs _]).
  apply bind_Ok_inv in H as ([[p zone]|] & Hp & H); [|done]. injection H as <-. split; [done|].
  cbn [writeVisualCondition]. unfold writeComparison. cbn [or_id or_origin vc_value vc_operator].
  eapply runs_bind; [apply runs_push_if|]. intros [] _. cbv beta.
  eapply runs_bind; [by apply timezone_runs|]. intros [] _. cbv beta. rewrite str_eqb_refl.
  erewrite probe_kept by done.
  eapply runs_bind; [by apply (runs_lift _ (eq (node_text source l)))|]. intros ? <-. apply runs_ret.
  rewrite patched_literal by done. symmetry. apply patchSource_id; [done|].
  by repeat apply Forall_cons_2; [split|split|apply Forall_nil_2].
Qed.

Lemma all_origins_refl l : all_origins (map Some l) l = true.
Proof. induction l as [|n l IH]; simpl; [done|]. by rewrite same_node_refl. Qed.

Lemma sequence_results_inv {A} (l : list (result A)) xs : sequence_results l = Ok xs → Forall2 (λ r x, r = Ok x) l xs.
Proof.
  revert xs. induction l as [|r l IH]; simpl; intros xs H; inv_ok; constructor; auto.
Qed.

Lemma all_some_inv {A} (l : list (option A)) xs : all_some l = Some xs → l = map Some xs.
Proof.
  revert xs. induction l as [|[a|] l IH]; simpl; intros xs H; [by injection H as <-| |done].
  destruct (all_some l) as [ys|]; [|done]. injection H as <-. simpl. f_equal. by apply IH.
Qed.

Lemma is_logical_inv op : is_logical op = true → op = js "&&" ∨ op = js "||".
Proof.
  unfold is_logical, str_in. simpl. rewrite orb_false_r.
  intros [E|E]%orb_prop; apply str_eqb_eq in E; auto.
Qed.

(** Reading the operands of a group one by one. *)
Lemma children_read (R : ExpressionNode → VisualCondition → Prop) fuel n op cs :
  (∀ m c, wf_node m → (node_end m ≤ length source)%nat → read_condition fuel m = Ok (Some c) → R m c) →
  wf_node n → (node_end n ≤ length source)%nat →
  sequence_results (map (read_condition fuel) (flattenBinary n op)) = Ok (map Some cs) →
  Forall2 R (flattenBinary n op) cs.
Proof.
  intros HR Hwf Hlen Hs%sequence_results_inv. pose proof (flatten_wf op _ Hwf) as Hf.
  revert cs Hs. induction Hf as [|m ms [Hw Hwm] _ IHms]; intros cs Hs.
  - apply Forall2_nil_inv_l in Hs. destruct cs; [constructor|done].
  - simpl in Hs. apply Forall2_cons_inv_l in Hs as (x & xs & Hx & Hxs & Heq).
    destruct cs as [|c0 cs]; [done|]. injection Heq as <- <-. constructor; [|by apply IHms].
    apply HR; [done| |done]. destruct Hw as (?&?&?). lia.
Qed.

Lemma group_reads_back n id op children : wf_node n → (node_end n ≤ length source)%nat →
  (∃ l r sp, n = binary op l r sp) → Forall2 reads_back (flattenBinary n op) children →
  runs (write_group source (mkOrigin id (Some n)) op children (writeVisualCondition source))
    (eq (node_text source n)).
Proof.
  intros Hwf Hlen (l & r & sp & ->) Hc. unfold write_group.
  eapply runs_bind; [apply runs_push_if|]. intros [] _. cbv beta.
  set (nodes := flattenBinary (binary op l r sp) op) in *.
  assert (map (λ c, or_origin (condition_origin c)) children = map Some nodes) as ->.
  { clear -Hc. induction Hc as [|n c ns cs [Ho _] _ IH]; simpl; [done|]. by rewrite Ho, IH. }
  eapply (runs_bind _ _ (eq (map (node_text source) nodes))).
  - clear -Hc. induction Hc as [|n c ns cs [_ Hw] _ IH]; simpl; [by apply runs_ret|].
    eapply runs_bind; [exact Hw|]. intros ? <-. eapply runs_bind; [exact IH|]. intros ? <-. by apply runs_ret.
  - intros texts <-. apply runs_ret. unfold group_text. cbn [or_origin].
    fold nodes. rewrite str_eqb_refl, all_origins_refl. cbn [andb]. symmetry. apply patchSource_id; [done|].
    pose proof (flatten_wf op _ Hwf) as Hf. fold nodes in Hf. clear -Hf.
    induction Hf as [|m ms [Hw _] _ IH]; simpl; constructor; [by split|done].
Qed.

Lemma condition_reads_back fuel : ∀ n c, wf_node n → (node_end n ≤ length source)%nat →
  read_condition fuel n = Ok (Some c) → reads_back n c.
Proof.
  induction fuel as [|fuel IH]; intros n c Hwf Hlen H; [done|]. cbn [read_condition] in H.
  destruct n as [v i sp|v sp|name args sp|o a sp|op l r sp|cc y e sp];
    try (by eapply comparison_reads_back).
  - destruct (str_eqb o (js "!")) eqn:Eo; [|by eapply comparison_reads_back].
    apply bind_Ok_inv in H as ([child|] & Hc & H); [|done]. injection H as <-.
    pose proof (wf_children_within _ Hwf) as Hch. simpl in Hch. apply Forall_cons in Hch as [[Hw Hwa] _].
    destruct (IH a child Hwa ltac:(destruct Hw as (?&?&?); lia) Hc) as [Ho Hr]. split; [done|].
    cbn [writeVisualCondition or_origin]. eapply runs_bind; [exact Hr|]. intros ? <-. rewrite Ho. simpl.
    rewrite same_node_refl. apply runs_ret. symmetry. apply patchSource_id; [done|].
    by repeat apply Forall_cons_2; [split|apply Forall_nil_2].
  - destruct (is_logical op) eqn:El; [|by eapply comparison_reads_back].
    apply bind_Ok_inv in H as (children & Hs & H).
    destruct (all_some children) as [cs|] eqn:Ea; [|done]. apply all_some_inv in Ea as ->.
    assert (Forall2 reads_back (flattenBinary (binary op l r sp) op) cs) as Hall
      by (eapply children_read; [exact IH|exact Hwf|exact Hlen|exact Hs]).
    assert (∀ id, runs (write_group source (mkOrigin id (Some (binary op l r sp))) op cs (writeVisualCondition source))
      (eq (node_text source (binary op l r sp)))) as Hg
      by (intros id; apply group_reads_back; eauto).
    destruct (is_logical_inv _ El) as [-> | ->]; simpl in H; injection H as <-; (split; [done|apply Hg]).
Qed.

(** ** Pricing trees *)
Lemma infer_literal_number n args t v i sp : infer (call (js "fixed") args n) = Some t →
  args = [literal v i sp] → (∃ x, v = lit_number x) ∨ v = lit_null.
Proof. intros H ->. simpl in H. destruct v; simpl in H; eauto; done. Qed.

Lemma read_prices_inv terms : ∀ prices out, read_prices terms prices = Some out →
  ∃ new, out = prices ++ new ∧ Forall2 (λ t p, read_price t = Some p) terms new.
Proof.
  induction terms as [|t terms IH]; simpl; intros prices out H.
  - injection H as <-. exists []. by rewrite app_nil_r.
  - destruct (read_price t) as [p|] eqn:E; [|done]. simpl in H. case_bool_decide; [done|].
    apply IH in H as (new & -> & Hf). exists (p :: new). rewrite <- app_assoc. split; [done|]. by constructor.
Qed.

Lemma price_reads_back o t p : wf_node t → (node_end t ≤ length source)%nat → read_price t = Some p →
  vp_origin p = Some t
  ∧ runs (write_price source o p) (λ '(patches, text), Forall (keeps t) patches ∧ text = node_text source t).
Proof.
  intros Hwf Hlen H. unfold read_price in H.
  destruct t as [| | | |op [|[v|] ?| | | |] [[| |x|] i sp'| | | | |] sp|]; try done.
  case_match; [|done]. injection H as <-. split; [done|].
  pose proof (wf_children_within _ Hwf) as Hc. simpl in Hc.
  apply Forall_cons in Hc as [_ Hc]. apply Forall_cons in Hc as [[Hr Hwr] _].
  assert (is_literal_number x = true) as Hx by (by destruct Hwr as [_ _ _ Hs _]).
  unfold write_price. cbn [vp_value vp_origin]. eapply runs_bind; [apply runs_push_if|]. intros [] _. cbv beta.
  rewrite patched_literal by done. apply runs_ret.
  assert (Forall (keeps (binary op (variable (token_variable v) sp0) (literal (lit_number x) i sp') sp))
    [(literal (lit_number x) i sp', node_text source (literal (lit_number x) i sp'))]) as Hk
    by (apply Forall_singleton; by split).
  split; [done|]. by apply patchSource_id.
Qed.

Lemma fixed_reads_back body v t : wf_node body → (node_end body ≤ length source)%nat →
  infer body = Some t → read_fixed body = Ok (Some v) →
  fixed_text source (parseNonNegativeNumber (string_of_literal v)) body (string_of_literal v)
    = Ok (node_text source body).
Proof.
  intros Hwf Hlen Ht H. unfold read_fixed in H. destruct body as [| |name args sp| | |]; try done.
  destruct (str_eqb name (js "fixed")) eqn:En; [|done]. apply str_eqb_eq in En as ->.
  destruct args as [|[v' i sp'| | | | |] args]; try done. injection H as ->.
  assert (args = []) as -> by (destruct Hwf as [_ _ _ Hs _]; simpl in Hs; by destruct args).
  pose proof (wf_children_within _ Hwf) as Hc. simpl in Hc. apply Forall_cons in Hc as [[Hw Hwa] _].
  unfold fixed_text. rewrite str_eqb_refl. f_equal. apply patchSource_id; [done|].
  apply Forall_singleton. split; [done|]. cbn [fst snd].
  destruct (infer_literal_number _ _ _ _ _ _ Ht eq_refl) as [[x ->] | ->]; [|done].
  apply patched_literal. by destruct Hwa as [_ _ _ Hs _].
Qed.

Lemma mapM_infer_cons c l ts : mapM infer (c :: l) = Some ts → (∃ t, infer c = Some t) ∧ ∃ ts', mapM infer l = Some ts'.
Proof.
  simpl. destruct (infer c) as [t|]; [|done]. simpl. destruct (mapM infer l) as [ts'|]; [|done]. eauto.
Qed.

Lemma prices_read_back o body prices : wf_node body → (node_end body ≤ length source)%nat →
  Forall2 (λ t p, read_price t = Some p) (flattenBinary body (js "+")) prices →
  map vp_origin prices = map Some (flattenBinary body (js "+"))
  ∧ runs (map_W (write_price source o) prices)
      (λ written, Forall (keeps body) (concat (map fst written))).
Proof.
  intros Hwf Hlen Hf. pose proof (flatten_wf (js "+") body Hwf) as Hwf'.
  induction Hf as [|term pr terms prs Hp _ IH]; [split; [done|by apply runs_ret]|].
  apply Forall_cons in Hwf' as [[Hwt Hwft] Hwf']. destruct (IH Hwf') as [Ho Hr].
  destruct (price_reads_back o term pr Hwft) as [Hpo Hpr]; [destruct Hwt as (?&?&?); lia|done|].
  split; [simpl; by rewrite Hpo, Ho|]. cbn [map_W].
  eapply runs_bind; [exact Hpr|]. intros [patches text] [Hpk _]. eapply runs_bind; [exact Hr|].
  intros ws Hws. apply runs_ret. simpl. apply Forall_app_2; [|done].
  eapply Forall_impl; [exact Hpk|]. intros q [Hq1 Hq2]. split; [|done]. exact (within_trans _ _ _ Hwt Hq1).
Qed.

Lemma tier_reads_back n args sp label body rest p : n = call (js "tier") args sp →
  args = label :: body :: rest → wf_node n → (node_end n ≤ length source)%nat → (∃ t, infer n = Some t) →
  readVisualPricing n = Ok (Some p) → runs (writeVisualPricing source p) (eq (node_text source n)).
Proof.
  intros -> -> Hwf Hlen [t Ht] H. cbn [readVisualPricing] in H. rewrite str_eqb_refl in H.
  destruct label as [[| | |l] i spl| | | | |]; try done.
  apply bind_Ok_inv in H as (fixed & Hfixed & H).
  pose proof (wf_children_within _ Hwf) as Hc. simpl in Hc.
  apply Forall_cons in Hc as [[Hwl _] Hc]. apply Forall_cons in Hc as [[Hwb Hwfb] _].
  assert (∃ tb, infer body = Some tb) as [tb Htb].
  { rewrite infer_children in Ht. destruct (mapM infer _) as [ts|] eqn:E; [|done].
    apply mapM_infer_cons in E as [_ [ts' E]]. by apply mapM_infer_cons in E as [? _]. }
  assert (node_end body ≤ length source)%nat as Hlb by (destruct Hwb as (?&?&?); lia).
  assert (Forall (keeps (call (js "tier") (literal (lit_string l) i spl :: body :: rest) sp))
    [(literal (lit_string l) i spl, label_text source (literal (lit_string l) i spl) l)]) as Hk.
  { apply Forall_singleton. split; [done|]. simpl. by rewrite str_eqb_refl. }
  destruct fixed as [v|].
  - injection H as <-. cbn [writeVisualPricing vt_billingUnit]. unfold write_request_tier.
    cbn [vt_fixedPrice or_id or_origin vt_label].
    eapply runs_bind; [apply runs_push_if|]. intros [] _. cbv beta. rewrite str_eqb_refl.
    eapply runs_bind; [by apply (runs_lift _ (eq (literal (lit_string l) i spl, body)))|]. intros ? <-.
    rewrite (fixed_reads_back body v tb) by done.
    eapply runs_bind; [by apply (runs_lift _ (eq (node_text source body)))|]. intros ? <-.
    apply runs_ret. symmetry. apply patchSource_id; [done|]. apply Forall_app_2 with (l1 := [_]); [done|].
    apply Forall_singleton. by split.
  - destruct (read_prices (flattenBinary body (js "+")) []) as [prices|] eqn:Ep; [|done].
    injection H as <-. apply read_prices_inv in Ep as (new & -> & Hf). simpl app.
    cbn [writeVisualPricing vt_billingUnit]. unfold write_token_tier. cbn [vt_prices or_id or_origin vt_label].
    eapply runs_bind; [apply runs_push_if|]. intros [] _. cbv beta. rewrite str_eqb_refl.
    set (o := mkOrigin _ _).
    destruct (prices_read_back o body new Hwfb Hlb Hf) as [Ho Hr].
    eapply runs_bind; [exact Hr|]. intros written Hw.
    eapply runs_bind; [by apply (runs_lift _ (eq (literal (lit_string l) i spl, body)))|]. intros ? <-.
    rewrite Ho, all_origins_refl. apply runs_ret. symmetry. apply patchSource_id; [done|].
    apply Forall_app_2 with (l1 := [_]); [done|]. eapply Forall_impl; [exact Hw|].
    intros q [Hq1 Hq2]. split; [|done]. exact (within_trans _ _ _ Hwb Hq1).
Qed.

Lemma pricing_reads_back n : ∀ p, wf_node n → (node_end n ≤ length source)%nat → (∃ t, infer n = Some t) →
  readVisualPricing n = Ok (Some p) → runs (writeVisualPricing source p) (eq (node_text source n)).
Proof.
  induction n as [n IH] using node_children_ind. intros p Hwf Hlen Ht H.
  pose proof (wf_children_within _ Hwf) as Hc.
  destruct n as [v i sp|v sp|name args sp|o a sp|op l r sp|c y e sp]; try done.
  - pose proof H as H'. cbn [readVisualPricing] in H.
    destruct (str_eqb name (js "tier")) eqn:En; [|done]. apply str_eqb_eq in En as ->.
    destruct args as [|[[| | |l] ? ?| | | | |] [|body rest]]; try done. by eapply tier_reads_back.
  - cbn [readVisualPricing] in H. inv_ok.
    destruct x as [condition|]; [|done]. destruct x0 as [py|]; [|done]. destruct x1 as [pn|]; [|done].
    injection H as <-. simpl in Hc, IH.
    apply Forall_cons in Hc as [[Hwc Hwfc] Hc]. apply Forall_cons in Hc as [[Hwy Hwfy] Hc].
    apply Forall_cons in Hc as [[Hwe Hwfe] _].
    apply Forall_cons in IH as [_ IH]. apply Forall_cons in IH as [IHy IH]. apply Forall_cons in IH as [IHe _].
    destruct Ht as [t Ht]. rewrite infer_children in Ht. simpl children_of in Ht.
    destruct (mapM infer _) as [ts|] eqn:E; [|done].
    apply mapM_infer_cons in E as [_ [ts' E]]. apply mapM_infer_cons in E as [Hty [ts'' E]].
    apply mapM_infer_cons in E as [Hte _].
    destruct (condition_reads_back _ c condition Hwfc ltac:(destruct Hwc as (?&?&?); lia) Hx) as [_ Hrc].
    cbn [writeVisualPricing or_origin]. eapply runs_bind; [exact Hrc|]. intros ? <-.
    eapply runs_bind; [apply IHy; try done; destruct Hwy as (?&?&?); lia|]. intros ? <-.
    eapply runs_bind; [apply IHe; try done; destruct Hwe as (?&?&?); lia|]. intros ? <-.
    apply runs_ret. symmetry. apply patchSource_id; [done|].
    repeat apply Forall_cons_2; [by split..|apply Forall_nil_2].
Qed.
End WithHost.
End Source.

(** ** Reading always answers *)
Lemma flatten_size op n : Forall (λ m, (node_size m ≤ node_size n)%nat) (flattenBinary n op).
Proof.
  induction n as [n IH] using node_children_ind.
  destruct n as [v i sp|v sp|name args sp|o a sp|o l r sp|c y e sp]; cbn [flattenBinary];
    try (by apply Forall_singleton). simpl in IH.
  apply Forall_cons in IH as [IHl IH]. apply Forall_cons in IH as [IHr _].
  case_match; [|by apply Forall_singleton].
  apply Forall_app; split; (eapply Forall_impl; [eassumption|]); simpl; lia.
Qed.

Section Reading.
Context {host : Host}.

Lemma time_call_args name args sp : wf_node (call name args sp) → is_Some (time_function_of_name name) → args ≠ [].
Proof.
  intros [_ _ _ Hs _] [f Hf] ->. apply time_function_of_name_inv in Hf as <-. simpl in Hs. by destruct f.
Qed.

Lemma read_comparison_total n o : wf_node n → ∃ r, read_comparison n o = Ok r.
Proof.
  intros Hwf. unfold read_comparison.
  destruct n as [v i sp|v sp|name args sp|op a sp|op l r sp|c y e sp]; try by eexists.
  destruct r as [[| |x|] ? ?| | | | |]; try by eexists. destruct (str_in _ _); [|by eexists].
  pose proof (wf_children_within _ Hwf) as Hc. simpl in Hc. apply Forall_cons in Hc as [[_ Hl] _].
  assert (∃ q, read_probe l = Ok q) as [q ->]; [|by destruct q as [[? ?]|]; eexists].
  destruct l as [| [v|] ?|name args spl| | |]; try by eexists. simpl.
  destruct (time_function_of_name name) as [f|] eqn:Ef; [|by eexists].
  pose proof (time_call_args _ _ _ Hl (mk_is_Some _ _ Ef)).
  destruct args as [|[[] ? ?| | | | |] ?]; try done; by eexists.
Qed.

Lemma sequence_results_total {A B} (f : A → result B) l :
  Forall (λ a, ∃ r, f a = Ok r) l → ∃ rs, sequence_results (map f l) = Ok rs.
Proof.
  induction 1 as [|a l [r Hr] _ [rs Hrs]]; simpl; [by eexists|]. rewrite Hr, Hrs. by eexists.
Qed.

Lemma read_condition_total fuel : ∀ n, wf_node n → (node_size n ≤ fuel)%nat → ∃ r, read_condition fuel n = Ok r.
Proof.
  induction fuel as [|fuel IH]; intros n Hwf Hf.
  - rewrite node_size_children in Hf. lia.
  - cbn [read_condition]. pose proof (wf_children_within _ Hwf) as Hc.
    destruct n as [v i sp|v sp|name args sp|op a sp|op l r sp|c y e sp];
      try by apply read_comparison_total.
    + case_match; [|by apply read_comparison_total]. simpl in Hc. apply Forall_cons in Hc as [[_ Ha] _].
      destruct (IH a Ha) as [q ->]; [simpl in Hf; lia|]. by eexists.
    + case_match; [|by apply read_comparison_total].
      destruct (sequence_results_total (read_condition fuel) (flattenBinary (binary op l r sp) op)) as [rs ->];
        [|by eexists].
      pose proof (flatten_wf op _ Hwf) as Hw. cbn [flattenBinary] in *. rewrite str_eqb_refl in *.
      assert (Forall (λ m, (node_size m ≤ fuel)%nat) (flattenBinary l op ++ flattenBinary r op)) as Hs.
      { apply Forall_app; split; (eapply Forall_impl; [apply flatten_size|]); simpl in *; lia. }
      rewrite Forall_forall in *. intros m Hm. apply IH; [by apply Hw|by apply Hs].
Qed.

Lemma tier_call_args args sp : wf_node (call (js "tier") args sp) → ∃ label body, args = [label; body].
Proof. intros [_ _ _ Hs _]. simpl in Hs. destruct args as [|a [|b [|c args]]]; try done. by eexists _, _. Qed.

Lemma read_fixed_total body : wf_node body → ∃ r, read_fixed body = Ok r.
Proof.
  intros [_ _ _ Hs _]. destruct body as [| |name args sp| | |]; try by eexists. simpl.
  destruct (str_eqb name (js "fixed")) eqn:E; [|by eexists]. apply str_eqb_eq in E as ->. simpl in Hs.
  destruct args as [|[]]; try done; by eexists.
Qed.

Lemma read_pricing_total n : wf_node n → ∃ r, readVisualPricing n = Ok r.
Proof.
  induction n as [n IH] using node_children_ind. intros Hwf. pose proof (wf_children_within _ Hwf) as Hc.
  destruct n as [v i sp|v sp|name args sp|op a sp|op l r sp|c y e sp]; try by eexists.
  - cbn [readVisualPricing]. destruct (str_eqb name (js "tier")) eqn:E; [|by eexists]. apply str_eqb_eq in E as ->.
    destruct (tier_call_args _ _ Hwf) as (label & body & ->). simpl in Hc.
    apply Forall_cons in Hc as [_ Hc]. apply Forall_cons in Hc as [[_ Hb] _].
    destruct label as [[| | |l] ? ?| | | | |]; try by eexists.
    destruct (read_fixed_total body Hb) as [q ->]. by eexists.
  - simpl in *. apply Forall_cons in Hc as [[_ Hwc] Hc]. apply Forall_cons in Hc as [[_ Hwy] Hc].
    apply Forall_cons in Hc as [[_ Hwe] _].
    apply Forall_cons in IH as [_ IH]. apply Forall_cons in IH as [IHy IH]. apply Forall_cons in IH as [IHe _].
    unfold readVisualCondition. destruct (read_condition_total (node_size c) c Hwc (le_n _)) as [rc ->].
    destruct (IHy Hwy) as [ry ->], (IHe Hwe) as [re ->]. by eexists.
Qed.
End Reading.

(** ** Properties *)

(** C14: a document read from an expression is written back as the very same
    text.  Reading always answers; it refuses an expression only when the
    expression does not compile, has a shape the editor cannot show, or holds a
    value the editor would report as an issue. *)
Theorem visual_document_lossless {host : Host} source :
  match parseVisualBillingDocument source with
  | Ok (Some document) =>
      doc_source document = source ∧ serializeVisualBillingDocument document = Ok (serial_ok source)
  | Ok None =>
      (∃ f, compile source = failed f) ∨
      (∃ c, compile source = ready c ∧
         (readVisualPricing (cp_ast c) = Ok None ∨
          ∃ root text issue issues, readVisualPricing (cp_ast c) = Ok (Some root)
            ∧ writeVisualPricing source root [] = Ok (text, issue :: issues)))
  | Throw _ | NoFuel => False
  end.
Proof.
  unfold parseVisualBillingDocument. destruct (compile source) as [c|f] eqn:Ec; [|left; by eexists].
  pose proof (compile_ready _ _ Ec) as Hc.
  apply compile_body_inv in Hc as (_ & Hparse & Hwf & Hend & _ & Hty & _).
  destruct (read_pricing_total _ Hwf) as [[root|] Hr]; rewrite Hr; cbn [mbind outcome_bind];
    [|right; exists c; auto].
  destruct (pricing_reads_back source _ root Hwf Hend Hty Hr []) as (text & issues & Hw & <-).
  unfold serializeVisualBillingDocument. cbn [doc_source doc_root]. rewrite Hw. cbn [mbind outcome_bind].
  destruct issues as [|issue issues].
  - assert (take (node_start (cp_ast c)) source ++ node_text source (cp_ast c) ++ drop (node_end (cp_ast c)) source
      = source) as Hs.
    { pose proof (wf_nonempty _ Hwf) as Hne. clear -Hne. unfold node_text, slice.
      set (i := node_start _) in *. set (j := node_end _) in *.
      replace (drop j source) with (drop (j - i) (drop i source)) by (rewrite drop_drop; f_equal; lia).
      by rewrite !take_drop. }
    rewrite Ec, Hs, Ec. simpl. rewrite Hw. simpl. by rewrite Ec, Hs, Ec.
  - right. exists c. split; [done|]. right. eauto 8.
Qed.
