(* ===== verification/VisualEdits.v ===== *)
(** * Edits of visual documents are local

    Applying the patches of a node splices their texts into the node's own
    text, and patching children by their own patches is patching the leaves.
    Hence a document whose text fields were edited is written as the source with
    the literals of those fields replaced and nothing else changed. *)
From S2P Require Import Prelude JsString JsNumber JsNumberFacts JsJson JsValue Host BillingTypes Parser ParserFacts Compile CompileFacts Runtime Display Visual VisualFacts.
Local Open Scope Z_scope.

Section Source.
Context (source : jsstring).

Abbreviation patch := (ExpressionNode * jsstring)%type (only parsing).

(** The text from [lo] to [hi] with the patched nodes replaced. *)
Fixpoint splice (lo hi : nat) (patches : list patch) : jsstring :=
  match patches with
  | [] => slice source lo hi
  | (n, text) :: rest => slice source lo (node_start n) ++ text ++ splice (node_end n) hi rest
  end.

Definition splice_node (n : ExpressionNode) (patches : list patch) : jsstring :=
  splice (node_start n) (node_end n) patches.

(** The patches lie between [lo] and [hi], in source order. *)
Definition fits (lo hi : nat) (patches : list patch) : Prop :=
  ordered lo (map fst patches) hi ∧ Forall (λ p, node_start (fst p) < node_end (fst p))%nat patches.

Lemma fits_cons lo hi p ps : fits lo hi (p :: ps) ↔
  (lo ≤ node_start (fst p))%nat ∧ (node_start (fst p) < node_end (fst p))%nat ∧ fits (node_end (fst p)) hi ps.
Proof. unfold fits. simpl. rewrite Forall_cons. naive_solver. Qed.

Lemma fits_le lo hi ps : fits lo hi ps → (lo ≤ hi)%nat.
Proof.
  revert lo. induction ps as [|p ps IH]; intros lo; [by intros [H _]|].
  intros (? & ? & H)%fits_cons. apply IH in H. lia.
Qed.

Lemma fits_starts lo hi ps : fits lo hi ps → Forall (λ p, lo ≤ node_start (fst p))%nat ps.
Proof.
  revert lo. induction ps as [|p ps IH]; intros lo H; [constructor|].
  apply fits_cons in H as (? & ? & H). constructor; [done|].
  eapply Forall_impl; [by apply IH|]. simpl. lia.
Qed.

(** Sorting patches in source order reverses them. *)
Lemma insert_patch_first p l : Forall (λ q, node_start (fst q) < node_start (fst p))%nat l → insert_patch p l = p :: l.
Proof. destruct 1 as [|q l Hq]; simpl; [done|]. apply Nat.ltb_lt in Hq. by rewrite Hq. Qed.

Lemma sort_patches_ordered lo hi ps : fits lo hi ps → sort_patches ps = rev ps.
Proof.
  unfold sort_patches. assert (Forall (λ q : patch, node_start (fst q) < lo)%nat []) as H0 by constructor.
  rewrite <- (app_nil_r (rev ps)). revert lo H0. generalize (@nil patch).
  induction ps as [|p ps IH]; intros acc lo Hacc Hf; simpl; [done|].
  apply fits_cons in Hf as (H1 & H2 & Hf).
  rewrite insert_patch_first by (eapply Forall_impl; [exact Hacc|]; simpl; lia).
  rewrite (IH (p :: acc) (node_end (fst p))); [by rewrite <- app_assoc| |done].
  constructor; [done|]. eapply Forall_impl; [exact Hacc|]. simpl. lia.
Qed.

Lemma apply_patches_splice o ps : ∀ lo, fits lo (node_end o) ps → (node_start o ≤ lo)%nat →
  (node_end o ≤ length source)%nat →
  fold_right (λ p t, apply_patch o t p) (node_text source o) ps
  = slice source (node_start o) lo ++ splice lo (node_end o) ps.
Proof.
  induction ps as [|[n t] ps IH]; intros lo Hf Hlo Hlen; simpl.
  - pose proof (fits_le _ _ _ Hf). unfold node_text. by rewrite <- slice_split.
  - apply fits_cons in Hf as (H1 & H2 & Hf). cbn [fst] in *. pose proof (fits_le _ _ _ Hf).
    rewrite (IH (node_end n)) by (done || lia). unfold apply_patch, js_slice, js_slice_from. cbn [fst snd].
    assert (length (slice source (node_start o) (node_end n)) = node_end n - node_start o)%nat as Hl
      by (apply slice_length; lia).
    set (rest := splice (node_end n) (node_end o) ps).
    rewrite !relative_index_in by (rewrite length_app; lia).
    replace (Z.to_nat 0) with 0%nat by done.
    replace (Z.to_nat (Z.of_nat (node_start n) - Z.of_nat (node_start o))) with (node_start n - node_start o)%nat by lia.
    replace (Z.to_nat (Z.of_nat (node_end n) - Z.of_nat (node_start o))) with (node_end n - node_start o)%nat by lia.
    rewrite drop_app_length' by lia. unfold slice at 1. rewrite drop_0, Nat.sub_0_r, take_app_le by lia.
    rewrite (app_assoc (slice source (node_start o) lo)), <- slice_split by lia. f_equal.
    unfold slice. rewrite take_take. f_equal. lia.
Qed.

(** Applying patches in source order splices their texts into the node's. *)
Lemma patchSource_splice o ps : fits (node_start o) (node_end o) ps → (node_end o ≤ length source)%nat →
  patchSource source o ps = splice_node o ps.
Proof.
  intros Hf Hlen. unfold patchSource. rewrite (sort_patches_ordered _ _ _ Hf).
  rewrite <- fold_left_rev_right, rev_involutive.
  rewrite (apply_patches_splice o ps (node_start o)) by done. by rewrite slice_nil.
Qed.

Lemma splice_app lo mid hi ps qs : fits lo mid ps → fits mid hi qs →
  splice lo hi (ps ++ qs) = splice lo mid ps ++ splice mid hi qs ∧ fits lo hi (ps ++ qs).
Proof.
  revert lo. induction ps as [|[n t] ps IH]; intros lo Hp Hq; simpl.
  - pose proof (fits_le _ _ _ Hp) as Hle. split; [|].
    + destruct qs as [|[m u] qs]; simpl; [apply slice_split; [done|by apply (fits_le _ _ _ Hq)]|].
      apply fits_cons in Hq as (? & _). rewrite (slice_split source lo mid) by done. by rewrite <- app_assoc.
    + destruct qs as [|q qs]; [split; [|constructor]; simpl; pose proof (fits_le _ _ _ Hq); lia|].
      apply fits_cons in Hq as (? & ? & ?). apply fits_cons. split_and!; try done. lia.
  - apply fits_cons in Hp as (H1 & H2 & Hp). cbn [fst] in *. destruct (IH _ Hp Hq) as [-> Hf].
    split; [by rewrite <- !app_assoc|]. apply fits_cons. done.
Qed.

(** A node with the patches inside it. *)
Definition patched_child (c : ExpressionNode * list patch) : patch := (fst c, splice_node (fst c) (snd c)).

Definition child_fits (c : ExpressionNode * list patch) : Prop :=
  (node_start (fst c) < node_end (fst c))%nat ∧ fits (node_start (fst c)) (node_end (fst c)) (snd c).

Lemma fits_nil lo hi : (lo ≤ hi)%nat → fits lo hi [].
Proof. intros H. by split; [|constructor]. Qed.

Lemma splice_nested cs : ∀ lo hi, ordered lo (map fst cs) hi → Forall child_fits cs →
  splice lo hi (map patched_child cs) = splice lo hi (concat (map snd cs))
  ∧ fits lo hi (map patched_child cs) ∧ fits lo hi (concat (map snd cs)).
Proof.
  induction cs as [|[n ps] cs IH]; intros lo hi Ho Hc; cbn [map concat].
  - split; [done|]. by split; apply fits_nil.
  - destruct Ho as [Hlo Ho]. apply Forall_cons in Hc as [[Hn Hps] Hc]. cbn [fst snd map] in *.
    destruct (IH _ _ Ho Hc) as (E & F1 & F2).
    assert (fits lo (node_start n) []) as Hnil by (by apply fits_nil).
    destruct (splice_app _ _ _ _ _ Hps F2) as [E1 G1]. destruct (splice_app _ _ _ _ _ Hnil G1) as [E2 G2].
    simpl app in *. split; [|split; [|done]].
    + simpl. rewrite E, E2, E1. by unfold splice_node.
    + apply fits_cons. done.
Qed.

(** Patching children by their own patches is patching the leaves. *)
Lemma patchSource_nested n cs : (node_end n ≤ length source)%nat →
  ordered (node_start n) (map fst cs) (node_end n) → Forall child_fits cs →
  patchSource source n (map patched_child cs) = splice_node n (concat (map snd cs))
  ∧ fits (node_start n) (node_end n) (concat (map snd cs)).
Proof.
  intros Hlen Ho Hc. destruct (splice_nested cs _ _ Ho Hc) as (E & F1 & F2).
  split; [|done]. rewrite patchSource_splice by done. exact E.
Qed.

Lemma splice_self n text : (node_start n < node_end n)%nat →
  splice_node n [(n, text)] = text ∧ fits (node_start n) (node_end n) [(n, text)].
Proof.
  intros H. split; [unfold splice_node; simpl; by rewrite !slice_nil, app_nil_r|].
  apply fits_cons. simpl. split_and!; [done|done|by apply fits_nil].
Qed.

Lemma flatten_ordered op n lo hi : wf_node n → (lo ≤ node_start n)%nat → (node_end n ≤ hi)%nat →
  ordered lo (flattenBinary n op) hi.
Proof.
  revert lo hi. induction n as [n IH] using node_children_ind. intros lo hi Hwf Hlo Hhi.
  assert (ordered lo [n] hi) as Hn by (simpl; pose proof (wf_nonempty _ Hwf); lia).
  pose proof (wf_children_within _ Hwf) as Hc. destruct Hwf as [_ Ho _ _ _].
  destruct n as [v i sp|v sp|name args sp|o a sp|o l r sp|c y e sp]; cbn [flattenBinary]; try exact Hn.
  case_match; [|exact Hn]. simpl in IH, Hc, Ho.
  apply Forall_cons in IH as [IHl IH]. apply Forall_cons in IH as [IHr _].
  apply Forall_cons in Hc as [[_ Hl] Hc]. apply Forall_cons in Hc as [[_ Hr] _].
  destruct Ho as (O1 & O2 & O3).
  assert (∀ l1 l2 a b c, ordered a l1 b → ordered b l2 c → ordered a (l1 ++ l2) c) as Happ.
  { clear. induction l1 as [|x l1 IH]; simpl; intros l2 a b c H1 H2.
    - by eapply ordered_weaken.
    - destruct H1. split; [done|]. by eapply IH. }
  eapply Happ; [apply (IHl lo (node_end l)); [done|lia|lia]|].
  apply IHr; [done|lia|lia].
Qed.
End Source.

(** ** Edits of text fields *)
Record Edit := mkEdit {
  ed_value : Origin → VisualComparison → jsstring;
  ed_label : Origin → VisualTier → jsstring;
  ed_price : Origin → VisualPrice → jsstring;
  ed_fixed : Origin → VisualTier → jsstring;
}.

Section Editing.
Context (source : jsstring) (edit : Edit).

Fixpoint edit_condition (c : VisualCondition) : VisualCondition :=
  match c with
  | vis_comparison o k =>
      vis_comparison o (mkComparison (vc_probe k) (vc_timezone k) (vc_operator k) (ed_value edit o k))
  | vis_all o l => vis_all o (map edit_condition l)
  | vis_any o l => vis_any o (map edit_condition l)
  | vis_not o c => vis_not o (edit_condition c)
  end.

Definition edit_price (o : Origin) (p : VisualPrice) : VisualPrice :=
  mkPrice (vp_variable p) (ed_price edit o p) (vp_origin p).

Definition edit_tier (o : Origin) (t : VisualTier) : VisualTier :=
  mkVisualTier (ed_label edit o t) (map (edit_price o) (vt_prices t)) (vt_billingUnit t) (ed_fixed edit o t).

Fixpoint edit_pricing (n : VisualPricingNode) : VisualPricingNode :=
  match n with
  | vis_tier o t => vis_tier o (edit_tier o t)
  | vis_branch o c y n' => vis_branch o (edit_condition c) (edit_pricing y) (edit_pricing n')
  end.

(** What an edit writes over a literal: its own text when the field still
    denotes the literal's value, the field otherwise. *)
Definition field_patch (literal_node : ExpressionNode) (field : jsstring) : ExpressionNode * jsstring :=
  (literal_node, patched_value source (parseNonNegativeNumber field) literal_node field).

Fixpoint condition_patches (c : VisualCondition) : list (ExpressionNode * jsstring) :=
  match c with
  | vis_comparison o k =>
      match or_origin o with
      | Some (binary _ _ r _) => [field_patch r (ed_value edit o k)]
      | _ => []
      end
  | vis_all _ l | vis_any _ l => concat (map condition_patches l)
  | vis_not _ c => condition_patches c
  end.

Definition price_patches (o : Origin) (p : VisualPrice) : list (ExpressionNode * jsstring) :=
  match vp_origin p with
  | Some (binary _ _ r _) => [field_patch r (ed_price edit o p)]
  | _ => []
  end.

Definition tier_patches (o : Origin) (t : VisualTier) : list (ExpressionNode * jsstring) :=
  match or_origin o with
  | Some (call _ (label :: body :: _) _) =>
      (label, label_text source label (ed_label edit o t)) ::
      match vt_billingUnit t, body with
      | unit_request, call _ (amount :: _) _ => [field_patch amount (ed_fixed edit o t)]
      | unit_request, _ => []
      | unit_token, _ => concat (map (price_patches o) (vt_prices t))
      end
  | _ => []
  end.

Fixpoint pricing_patches (n : VisualPricingNode) : list (ExpressionNode * jsstring) :=
  match n with
  | vis_tier o t => tier_patches o t
  | vis_branch _ c y n' => condition_patches c ++ pricing_patches y ++ pricing_patches n'
  end.

Section WithHost.
Context {host : Host}.

(** The edited part is written as its node's text with the fields spliced in. *)
Definition edits_in (n : ExpressionNode) (w : ST (list VisualBillingIssue) exn jsstring)
    (patches : list (ExpressionNode * jsstring)) : Prop :=
  fits (node_start n) (node_end n) patches ∧ runs w (eq (splice_node source n patches)).

Definition edits_condition (n : ExpressionNode) (c : VisualCondition) : Prop :=
  or_origin (condition_origin (edit_condition c)) = Some n
  ∧ edits_in n (writeVisualCondition source (edit_condition c)) (condition_patches c).

Lemma binary_ordered op l r sp : wf_node (binary op l r sp) →
  ordered (node_start (binary op l r sp)) [l; r] (node_end (binary op l r sp))
  ∧ (node_start l < node_end l)%nat ∧ (node_start r < node_end r)%nat.
Proof.
  intros [_ Ho _ _ Hc]. simpl in Hc. apply Forall_cons in Hc as [Hl Hc]. apply Forall_cons in Hc as [Hr _].
  split_and!; [done|by apply wf_nonempty..].
Qed.

(** A literal operand replaced by a field. *)
Lemma field_spliced op l r sp text : wf_node (binary op l r sp) →
  (node_end (binary op l r sp) ≤ length source)%nat →
  patchSource source (binary op l r sp) [(l, node_text source l); (r, text)]
    = splice_node source (binary op l r sp) [(r, text)]
  ∧ fits (node_start (binary op l r sp)) (node_end (binary op l r sp)) [(r, text)].
Proof.
  intros Hwf Hlen. destruct (binary_ordered _ _ _ _ Hwf) as (Ho & Hl & Hr).
  destruct (splice_self source r text Hr) as [Es Hfs].
  destruct (patchSource_nested source (binary op l r sp) [(l, []); (r, [(r, text)])]) as [E F]; [done|done| |].
  - repeat constructor; simpl; try lia; apply Hfs.
  - split; [|exact F]. unfold patched_child in E. cbn [map fst snd concat app] in E. by rewrite Es in E.
Qed.

Lemma comparison_edits n id c : wf_node n → (node_end n ≤ length source)%nat →
  read_comparison n (mkOrigin id (Some n)) = Ok (Some c) → edits_condition n c.
Proof.
  intros Hwf Hlen H. unfold read_comparison in H.
  destruct n as [v i sp|v sp|name args sp|o a sp|op l r sp|cc y e sp]; try done.
  destruct r as [[| |x|] i sp'| | | | |]; try done. destruct (str_in op COMPARISONS); [|done].
  apply bind_Ok_inv in H as ([[p zone]|] & Hp & H); [|done]. injection H as <-. split; [done|].
  unfold edits_in. cbn [edit_condition writeVisualCondition condition_patches or_origin].
  cbn [vc_probe vc_timezone vc_operator].
  set (o := mkOrigin id _). set (k := mkComparison p zone op (String_of_number x)).
  unfold field_patch. set (text := patched_value _ _ _ _).
  destruct (field_spliced _ _ _ _ text Hwf Hlen) as [<- F]. split; [exact F|].
  unfold writeComparison. cbn [or_id or_origin vc_value vc_operator].
  eapply runs_bind; [apply runs_push_if|]. intros [] _. cbv beta.
  eapply runs_bind; [by eapply timezone_runs|]. intros [] _. cbv beta.
  unfold o at 1. cbn [or_origin]. rewrite str_eqb_refl. erewrite probe_kept by done.
  eapply runs_bind; [by apply (runs_lift _ (eq (node_text source l)))|]. intros ? <-. by apply runs_ret.
Qed.

Lemma child_edits n w patches : wf_node n → edits_in n w patches → child_fits (n, patches).
Proof. intros Hwf [F _]. split; [by apply wf_nonempty|done]. Qed.

Lemma group_edits n id op children : wf_node n → (node_end n ≤ length source)%nat →
  (∃ l r sp, n = binary op l r sp) → Forall2 edits_condition (flattenBinary n op) children →
  edits_in n (write_group source (mkOrigin id (Some n)) op (map edit_condition children) (writeVisualCondition source))
    (concat (map condition_patches children)).
Proof.
  intros Hwf Hlen (l & r & sp & ->) Hc.
  pose proof (flatten_ordered op _ _ _ Hwf (le_n _) (le_n _)) as Ho.
  pose proof (flatten_wf op _ Hwf) as Hf. set (nodes := flattenBinary (binary op l r sp) op) in *.
  assert (length nodes = length children) as Hlc by (by apply Forall2_length in Hc).
  set (cs := zip nodes (map condition_patches children)).
  assert (map fst cs = nodes) as Hfst by (apply fst_zip; by rewrite length_map, Hlc).
  assert (map snd cs = map condition_patches children) as Hsnd by (apply snd_zip; by rewrite length_map, Hlc).
  destruct (patchSource_nested source (binary op l r sp) cs) as [E F]; [done|by rewrite Hfst| |].
  { subst cs. clear -Hc Hf. induction Hc as [|m c ms cs [_ Hm] _ IH]; simpl; [constructor|].
    apply Forall_cons in Hf as [[_ Hw] Hf]. constructor; [by eapply child_edits|by apply IH]. }
  rewrite Hsnd in E, F. split; [done|]. unfold write_group.
  eapply runs_bind; [apply runs_push_if|]. intros [] _. cbv beta.
  assert (map (λ c, or_origin (condition_origin c)) (map edit_condition children) = map Some nodes) as ->.
  { clear -Hc. induction Hc as [|n c ns cs [Hn _] _ IH]; simpl; [done|]. by rewrite Hn, IH. }
  eapply (runs_bind _ _ (eq (map (λ c, splice_node source (fst c) (snd c)) cs))).
  - subst cs. clear -Hc. induction Hc as [|n c ns cs [_ [_ Hw]] _ IH]; simpl; [by apply runs_ret|].
    eapply runs_bind; [exact Hw|]. intros ? <-. eapply runs_bind; [exact IH|]. intros ? <-. by apply runs_ret.
  - intros texts <-. apply runs_ret. unfold group_text. cbn [or_origin].
    fold nodes. rewrite str_eqb_refl, all_origins_refl. cbn [andb]. rewrite <- E. f_equal.
    subst cs. clear -Hlc. revert Hlc. generalize (map condition_patches children).
    generalize (length children). induction nodes as [|m ms IH]; intros k [|ps pss] Hk; simpl; try done.
    unfold patched_child at 1. cbn [fst snd]. f_equal. by apply (IH (length ms)).
Qed.

Lemma condition_edits fuel : ∀ n c, wf_node n → (node_end n ≤ length source)%nat →
  read_condition fuel n = Ok (Some c) → edits_condition n c.
Proof.
  induction fuel as [|fuel IH]; intros n c Hwf Hlen H; [done|]. cbn [read_condition] in H.
  destruct n as [v i sp|v sp|name args sp|o a sp|op l r sp|cc y e sp];
    try (by eapply comparison_edits).
  - destruct (str_eqb o (js "!")) eqn:Eo; [|by eapply comparison_edits].
    apply bind_Ok_inv in H as ([child|] & Hc & H); [|done]. injection H as <-.
    pose proof (wf_children_within _ Hwf) as Hch. simpl in Hch. apply Forall_cons in Hch as [[Hw Hwa] _].
    destruct (IH a child Hwa ltac:(destruct Hw as (?&?&?); lia) Hc) as [Ho Hr]. split; [done|].
    destruct (patchSource_nested source (unary o a sp) [(a, condition_patches child)]) as [E F]; [done| | |].
    { by destruct Hwf as [_ ? _ _ _]. }
    { apply Forall_singleton. by eapply child_edits. }
    cbn [map concat snd] in E, F. rewrite app_nil_r in E, F. split; [done|]. destruct Hr as [_ Hr].
    cbn [edit_condition writeVisualCondition or_origin]. eapply runs_bind; [exact Hr|]. intros ? <-.
    rewrite Ho. simpl. rewrite same_node_refl. apply runs_ret. by rewrite <- E.
  - destruct (is_logical op) eqn:El; [|by eapply comparison_edits].
    apply bind_Ok_inv in H as (children & Hs & H).
    destruct (all_some children) as [cs|] eqn:Ea; [|done]. apply all_some_inv in Ea as ->.
    assert (Forall2 edits_condition (flattenBinary (binary op l r sp) op) cs) as Hall.
    { eapply children_read; [|exact Hwf|exact Hlen|exact Hs]. exact IH. }
    assert (∀ id, edits_in (binary op l r sp)
      (write_group source (mkOrigin id (Some (binary op l r sp))) op (map edit_condition cs) (writeVisualCondition source))
      (concat (map condition_patches cs))) as Hg
      by (intros id; apply group_edits; eauto).
    destruct (is_logical_inv _ El) as [-> | ->]; simpl in H; injection H as <-; (split; [done|apply Hg]).
Qed.

Lemma runs_lift_eq {A} (r : result A) (a : A) (P : A → Prop) : r = Ok a → P a → runs (st_lift r) P.
Proof. intros -> H. by apply runs_lift. Qed.

Lemma price_edits o t p : wf_node t → (node_end t ≤ length source)%nat → read_price t = Some p →
  child_fits (t, price_patches o p)
  ∧ runs (write_price source o (edit_price o p)) (λ w, fst w = price_patches o p).
Proof.
  intros Hwf Hlen H. unfold read_price in H.
  destruct t as [| | | |op [|[v|] ?| | | |] [[| |x|] i sp'| | | | |] sp|]; try done.
  case_match; [|done]. injection H as <-. unfold price_patches. cbn [vp_origin]. unfold field_patch.
  set (text := patched_value _ _ _ _). split.
  - split; [by apply wf_nonempty|]. by apply (field_spliced _ _ _ _ text Hwf Hlen).
  - unfold write_price. cbn [edit_price vp_value vp_origin vp_variable].
    eapply runs_bind; [apply runs_push_if|]. intros [] _. by apply runs_ret.
Qed.

Lemma prices_edit o body prices : wf_node body → (node_end body ≤ length source)%nat →
  Forall2 (λ t p, read_price t = Some p) (flattenBinary body (js "+")) prices →
  fits (node_start body) (node_end body) (concat (map (price_patches o) prices))
  ∧ map vp_origin (map (edit_price o) prices) = map Some (flattenBinary body (js "+"))
  ∧ runs (map_W (write_price source o) (map (edit_price o) prices))
      (λ ws, concat (map fst ws) = concat (map (price_patches o) prices)).
Proof.
  intros Hwf Hlen Hf. split.
  - pose proof (flatten_ordered (js "+") _ _ _ Hwf (le_n _) (le_n _)) as Ho.
    pose proof (flatten_wf (js "+") _ Hwf) as Hw. set (terms := flattenBinary body (js "+")) in *.
    assert (length terms = length prices) as Hl by (by apply Forall2_length in Hf).
    set (cs := zip terms (map (price_patches o) prices)).
    assert (map fst cs = terms) as Hfst by (apply fst_zip; by rewrite length_map, Hl).
    assert (map snd cs = map (price_patches o) prices) as Hsnd by (apply snd_zip; by rewrite length_map, Hl).
    rewrite <- Hsnd. apply (splice_nested source cs); [by rewrite Hfst|]. subst cs. clear -Hf Hw Hlen.
    induction Hf as [|t p ts ps Hp _ IH]; simpl; [constructor|].
    apply Forall_cons in Hw as [[Hwt Hwft] Hw]. constructor; [|by apply IH].
    apply price_edits; [done|destruct Hwt as (?&?&?); lia|done].
  - pose proof (flatten_wf (js "+") _ Hwf) as Hw.
    induction Hf as [|t p ts ps Hp _ IH]; [split; [done|by apply runs_ret]|].
    apply Forall_cons in Hw as [[Hwt Hwft] Hw]. destruct (IH Hw) as [Ho Hr].
    destruct (price_reads_back source o t p Hwft) as [Hpo _]; [destruct Hwt as (?&?&?); lia|done|].
    destruct (price_edits o t p Hwft) as [_ Hpr]; [destruct Hwt as (?&?&?); lia|done|].
    split; [simpl in *; by rewrite Hpo, Ho|]. cbn [map map_W].
    eapply runs_bind; [exact Hpr|]. intros w Hw1. eapply runs_bind; [exact Hr|]. intros ws Hws.
    apply runs_ret. simpl. by rewrite Hw1, Hws.
Qed.

Lemma read_fixed_inv body v : read_fixed body = Ok (Some v) →
  ∃ i sp' rest sp, body = call (js "fixed") (literal v i sp' :: rest) sp.
Proof.
  intros H. unfold read_fixed in H. destruct body as [| |name args sp| | |]; try done.
  destruct (str_eqb name (js "fixed")) eqn:En; [|done]. apply str_eqb_eq in En as ->.
  destruct args as [|[v' i sp'| | | | |] args]; try done. injection H as ->. by eexists _, _, _, _.
Qed.

Lemma fixed_edits v i sp' rest sp field : let amount := literal v i sp' in
  let body := call (js "fixed") (amount :: rest) sp in
  wf_node body → (node_end body ≤ length source)%nat →
  fits (node_start body) (node_end body) [field_patch amount field]
  ∧ fixed_text source (parseNonNegativeNumber field) body field
    = Ok (splice_node source body [field_patch amount field]).
Proof.
  intros amount body Hwf Hlen.
  pose proof (wf_children_within _ Hwf) as Hc. apply Forall_cons in Hc as [[Hw Hwa] _].
  assert (fits (node_start body) (node_end body) [field_patch amount field]) as F.
  { apply fits_cons. cbn [fst field_patch]. destruct Hw as (?&?&?). split_and!; [lia|by apply wf_nonempty|].
    apply fits_nil. lia. }
  split; [exact F|]. unfold fixed_text, body. rewrite str_eqb_refl. f_equal. by apply patchSource_splice.
Qed.

(** The label and the body of a tier, with the patches of each. *)
Lemma tier_spliced label body sp text patches : wf_node (call (js "tier") [label; body] sp) →
  (node_end (call (js "tier") [label; body] sp) ≤ length source)%nat →
  fits (node_start body) (node_end body) patches →
  fits (node_start (call (js "tier") [label; body] sp)) (node_end (call (js "tier") [label; body] sp))
    ((label, text) :: patches)
  ∧ patchSource source (call (js "tier") [label; body] sp) [(label, text); (body, splice_node source body patches)]
    = splice_node source (call (js "tier") [label; body] sp) ((label, text) :: patches).
Proof.
  intros Hwf Hlen Hp. pose proof (wf_children_within _ Hwf) as Hc. simpl in Hc.
  apply Forall_cons in Hc as [[_ Hwl] Hc]. apply Forall_cons in Hc as [[_ Hwb] _].
  destruct Hwf as [_ Ho _ _ _]. set (n := call _ _ _) in *.
  destruct (splice_self source label text (wf_nonempty _ Hwl)) as [Es Fs].
  destruct (patchSource_nested source n [(label, [(label, text)]); (body, patches)]) as [E F]; [done|done| |].
  { apply Forall_cons. split; [split; [by apply wf_nonempty|done]|].
    apply Forall_singleton. split; [by apply wf_nonempty|done]. }
  unfold patched_child in E. cbn [map concat fst snd app] in E, F. rewrite app_nil_r in E, F. rewrite Es in E. done.
Qed.

Lemma tier_edits n args sp p : n = call (js "tier") args sp → wf_node n → (node_end n ≤ length source)%nat →
  readVisualPricing n = Ok (Some p) →
  edits_in n (writeVisualPricing source (edit_pricing p)) (pricing_patches p).
Proof.
  intros -> Hwf Hlen H. destruct (tier_call_args _ _ Hwf) as (label & body & ->).
  cbn [readVisualPricing] in H. rewrite str_eqb_refl in H. destruct label as [[| | |l] i spl| | | | |]; try done.
  set (label := literal (lit_string l) i spl) in *. set (n := call _ _ _) in *.
  apply bind_Ok_inv in H as (fixed & Hfixed & H).
  pose proof (wf_children_within _ Hwf) as Hc. simpl in Hc.
  apply Forall_cons in Hc as [_ Hc]. apply Forall_cons in Hc as [[Hwb Hwfb] _].
  assert (node_end body ≤ length source)%nat as Hlb by (destruct Hwb as (?&?&?); lia).
  destruct fixed as [v|].
  - destruct (read_fixed_inv _ _ Hfixed) as (ai & asp & rest & spb & ->).
    injection H as <-. set (o := mkOrigin _ _). set (t := mkVisualTier _ _ _ _).
    destruct (fixed_edits v ai asp rest spb (ed_fixed edit o t) Hwfb Hlb) as [F E].
    set (amount := literal v ai asp) in *. set (body := call (js "fixed") _ _) in *.
    destruct (tier_spliced label body sp (label_text source label (ed_label edit o t)) _ Hwf Hlen F) as [F' E'].
    split; cbn [pricing_patches]; [exact F'|].
    cbn [edit_pricing writeVisualPricing edit_tier]. unfold t at 2. cbn [vt_billingUnit]. unfold write_request_tier.
    cbn [vt_fixedPrice vt_label]. eapply runs_bind; [apply runs_push_if|]. intros [] _. cbv beta.
    unfold o at 1. cbn [or_origin]. unfold n at 1. rewrite str_eqb_refl.
    eapply runs_bind; [by apply (runs_lift _ (eq (label, body)))|]. intros ? <-.
    eapply runs_bind; [exact (runs_lift_eq _ _ _ E eq_refl)|].
    intros ? <-. apply runs_ret. symmetry. exact E'.
  - destruct (read_prices (flattenBinary body (js "+")) []) as [prices|] eqn:Ep; [|done].
    injection H as <-. apply read_prices_inv in Ep as (new & -> & Hf). simpl app.
    set (o := mkOrigin _ _). set (t := mkVisualTier _ _ _ _).
    destruct (prices_edit o body new Hwfb Hlb Hf) as (F & Ho & Hr).
    destruct (tier_spliced label body sp (label_text source label (ed_label edit o t)) _ Hwf Hlen F) as [F' _].
    split; cbn [pricing_patches]; [exact F'|].
    cbn [edit_pricing writeVisualPricing edit_tier]. unfold t at 2. cbn [vt_billingUnit]. unfold write_token_tier.
    cbn [vt_prices vt_label]. eapply runs_bind; [apply runs_push_if|]. intros [] _. cbv beta.
    eapply runs_bind; [exact Hr|]. intros ws Hws.
    unfold o at 1. cbn [or_origin]. unfold n at 1. rewrite str_eqb_refl.
    eapply runs_bind; [by apply (runs_lift _ (eq (label, body)))|]. intros ? <-.
    cbn [edit_tier vt_prices vt_label]. rewrite Ho, all_origins_refl, Hws. apply runs_ret. symmetry. by apply patchSource_splice.
Qed.

Lemma pricing_edits n : ∀ p, wf_node n → (node_end n ≤ length source)%nat →
  readVisualPricing n = Ok (Some p) →
  edits_in n (writeVisualPricing source (edit_pricing p)) (pricing_patches p).
Proof.
  induction n as [n IH] using node_children_ind. intros p Hwf Hlen H.
  pose proof (wf_children_within _ Hwf) as Hc.
  destruct n as [v i sp|v sp|name args sp|o a sp|op l r sp|c y e sp]; try done.
  - pose proof H as H'. cbn [readVisualPricing] in H.
    destruct (str_eqb name (js "tier")) eqn:En; [|done]. apply str_eqb_eq in En as ->. by eapply tier_edits.
  - cbn [readVisualPricing] in H. inv_ok.
    destruct x as [condition|]; [|done]. destruct x0 as [py|]; [|done]. destruct x1 as [pn|]; [|done].
    injection H as <-. simpl in Hc, IH.
    apply Forall_cons in Hc as [[Hwc Hwfc] Hc]. apply Forall_cons in Hc as [[Hwy Hwfy] Hc].
    apply Forall_cons in Hc as [[Hwe Hwfe] _].
    apply Forall_cons in IH as [_ IH]. apply Forall_cons in IH as [IHy IH]. apply Forall_cons in IH as [IHe _].
    destruct (condition_edits _ c condition Hwfc ltac:(destruct Hwc as (?&?&?); lia) Hx) as [_ Ec].
    assert (edits_in y _ _) as Ey by (apply (IHy py); try done; destruct Hwy as (?&?&?); lia).
    assert (edits_in e _ _) as Ee by (apply (IHe pn); try done; destruct Hwe as (?&?&?); lia).
    destruct (patchSource_nested source (conditional c y e sp)
      [(c, condition_patches condition); (y, pricing_patches py); (e, pricing_patches pn)]) as [E F]; [done| | |].
    { by destruct Hwf as [_ Ho _ _ _]. }
    { repeat apply Forall_cons_2; [by eapply child_edits..|apply Forall_nil_2]. }
    cbn [map concat snd] in E, F. rewrite app_nil_r in E, F. split; [exact F|].
    cbn [edit_pricing writeVisualPricing or_origin].
    eapply runs_bind; [apply Ec|]. intros ? <-. eapply runs_bind; [apply Ey|]. intros ? <-.
    eapply runs_bind; [apply Ee|]. intros ? <-. apply runs_ret. symmetry. exact E.
Qed.
End WithHost.
End Editing.

(** ** Properties *)

(** C15: edits are local.  Whatever the user types into the value, label and
    price fields of a document, it is written as the source in which exactly the
    literals of the edited fields are replaced: everything between them, blanks,
    parentheses and literals whose field still denotes their value included, is
    the source's own text.  The answer is that text when no issue is reported
    and it compiles, and a list of issues otherwise. *)
Theorem visual_edits_are_local {host : Host} source document edit :
  parseVisualBillingDocument source = Ok (Some document) →
  let edited := mkDocument source (edit_pricing edit (doc_root document)) in
  let patches := pricing_patches source edit (doc_root document) in
  let text := splice source 0 (length source) patches in
  fits 0 (length source) patches ∧
  ∃ body issues, writeVisualPricing source (doc_root edited) [] = Ok (body, issues) ∧
    match issues, compile text with
    | [], ready _ => serializeVisualBillingDocument edited = Ok (serial_ok text)
    | _, _ => ∃ i more, serializeVisualBillingDocument edited = Ok (serial_issues (i :: more))
    end.
Proof.
  intros Hparse edited patches text. unfold parseVisualBillingDocument in Hparse.
  destruct (compile source) as [c|f] eqn:Ec; [|done].
  pose proof (compile_ready _ _ Ec) as Hc. apply compile_body_inv in Hc as (_ & _ & Hwf & Hend & _).
  apply bind_Ok_inv in Hparse as ([root|] & Hr & Hs); [|done]. apply bind_Ok_inv in Hs as (out & Hs & Hout).
  destruct out as [out|]; [|done]. injection Hout as <-. cbn [doc_root] in *.
  destruct (pricing_edits source edit _ root Hwf Hend Hr) as [F Hw].
  destruct (Hw []) as (body & issues & E & <-).
  set (ast := cp_ast c) in *. pose proof (wf_nonempty _ Hwf).
  assert (fits 0 (node_start ast) []) as F0 by (apply fits_nil; lia).
  assert (fits (node_end ast) (length source) []) as F1 by (apply fits_nil; lia).
  destruct (splice_app source _ _ _ _ _ F F1) as [S1 G1]. destruct (splice_app source _ _ _ _ _ F0 G1) as [S2 G2].
  simpl app in S2, G2. rewrite app_nil_r in S1, S2, G1, G2.
  split; [exact G2|]. eexists _, issues. split; [exact E|].
  assert (text = take (node_start ast) source ++ splice_node source ast patches ++ drop (node_end ast) source) as Htext.
  { unfold text, patches. rewrite S2, S1. simpl. unfold splice_node. f_equal; [unfold slice; by rewrite drop_0, Nat.sub_0_r|].
    f_equal. unfold slice. rewrite take_ge; [done|]. rewrite length_drop. lia. }
  unfold serializeVisualBillingDocument, edited. cbn [doc_source doc_root] in *. rewrite E. cbn [mbind outcome_bind].
  destruct issues as [|i more]; [|by eexists _, _].
  rewrite Ec. fold ast. fold patches. rewrite <- Htext. destruct (compile text); [done|by eexists _, _].
Qed.

Definition example_source : jsstring := jq "len <= 100  ? tier(`a`, p*2.50 + c * 4) : tier( `b` , p * 3)".

(** Every price becomes 5, labels and condition values stay. *)
Definition example_edit : Edit :=
  mkEdit (λ _ k, vc_value k) (λ _ t, vt_label t) (λ _ p, js "5") (λ _ t, vt_fixedPrice t).

Lemma visual_edits_are_local_witness :
  ∃ document, @parseVisualBillingDocument plain_host example_source = Ok (Some document)
  ∧ fits 0 (length example_source) (pricing_patches example_source example_edit (doc_root document))
  ∧ splice example_source 0 (length example_source) (pricing_patches example_source example_edit (doc_root document))
    = jq "len <= 100  ? tier(`a`, p*5 + c * 5) : tier( `b` , p * 5)".
Proof.
  destruct (@parseVisualBillingDocument plain_host example_source) as [[document|]| |] eqn:E;
    [|vm_compute in E; discriminate..].
  exists document. split; [done|]. split.
  - apply (@visual_edits_are_local plain_host example_source document example_edit E).
  - vm_compute in E. injection E as <-. vm_compute. reflexivity.
Defined.
