(* ===== verification/ConditionDisplay.v ===== *)
(** * Conditions in words (billing-expression/condition-display.ts)

    The translator of the console (i18next), the canonical locale names and the
    locale formatters are parameters of this file: they are not under src/. *)
From S2P Require Import Prelude JsString JsNumber JsValue Host BillingTypes Parser Compile Runtime Display.
Local Open Scope Z_scope.

Inductive option_value := opt_string (s : jsstring) | opt_number (x : number) | opt_no_escape.

(** What the formatter is given by its environment. *)
Class Presentation := {
  (** the translation function of the caller *)
  translator : jsstring → list (jsstring * option_value) → jsstring;
  (** [Intl.getCanonicalLocales(value)[0]], [None] when it throws or is undefined *)
  canonical_locale : jsstring → option jsstring;
  (** [new Intl.DateTimeFormat(locale, { weekday: 'short', timeZone: 'UTC' }).format(date)] *)
  weekday_short : option jsstring → option Z → jsstring;
  (** [x.toLocaleString(locale)] *)
  number_toLocaleString : option jsstring → number → jsstring;
}.

Inductive DescriptionKind := desc_calendar | desc_clock | desc_combined.

Record Description := mkDescription {
  de_text : jsstring;
  de_kind : DescriptionKind;
  de_timezone : jsstring;
  de_disjunction : option bool;
}.

Record TimeComparison := mkTimeComparison {
  cmp_name : TimeFunction;
  cmp_timezone : jsstring;
  cmp_operator : jsstring;
  cmp_value : number;
}.

Definition DOMAINS (f : TimeFunction) : Z * Z :=
  match f with
  | time_hour => (0, 24) | time_minute => (0, 60) | time_weekday => (0, 7)
  | time_month => (1, 13) | time_day => (1, 32)
  end.

Definition num_one : number := num_of_Z 1.

(** One turn of the loop of [describeTimeRange] on [(start, end)]. *)
Definition narrow (range : number * number) (c : TimeComparison) : number * number :=
  let '(start, stop) := range in
  let value := cmp_value c in
  let op := cmp_operator c in
  if str_eqb op (js ">=") then (Math_max start value, stop)
  else if str_eqb op (js ">") then (Math_max start (num_add value num_one), stop)
  else if str_eqb op (js "<") then (start, Math_min stop value)
  else if str_eqb op (js "<=") then (start, Math_min stop (num_add value num_one))
  else if str_eqb op (js "==") then (Math_max start value, Math_min stop (num_add value num_one))
  else range.

Definition time_range (first : TimeComparison) (comparisons : list TimeComparison) : number * number :=
  let '(lo, hi) := DOMAINS (cmp_name first) in
  fold_left narrow comparisons (num_of_Z lo, num_of_Z hi).

(** The translation keys with an en dash. *)
Definition range_key : jsstring := js "{{start}}" ++ [8211] ++ js "{{end}}".

(** [new Date(Date.UTC(2026, 0, day))] for an integral day. *)
Definition january_2026 (day : number) : option Z :=
  d ← integer_value day; Some (1767225600000 + ms_per_day * (d - 1)).

Section Describe.
Context {host : Host} {presentation : Presentation}.

(** i18n/languages.ts *)
Definition toIntlLocale (value : jsstring) : option jsstring :=
  if str_eqb value [] then None
  else if str_eqb value (js "zhCN") then Some (js "zh-CN")
  else if str_eqb value (js "zhTW") then Some (js "zh-TW")
  else canonical_locale value.

(** The wrapper of [formatBillingCondition] around its translator. *)
Definition translate (key : jsstring) (options : list (jsstring * option_value)) : jsstring :=
  translator key (options ++ [(js "interpolation", opt_no_escape)]).

Definition timeComparison (node : ExpressionNode) : result (option TimeComparison) :=
  match node with
  | binary op (call name args _) r _ =>
      if str_in op [js "=="; js ">="; js ">"; js "<="; js "<"] then
        match time_function_of_name name with
        | None => Ok None
        | Some f =>
            match args with
            | [] => undefined_read "kind"
            | literal (lit_string zone) _ _ :: _ =>
                Ok (match r with
                    | literal (lit_number x) _ _ =>
                        if isInteger x then
                          let zone := trim zone in
                          Some (mkTimeComparison f (if str_eqb zone [] then js "UTC" else zone) op x)
                        else None
                    | _ => None
                    end)
            | _ :: _ => Ok None
            end
        end
      else Ok None
  | _ => Ok None
  end.

Definition clock_text (x : number) : jsstring := pad2 (String_of_number x) ++ js ":00".

Definition describeTimeRange (first : TimeComparison) (rest : list TimeComparison) (locale : jsstring)
    : option Description :=
  let '(start, stop) := time_range first (first :: rest) in
  if num_leb stop start then None
  else
    let last := num_sub stop num_one in
    let single := num_eqb start last in
    let text :=
      match cmp_name first with
      | time_hour =>
          translate range_key [(js "start", opt_string (clock_text start)); (js "end", opt_string (clock_text stop))]
      | time_weekday =>
          let day x := weekday_short (toIntlLocale locale) (january_2026 x) in
          let from := day (num_add (num_of_Z 4) start) in
          let to := day (num_sub (num_add (num_of_Z 4) stop) num_one) in
          if single then from
          else translate range_key [(js "start", opt_string from); (js "end", opt_string to)]
      | f =>
          let label := match f with time_minute => js "Minute" | time_month => js "Month" | _ => js "Day" end in
          let values :=
            if single then String_of_number start
            else translate range_key [(js "start", opt_number start); (js "end", opt_number last)] in
          translate label [] ++ js ": " ++ values
      end in
    Some (mkDescription text
            (match cmp_name first with time_hour => desc_clock | _ => desc_calendar end)
            (cmp_timezone first) None).

(** A comparison of a token count with a number. *)
Definition describe_tokens (node : ExpressionNode) (locale : jsstring) : option (option Description) :=
  match node with
  | binary op (variable name _) (literal (lit_number x) _ _) _ =>
      if str_in op [js "<"; js "<="; js ">"; js ">="; js "=="; js "!="] then
        let label :=
          match name with
          | token_variable var_p => Some (js "Input")
          | token_variable var_c => Some (js "Output")
          | token_variable var_len => Some (js "Full input length")
          | _ => None
          end in
        Some (label ← label;
              Some (mkDescription
                      (translate label [] ++ js " " ++ op ++ js " "
                       ++ number_toLocaleString (toIntlLocale locale) x)
                      desc_combined [] None))
      else None
  | _ => None
  end.

(** The map from function and zone to their comparisons, in insertion order. *)
Definition range_key_of (c : TimeComparison) : jsstring :=
  time_function_name (cmp_name c) ++ js ":" ++ cmp_timezone c.

Fixpoint add_range (c : TimeComparison) (ranges : list (jsstring * (TimeComparison * list TimeComparison)))
    : list (jsstring * (TimeComparison * list TimeComparison)) :=
  match ranges with
  | [] => [(range_key_of c, (c, []))]
  | (key, (first, rest)) :: ranges' =>
      if str_eqb key (range_key_of c) then (key, (first, rest ++ [c])) :: ranges'
      else (key, (first, rest)) :: add_range c ranges'
  end.

(** The loop over the operands of a conjunction. *)
Fixpoint conjunction_parts (describe : ExpressionNode → result (option Description))
    (nodes : list ExpressionNode) (ranges : list (jsstring * (TimeComparison * list TimeComparison)))
    (parts : list Description)
    : result (option (list (jsstring * (TimeComparison * list TimeComparison)) * list Description)) :=
  match nodes with
  | [] => Ok (Some (ranges, parts))
  | part :: nodes' =>
      comparison ← timeComparison part;
      match comparison with
      | Some c => conjunction_parts describe nodes' (add_range c ranges) parts
      | None =>
          description ← describe part;
          match description with
          | None => Ok None
          | Some d => conjunction_parts describe nodes' ranges (parts ++ [d])
          end
      end
  end.

Fixpoint disjunction_parts (describe : ExpressionNode → result (option Description))
    (nodes : list ExpressionNode) : result (option (list Description)) :=
  match nodes with
  | [] => Ok (Some [])
  | part :: nodes' =>
      description ← describe part;
      match description with
      | None => Ok None
      | Some d => ds ← disjunction_parts describe nodes'; Ok (option_map (cons d) ds)
      end
  end.

Definition is_kind (k : DescriptionKind) (d : Description) : bool :=
  match k, de_kind d with
  | desc_calendar, desc_calendar | desc_clock, desc_clock | desc_combined, desc_combined => true
  | _, _ => false
  end.

Definition non_empty_string (s : jsstring) : bool := negb (str_eqb s []).

(** [[...new Set(zones)]] *)
Definition dedupe (l : list jsstring) : list jsstring := fold_left (λ acc s, set_add s acc) l [].

(** The text of one part inside a group. *)
Definition part_text (conjunction : bool) (d : Description) : jsstring :=
  if conjunction && default false (de_disjunction d) then js "(" ++ de_text d ++ js ")" else de_text d.

(** From the parts of a group to its description. *)
Definition combine_parts (conjunction : bool) (parts : list Description) : option Description :=
  let zones := dedupe (List.filter non_empty_string (map de_timezone parts)) in
  match parts with
  | [] => None
  | first :: rest =>
      if (1 <? length zones)%nat then None
      else
        match rest with
        | [] => Some first
        | _ =>
            let calendars := List.filter (is_kind desc_calendar) parts in
            let clocks := List.filter (is_kind desc_clock) parts in
            match conjunction, parts, calendars, clocks with
            | true, [_; _], [calendar], [clock] =>
                Some (mkDescription (de_text calendar ++ js " " ++ de_text clock) desc_combined
                        (de_timezone first) None)
            | _, _, _, _ =>
                let separator := if conjunction then js "{{first}} and {{second}}"
                                 else js "{{first}} or {{second}}" in
                let text :=
                  fold_left (λ text part,
                               translate separator [(js "first", opt_string text);
                                                    (js "second", opt_string (part_text conjunction part))])
                    rest (part_text conjunction first) in
                Some (mkDescription text
                        (if (length clocks =? length parts)%nat then desc_clock else desc_combined)
                        (default [] (head zones)) (Some (negb conjunction)))
            end
        end
  end.

Fixpoint describe_condition (fuel : nat) (locale : jsstring) (node : ExpressionNode)
    : result (option Description) :=
  match fuel with
  | O => NoFuel
  | S fuel' =>
      match node with
      | unary op operand _ =>
          if str_eqb op (js "!") then
            description ← describe_condition fuel' locale operand;
            Ok (option_map (λ d, mkDescription
                  (translate (js "Outside these times: {{condition}}") [(js "condition", opt_string (de_text d))])
                  desc_combined (de_timezone d) (de_disjunction d)) description)
          else Ok None
      | binary op _ _ _ =>
          match describe_tokens node locale with
          | Some answer => Ok answer
          | None =>
              single ← timeComparison node;
              match single with
              | Some c => Ok (describeTimeRange c [] locale)
              | None =>
                  if str_eqb op (js "&&") then
                    r ← conjunction_parts (describe_condition fuel' locale) (flattenBinary node op) [] [];
                    Ok ('(ranges, parts) ← r;
                        described ← mapM (λ '(_, (first, rest)), describeTimeRange first rest locale) ranges;
                        combine_parts true (parts ++ described))
                  else if str_eqb op (js "||") then
                    r ← disjunction_parts (describe_condition fuel' locale) (flattenBinary node op);
                    Ok (parts ← r; combine_parts false parts)
                  else Ok None
              end
          end
      | _ => Ok None
      end
  end.

Definition describeBillingCondition (locale : jsstring) (node : ExpressionNode) : result (option Description) :=
  describe_condition (node_size node) locale node.

Definition formatBillingCondition (source locale : jsstring) : result (option jsstring) :=
  match compile source with
  | failed _ => Ok None
  | ready compiled =>
      match describeBillingCondition locale (cp_ast compiled) with
      | Ok (Some d) =>
          Ok (Some (if str_eqb (de_timezone d) [] then de_text d
                    else translate (js "{{condition}} ({{timezone}})")
                           [(js "condition", opt_string (de_text d));
                            (js "timezone", opt_string (de_timezone d))]))
      | Ok None => Ok None
      | Throw _ => Ok None
      | NoFuel => NoFuel
      end
  end.
End Describe.
