(* ===== verification/BillingExpr.v ===== *)
(** * Request rules and tier summaries (pricing/lib/billing-expr.ts)

    The variable registry, the tier parsers built on [Display], and the textual
    layer of request rules: recognising rule factors with regular expressions,
    splitting an expression into its price and its rules, and building rule
    expressions from the editor's groups. *)
From S2P Require Import Prelude JsString JsNumber JsRegex JsValue JsJson Host BillingTypes Parser Compile Runtime Structure Display.
Local Open Scope Z_scope.

(** ** Variable registry *)
Inductive BillingSide := side_input | side_output | side_condition.

Record BillingVar := mkVar {
  bv_key : jsstring;
  bv_field : option jsstring;
  bv_tierField : option jsstring;
  bv_label : jsstring;
  bv_shortLabel : jsstring;
  bv_side : BillingSide;
  bv_isBase : bool;
  bv_isConditionOnly : bool;
  bv_group : option jsstring;
}.

Definition extra_var (key field tierField label shortLabel : string) (side : BillingSide) (group : string)
    : BillingVar :=
  mkVar (js key) (Some (js field)) (Some (js tierField)) (js label) (js shortLabel) side false false
    (Some (js group)).

Definition BILLING_VARS : list BillingVar :=
  [ mkVar (js "p") (Some (js "inputPrice")) (Some (js "input_unit_cost")) (js "Input price") (js "Input")
      side_input true false None;
    mkVar (js "c") (Some (js "outputPrice")) (Some (js "output_unit_cost")) (js "Completion price")
      (js "Output") side_output true false None;
    mkVar (js "len") None None (js "Input length") (js "Length") side_condition false true None;
    extra_var "cr" "cacheReadPrice" "cache_read_unit_cost" "Cache read price" "Cache Read" side_input "cache";
    extra_var "cc" "cacheCreatePrice" "cache_create_unit_cost" "Cache create price" "Cache Write"
      side_input "cache";
    extra_var "img_cr" "imageCachePrice" "image_cache_unit_cost" "Image cache input price" "Image Cache"
      side_input "cache";
    extra_var "cc1h" "cacheCreate1hPrice" "cache_create_1h_unit_cost" "Cache create (1h) price"
      "Cache Write (1h)" side_input "cache";
    extra_var "img" "imagePrice" "image_unit_cost" "Image input price" "Image In" side_input "media";
    extra_var "img_o" "imageOutputPrice" "image_output_unit_cost" "Image output price" "Image Out"
      side_output "media";
    extra_var "ai" "audioInputPrice" "audio_input_unit_cost" "Audio input price" "Audio In"
      side_input "media";
    extra_var "ao" "audioOutputPrice" "audio_output_unit_cost" "Audio output price" "Audio Out"
      side_output "media" ].

Definition BILLING_PRICING_VARS : list BillingVar :=
  List.filter (λ v, negb (bv_isConditionOnly v)) BILLING_VARS.
Definition BILLING_CONDITION_VARS : list jsstring :=
  map bv_key (List.filter (λ v, bv_isBase v || bv_isConditionOnly v) BILLING_VARS).
Definition BILLING_VAR_KEY_TO_FIELD : list (jsstring * jsstring) :=
  map (λ v, (bv_key v, default [] (bv_field v))) BILLING_PRICING_VARS.
Definition BILLING_EXTRA_VARS : list BillingVar :=
  List.filter (λ v, negb (bv_isBase v) && negb (bv_isConditionOnly v)) BILLING_VARS.
(** [{ field, exprVar }] *)
Definition BILLING_CACHE_VAR_MAP : list (jsstring * jsstring) :=
  map (λ v, (default [] (bv_tierField v), bv_key v)) BILLING_EXTRA_VARS.

(** ** Request rule data *)
Definition MATCH_EQ := js "eq".
Definition MATCH_CONTAINS := js "contains".
Definition MATCH_GT := js "gt".
Definition MATCH_GTE := js "gte".
Definition MATCH_LT := js "lt".
Definition MATCH_LTE := js "lte".
Definition MATCH_EXISTS := js "exists".
Definition MATCH_RANGE := js "range".

Inductive HeaderOrParam := source_param | source_header.

Record ParamHeaderCondition := mkParamHeader {
  ph_source : HeaderOrParam;
  ph_path : jsstring;
  ph_mode : jsstring;
  ph_value : jsstring;
}.

Record TimeCondition := mkTimeCondition {
  tm_timeFunc : TimeFunction;
  tm_timezone : jsstring;
  tm_mode : jsstring;
  tm_value : jsstring;
  tm_rangeStart : jsstring;
  tm_rangeEnd : jsstring;
}.

Inductive RequestCondition := cond_time (c : TimeCondition) | cond_request (c : ParamHeaderCondition).

Record RequestRuleGroup := mkGroup {
  rg_conditions : list RequestCondition;
  rg_multiplier : jsstring;
  rg_conditionText : option jsstring;
  rg_matched : option bool;
}.

(** ** Tier summaries *)
Record ParsedTier := mkParsedTier {
  pt_label : jsstring;
  pt_imageCount : bool;
  pt_conditions : list TokenTierCondition;
  pt_fixed : option (BillingUnit * option number);
  pt_conditionText : option jsstring;
  pt_fields : list (jsstring * number);
}.

(** A price under the field name of its variable; an unknown key would be
    stored under [undefined]. *)
Definition price_field (entry : TokenVariable * number) : jsstring * number :=
  (default (js "undefined") (own_property (token_variable_name (fst entry)) BILLING_VAR_KEY_TO_FIELD),
   snd entry).

Definition mapTokenTier (tier : TokenTier) : ParsedTier :=
  mkParsedTier (tt_label tier) (tt_imageCount tier) (tt_conditions tier)
    (match tt_billingUnit tier with
     | Some unit_request => Some (unit_request, tt_fixedPrice tier)
     | _ => None
     end)
    (match tt_conditionText tier with Some ((_ :: _) as text) => Some text | _ => None end)
    (map price_field (tt_prices tier)).

(** ** Regular expressions of the rule syntax *)

(** [NUMERIC_LITERAL_REGEX] *)
Definition NUMERIC_LITERAL_REGEX : regex :=
  r_seq [ r_opt (r_lit "-");
          r_alt [ r_seq [r_plus r_digit; r_opt (r_lit "."); RStar r_digit];
                  r_seq [r_lit "."; r_plus r_digit] ];
          r_opt (r_seq [r_class (λ _, false) "eE"; r_opt (r_class (λ _, false) "+-"); r_plus r_digit]) ].

Definition is_numeric_literal (text : jsstring) : bool := test_all NUMERIC_LITERAL_REGEX text.

Definition r_quote : regex := r_chars [34].
(** one or more characters other than the double quote *)
Definition r_unquoted : regex := r_plus (r_not [34]).
Definition r_numeral : regex := r_plus r_num_char.
Definition r_time_func : regex :=
  r_alt [r_lit "hour"; r_lit "minute"; r_lit "weekday"; r_lit "month"; r_lit "day"].

(** a time function of a quoted zone: the name in group 1, the zone in group 2 *)
Definition r_time_call : regex :=
  r_seq [RGroup 1 r_time_func; r_lit "("; r_quote; RGroup 2 r_unquoted; r_quote; r_lit ")"].

Definition r_time_range : regex :=
  r_seq [ r_time_call; r_lit " >= "; RGroup 3 r_numeral; r_lit " "; r_alt [r_lit "&&"; r_lit "||"]; r_lit " ";
          RBack 1; r_lit "("; r_quote; RBack 2; r_quote; r_lit ")"; r_lit " < "; RGroup 4 r_numeral ].
Definition r_time_range_parens : regex := r_seq [r_lit "("; r_time_range; r_lit ")"].
Definition r_time_scalar : regex :=
  r_seq [ r_time_call; r_lit " "; RGroup 3 (r_alt [r_lit "=="; r_lit ">="; r_lit "<"]); r_lit " ";
          RGroup 4 r_numeral ].

(** a probe of a quoted path, the path in group [n] *)
Definition r_probe (name : string) (n : nat) : regex :=
  r_seq [r_lit name; r_lit "("; r_quote; RGroup n r_unquoted; r_quote; r_lit ")"].
(** a double-quoted string with backslash escapes *)
Definition r_string : regex :=
  r_seq [r_quote; RStar (RAlt (r_not [34; 92]) (RSeq (r_chars [92]) r_dot)); r_quote].

Definition r_header_exists : regex := r_seq [r_probe "header" 1; r_lit " != "; r_quote; r_quote].
Definition r_param_exists : regex := r_seq [r_probe "param" 1; r_lit " != nil"].
Definition r_header_has : regex :=
  r_seq [r_lit "has("; r_probe "header" 1; r_lit ", "; RGroup 2 r_string; r_lit ")"].
Definition r_param_has : regex :=
  r_seq [r_probe "param" 1; r_lit " != nil && has("; r_probe "param" 2; r_lit ", "; RGroup 3 r_string; r_lit ")"].
Definition r_param_compare : regex :=
  r_seq [ r_probe "param" 1; r_lit " != nil && "; r_probe "param" 2; r_lit " ";
          RGroup 3 (r_alt [r_lit ">"; r_lit ">="; r_lit "<"; r_lit "<="]); r_lit " "; RGroup 4 r_numeral ].
Definition r_equals : regex :=
  r_seq [ RGroup 1 (r_alt [r_lit "param"; r_lit "header"]); r_lit "("; r_quote; RGroup 2 r_unquoted; r_quote;
          r_lit ")"; r_lit " == "; RGroup 3 (r_plus r_dot) ].
(** [/^\((.+) \? ([\d.eE+-]+) : 1\)$/s] *)
Definition r_rule_factor : regex :=
  r_seq [r_lit "("; RGroup 1 (r_plus r_any); r_lit " ? "; RGroup 2 r_numeral; r_lit " : 1)"].

(** ** Parsing rules *)
Definition TIME_FUNC_RANGES (f : TimeFunction) : Z * Z :=
  match f with
  | time_hour => (0, 23) | time_minute => (0, 59) | time_weekday => (0, 6)
  | time_month => (1, 12) | time_day => (1, 31)
  end.

Definition isTimeValueInRange (timeFunc : TimeFunction) (text : jsstring) : bool :=
  is_numeric_literal text &&
  let value := Number_of_string text in
  isInteger value &&
  let '(lo, hi) := TIME_FUNC_RANGES timeFunc in
  num_leb (num_of_Z lo) value && num_leb value (num_of_Z hi).

Definition parseExprLiteral (raw : jsstring) : option jsval :=
  let text := trim raw in
  if str_eqb text (js "true") || str_eqb text (js "false") then Some (JString text)
  else if is_numeric_literal text then Some (JString text)
  else
    match JSON_parse text with
    | Some JNull => None
    | r => r
    end.

(** The time function a match names; the pattern only lets the five names through. *)
Definition captured_func (caps : captures) : TimeFunction :=
  default time_hour (time_function_of_name (group_or_empty 1 caps)).

Definition time_range_condition (caps : captures) : option TimeCondition :=
  let f := captured_func caps in
  let lo := group_or_empty 3 caps in
  let hi := group_or_empty 4 caps in
  if isTimeValueInRange f lo && isTimeValueInRange f hi
  then Some (mkTimeCondition f (group_or_empty 2 caps) MATCH_RANGE [] lo hi) else None.

Definition scalar_mode (op : jsstring) : jsstring :=
  if str_eqb op (js ">=") then MATCH_GTE else if str_eqb op (js "<") then MATCH_LT else MATCH_EQ.

Definition tryParseTimeCondition (expr : jsstring) : option TimeCondition :=
  let m := match match_all r_time_range expr with
           | Some caps => Some caps
           | None => match_all r_time_range_parens expr
           end in
  match m with
  | Some caps => time_range_condition caps
  | None =>
      caps ← match_all r_time_scalar expr;
      let f := captured_func caps in
      if isTimeValueInRange f (group_or_empty 4 caps)
      then Some (mkTimeCondition f (group_or_empty 2 caps) (scalar_mode (group_or_empty 3 caps))
                   (group_or_empty 4 caps) [] [])
      else None
  end.

Definition compare_mode (op : jsstring) : jsstring :=
  if str_eqb op (js ">") then MATCH_GT else if str_eqb op (js ">=") then MATCH_GTE
  else if str_eqb op (js "<") then MATCH_LT else MATCH_LTE.

Section WithHost.
Context {host : Host}.

(** [JSON.parse(m[n]) as string] outside a [try]. *)
Definition parse_quoted (text : jsstring) : result jsstring :=
  match JSON_parse text with
  | Some v => Ok (String_of_value v)
  | None => throw (JsError (json_error_message text))
  end.

Definition request_condition (source : HeaderOrParam) (path mode value : jsstring) : RequestCondition :=
  cond_request (mkParamHeader source path mode value).

(** The last pattern: an equality with a literal. *)
Definition tryParseEquality (expr : jsstring) : option RequestCondition :=
  caps ← match_all r_equals expr;
  value ← parseExprLiteral (group_or_empty 3 caps);
  let source := if str_eqb (group_or_empty 1 caps) (js "header") then source_header else source_param in
  Some (request_condition source (group_or_empty 2 caps) MATCH_EQ (String_of_value value)).

(** [m && m[1] === m[2]] *)
Definition same_paths (m : option captures) : option captures :=
  caps ← m; if str_eqb (group_or_empty 1 caps) (group_or_empty 2 caps) then Some caps else None.

Definition tryParseRequestCondition (expr : jsstring) : result (option RequestCondition) :=
  match tryParseTimeCondition expr with
  | Some tc => Ok (Some (cond_time tc))
  | None =>
  match match_all r_header_exists expr with
  | Some caps => Ok (Some (request_condition source_header (group_or_empty 1 caps) MATCH_EXISTS []))
  | None =>
  match match_all r_param_exists expr with
  | Some caps => Ok (Some (request_condition source_param (group_or_empty 1 caps) MATCH_EXISTS []))
  | None =>
  match match_all r_header_has expr with
  | Some caps =>
      value ← parse_quoted (group_or_empty 2 caps);
      Ok (Some (request_condition source_header (group_or_empty 1 caps) MATCH_CONTAINS value))
  | None =>
  match same_paths (match_all r_param_has expr) with
  | Some caps =>
      value ← parse_quoted (group_or_empty 3 caps);
      Ok (Some (request_condition source_param (group_or_empty 1 caps) MATCH_CONTAINS value))
  | None =>
  match same_paths (match_all r_param_compare expr) with
  | Some caps =>
      Ok (Some (request_condition source_param (group_or_empty 1 caps)
                  (compare_mode (group_or_empty 3 caps)) (group_or_empty 4 caps)))
  | None => Ok (tryParseEquality expr)
  end end end end end end.

Definition tryParseTimeRangePair (lower upper : jsstring) : option RequestCondition :=
  ta ← tryParseTimeCondition lower;
  tb ← tryParseTimeCondition upper;
  if bool_decide (tm_timeFunc ta = tm_timeFunc tb) && str_eqb (tm_timezone ta) (tm_timezone tb)
     && str_eqb (tm_mode ta) MATCH_GTE && str_eqb (tm_mode tb) MATCH_LT
  then Some (cond_time (mkTimeCondition (tm_timeFunc ta) (tm_timezone ta) MATCH_RANGE []
                          (tm_value ta) (tm_value tb)))
  else None.

(** The loop over the conjuncts; adjacent bounds of one range are merged. *)
Fixpoint parse_conjuncts (parts : list jsstring) : result (option (list RequestCondition)) :=
  match parts with
  | [] => Ok (Some [])
  | part :: rest =>
      let single :=
        condition ← tryParseRequestCondition (trim part);
        match condition with
        | None => Ok None
        | Some c => cs ← parse_conjuncts rest; Ok (option_map (cons c) cs)
        end in
      match rest with
      | next :: rest' =>
          match (if str_eqb (trim next) [] then None else tryParseTimeRangePair (trim part) (trim next)) with
          | Some merged => cs ← parse_conjuncts rest'; Ok (option_map (cons merged) cs)
          | None => single
          end
      | [] => single
      end
  end.

(** The splits are at non-empty operators, so they always answer. *)
Definition split_at (expr : jsstring) (operator : string) : result (list jsstring) :=
  match splitExpressionAtTopLevel expr (js operator) with
  | Ok parts => Ok parts
  | _ => NoFuel
  end.
Definition splitTopLevelMultiply (expr : jsstring) : result (list jsstring) := split_at expr "*".
Definition splitTopLevelAnd (expr : jsstring) : result (list jsstring) := split_at expr "&&".

Definition tryParseRequestConditions (conditionStr : jsstring) : result (option (list RequestCondition)) :=
  match tryParseTimeCondition (trim conditionStr) with
  | Some whole => Ok (Some [cond_time whole])
  | None =>
      andParts ← splitTopLevelAnd conditionStr;
      conditions ← parse_conjuncts andParts;
      Ok (match conditions with Some ((_ :: _) as cs) => Some cs | _ => None end)
  end.

Definition tryParseRuleGroupFactor (part : jsstring) : result (option RequestRuleGroup) :=
  match match_all r_rule_factor part with
  | None => Ok None
  | Some caps =>
      conditions ← tryParseRequestConditions (group_or_empty 1 caps);
      Ok (option_map (λ cs, mkGroup cs (group_or_empty 2 caps) None None) conditions)
  end.

Definition requestRuleGroupsFromTrace (requestRules : list BillingRequestRule)
    : result (list RequestRuleGroup) :=
  sequence_results (map (λ rule,
    let conditionText := trim (rr_cond rule) in
    conditions ← tryParseRequestConditions conditionText;
    Ok (mkGroup (default [] conditions) (String_of_number (rr_multiplier rule))
          (Some conditionText) (Some (rr_matched rule)))) requestRules).

Fixpoint parse_factors (parts : list jsstring) : result (option (list RequestRuleGroup)) :=
  match parts with
  | [] => Ok (Some [])
  | part :: rest =>
      g ← tryParseRuleGroupFactor part;
      match g with
      | None => Ok None
      | Some g => gs ← parse_factors rest; Ok (option_map (cons g) gs)
      end
  end.

Definition tryParseRequestRuleExpr (expr : jsstring) : result (option (list RequestRuleGroup)) :=
  let trimmed := trim expr in
  if str_eqb trimmed [] then Ok (Some [])
  else parts ← splitTopLevelMultiply trimmed; parse_factors parts.

(** ** Splitting and combining *)
Definition unwrapOuterParens (expr : jsstring) : jsstring := unwrapExpressionParens expr.

Record SplitExpr := mkSplit { se_billingExpr : jsstring; se_requestRuleExpr : jsstring }.

(** Whether a factor is a request rule: it parses as one, or it compiles to one. *)
Definition is_rule_part (part : jsstring) : result bool :=
  parsed ← tryParseRequestRuleExpr part;
  let traced := match compile part with
                | ready c => existsb (λ rule, same_node (rule_node rule) (cp_ast c)) (cp_requestRules c)
                | failed _ => false
                end in
  Ok (match parsed with Some (_ :: _) => true | _ => traced end).

Fixpoint classify_parts (parts : list jsstring) : result (list jsstring * list jsstring) :=
  match parts with
  | [] => Ok ([], [])
  | part :: rest =>
      rule ← is_rule_part part;
      '(rules, bases) ← classify_parts rest;
      Ok (if rule : bool then (part :: rules, bases) else (rules, part :: bases))
  end.

Definition is_quantity (part : jsstring) : bool := str_eqb (unwrapOuterParens part) (js "image_count").

Definition splitBillingExprAndRequestRules (expr : jsstring) : result SplitExpr :=
  let trimmed := trim expr in
  if str_eqb trimmed [] then Ok (mkSplit [] [])
  else
    parts ← splitTopLevelMultiply trimmed;
    if (length parts <=? 1)%nat then Ok (mkSplit trimmed [])
    else
      '(ruleParts, baseParts) ← classify_parts parts;
      let quantityParts := List.filter is_quantity baseParts in
      Ok (if (length ruleParts =? 0)%nat
             || negb (Z.of_nat (length baseParts) - Z.of_nat (length quantityParts) =? 1)
          then mkSplit trimmed []
          else mkSplit (join (js " * ") (map unwrapOuterParens baseParts)) (join (js " * ") ruleParts)).

Definition combineBillingExpr (baseExpr requestRuleExpr : jsstring) : jsstring :=
  let base := trim baseExpr in
  let rules := trim requestRuleExpr in
  if str_eqb base [] then []
  else if str_eqb rules [] then base
  else js "(" ++ base ++ js ") * " ++ rules.

(** ** Tier parsers *)
Definition parseTiersFromExpr (exprStr : jsstring) : result (list ParsedTier) :=
  if str_eqb exprStr [] then Ok []
  else
    match compile exprStr with
    | failed _ => Ok []
    | ready compiled =>
        canonical ← readTokenTierChain (cp_ast compiled);
        match canonical with
        | Some tiers => Ok (map mapTokenTier tiers)
        | None =>
            timed ← readTimeTokenPricing exprStr None;
            Ok (match timed with
                | Some pricing => map (λ t, mapTokenTier (ti_tier t)) (tp_tiers pricing)
                | None => []
                end)
        end
    end.

Definition getCurrentTimePricingTiers (exprStr : jsstring) (now : Date) : result (option (list ParsedTier)) :=
  timed ← readTimeTokenPricing exprStr (Some now);
  Ok (option_map (λ pricing, map (λ t, mapTokenTier (ti_tier t)) (tp_currentTiers pricing)) timed).

(** A missing schema is the empty one: both give no tiers. *)
Definition parseTaskTiersFromExpr (exprStr : jsstring) (schema : BillingUsageSchema) (includeBoolean : bool)
    : result (list TaskTier) :=
  if str_eqb exprStr [] || (length schema =? 0)%nat then Ok []
  else
    split ← splitBillingExprAndRequestRules exprStr;
    match compile (se_billingExpr split) with
    | failed _ => Ok []
    | ready compiled =>
        tiers ← readTaskTierChain (cp_ast compiled) schema includeBoolean;
        Ok (default [] tiers)
    end.

(** [/<[=＝]?|≤|＜[=＝]?/g] and its mirror image, replaced by the plain sign. *)
Fixpoint replace_signs (sign equal_sign full_sign : jschar) (s : jsstring) : jsstring :=
  match s with
  | [] => []
  | c :: s' =>
      if (c =? sign) || (c =? full_sign) then
        match s' with
        | d :: s'' =>
            if (d =? 61) || (d =? 65309) then sign :: replace_signs sign equal_sign full_sign s''
            else sign :: replace_signs sign equal_sign full_sign s'
        | [] => [sign]
        end
      else if c =? equal_sign then sign :: replace_signs sign equal_sign full_sign s'
      else c :: replace_signs sign equal_sign full_sign s'
  end.

Definition normalizeTierLabel (label : jsstring) : jsstring :=
  toLowerCase (remove_spaces (replace_signs 62 8805 65310 (replace_signs 60 8804 65308 label))).
End WithHost.

(** ** The editor's conditions *)
Definition createEmptyCondition : RequestCondition :=
  cond_request (mkParamHeader source_param [] MATCH_EQ []).
Definition createEmptyTimeCondition : RequestCondition :=
  cond_time (mkTimeCondition time_hour (js "Asia/Shanghai") MATCH_GTE [] [] []).
Definition createEmptyRuleGroup : RequestRuleGroup := mkGroup [createEmptyCondition] [] None None.
Definition createEmptyTimeRuleGroup : RequestRuleGroup := mkGroup [createEmptyTimeCondition] [] None None.

(** [{ value, labelKey }] *)
Definition getRequestRuleMatchOptions (source : jsstring) : list (jsstring * jsstring) :=
  if str_eqb source (js "time") then
    [(MATCH_EQ, js "Equals"); (MATCH_GTE, js "Greater than or equal"); (MATCH_LT, js "Less than");
     (MATCH_RANGE, js "Overnight range")]
  else
    let base := [(MATCH_EQ, js "Equals"); (MATCH_CONTAINS, js "Contains"); (MATCH_EXISTS, js "Exists")] in
    if str_eqb source (js "header") then base
    else base ++ [(MATCH_GT, js "Greater than"); (MATCH_GTE, js "Greater than or equal");
                  (MATCH_LT, js "Less than"); (MATCH_LTE, js "Less than or equal")].

(** [Partial<RequestCondition>]: the fields of a draft, each possibly absent. *)
Record PartialCondition := mkPartial {
  pc_source : option jsstring;
  pc_timeFunc : option jsstring;
  pc_timezone : option jsstring;
  pc_mode : option jsstring;
  pc_value : option jsstring;
  pc_rangeStart : option jsstring;
  pc_rangeEnd : option jsstring;
  pc_path : option jsstring;
}.

Definition source_name (s : HeaderOrParam) : jsstring :=
  match s with source_param => js "param" | source_header => js "header" end.

(** A condition seen as a draft. *)
Definition draft_of (c : RequestCondition) : PartialCondition :=
  match c with
  | cond_time t =>
      mkPartial (Some (js "time")) (Some (time_function_name (tm_timeFunc t))) (Some (tm_timezone t))
        (Some (tm_mode t)) (Some (tm_value t)) (Some (tm_rangeStart t)) (Some (tm_rangeEnd t)) None
  | cond_request r =>
      mkPartial (Some (source_name (ph_source r))) None None (Some (ph_mode r)) (Some (ph_value r)) None None
        (Some (ph_path r))
  end.

Definition or_empty (s : option jsstring) : jsstring := default [] s.

(** [options.some(item => item.value === mode) ? mode : fallback] *)
Definition known_mode (source : jsstring) (mode : option jsstring) (fallback : jsstring) : jsstring :=
  match mode with
  | Some m => if str_in m (map fst (getRequestRuleMatchOptions source)) then m else fallback
  | None => fallback
  end.

Definition normalize_time (c : PartialCondition) : TimeCondition :=
  mkTimeCondition
    (default time_hour (pc_timeFunc c ≫= time_function_of_name))
    (let zone := or_empty (pc_timezone c) in if str_eqb zone [] then js "Asia/Shanghai" else zone)
    (known_mode (js "time") (pc_mode c) MATCH_GTE)
    (or_empty (pc_value c)) (or_empty (pc_rangeStart c)) (or_empty (pc_rangeEnd c)).

Definition normalize_request (source : HeaderOrParam) (c : PartialCondition) : ParamHeaderCondition :=
  mkParamHeader source (or_empty (pc_path c)) (known_mode (source_name source) (pc_mode c) MATCH_EQ)
    (or_empty (pc_value c)).

(** A missing draft is the empty one. *)
Definition normalizeCondition (c : PartialCondition) : RequestCondition :=
  let source := or_empty (pc_source c) in
  if str_eqb source (js "time") then cond_time (normalize_time c)
  else if str_eqb source (js "header") then cond_request (normalize_request source_header c)
  else cond_request (normalize_request source_param c).

(** ** Building expressions *)
Definition buildExprLiteral (mode value : jsstring) : jsstring :=
  let text := trim value in
  if str_eqb mode MATCH_CONTAINS then JSON_stringify text
  else if str_eqb text (js "true") || str_eqb text (js "false") then text
  else if is_numeric_literal text then text
  else JSON_stringify text.

Definition time_operator (mode : jsstring) : jsstring :=
  if str_eqb mode MATCH_GTE then js ">=" else if str_eqb mode MATCH_LT then js "<" else js "==".

Definition buildTimeConditionExpr (cond : TimeCondition) : jsstring :=
  let normalized := normalize_time (draft_of (cond_time cond)) in
  let timeFunc := tm_timeFunc normalized in
  let fn := time_function_name timeFunc ++ js "(" ++ JSON_stringify (tm_timezone normalized) ++ js ")" in
  if str_eqb (tm_mode normalized) MATCH_RANGE then
    let s := trim (tm_rangeStart normalized) in
    let e := trim (tm_rangeEnd normalized) in
    if negb (isTimeValueInRange timeFunc s) || negb (isTimeValueInRange timeFunc e) then []
    else
      let connective := if num_ltb (Number_of_string e) (Number_of_string s) then js " || " else js " && " in
      fn ++ js " >= " ++ s ++ connective ++ fn ++ js " < " ++ e
  else
    let v := trim (tm_value normalized) in
    if negb (isTimeValueInRange timeFunc v) then []
    else fn ++ js " " ++ time_operator (tm_mode normalized) ++ js " " ++ v.

Definition compare_operator (mode : jsstring) : option jsstring :=
  if str_eqb mode MATCH_GT then Some (js ">") else if str_eqb mode MATCH_GTE then Some (js ">=")
  else if str_eqb mode MATCH_LT then Some (js "<") else if str_eqb mode MATCH_LTE then Some (js "<=") else None.

Definition build_request (normalized : ParamHeaderCondition) : jsstring :=
  let path := trim (ph_path normalized) in
  if str_eqb path [] then []
  else
    let is_header := match ph_source normalized with source_header => true | source_param => false end in
    let sourceExpr := source_name (ph_source normalized) ++ js "(" ++ JSON_stringify path ++ js ")" in
    let mode := ph_mode normalized in
    if str_eqb mode MATCH_EXISTS then
      if is_header then sourceExpr ++ js " != " ++ [34; 34] else sourceExpr ++ js " != nil"
    else if str_eqb mode MATCH_CONTAINS then
      let test := js "has(" ++ sourceExpr ++ js ", " ++ buildExprLiteral mode (ph_value normalized) ++ js ")" in
      if is_header then test else sourceExpr ++ js " != nil && " ++ test
    else
      match compare_operator mode with
      | Some op =>
          let numText := trim (ph_value normalized) in
          if negb (is_numeric_literal numText) then []
          else sourceExpr ++ js " != nil && " ++ sourceExpr ++ js " " ++ op ++ js " " ++ numText
      | None => sourceExpr ++ js " == " ++ buildExprLiteral mode (ph_value normalized)
      end.

(** [normalizeCondition(cond) as ParamHeaderCondition] for a condition that is
    not about time. *)
Definition buildRequestConditionExpr (cond : RequestCondition) : jsstring :=
  match cond with
  | cond_time t => buildTimeConditionExpr t
  | cond_request r => build_request (normalize_request (ph_source r) (draft_of cond))
  end.

Definition buildRuleGroupFactor (g : RequestRuleGroup) : jsstring :=
  let multiplier := trim (rg_multiplier g) in
  if negb (is_numeric_literal multiplier) then []
  else
    let condExprs := List.filter non_empty (map buildRequestConditionExpr (rg_conditions g)) in
    match condExprs with
    | [] => []
    | _ =>
        let combined :=
          match condExprs with
          | [e] => e
          | _ => join (js " && ")
                   (map (λ e, if str_includes e (js " || ") then js "(" ++ e ++ js ")" else e) condExprs)
          end in
        js "(" ++ combined ++ js " ? " ++ multiplier ++ js " : 1)"
    end.

Definition buildRequestRuleExpr (groups : list RequestRuleGroup) : jsstring :=
  join (js " * ") (List.filter non_empty (map buildRuleGroupFactor groups)).
