(* ===== verification/RuleFacts.v ===== *)
(** * Request rules are read back

    The patterns of the rule reader as predicates on text, the uniqueness of
    their readings, and the round trip: a condition on time written by the
    builder is read as its normal form; rules of such conditions are found again
    in the expression they were combined with. *)
From S2P Require Import Prelude JsString JsNumber JsRegex RegexFacts JsJson JsValue Host BillingTypes Parser Compile Runtime Structure Display BillingExpr.
Local Open Scope Z_scope.

(** Compose the denotation of a pattern; [known] applies those of named parts. *)
Ltac solve_den_using known :=
  cbn [r_seq r_alt];
  repeat first [ known | apply den_lit | apply den_plus | apply den_star | apply den_group | apply den_back
               | apply den_empty | apply den_char | apply den_seq | apply den_alt ].
Ltac solve_den := solve_den_using fail.

(** ** The shapes of the rule patterns *)
Definition is_num_char (c : jschar) : bool := is_digit c || existsb (Z.eqb c) (js ".eE+-").
Definition not_quote (c : jschar) : bool := negb (existsb (Z.eqb c) [34]).

Definition num_text (s : jsstring) : Prop := s ≠ [] ∧ forallb is_num_char s = true.
Definition zone_text (s : jsstring) : Prop := s ≠ [] ∧ forallb not_quote s = true.
Definition func_text (s : jsstring) : Prop := ∃ f, s = time_function_name f.

(** [f("zone")] *)
Definition call_text (f zone : jsstring) : jsstring := f ++ js "(" ++ [34] ++ zone ++ [34] ++ js ")".

Definition range_text (f zone lo connective hi : jsstring) : jsstring :=
  call_text f zone ++ js " >= " ++ lo ++ js " " ++ connective ++ js " " ++ call_text f zone ++ js " < " ++ hi.

Definition scalar_text (f zone op v : jsstring) : jsstring :=
  call_text f zone ++ js " " ++ op ++ js " " ++ v.

Lemma d_seq_last Q w c c' : Q w c c' → d_seq Q (d_lit []) w c c'.
Proof. intros H. exists w, [], c'. by rewrite app_nil_r. Qed.

Lemma d_seq_intro Q R w1 w2 c c1 c' : Q w1 c c1 → R w2 c1 c' → d_seq Q R (w1 ++ w2) c c'.
Proof. intros H1 H2. by exists w1, w2, c1. Qed.

Ltac destruct_den H :=
  lazymatch type of H with
  | d_seq _ _ _ _ _ => let w1 := fresh "w" in let w2 := fresh "w" in let c1 := fresh "c" in
      let H1 := fresh "H" in destruct H as (w1 & w2 & c1 & -> & H1 & H); destruct_den H1; destruct_den H
  | d_lit _ _ _ _ => destruct H as [-> ->]
  | d_plus _ _ _ _ => destruct H as (? & ? & ->)
  | d_star _ _ _ _ => destruct H as (? & ->)
  | d_group _ _ _ _ _ => let c1 := fresh "c" in let H1 := fresh "H" in
      destruct H as (c1 & H1 & ->); destruct_den H1
  | d_back _ _ _ _ => destruct H as [-> ->]
  | _ => idtac
  end.

Ltac build_den :=
  lazymatch goal with
  | |- d_seq _ (d_lit []) _ _ _ => apply d_seq_last; build_den
  | |- d_seq _ _ _ _ _ => eapply d_seq_intro; build_den
  | |- d_lit _ _ _ _ => split; reflexivity
  | |- d_plus _ _ _ _ => split; [eassumption|split; [eassumption|reflexivity]]
  | |- d_group _ _ _ _ _ => eexists; split; [build_den|reflexivity]
  | |- d_back _ _ _ _ => split; reflexivity
  | |- d_alt _ _ _ _ _ => first [left; solve [build_den] | right; solve [build_den]]
  | |- ∃ _, _ => eexists; build_den
  | |- _ ∧ _ => split; build_den
  | |- _ => first [eassumption | reflexivity]
  end.

Lemma den_func : denotes r_time_func (λ w c c', func_text w ∧ c' = c).
Proof.
  eapply den_weaken; [unfold r_time_func; solve_den|]. intros w c c'. split.
  - intros [H|[H|[H|[H|H]]]]; destruct H as [-> ->]; (split; [|done]);
      [exists time_hour|exists time_minute|exists time_weekday|exists time_month|exists time_day]; done.
  - intros [[f ->] ->]. unfold d_alt, d_lit. destruct f; simpl; auto 6.
Qed.

Lemma den_call : denotes r_time_call (λ w c c', ∃ f zone, func_text f ∧ zone_text zone ∧
  w = call_text f zone ∧ c' = (2%nat, zone) :: (1%nat, f) :: c).
Proof.
  eapply den_weaken; [unfold r_time_call; solve_den_using ltac:(apply den_func)|].
  intros w c c'. split.
  - intros H. destruct_den H. match goal with H : func_text _ ∧ _ |- _ => destruct H as [Hf ->] end.
    match goal with H : func_text ?f, H' : forallb _ ?z = true |- _ => exists f, z end.
    split_and!; done.
  - intros (f & zone & Hf & [Hz1 Hz2] & -> & ->). unfold call_text. build_den.
Qed.

Definition connective (s : jsstring) : Prop := s = js "&&" ∨ s = js "||".
Definition scalar_op (s : jsstring) : Prop := s = js "==" ∨ s = js ">=" ∨ s = js "<".

Lemma den_time_range : denotes r_time_range (λ w c c', ∃ f zone lo conn hi,
  c' = (4%nat, hi) :: (3%nat, lo) :: (2%nat, zone) :: (1%nat, f) :: c ∧
  w = range_text f zone lo conn hi ∧ func_text f ∧ zone_text zone ∧ num_text lo ∧ num_text hi ∧ connective conn).
Proof.
  eapply den_weaken; [unfold r_time_range; solve_den_using ltac:(apply den_call)|].
  intros w c c'. split.
  - intros H. destruct_den H.
    match goal with H : ∃ f zone, _ |- _ => destruct H as (f & zone & Hf & Hz & -> & ->) end.
    match goal with H : d_alt _ _ _ _ _ |- _ => destruct H as [[-> ->] | [-> ->]] end.
    1: eexists f, zone, _, (js "&&"), _. 2: eexists f, zone, _, (js "||"), _.
    all: split; [reflexivity|]; split; [|split_and!; try done; by (left + right)].
    all: unfold range_text, call_text; by rewrite !app_nil_r, <- !app_assoc.
  - intros (f & zone & lo & conn & hi & -> & -> & Hf & Hz & [Hl1 Hl2] & [Hh1 Hh2] & Hc).
    replace (range_text f zone lo conn hi) with
      (call_text f zone ++ js " >= " ++ lo ++ js " " ++ conn ++ js " " ++ f ++ js "(" ++ [34] ++ zone ++ [34]
       ++ js ")" ++ js " < " ++ hi) by (unfold range_text, call_text; by rewrite <- !app_assoc).
    destruct Hc as [-> | ->]; build_den.
Qed.

Lemma den_time_scalar : denotes r_time_scalar (λ w c c', ∃ f zone op v,
  c' = (4%nat, v) :: (3%nat, op) :: (2%nat, zone) :: (1%nat, f) :: c ∧
  w = scalar_text f zone op v ∧ func_text f ∧ zone_text zone ∧ scalar_op op ∧ num_text v).
Proof.
  eapply den_weaken; [unfold r_time_scalar; solve_den_using ltac:(apply den_call)|].
  intros w c c'. split.
  - intros H. destruct_den H.
    match goal with H : ∃ f zone, _ |- _ => destruct H as (f & zone & Hf & Hz & -> & ->) end.
    match goal with H : d_alt _ _ _ _ _ |- _ => destruct H as [[-> ->] | [[-> ->] | [-> ->]]] end.
    all: eexists f, zone, _, _; split; [reflexivity|]; split; [by rewrite app_nil_r|].
    all: split_and!; try done; unfold scalar_op; auto.
  - intros (f & zone & op & v & -> & -> & Hf & Hz & Ho & [Hv1 Hv2]). unfold scalar_text.
    destruct Ho as [-> | [-> | ->]]; build_den.
Qed.

(** ** Unique readings *)
Lemma func_lower f : func_text f → forallb is_lower f = true.
Proof. intros [t ->]. by destruct t. Qed.

Lemma not_head_cons p c s : p c = false → not_head p (c :: s).
Proof. by intros H ? ? [= <- <-]. Qed.
Hint Resolve not_head_cons : core.

Lemma call_text_unique f g zone zone' s t : func_text f → func_text g → zone_text zone → zone_text zone' →
  call_text f zone ++ s = call_text g zone' ++ t → f = g ∧ zone = zone' ∧ s = t.
Proof.
  intros Hf Hg [_ Hz] [_ Hz'] E. unfold call_text in E. rewrite <- !app_assoc in E.
  apply (split_unique is_lower) in E as [-> E]; [|by apply func_lower|by apply func_lower|by apply not_head_cons|by apply not_head_cons].
  apply app_inv_head in E. apply app_inv_head in E.
  apply (split_unique not_quote) in E as [-> E]; [|done|done|by apply not_head_cons|by apply not_head_cons].
  apply app_inv_head, app_inv_head in E. done.
Qed.

Lemma num_text_unique a b s t : num_text a → num_text b → not_head is_num_char s → not_head is_num_char t →
  a ++ s = b ++ t → a = b ∧ s = t.
Proof. intros [_ Ha] [_ Hb]. by apply split_unique. Qed.

Lemma range_text_unique f zone lo conn hi f' zone' lo' conn' hi' :
  func_text f → func_text f' → zone_text zone → zone_text zone' → num_text lo → num_text lo' →
  connective conn → connective conn' →
  range_text f zone lo conn hi = range_text f' zone' lo' conn' hi' →
  f = f' ∧ zone = zone' ∧ lo = lo' ∧ conn = conn' ∧ hi = hi'.
Proof.
  intros Hf Hf' Hz Hz' Hl Hl' Hc Hc' E. unfold range_text in E.
  apply call_text_unique in E as (-> & -> & E); [|done..].
  apply app_inv_head in E. apply num_text_unique in E as [-> E]; [|done|done|by apply not_head_cons|by apply not_head_cons].
  apply app_inv_head in E.
  assert (conn = conn' ∧ js " " ++ call_text f' zone' ++ js " < " ++ hi = js " " ++ call_text f' zone' ++ js " < " ++ hi')
    as [-> E']; [|by apply app_inv_head, app_inv_head, app_inv_head in E'].
  destruct Hc as [-> | ->], Hc' as [-> | ->]; try discriminate E; by apply app_inv_head in E.
Qed.

Lemma scalar_text_unique f zone op v f' zone' op' v' :
  func_text f → func_text f' → zone_text zone → zone_text zone' → scalar_op op → scalar_op op' →
  scalar_text f zone op v = scalar_text f' zone' op' v' → f = f' ∧ zone = zone' ∧ op = op' ∧ v = v'.
Proof.
  intros Hf Hf' Hz Hz' Ho Ho' E. unfold scalar_text in E.
  apply call_text_unique in E as (-> & -> & E); [|done..]. apply app_inv_head in E.
  destruct Ho as [-> | [-> | ->]], Ho' as [-> | [-> | ->]]; try discriminate E;
    apply app_inv_head, app_inv_head in E; done.
Qed.

(** A condition with one bound is not a range. *)
Lemma scalar_not_range f zone op v f' zone' lo conn hi :
  func_text f → func_text f' → zone_text zone → zone_text zone' → scalar_op op → num_text v → num_text lo →
  scalar_text f zone op v ≠ range_text f' zone' lo conn hi.
Proof.
  intros Hf Hf' Hz Hz' Ho Hv Hl E. unfold scalar_text, range_text in E.
  apply call_text_unique in E as (-> & -> & E); [|done..].
  assert (v ++ [] = lo ++ js " " ++ conn ++ js " " ++ call_text f' zone' ++ js " < " ++ hi) as E'.
  { rewrite app_nil_r. destruct Ho as [-> | [-> | ->]]; try discriminate E. by injection E. }
  apply num_text_unique in E' as [_ E']; [discriminate E'|done|done|by intros ? ? [=]|by apply not_head_cons].
Qed.

Lemma call_text_no_paren f zone s t : func_text f → call_text f zone ++ s ≠ js "(" ++ t.
Proof. intros [g ->]. by destruct g. Qed.


Lemma range_parens_none f zone s : func_text f → match_all r_time_range_parens (call_text f zone ++ s) = None.
Proof.
  intros Hf. destruct (match_all _ _) as [caps|] eqn:E; [|done]. exfalso.
  apply match_all_sound in E. unfold r_time_range_parens in E. cbn [r_seq] in E.
  inversion E as [| |? ? ? [t1 c1] ? H1 H2| | | | | | |]; subst. apply den_lit in H1 as (w & Hw & -> & _).
  by eapply call_text_no_paren.
Qed.

(** ** Reading what was built *)
Lemma match_range f zone lo conn hi : func_text f → zone_text zone → num_text lo → num_text hi → connective conn →
  match_all r_time_range (range_text f zone lo conn hi) = Some [(4%nat, hi); (3%nat, lo); (2%nat, zone); (1%nat, f)].
Proof.
  intros Hf Hz Hl Hh Hc. eapply match_all_unique; [apply den_time_range| |].
  - exists f, zone, lo, conn, hi. done.
  - intros caps (f' & zone' & lo' & conn' & hi' & -> & E & Hf' & Hz' & Hl' & Hh' & Hc').
    apply range_text_unique in E as (-> & -> & -> & -> & ->); done.
Qed.

Lemma match_scalar f zone op v : func_text f → zone_text zone → scalar_op op → num_text v →
  match_all r_time_range (scalar_text f zone op v) = None
  ∧ match_all r_time_range_parens (scalar_text f zone op v) = None
  ∧ match_all r_time_scalar (scalar_text f zone op v) = Some [(4%nat, v); (3%nat, op); (2%nat, zone); (1%nat, f)].
Proof.
  intros Hf Hz Ho Hv. split_and!.
  - eapply match_all_none; [apply den_time_range|].
    intros caps (f' & zone' & lo' & conn' & hi' & _ & E & Hf' & Hz' & Hl' & _). by apply scalar_not_range in E.
  - by apply range_parens_none.
  - eapply match_all_unique; [apply den_time_scalar| |].
    + exists f, zone, op, v. done.
    + intros caps (f' & zone' & op' & v' & -> & E & Hf' & Hz' & Ho' & Hv').
      apply scalar_text_unique in E as (-> & -> & -> & ->); done.
Qed.

(** Patterns whose characters all satisfy a predicate. *)
Fixpoint only (p : jschar → bool) (r : regex) : Prop :=
  match r with
  | RChar q => ∀ c, q c = true → p c = true
  | REmpty | REnd => True
  | RSeq a b | RAlt a b => only p a ∧ only p b
  | RStar a | RGroup _ a => only p a
  | RBack _ => False
  end.

Lemma only_matches p r x y : matches r x y → only p r → ∃ w, m_rest x = w ++ m_rest y ∧ forallb p w = true.
Proof.
  induction 1 as [q c rest caps Hq|x|a b x y z Ha IHa Hb IHb|a b x y Ha IHa|a b x y Hb IHb|a x
    |a x y z Ha IHa Hlen Hs IHs|n a x y Ha IHa|n x Hb|caps]; simpl; intros Ho; try by exists [].
  - exists [c]. split; [done|]. simpl. by rewrite (Ho c Hq).
  - destruct IHa as (w1 & E1 & H1); [apply Ho|]. destruct IHb as (w2 & E2 & H2); [apply Ho|].
    exists (w1 ++ w2). rewrite E1, E2, <- app_assoc, forallb_app, H1, H2. done.
  - apply IHa, Ho.
  - apply IHb, Ho.
  - destruct IHa as (w1 & E1 & H1); [apply Ho|]. destruct IHs as (w2 & E2 & H2); [apply Ho|].
    exists (w1 ++ w2). rewrite E1, E2, <- app_assoc, forallb_app, H1, H2. done.
  - by apply IHa.
Qed.

Lemma numeric_literal_text s : is_numeric_literal s = true → num_text s.
Proof.
  intros H. split; [intros ->; done|]. unfold is_numeric_literal, test_all in H.
  destruct (match_all NUMERIC_LITERAL_REGEX s) as [caps|] eqn:E; [|done]. apply match_all_sound in E.
  apply (only_matches is_num_char) in E as (w & Hw & Hp); simpl in *.
  - rewrite app_nil_r in Hw. by subst.
  - split_and!; try done; intros c Hx; unfold is_num_char, is_digit in *;
      cbn [js existsb] in *; simpl in *; lia.
Qed.

(** Time zones that need no escape. *)
Definition plain_char (c : jschar) : bool :=
  (32 <=? c) && negb (c =? 34) && negb (c =? 92) && negb (is_lead c) && negb (is_trail c).
Definition plain_text (s : jsstring) : bool := forallb plain_char s.

Lemma quote_char_plain c : plain_char c = true → quote_char c = [c].
Proof.
  unfold plain_char. intros H. bool_hyps. unfold quote_char.
  rewrite (proj2 (Z.eqb_neq c 8)), (proj2 (Z.eqb_neq c 9)), (proj2 (Z.eqb_neq c 10)), (proj2 (Z.eqb_neq c 12)),
    (proj2 (Z.eqb_neq c 13)), (proj2 (Z.eqb_neq c 34)), (proj2 (Z.eqb_neq c 92)), (proj2 (Z.ltb_ge c 32)) by lia.
  by match goal with H1 : is_lead c = _, H2 : is_trail c = _ |- _ => rewrite H1, H2 end.
Qed.

Lemma quote_chars_plain s : plain_text s = true → quote_chars s = s.
Proof.
  induction s as [|c [|d s] IH]; intros H; [done| |].
  - simpl in *. rewrite andb_true_r in H. by apply quote_char_plain.
  - apply andb_prop in H as [Hc Hs]. cbn [quote_chars].
    assert (is_lead c = false) as -> by (unfold plain_char in Hc; by bool_hyps). cbn [andb].
    change (quote_char c ++ quote_chars (d :: s) = c :: d :: s). by rewrite quote_char_plain, IH.
Qed.

Lemma JSON_stringify_plain s : plain_text s = true → JSON_stringify s = 34 :: s ++ [34].
Proof. intros H. unfold JSON_stringify. by rewrite quote_chars_plain. Qed.

Lemma plain_zone_text s : plain_text s = true → s ≠ [] → zone_text s.
Proof.
  intros H Hne. split; [done|]. unfold plain_text in H. rewrite forallb_forall in *. intros c Hc.
  specialize (H c Hc). unfold plain_char in H. bool_hyps. unfold not_quote. simpl.
  by rewrite orb_false_r, (proj2 (Z.eqb_neq c 34)).
Qed.

(** ** Time conditions *)

(** The condition the builder writes: its normal form with the fields of its
    mode trimmed and the others empty. *)
Definition canonical_time (cond : TimeCondition) : TimeCondition :=
  let n := normalize_time (draft_of (cond_time cond)) in
  if str_eqb (tm_mode n) MATCH_RANGE
  then mkTimeCondition (tm_timeFunc n) (tm_timezone n) MATCH_RANGE [] (trim (tm_rangeStart n)) (trim (tm_rangeEnd n))
  else mkTimeCondition (tm_timeFunc n) (tm_timezone n) (tm_mode n) (trim (tm_value n)) [] [].

Lemma time_value_text f s : isTimeValueInRange f s = true → num_text s.
Proof. intros [H _]%andb_prop. by apply numeric_literal_text. Qed.

Lemma time_function_of_own_name f : time_function_of_name (time_function_name f) = Some f.
Proof. by destruct f. Qed.

Lemma normalized_time_mode c : let mode := tm_mode (normalize_time c) in
  mode = MATCH_EQ ∨ mode = MATCH_GTE ∨ mode = MATCH_LT ∨ mode = MATCH_RANGE.
Proof.
  simpl. unfold known_mode. destruct (pc_mode c) as [m|]; [|auto].
  destruct (str_in m _) eqn:E; [|auto]. apply str_in_In in E. simpl in E. intuition.
Qed.

Lemma normalized_zone c : tm_timezone (normalize_time c) ≠ [].
Proof.
  simpl. destruct (str_eqb (or_empty (pc_timezone c)) []) eqn:E; [done|]. by apply str_eqb_neq in E.
Qed.

Lemma build_call f zone : plain_text zone = true →
  time_function_name f ++ js "(" ++ JSON_stringify zone ++ js ")" = call_text (time_function_name f) zone.
Proof. intros H. rewrite JSON_stringify_plain by done. unfold call_text. simpl. by rewrite <- app_assoc. Qed.

Lemma time_condition_reads cond : plain_text (tm_timezone (normalize_time (draft_of (cond_time cond)))) = true →
  buildTimeConditionExpr cond ≠ [] → tryParseTimeCondition (buildTimeConditionExpr cond) = Some (canonical_time cond).
Proof.
  unfold buildTimeConditionExpr, canonical_time. set (n := normalize_time _). intros Hz Hne.
  assert (func_text (time_function_name (tm_timeFunc n))) as Hf by (by eexists).
  assert (zone_text (tm_timezone n)) as Hzone by (apply plain_zone_text; [done|apply normalized_zone]).
  rewrite build_call in * by done. unfold tryParseTimeCondition.
  destruct (str_eqb (tm_mode n) MATCH_RANGE) eqn:Er.
  - destruct (negb _ || negb _) eqn:Ev; [done|]. apply orb_false_iff in Ev as [Hs He].
    apply negb_false_iff in Hs, He.
    clear Hne.
    assert (∃ conn, connective conn ∧ (if num_ltb (Number_of_string (trim (tm_rangeEnd n)))
        (Number_of_string (trim (tm_rangeStart n))) then js " || " else js " && ") = js " " ++ conn ++ js " ")
      as (conn & Hc & ->).
    { destruct (num_ltb _ _); [exists (js "||")|exists (js "&&")]; unfold connective; auto. }
    rewrite <- !app_assoc.
    change (call_text ?f ?z ++ js " >= " ++ ?s ++ js " " ++ ?c ++ js " " ++ call_text ?f ?z ++ js " < " ++ ?e)
      with (range_text f z s c e).
    rewrite match_range; [|done|done|by eapply time_value_text|by eapply time_value_text|done].
    unfold time_range_condition, captured_func. cbn [group_or_empty group find Nat.eqb option_map snd from_option id].
    rewrite time_function_of_own_name. cbn [from_option id]. by rewrite Hs, He.
  - destruct (negb _) eqn:Ev; [done|]. apply negb_false_iff in Ev.
    assert (scalar_op (time_operator (tm_mode n)) ∧ scalar_mode (time_operator (tm_mode n)) = tm_mode n) as [Ho Hm].
    { destruct (normalized_time_mode (draft_of (cond_time cond))) as [E|[E|[E|E]]]; fold n in E; rewrite E in *;
        try done; unfold scalar_op; split; try done; auto. }
    change (call_text ?f ?z ++ js " " ++ ?o ++ js " " ++ ?v) with (scalar_text f z o v).
    destruct (match_scalar _ _ _ _ Hf Hzone Ho (time_value_text _ _ Ev)) as (-> & -> & ->).
    cbn [mbind option_bind]. unfold captured_func. cbn [group_or_empty group find Nat.eqb option_map snd from_option id].
    rewrite time_function_of_own_name. cbn [from_option id]. by rewrite Ev, Hm.
Qed.
