(* ===== verification/RuleExprFacts.v ===== *)
(** * Rule expressions are found again

    The round trip of whole rule expressions: the groups of time rules written
    by the builder are read back, and are separated again from the price
    expression they were combined with. *)
From S2P Require Import Prelude JsString JsNumber JsRegex RegexFacts JsJson JsValue Host BillingTypes Parser ParserFacts Compile CompileFacts Runtime BillingFields Structure Balanced Display BillingExpr RuleFacts.
Local Open Scope Z_scope.

(** ** The text of one factor *)
Definition factor_text (cond m : jsstring) : jsstring := js "(" ++ cond ++ js " ? " ++ m ++ js " : 1)".

Lemma den_rule_factor : denotes r_rule_factor (λ w c c', ∃ cond m,
  c' = (2%nat, m) :: (1%nat, cond) :: c ∧ w = factor_text cond m ∧ cond ≠ [] ∧ num_text m).
Proof.
  eapply den_weaken; [unfold r_rule_factor; solve_den|]. intros w c c'. split.
  - intros H. destruct_den H. eexists _, _. split; [reflexivity|]. split; [|done].
    unfold factor_text. by rewrite app_nil_r.
  - intros (cond & m & -> & -> & Hc & [Hm1 Hm2]). unfold factor_text.
    assert (forallb (λ _ : jschar, true) cond = true) by (by apply forallb_forall). build_den.
Qed.

Lemma forallb_rev {A} (p : A → bool) l : forallb p (rev l) = forallb p l.
Proof.
  induction l as [|x l IH]; [done|]. simpl. rewrite forallb_app, IH. simpl. destruct (p x); by rewrite ?andb_true_r, ?andb_false_r.
Qed.

Lemma factor_text_unique cond m cond' m' : num_text m → num_text m' →
  factor_text cond m = factor_text cond' m' → cond = cond' ∧ m = m'.
Proof.
  intros [_ Hm] [_ Hm'] E. unfold factor_text in E. apply app_inv_head in E.
  rewrite !app_assoc in E. apply app_inv_tail in E. apply (f_equal (@rev Z)) in E.
  rewrite !rev_app_distr in E.
  apply (split_unique is_num_char) in E as [E1 E2].
  - apply (f_equal (@rev Z)) in E1. rewrite !rev_involutive in E1. split; [|done].
    apply app_inv_head in E2. apply (f_equal (@rev Z)) in E2. by rewrite !rev_involutive in E2.
  - by rewrite forallb_rev.
  - by rewrite forallb_rev.
  - by apply not_head_cons.
  - by apply not_head_cons.
Qed.

(** Whatever the condition is, a factor has one reading. *)
Lemma match_factor cond m : cond ≠ [] → num_text m →
  match_all r_rule_factor (factor_text cond m) = Some [(2%nat, m); (1%nat, cond)].
Proof.
  intros Hc Hm. eapply match_all_unique; [apply den_rule_factor|by exists cond, m|].
  intros caps (cond' & m' & -> & E & _ & Hm'). by apply factor_text_unique in E as [-> ->].
Qed.

Lemma num_char_cases c : is_num_char c = true → 48 ≤ c ≤ 57 ∨ c = 46 ∨ c = 101 ∨ c = 69 ∨ c = 43 ∨ c = 45.
Proof.
  unfold is_num_char, is_digit. change (js ".eE+-") with [46; 101; 69; 43; 45]. cbn [existsb]. intros H. lia.
Qed.

Lemma num_char_nested c : is_num_char c = true → nested c = true.
Proof. unfold nested, is_quote, is_open, is_close. intros H%num_char_cases. lia. Qed.

Lemma forallb_impl {A} (p q : A → bool) l : (∀ x, p x = true → q x = true) → forallb p l = true → forallb q l = true.
Proof. intros Hpq. rewrite !forallb_forall. auto. Qed.

Lemma path_num d s : num_text s → path d s d.
Proof. intros [_ H]. apply path_nested. by eapply forallb_impl; [apply num_char_nested|]. Qed.

Lemma path_call d f zone : 0 < d → func_text f → plain_text zone = true → path d (call_text f zone) d.
Proof.
  intros Hd [g ->] Hz. unfold call_text. eapply path_app; [apply path_nested; by destruct g|].
  replace (js "(" ++ [34] ++ zone ++ [34] ++ js ")") with ([40] ++ (34 :: zone ++ [34]) ++ [41])
    by (simpl; by rewrite <- app_assoc).
  apply path_parens; [done|]. apply path_string; [done|]. apply plain_quoted. eapply forallb_impl, Hz.
  intros c Hc. unfold plain_char in Hc. bool_hyps. unfold ch_backslash.
  by rewrite (proj2 (Z.eqb_neq c 34)), (proj2 (Z.eqb_neq c 92)).
Qed.

Ltac path_pieces :=
  repeat first [ by apply path_call | by apply path_num | by apply path_nested | eapply path_app ].

(** The text of a time condition. *)
Lemma time_expr_shape cond : plain_text (tm_timezone (normalize_time (draft_of (cond_time cond)))) = true →
  buildTimeConditionExpr cond ≠ [] →
  ∃ f zone, func_text f ∧ plain_text zone = true ∧
    ((∃ lo conn hi, connective conn ∧ num_text lo ∧ num_text hi ∧ buildTimeConditionExpr cond = range_text f zone lo conn hi)
     ∨ (∃ op v, scalar_op op ∧ num_text v ∧ buildTimeConditionExpr cond = scalar_text f zone op v)).
Proof.
  unfold buildTimeConditionExpr. set (n := normalize_time _). intros Hz Hne.
  exists (time_function_name (tm_timeFunc n)), (tm_timezone n). split; [by eexists|]. split; [done|].
  rewrite build_call in * by done. destruct (str_eqb (tm_mode n) MATCH_RANGE) eqn:Er.
  - left. destruct (negb _ || negb _) eqn:Ev; [done|]. apply orb_false_iff in Ev as [Hs He].
    apply negb_false_iff in Hs, He.
    exists (trim (tm_rangeStart n)). destruct (num_ltb _ _); [exists (js "||")|exists (js "&&")];
      exists (trim (tm_rangeEnd n)); unfold connective; split_and!; eauto using time_value_text.
  - right. destruct (negb _) eqn:Ev; [done|]. apply negb_false_iff in Ev.
    exists (time_operator (tm_mode n)), (trim (tm_value n)). split; [|eauto using time_value_text].
    unfold scalar_op. destruct (normalized_time_mode (draft_of (cond_time cond))) as [E|[E|[E|E]]]; fold n in E; rewrite E in *; auto; done.
Qed.

Lemma path_time_expr d cond : 0 < d → plain_text (tm_timezone (normalize_time (draft_of (cond_time cond)))) = true →
  buildTimeConditionExpr cond ≠ [] → path d (buildTimeConditionExpr cond) d.
Proof.
  intros Hd Hz Hne. destruct (time_expr_shape cond Hz Hne) as (f & zone & Hf & Hp & [H|H]).
  - destruct H as (lo & conn & hi & Hc & Hl & Hh & ->). unfold range_text.
    destruct Hc as [-> | ->]; path_pieces.
  - destruct H as (op & v & Ho & Hv & ->). unfold scalar_text.
    destruct Ho as [-> | [-> | ->]]; path_pieces.
Qed.

Lemma factor_solid cond m : path 1 cond 1 → num_text m → solid (js "*") (factor_text cond m).
Proof.
  intros Hc Hm. unfold factor_text.
  replace (js "(" ++ cond ++ js " ? " ++ m ++ js " : 1)") with (js "(" ++ (cond ++ js " ? " ++ m ++ js " : 1") ++ js ")")
    by (by rewrite <- !app_assoc).
  apply parens_solid; [done|done|]. eapply path_app; [exact Hc|]. path_pieces.
Qed.

(** ** Groups of time rules *)

(** A group the editor builds from one valid condition on time. *)
Definition time_rule (g : RequestRuleGroup) : Prop := ∃ cond,
  rg_conditions g = [cond_time cond] ∧ buildTimeConditionExpr cond ≠ []
  ∧ plain_text (tm_timezone (normalize_time (draft_of (cond_time cond)))) = true
  ∧ is_numeric_literal (trim (rg_multiplier g)) = true.

Definition canonical_condition (c : RequestCondition) : RequestCondition :=
  match c with cond_time t => cond_time (canonical_time t) | _ => c end.

(** What the reader makes of such a group. *)
Definition canonical_rule (g : RequestRuleGroup) : RequestRuleGroup :=
  mkGroup (map canonical_condition (rg_conditions g)) (trim (rg_multiplier g)) None None.

Section Read.
Context {host : Host}.

Lemma time_factor g : time_rule g → ∃ cond, rg_conditions g = [cond_time cond] ∧ buildTimeConditionExpr cond ≠ []
  ∧ plain_text (tm_timezone (normalize_time (draft_of (cond_time cond)))) = true ∧ num_text (trim (rg_multiplier g))
  ∧ buildRuleGroupFactor g = factor_text (buildTimeConditionExpr cond) (trim (rg_multiplier g)).
Proof.
  intros (cond & Hc & Hne & Hz & Hm). exists cond. split_and!; try done; [by apply numeric_literal_text|].
  unfold buildRuleGroupFactor. rewrite Hm, Hc. cbn [negb map List.filter buildRequestConditionExpr].
  destruct (non_empty (buildTimeConditionExpr cond)) eqn:E; [done|]. by destruct (buildTimeConditionExpr cond).
Qed.

Lemma time_factor_solid g : time_rule g → solid (js "*") (buildRuleGroupFactor g).
Proof.
  intros (cond & _ & Hne & Hz & Hm & ->)%time_factor. apply factor_solid; [|done]. by apply path_time_expr.
Qed.

Lemma time_expr_trimmed cond : plain_text (tm_timezone (normalize_time (draft_of (cond_time cond)))) = true →
  buildTimeConditionExpr cond ≠ [] → trim (buildTimeConditionExpr cond) = buildTimeConditionExpr cond.
Proof.
  assert (∀ f zone s v, func_text f → num_text v → trim (call_text f zone ++ s ++ v) = call_text f zone ++ s ++ v) as H.
  { intros f zone s v [g ->] [Hv Hn]. destruct (exists_last Hv) as (v' & e & ->).
    rewrite forallb_app in Hn. simpl in Hn. apply andb_prop in Hn as [_ He]. rewrite andb_true_r in He.
    assert (is_space e = false) as Hs.
    { apply num_char_cases in He. unfold is_space. simpl. lia. }
    assert (∃ c t, time_function_name g = c :: t ∧ is_space c = false) as (c & t & -> & Hc) by (destruct g; by eexists _, _).
    unfold call_text. replace (((c :: t) ++ js "(" ++ [34] ++ zone ++ [34] ++ js ")") ++ s ++ v' ++ [e])
      with (c :: (t ++ js "(" ++ [34] ++ zone ++ [34] ++ js ")" ++ s ++ v') ++ [e]) by (by rewrite <- !app_assoc).
    by apply trim_ends. }
  intros Hz Hne. destruct (time_expr_shape cond Hz Hne) as (f & zone & Hf & Hp & [Hr|Hr]).
  - destruct Hr as (lo & conn & hi & _ & _ & Hh & ->). unfold range_text.
    specialize (H f zone (js " >= " ++ lo ++ js " " ++ conn ++ js " " ++ call_text f zone ++ js " < ") hi Hf Hh).
    by rewrite <- !app_assoc in H.
  - destruct Hr as (op & v & _ & Hv & ->). unfold scalar_text.
    specialize (H f zone (js " " ++ op ++ js " ") v Hf Hv). by rewrite <- !app_assoc in H.
Qed.

Lemma time_factor_reads g : time_rule g →
  tryParseRuleGroupFactor (buildRuleGroupFactor g) = Ok (Some (canonical_rule g)).
Proof.
  intros (cond & Hc & Hne & Hz & Hm & ->)%time_factor. unfold tryParseRuleGroupFactor, canonical_rule.
  rewrite match_factor by done. cbn [group_or_empty group find Nat.eqb option_map snd from_option id].
  unfold tryParseRequestConditions. rewrite time_expr_trimmed, time_condition_reads by done. rewrite Hc. done.
Qed.

Lemma parse_time_factors groups : Forall time_rule groups →
  parse_factors (map buildRuleGroupFactor groups) = Ok (Some (map canonical_rule groups)).
Proof.
  induction 1 as [|g groups Hg _ IH]; [done|]. cbn [map parse_factors].
  rewrite time_factor_reads by done. simpl. by rewrite IH.
Qed.

Lemma built_rules groups : Forall time_rule groups →
  buildRequestRuleExpr groups = join (js " * ") (map buildRuleGroupFactor groups).
Proof.
  intros H. unfold buildRequestRuleExpr. f_equal. induction H as [|g groups Hg _ IH]; [done|].
  apply time_factor_solid in Hg as (_ & _ & Hne). cbn [map List.filter]. rewrite IH.
  by destruct (buildRuleGroupFactor g).
Qed.

Lemma star_plain c t : js "*" = c :: t → is_quote c = false ∧ bump_depth c 0 = 0 ∧ (c =? 63) = false ∧ (c =? 32) = false.
Proof. by intros [= <- <-]. Qed.

Lemma split_factors parts : Forall (solid (js "*")) parts → parts ≠ [] →
  splitTopLevelMultiply (join (js " * ") parts) = Ok parts.
Proof.
  intros Hp Hne. unfold splitTopLevelMultiply, split_at. change (js " * ") with ([32] ++ js "*" ++ [32]).
  by rewrite (split_joined (js "*") ltac:(done) star_plain parts Hp Hne).
Qed.

Lemma joined_trimmed parts : Forall (solid (js "*")) parts → parts ≠ [] →
  trim (join (js " * ") parts) = join (js " * ") parts ∧ join (js " * ") parts ≠ [].
Proof. intros Hp. apply trimmed_join. eapply Forall_impl; [exact Hp|]. by intros p (_ & ? & ?). Qed.

Lemma time_factors_solid groups : Forall time_rule groups → Forall (solid (js "*")) (map buildRuleGroupFactor groups).
Proof. intros H. apply Forall_map. eapply Forall_impl; [exact H|]. apply time_factor_solid. Qed.

Lemma rules_read groups : Forall time_rule groups →
  tryParseRequestRuleExpr (buildRequestRuleExpr groups) = Ok (Some (map canonical_rule groups)).
Proof.
  intros H. rewrite built_rules by done. destruct groups as [|g groups]; [done|].
  pose proof (time_factors_solid _ H) as Hs.
  destruct (joined_trimmed _ Hs ltac:(done)) as [Ht Hne]. unfold tryParseRequestRuleExpr. rewrite Ht.
  apply str_eqb_neq in Hne. rewrite Hne, split_factors by done. by apply parse_time_factors.
Qed.

(** ** Separating rules from the price *)
Lemma factor_is_rule g : time_rule g → is_rule_part (buildRuleGroupFactor g) = Ok true.
Proof.
  intros H. unfold is_rule_part.
  replace (buildRuleGroupFactor g) with (buildRequestRuleExpr [g]) at 1.
  - rewrite rules_read by (by constructor). done.
  - rewrite built_rules by (by constructor). done.
Qed.

Lemma classify_factors groups : Forall time_rule groups →
  classify_parts (map buildRuleGroupFactor groups) = Ok (map buildRuleGroupFactor groups, []).
Proof.
  induction 1 as [|g groups Hg _ IH]; [done|]. cbn [map classify_parts]. rewrite factor_is_rule by done. simpl. by rewrite IH.
Qed.

Definition in_parens (s : jsstring) : jsstring := js "(" ++ s ++ js ")".

Lemma combined_text base groups : Forall time_rule groups → groups ≠ [] → trim base ≠ [] →
  combineBillingExpr base (buildRequestRuleExpr groups)
  = join (js " * ") (in_parens (trim base) :: map buildRuleGroupFactor groups).
Proof.
  intros Hg Hne Hb. pose proof (time_factors_solid _ Hg) as Hs. rewrite built_rules by done.
  destruct (joined_trimmed _ Hs) as [Ht Hr]; [by destruct groups|]. unfold combineBillingExpr. rewrite Ht.
  apply str_eqb_neq in Hb, Hr. rewrite Hb, Hr. destruct groups as [|g groups]; [done|].
  unfold in_parens. cbn [join map]. by rewrite <- !app_assoc.
Qed.

(** A price that nobody could take for a request rule: it does not end in
    [? m : 1] for a number [m], and the tree it has in parentheses is not a
    choice between two numbers. *)
Definition two_numbers (node : ExpressionNode) : Prop :=
  match node with
  | conditional _ (literal (lit_number _) _ _) (literal (lit_number _) _ _) _ => True
  | _ => False
  end.

Definition plain_price (price : jsstring) : Prop :=
  (∀ cond m, num_text m → price ≠ cond ++ js " ? " ++ m ++ js " : 1") ∧
  (∀ node, parse (in_parens price) = Ok node → ¬ two_numbers node).

Lemma in_parens_solid price node : parse price = Ok node → solid (js "*") (in_parens price).
Proof. intros H. apply parens_solid; [done|done|]. eapply parse_path; [done|lia]. Qed.

Lemma plain_price_not_rule price node : parse price = Ok node → plain_price price →
  is_rule_part (in_parens price) = Ok false.
Proof.
  intros Hp [Htext Htree]. unfold is_rule_part, tryParseRequestRuleExpr.
  assert (Forall (solid (js "*")) [in_parens price]) as Hs by (constructor; [by eapply in_parens_solid|done]).
  destruct (joined_trimmed _ Hs ltac:(done)) as [Ht Hne]. cbn [join] in Ht, Hne. rewrite Ht.
  apply str_eqb_neq in Hne. rewrite Hne.
  pose proof (split_factors _ Hs ltac:(done)) as Hsplit. cbn [join] in Hsplit. rewrite Hsplit.
  cbn [mbind outcome_bind parse_factors]. unfold tryParseRuleGroupFactor.
  rewrite (match_all_none _ _ _ den_rule_factor).
  2:{ intros caps (cond & m & _ & E & _ & Hm). apply (Htext cond m Hm). unfold in_parens, factor_text in E.
      apply app_inv_head in E. change (js " : 1)") with (js " : 1" ++ js ")") in E.
      rewrite !app_assoc in E. apply app_inv_tail in E. by rewrite !app_assoc. }
  simpl. f_equal. destruct (compile (in_parens price)) as [c|f] eqn:Ec; [|done].
  apply compile_ready, compile_body_inv in Ec as (_ & Hast & Hwf & _ & _ & _ & _ & Hrules & _).
  apply compiled_rules_shape in Hrules. apply not_true_iff_false. intros (rule & Hin & Hsame)%existsb_exists.
  rewrite Forall_forall in Hrules. apply list_elem_of_In in Hin.
  destruct (Hrules rule Hin) as (Hn & m & i & isp & one & j & jsp & sp & Er).
  apply (same_node_eq (cp_ast c)) in Hsame; [|done|done|apply postorder_self].
  apply (Htree _ Hast). by rewrite <- Hsame, Er.
Qed.

Lemma rules_separated base node groups : Forall time_rule groups → groups ≠ [] →
  parse (trim base) = Ok node → is_rule_part (in_parens (trim base)) = Ok false →
  unwrapOuterParens base ≠ js "image_count" →
  splitBillingExprAndRequestRules (combineBillingExpr base (buildRequestRuleExpr groups))
  = Ok (mkSplit (unwrapOuterParens base) (buildRequestRuleExpr groups)).
Proof.
  intros Hg Hne Hp Hb Hq. assert (trim base ≠ []) as Hbase by (intros E; by rewrite E in Hp).
  assert (path 1 (trim base) 1) as Hpath by (eapply parse_path; [done|lia]).
  assert (unwrapOuterParens (in_parens (trim base)) = unwrapOuterParens base) as Hu.
  { unfold unwrapOuterParens, in_parens. rewrite unwrap_parens by done. unfold unwrapExpressionParens. by rewrite trim_idemp. }
  rewrite combined_text by done.
  assert (Forall (solid (js "*")) (in_parens (trim base) :: map buildRuleGroupFactor groups)) as Hs.
  { constructor; [by apply parens_solid|by apply time_factors_solid]. }
  destruct (joined_trimmed _ Hs ltac:(done)) as [Ht Hr]. unfold splitBillingExprAndRequestRules. rewrite Ht.
  apply str_eqb_neq in Hr. rewrite Hr, split_factors by done.
  set (parts := _ :: _) in *. assert ((length parts <=? 1)%nat = false) as Hl.
  { apply Nat.leb_gt. subst parts. destruct groups; simpl; [done|lia]. }
  assert (classify_parts parts = Ok (map buildRuleGroupFactor groups, [in_parens (trim base)])) as Hc.
  { subst parts. cbn [classify_parts]. rewrite Hb. simpl. by rewrite classify_factors. }
  cbn [mbind outcome_bind]. rewrite Hl, Hc. simpl.
  unfold is_quantity. rewrite Hu. apply str_eqb_neq in Hq. rewrite Hq. simpl.
  rewrite built_rules by done. destruct groups as [|g groups]; [done|]. by rewrite <- Hu.
Qed.
End Read.

(** ** Properties *)

(** C16: the rules the editor writes are read back: for groups that each hold one
    valid condition on time (a zone without quotes, backslashes or control
    characters) and a numeric multiplier, the reader finds exactly these groups
    in the written expression, with their values trimmed. *)
Theorem time_rules_read_back {host : Host} groups : Forall time_rule groups →
  tryParseRequestRuleExpr (buildRequestRuleExpr groups) = Ok (Some (map canonical_rule groups)).
Proof. apply rules_read. Qed.

(** C17: combining a price with such rules and splitting the result gives the two
    back: for every price that parses, does not end in ? m : 1 for a number m,
    is in parentheses no choice between two numbers, and is not the bare image
    count, the price is found without its outer parentheses, and the rules are
    found verbatim. *)
Theorem combine_split_roundtrip {host : Host} base node groups : Forall time_rule groups → groups ≠ [] →
  parse (trim base) = Ok node → plain_price (trim base) →
  unwrapOuterParens base ≠ js "image_count" →
  splitBillingExprAndRequestRules (combineBillingExpr base (buildRequestRuleExpr groups))
  = Ok (mkSplit (unwrapOuterParens base) (buildRequestRuleExpr groups)).
Proof.
  intros Hg Hne Hp Hplain Hq. eapply rules_separated; try done. by eapply plain_price_not_rule.
Qed.

(** Two rules, one of them an overnight range. *)
Definition sample_rules : list RequestRuleGroup :=
  [ mkGroup [cond_time (mkTimeCondition time_hour (js "Asia/Shanghai") MATCH_RANGE [] (js " 22") (js "6"))] (js "0.5 ") None None;
    mkGroup [cond_time (mkTimeCondition time_weekday (js "UTC") MATCH_EQ (js "0") [] [])] (js "1e-1") None None ].

Lemma sample_rules_ok : Forall time_rule sample_rules.
Proof. repeat constructor; eexists; split_and!; try reflexivity; discriminate. Qed.

Lemma time_rules_read_back_witness : Forall time_rule sample_rules ∧
  tryParseRequestRuleExpr (host := plain_host) (buildRequestRuleExpr sample_rules)
  = Ok (Some (map canonical_rule sample_rules)).
Proof.
  split; [apply sample_rules_ok|]. apply (time_rules_read_back (host := plain_host) sample_rules).
  apply sample_rules_ok.
Defined.

(** A price of two tiers, chosen by the length of the input. *)
Definition sample_price : jsstring := js " (len > 9 ? tier('a', p * 2) : tier('b', p * 3)) ".

Lemma sample_price_plain : plain_price (trim sample_price).
Proof.
  split.
  - intros cond m _ E. apply (f_equal (@rev Z)) in E. rewrite !rev_app_distr in E. vm_compute in E. discriminate E.
  - intros node H. vm_compute in H. injection H as <-. exact id.
Qed.

Lemma combine_split_roundtrip_witness :
  splitBillingExprAndRequestRules (host := plain_host)
    (combineBillingExpr sample_price (buildRequestRuleExpr sample_rules))
  = Ok (mkSplit (js "len > 9 ? tier('a', p * 2) : tier('b', p * 3)") (buildRequestRuleExpr sample_rules)).
Proof.
  destruct (parse (trim sample_price)) as [n|e|] eqn:E;
    [|vm_compute in E; discriminate E|vm_compute in E; discriminate E].
  apply (combine_split_roundtrip (host := plain_host) sample_price n sample_rules sample_rules_ok);
    [discriminate|exact E|exact sample_price_plain|vm_compute; discriminate].
Defined.
