(* ===== verification/TaskExpr.v ===== *)
(** * Task price configurations (pricing/lib/task-expr.ts)

    Tier lists and price matrices over a usage schema: generating an expression
    from a configuration, reading one back, the matrix of enum combinations, and
    the preview of a sample. *)
From S2P Require Import Prelude JsString JsNumber JsRegex JsValue JsJson Host BillingTypes Parser Compile Runtime Structure Display BillingExpr.
Local Open Scope Z_scope.

Definition TASK_TOKEN_PRICE_SCALE : Z := 1000000.

(** [TaskVisualTier] and [ParsedTaskTier] have the fields of [TaskTier]. *)
Record TaskVisualConfig := mkTaskConfig { tvc_tiers : list TaskTier }.

Record TaskMatrixRow := mkRow {
  row_combination : list (jsstring * jsstring);
  row_constant : number;
  row_unitPrices : list (jsstring * number);
}.
Record TaskMatrixConfig := mkMatrix { mx_rows : list TaskMatrixRow }.

Inductive TaskPreviewPart :=
| part_constant (amount : number)
| part_usage (field : jsstring) (amount quantity unitPrice : number).

Record TaskPreviewResult := mkPreview {
  pv_tier : TaskTier;
  pv_total : number;
  pv_parts : list TaskPreviewPart;
}.

(** [object[key] = value] *)
Fixpoint set_property {A} (key : jsstring) (v : A) (l : list (jsstring * A)) : list (jsstring * A) :=
  match l with
  | [] => [(key, v)]
  | (k, w) :: l' => if str_eqb k key then (k, v) :: l' else (k, w) :: set_property key v l'
  end.

Section WithHost.
Context {host : Host}.

(** [entries.sort(([left], [right]) => left.localeCompare(right))]: stable. *)
Fixpoint insert_locale {A} (e : jsstring * A) (l : list (jsstring * A)) : list (jsstring * A) :=
  match l with
  | [] => [e]
  | x :: l' => if localeCompare (fst e) (fst x) <? 0 then e :: l else x :: insert_locale e l'
  end.
Definition sort_locale {A} (l : list (jsstring * A)) : list (jsstring * A) :=
  fold_left (λ acc e, insert_locale e acc) l [].

(** A missing schema is the empty one. *)
Definition getTaskNumberFields (schema : BillingUsageSchema) : BillingUsageSchema :=
  sort_locale (List.filter (λ '(_, d), match uf_type d, uf_unit d with
                                       | Some usage_number, Some _ => true
                                       | _, _ => false
                                       end) schema).

Definition getTaskEnumFields (schema : BillingUsageSchema) : BillingUsageSchema :=
  sort_locale (List.filter (λ '(_, d), match uf_enum d with Some (_ :: _) => true | _ => false end) schema).

(** One turn of the outer loop of [getTaskEnumCombinations]. *)
Definition extend_combinations (combinations : list (list (jsstring * jsstring)))
    (entry : jsstring * BillingUsageFieldSchema) : list (list (jsstring * jsstring)) :=
  flat_map (λ combination,
              map (λ value, set_property (fst entry) value combination) (default [] (uf_enum (snd entry))))
    combinations.

Definition getTaskEnumCombinations (schema : BillingUsageSchema) : list (list (jsstring * jsstring)) :=
  fold_left extend_combinations (getTaskEnumFields schema) [[]].

Definition zero_prices (schema : BillingUsageSchema) : list (jsstring * number) :=
  map (λ '(field, _), (field, num_zero)) (getTaskNumberFields schema).

Definition createDefaultTaskVisualConfig (schema : BillingUsageSchema) : TaskVisualConfig :=
  mkTaskConfig [mkTaskTier (js "base") [] num_zero (zero_prices schema)].

Definition createDefaultTaskMatrixConfig (schema : BillingUsageSchema) : TaskMatrixConfig :=
  mkMatrix (map (λ combination, mkRow combination num_zero (zero_prices schema))
                (getTaskEnumCombinations schema)).

Definition taskMatrixRowLabel (combination : list (jsstring * jsstring)) : jsstring :=
  match sort_locale combination with
  | [] => js "base"
  | entries => join [183] (map snd entries)
  end.

(** [a === b] where either may be undefined *)
Definition same_price (a b : option number) : bool :=
  match a, b with
  | Some x, Some y => num_eqb x y
  | None, None => true
  | _, _ => false
  end.

(** [Object.fromEntries(numberFields.map(([field]) => [field, prices[field] ?? 0]))] *)
Definition pick_prices (numberFields : BillingUsageSchema) (prices : list (jsstring * number))
    : list (jsstring * number) :=
  map (λ '(field, _), (field, default num_zero (own_property field prices))) numberFields.

Definition uniform_rows (numberFields : BillingUsageSchema) (firstRow : TaskMatrixRow)
    (rows : list TaskMatrixRow) : bool :=
  forallb (λ row, num_eqb (row_constant row) (row_constant firstRow) &&
                  forallb (λ '(field, _), same_price (own_property field (row_unitPrices row))
                                                     (own_property field (row_unitPrices firstRow)))
                          numberFields) rows.

(** The tier of a row; the last row is the fallback. *)
Definition row_tier (numberFields : BillingUsageSchema) (is_last : bool) (row : TaskMatrixRow) : TaskTier :=
  mkTaskTier (taskMatrixRowLabel (row_combination row))
    (if is_last then [] else sort_locale (row_combination row))
    (row_constant row) (pick_prices numberFields (row_unitPrices row)).

Fixpoint row_tiers (numberFields : BillingUsageSchema) (rows : list TaskMatrixRow) : list TaskTier :=
  match rows with
  | [] => []
  | row :: rest =>
      row_tier numberFields (match rest with [] => true | _ => false end) row :: row_tiers numberFields rest
  end.

Definition taskMatrixToTiers (config : TaskMatrixConfig) (schema : BillingUsageSchema) : list TaskTier :=
  let numberFields := getTaskNumberFields schema in
  match numberFields, mx_rows config with
  | [], _ | _, [] => []
  | _, firstRow :: _ =>
      if uniform_rows numberFields firstRow (mx_rows config) then
        [mkTaskTier (js "base") [] (row_constant firstRow) (pick_prices numberFields (row_unitPrices firstRow))]
      else row_tiers numberFields (mx_rows config)
  end.

(** [conditions.every(condition => combination[condition.field] === condition.value)] *)
Definition conditions_match (lookup : jsstring → option jsval) (conditions : list (jsstring * jsstring)) : bool :=
  forallb (λ '(field, value),
             match lookup field with Some v => strict_equals v (JString value) | None => false end) conditions.

Definition combination_lookup (combination : list (jsstring * jsstring)) (field : jsstring) : option jsval :=
  option_map JString (own_property field combination).

Definition distinct_fields (tier : TaskTier) : bool :=
  (length (fold_left (λ acc f, set_add f acc) (map fst (tk_conditions tier)) [])
   =? length (tk_conditions tier))%nat.

Definition tryParseTaskMatrixConfig (expression : jsstring) (schema : BillingUsageSchema)
    : result (option TaskMatrixConfig) :=
  if str_eqb expression [] then Ok None
  else
    tiers ← parseTaskTiersFromExpr expression schema false;
    Ok (match last tiers with
        | None => None
        | Some fallbackTier =>
            if negb (length (tk_conditions fallbackTier) =? 0)%nat then None
            else if negb (forallb distinct_fields tiers) then None
            else
              let numberFields := getTaskNumberFields schema in
              Some (mkMatrix (map (λ combination,
                let tier := default fallbackTier
                              (find (λ t, conditions_match (combination_lookup combination) (tk_conditions t)) tiers) in
                mkRow combination (tk_constant tier) (pick_prices numberFields (tk_unitPrices tier)))
                (getTaskEnumCombinations schema)))
        end).

(** ** Generation *)
(** [Number.isFinite(x) && x >= 0 ? x : 0] *)
Definition sane_price (x : number) : number :=
  if isFinite x && num_leb num_zero x then x else num_zero.

Definition default_label (label : jsstring) (index : Z) : jsstring :=
  if str_eqb label [] then
    if index =? 0 then js "base" else js "tier_" ++ string_of_Z (index + 1)
  else label.

Definition known_condition (enumFields : BillingUsageSchema) (condition : jsstring * jsstring) : bool :=
  match own_property (fst condition) enumFields with
  | Some d => str_in (snd condition) (default [] (uf_enum d))
  | None => false
  end.

Definition normalize_tier (schema : BillingUsageSchema) (index : Z) (tier : TaskTier) : TaskTier :=
  mkTaskTier (default_label (tk_label tier) index)
    (List.filter (known_condition (getTaskEnumFields schema)) (tk_conditions tier))
    (sane_price (tk_constant tier))
    (map (λ '(field, _), (field, sane_price (default num_nan (own_property field (tk_unitPrices tier)))))
         (getTaskNumberFields schema)).

Fixpoint mapi {A B} (f : Z → A → B) (index : Z) (l : list A) : list B :=
  match l with [] => [] | a :: l' => f index a :: mapi f (index + 1) l' end.

(** A missing configuration has no tiers. *)
Definition normalizeTaskVisualConfig (config : TaskVisualConfig) (schema : BillingUsageSchema)
    : TaskVisualConfig :=
  match tvc_tiers config with
  | [] => createDefaultTaskVisualConfig schema
  | tiers => mkTaskConfig (mapi (normalize_tier schema) 0 tiers)
  end.

Definition is_token_unit (u : option BillingUsageUnit) : bool :=
  match u with Some unit_token_usage => true | _ => false end.

Definition usage_term (field : jsstring) (price : number) (scaled : bool) : jsstring :=
  js "u(" ++ JSON_stringify field ++ js ") * " ++ String_of_number price
  ++ (if scaled then js " / " ++ string_of_Z TASK_TOKEN_PRICE_SCALE else []).

Definition generateTaskTierBody (tier : TaskTier) (numberFields : BillingUsageSchema) : jsstring :=
  join (js " + ")
    ((if num_ltb num_zero (tk_constant tier) then [String_of_number (tk_constant tier)] else [])
     ++ map (λ '(field, d), usage_term field (default num_zero (own_property field (tk_unitPrices tier)))
                              (is_token_unit (uf_unit d))) numberFields).

Definition generateTaskTierCall (tier : TaskTier) (numberFields : BillingUsageSchema) : jsstring :=
  js "tier(" ++ JSON_stringify (tk_label tier) ++ js ", " ++ generateTaskTierBody tier numberFields ++ js ")".

Definition generateTaskCondition (conditions : list (jsstring * jsstring)) : jsstring :=
  join (js " && ")
    (map (λ '(field, value), js "u(" ++ JSON_stringify field ++ js ") == " ++ JSON_stringify value) conditions).

(** The loop over the tiers; [None] is the early return of the empty string. *)
Fixpoint generate_tiers (tiers : list TaskTier) (numberFields : BillingUsageSchema) : option (list jsstring) :=
  match tiers with
  | [] => Some []
  | [tier] => Some [generateTaskTierCall tier numberFields]
  | tier :: rest =>
      let condition := generateTaskCondition (tk_conditions tier) in
      if str_eqb condition [] then None
      else
        parts ← generate_tiers rest numberFields;
        Some ((condition ++ js " ? " ++ generateTaskTierCall tier numberFields) :: parts)
  end.

Definition generateTaskExprFromConfig (config : TaskVisualConfig) (schema : BillingUsageSchema) : jsstring :=
  match getTaskNumberFields schema with
  | [] => []
  | numberFields =>
      match generate_tiers (tvc_tiers (normalizeTaskVisualConfig config schema)) numberFields with
      | Some parts => join (js " : ") parts
      | None => []
      end
  end.

Definition tryParseTaskVisualConfig (expression : jsstring) (schema : BillingUsageSchema)
    : result (option TaskVisualConfig) :=
  if str_eqb expression [] then Ok None
  else
    tiers ← parseTaskTiersFromExpr expression schema false;
    Ok (match tiers with
        | [] => None
        | _ => Some (normalizeTaskVisualConfig (mkTaskConfig tiers) schema)
        end).

(** ** Preview *)
(** [Number(sample[field])] *)
Definition sample_number (sample : list (jsstring * jsval)) (field : jsstring) : number :=
  match own_property field sample with
  | Some (JNumber x) => x
  | Some (JString s) => Number_of_string s
  | _ => num_nan
  end.

Definition is_amount (x : number) : bool := isFinite x && negb (is_negative x).

(** The first tier, the last one excepted, whose conditions match. *)
Definition match_tier (tiers : list TaskTier) (fallback : TaskTier) (sample : list (jsstring * jsval)) : TaskTier :=
  default fallback
    (find (λ t, conditions_match (λ f, own_property f sample) (tk_conditions t)) (removelast tiers)).

Fixpoint preview_parts (schema : BillingUsageSchema) (sample : list (jsstring * jsval))
    (prices : list (jsstring * number)) : option (list TaskPreviewPart) :=
  match prices with
  | [] => Some []
  | (field, unitPrice) :: rest =>
      if negb (is_amount unitPrice) then None
      else if num_eqb unitPrice num_zero then preview_parts schema sample rest
      else
        let quantity := sample_number sample field in
        if negb (is_amount quantity) then None
        else
          let product := num_mul quantity unitPrice in
          let amount := if is_token_unit (own_property field schema ≫= uf_unit)
                        then num_div product (num_of_Z TASK_TOKEN_PRICE_SCALE) else product in
          if negb (isFinite amount) then None
          else parts ← preview_parts schema sample rest;
               Some (part_usage field amount quantity unitPrice :: parts)
  end.

Definition part_term (schema : BillingUsageSchema) (part : TaskPreviewPart) : option jsstring :=
  match part with
  | part_usage field _ _ unitPrice =>
      if str_eqb field [] then None
      else Some (js "u(" ++ JSON_stringify field ++ js ") * " ++ String_of_number unitPrice
                 ++ (if is_token_unit (own_property field schema ≫= uf_unit) then js " / 1000000" else []))
  | part_constant _ => None
  end.

Definition normalized_usage (sample : list (jsstring * jsval)) (parts : list TaskPreviewPart)
    : list (jsstring * jsval) :=
  fold_left (λ usage part,
               match part with
               | part_usage field _ quantity _ =>
                   if str_eqb field [] then usage else set_property field (JNumber quantity) usage
               | part_constant _ => usage
               end) parts sample.

Definition preview_source (schema : BillingUsageSchema) (label : jsstring) (constant : number)
    (parts : list TaskPreviewPart) : jsstring :=
  js "tier(" ++ JSON_stringify label ++ js ", "
  ++ join (js " + ") (String_of_number constant :: omap (part_term schema) parts) ++ js ")".

Definition evaluateTaskVisualConfig (config : TaskVisualConfig) (sample : list (jsstring * jsval))
    (schema : BillingUsageSchema) : option TaskPreviewResult :=
  fallback ← last (tvc_tiers config);
  let matchedTier := match_tier (tvc_tiers config) fallback sample in
  let constant := tk_constant matchedTier in
  if negb (is_amount constant) then None
  else
    usage ← preview_parts schema sample (tk_unitPrices matchedTier);
    let parts := (if num_ltb num_zero constant then [part_constant constant] else []) ++ usage in
    match evaluateBillingExpression (preview_source schema (tk_label matchedTier) constant parts)
            (mkContext None None None (Some (normalized_usage sample parts)) None) with
    | eval_success s => Some (mkPreview matchedTier (res_cost s) parts)
    | eval_failure _ => None
    end.

Record BillingUsageExample := mkExample { ex_label : jsstring; ex_facts : list (jsstring * jsval) }.

Definition evaluateTaskUsageExamples (expression : jsstring) (schema : option BillingUsageSchema)
    (examples : list BillingUsageExample) : result (list (jsstring * number)) :=
  match schema with
  | None => Ok []
  | Some schema =>
      if str_eqb expression [] || (length examples =? 0)%nat then Ok []
      else
        split ← splitBillingExprAndRequestRules expression;
        config ← tryParseTaskVisualConfig (se_billingExpr split) schema;
        Ok (match config with
            | None => []
            | Some config =>
                omap (λ example,
                        option_map (λ r, (ex_label example, pv_total r))
                          (evaluateTaskVisualConfig config (ex_facts example) schema)) examples
            end)
  end.
End WithHost.
