(* ===== verification/TierExpr.v ===== *)
(** * The legacy tier editor and the estimator (pricing/lib/tier-expr.ts)

    A tier list with unit costs, its expression, the regular-expression reader
    that accepts exactly what can be regenerated, and the local estimator. *)
From S2P Require Import Prelude JsString JsNumber JsRegex JsValue JsJson Host BillingTypes Parser Compile Runtime Structure Display BillingExpr.
Local Open Scope Z_scope.

Inductive CacheMode := CACHE_MODE_TIMED | CACHE_MODE_GENERIC.

(** A condition value is typed [number | string]. *)
Inductive condition_value := cv_number (x : number) | cv_string (s : jsstring).

Record TierConditionInput := mkConditionInput {
  ci_var : jsstring;
  ci_op : jsstring;
  ci_value : condition_value;
}.

(** [Partial<VisualTier>]; [ct_costs] are the other cost fields by name. *)
Record CostTier := mkCostTier {
  ct_billing_unit : option BillingUnit;
  ct_fixed_price : option jsstring;
  ct_label : option jsstring;
  ct_conditions : option (list TierConditionInput);
  ct_input_unit_cost : option number;
  ct_output_unit_cost : option number;
  ct_cache_mode : option CacheMode;
  ct_costs : list (jsstring * number);
}.

Record VisualConfig := mkVisualConfig { vcf_tiers : list CostTier }.

(** [Number(x) || 0] *)
Definition number_or_zero (x : option number) : number :=
  match x with
  | Some (S754_nan | S754_zero _) | None => num_zero
  | Some x => x
  end.

Definition cost (field : string) (tier : CostTier) : option number := own_property (js field) (ct_costs tier).

Definition getTierCacheMode (tier : CostTier) : CacheMode :=
  match ct_cache_mode tier with
  | Some mode => mode
  | None =>
      match cost "cache_create_1h_unit_cost" tier with
      | Some x => if num_ltb num_zero x then CACHE_MODE_TIMED else CACHE_MODE_GENERIC
      | None => CACHE_MODE_GENERIC
      end
  end.

(** The fields [normalizeVisualTier] always sets. *)
Definition NORMALIZED_COSTS : list string :=
  ["cache_read_unit_cost"; "cache_create_unit_cost"; "cache_create_1h_unit_cost"; "image_unit_cost";
   "image_output_unit_cost"; "audio_input_unit_cost"; "audio_output_unit_cost"]%string.

Fixpoint set_cost (field : jsstring) (x : number) (l : list (jsstring * number)) : list (jsstring * number) :=
  match l with
  | [] => [(field, x)]
  | (k, y) :: l' => if str_eqb k field then (k, x) :: l' else (k, y) :: set_cost field x l'
  end.

Definition normalizeVisualTier (tier : CostTier) : CostTier :=
  mkCostTier (ct_billing_unit tier) (ct_fixed_price tier)
    (Some (default [] (ct_label tier)))
    (Some (default [] (ct_conditions tier)))
    (Some (match ct_input_unit_cost tier with Some x => x | None => num_zero end))
    (Some (match ct_output_unit_cost tier with Some x => x | None => num_zero end))
    (Some (getTierCacheMode tier))
    (fold_left (λ costs field, set_cost (js field) (number_or_zero (cost field tier)) costs)
       NORMALIZED_COSTS (ct_costs tier)).

Definition createDefaultVisualConfig : VisualConfig :=
  mkVisualConfig
    [normalizeVisualTier
       (mkCostTier None None (Some (js "base")) (Some []) (Some num_zero) (Some num_zero)
          (Some CACHE_MODE_GENERIC) [])].

(** A missing configuration has no tiers. *)
Definition normalizeVisualConfig (config : VisualConfig) : VisualConfig :=
  match vcf_tiers config with
  | [] => createDefaultVisualConfig
  | tiers => mkVisualConfig (map normalizeVisualTier tiers)
  end.

(** ** Generation *)
Definition value_text (v : condition_value) : jsstring :=
  match v with cv_number x => String_of_number x | cv_string s => s end.

Definition complete_condition (c : TierConditionInput) : bool :=
  non_empty (ci_var c) && non_empty (ci_op c)
  && match ci_value c with cv_string [] => false | _ => true end.

Definition buildConditionStr (conditions : list TierConditionInput) : jsstring :=
  join (js " && ")
    (map (λ c, ci_var c ++ js " " ++ ci_op c ++ js " " ++ value_text (ci_value c))
         (List.filter complete_condition conditions)).

Definition priced_term (name : jsstring) (x : number) : jsstring := name ++ js " * " ++ String_of_number x.

Definition buildTierBodyExpr (tier : CostTier) : jsstring :=
  match ct_billing_unit tier with
  | Some unit_request => js "fixed(" ++ default [] (ct_fixed_price tier) ++ js ")"
  | _ =>
      join (js " + ")
        ([priced_term (js "p") (number_or_zero (ct_input_unit_cost tier));
          priced_term (js "c") (number_or_zero (ct_output_unit_cost tier))]
         ++ omap (λ '(field, exprVar),
                    let v := number_or_zero (own_property field (ct_costs tier)) in
                    if num_eqb v num_zero then None else Some (priced_term exprVar v)) BILLING_CACHE_VAR_MAP)
  end.

Definition zero_expr : jsstring := js "p * 0 + c * 0".

(** [tier("label", body)]: the label is not escaped. *)
Definition tier_call (label : jsstring) (tier : CostTier) : jsstring :=
  js "tier(" ++ [34] ++ label ++ [34] ++ js ", " ++ buildTierBodyExpr tier ++ js ")".

Definition label_or (label : option jsstring) (fallback : jsstring) : jsstring :=
  match label with Some ((_ :: _) as l) => l | _ => fallback end.

Fixpoint generate_parts (index : Z) (tiers : list CostTier) : list jsstring :=
  match tiers with
  | [] => []
  | tier :: rest =>
      let body := tier_call (label_or (ct_label tier) (js "tier_" ++ string_of_Z (index + 1))) tier in
      let cond := buildConditionStr (default [] (ct_conditions tier)) in
      (match rest with
       | _ :: _ => if non_empty cond then cond ++ js " ? " ++ body else body
       | [] => body
       end) :: generate_parts (index + 1) rest
  end.

Definition generateExprFromVisualConfig (config : VisualConfig) : jsstring :=
  match vcf_tiers config with
  | [] => zero_expr
  | [tier] =>
      let body := tier_call (label_or (ct_label tier) (js "default")) tier in
      let cond := buildConditionStr (default [] (ct_conditions tier)) in
      if non_empty cond then cond ++ js " ? " ++ body ++ js " : " ++ zero_expr else body
  | tiers => join (js " : ") (generate_parts 0 tiers)
  end.

(** ** Reading *)
(** [\s*\*\s*] and [\s*\+\s*] *)
Definition r_times : regex := r_seq [r_blank; r_lit "*"; r_blank].
Definition r_add : regex := r_seq [r_blank; r_lit "+"; r_blank].

(** The optional terms of the cache variables, captured from group [n] on. *)
Fixpoint r_cache_terms (n : nat) (vars : list jsstring) : regex :=
  match vars with
  | [] => REmpty
  | v :: vars' =>
      RSeq (r_opt (r_seq [r_add; r_chars v; r_times; RGroup n r_numeral])) (r_cache_terms (S n) vars')
  end.

(** [bodyPat], its first capture being group [n]. *)
Definition r_body (n : nat) : regex :=
  r_seq [ r_lit "p"; r_times; RGroup n r_numeral; r_add; r_lit "c"; r_times; RGroup (n + 1) r_numeral;
          r_cache_terms (n + 2) (map snd BILLING_CACHE_VAR_MAP) ].

(** A call of [tier] with its quoted label in group [n]. *)
Definition r_tier (n : nat) : regex :=
  r_seq [ r_lit "tier("; r_quote; RGroup n (RStar (r_not [34])); r_quote; r_lit ","; r_blank;
          r_body (n + 1); r_lit ")" ].

Definition singleRe : regex := r_tier 1.

(** [[\d.eE+]] *)
Definition r_condition_numeral : regex := r_plus (r_class is_digit ".eE+").
Definition r_condition_var : regex := r_alt [r_lit "p"; r_lit "c"; r_lit "len"].
Definition r_condition_op : regex := r_alt [r_lit "<"; r_lit "<="; r_lit ">"; r_lit ">="].
Definition r_condition : regex :=
  r_seq [r_condition_var; r_blank; r_condition_op; r_blank; r_condition_numeral].
Definition condGroup : regex :=
  RGroup 1 (RSeq r_condition (RStar (r_seq [r_blank; r_lit "&&"; r_blank; r_condition]))).
Definition tierRe : regex :=
  RSeq (r_opt (r_seq [condGroup; r_blank; r_lit "?"; r_blank])) (r_tier 2).

(** [/^(p|c|len)\s*(<|<=|>|>=)\s*([\d.eE+]+)$/] *)
Definition r_one_condition : regex :=
  r_seq [RGroup 1 r_condition_var; r_blank; RGroup 2 r_condition_op; r_blank; RGroup 3 r_condition_numeral].

(** [text.split(/\s*&&\s*/)]: the parts between conjunctions. *)
Definition r_conjunction : regex := r_seq [r_blank; r_lit "&&"; r_blank].
Fixpoint split_conjunctions (fuel : nat) (part text : jsstring) : list jsstring :=
  match fuel, text with
  | O, _ => [part ++ text]
  | _, [] => [part]
  | S fuel', c :: text' =>
      match match_at r_conjunction text with
      | Some m => part :: split_conjunctions fuel' [] (m_rest m)
      | None => split_conjunctions fuel' (part ++ [c]) text'
      end
  end.

Definition read_condition_input (cp : jsstring) : option TierConditionInput :=
  caps ← match_all r_one_condition (trim cp);
  Some (mkConditionInput (group_or_empty 1 caps) (group_or_empty 2 caps)
          (cv_number (Number_of_string (group_or_empty 3 caps)))).

Definition read_conditions (condStr : jsstring) : list TierConditionInput :=
  match condStr with
  | [] => []
  | _ => omap read_condition_input (split_conjunctions (length condStr) [] condStr)
  end.

(** The cost fields captured from group [n] on. *)
Fixpoint captured_costs (n : nat) (vars : list (jsstring * jsstring)) (caps : captures)
    : list (jsstring * number) :=
  match vars with
  | [] => []
  | (field, _) :: vars' =>
      match group n caps with
      | Some text => (field, Number_of_string text) :: captured_costs (S n) vars' caps
      | None => captured_costs (S n) vars' caps
      end
  end.

(** The tier of a match whose label is group [n]. *)
Definition captured_tier (n : nat) (conditions : list TierConditionInput) (caps : captures) : CostTier :=
  normalizeVisualTier
    (mkCostTier None None (Some (group_or_empty n caps)) (Some conditions)
       (Some (Number_of_string (group_or_empty (n + 1) caps)))
       (Some (Number_of_string (group_or_empty (n + 2) caps))) None
       (captured_costs (n + 3) BILLING_CACHE_VAR_MAP caps)).

(** [re.exec(text)] from the start of [text]: the earliest match. *)
Fixpoint search (r : regex) (text : jsstring) : option mstate :=
  match match_at r text with
  | Some m => Some m
  | None => match text with [] => None | _ :: text' => search r text' end
  end.

(** The [exec] loop; every match consumes the text of a call. *)
Fixpoint exec_tiers (fuel : nat) (text : jsstring) : list CostTier :=
  match fuel with
  | O => []
  | S fuel' =>
      match search tierRe text with
      | None => []
      | Some m =>
          captured_tier 2 (read_conditions (group_or_empty 1 (m_caps m))) (m_caps m)
          :: exec_tiers fuel' (m_rest m)
      end
  end.

(** [body.match(/^v\d+:([\s\S]* )$/)] *)
Definition strip_version (text : jsstring) : jsstring :=
  match match_at (r_seq [r_lit "v"; r_plus r_digit; r_lit ":"]) text with
  | Some m => m_rest m
  | None => text
  end.

Definition tryParseVisualConfig (exprStr : jsstring) : option VisualConfig :=
  if str_eqb exprStr [] then None
  else
    let body := strip_version exprStr in
    match match_all singleRe body with
    | Some caps => Some (normalizeVisualConfig (mkVisualConfig [captured_tier 1 [] caps]))
    | None =>
        match exec_tiers (length body) body with
        | [] => None
        | tiers =>
            let cfg := normalizeVisualConfig (mkVisualConfig tiers) in
            if str_eqb (remove_spaces (generateExprFromVisualConfig cfg)) (remove_spaces body)
            then Some cfg else None
        end
    end.

(** ** The local estimator *)
Record ExtraTokenValues := mkExtra {
  cacheReadTokens : number;
  cacheCreateTokens : number;
  cacheCreate1hTokens : number;
  imageTokens : number;
  imageCacheTokens : number;
  imageOutputTokens : number;
  audioInputTokens : number;
  audioOutputTokens : number;
}.

Definition ESTIMATOR_VARS : list (TokenVariable * (ExtraTokenValues → number)) :=
  [(var_cr, cacheReadTokens); (var_cc, cacheCreateTokens); (var_cc1h, cacheCreate1hTokens);
   (var_img, imageTokens); (var_img_cr, imageCacheTokens); (var_img_o, imageOutputTokens);
   (var_ai, audioInputTokens); (var_ao, audioOutputTokens)].

Definition buildEstimatorTokens (promptTokens completionTokens : number) (extra : ExtraTokenValues)
    : list (jsstring * jsval) :=
  [(js "p", JNumber promptTokens); (js "c", JNumber completionTokens);
   (js "len", JNumber
      (fold_left num_add
         [cacheReadTokens extra; imageCacheTokens extra; imageTokens extra; audioInputTokens extra;
          cacheCreateTokens extra; cacheCreate1hTokens extra] promptTokens))]
  ++ map (λ '(v, get), (token_variable_name v, JNumber (get extra))) ESTIMATOR_VARS.

Record EvalResult := mkEval {
  er_cost : number;
  er_matchedTier : jsstring;
  er_error : option jsstring;
  er_billingUnit : option BillingUnit;
}.

(** [{ ...a, ...b }] *)
Definition spread (a b : list (jsstring * jsval)) : list (jsstring * jsval) :=
  fold_left (λ acc '(k, v), put_property k v acc) b a.

Section WithHost.
Context {host : Host}.

Definition evalExprLocally (exprStr : jsstring) (promptTokens completionTokens : number)
    (extra : ExtraTokenValues) (context : BillingSimulationContext) : EvalResult :=
  if str_eqb (trim exprStr) [] then mkEval num_zero [] None None
  else
    let tokens := spread (buildEstimatorTokens promptTokens completionTokens extra)
                         (default [] (ctx_tokens context)) in
    match evaluateBillingExpression exprStr
            (mkContext (ctx_imageCount context) (Some tokens) (ctx_request context)
                       (ctx_usage context) (ctx_now context)) with
    | eval_success s =>
        mkEval (res_cost s) (res_matchedTier s) None
          (match res_billingUnit s with unit_request => Some unit_request | unit_token => None end)
    | eval_failure f => mkEval num_zero [] (Some (diag_detail (failure_diagnostic f))) None
    end.

Definition exprUsesExtraVars (exprStr : jsstring) : bool :=
  if str_eqb exprStr [] then false
  else
    match compile exprStr with
    | ready compiled =>
        existsb (λ '(v, _), bool_decide (token_variable v ∈ cp_variables compiled)) ESTIMATOR_VARS
    | failed _ => false
    end.
End WithHost.
