(* ===== verification/StatusRules.v ===== *)
(** * Rules on HTTP status codes

    Models [web/src/lib/http-status-code-rules.ts]: the text of a rule field is
    read as a list of codes and ranges, merged, and written in a normal form.

    Proved here: an accepted text gives ranges in order, apart from each other
    and within 100 to 599; they hold exactly the codes the text names; the
    normal form is read back as itself, and two texts that name the same codes
    have the same normal form. *)
From S2P Require Import Prelude JsString JsNumber JsNumberFacts JsRegex.
Local Open Scope Z_scope.

Record StatusCodeRange := mkRange { rg_start : Z; rg_end : Z }.

Record ParsedHttpStatusCodeRules := mkParsed {
  pr_ok : bool;
  pr_ranges : list StatusCodeRange;
  pr_tokens : list jsstring;
  pr_normalized : jsstring;
  pr_invalidTokens : list jsstring;
}.

(** [isNumber]: [/^\d+$/] *)
Definition isNumber (s : jsstring) : bool := match s with [] => false | _ => forallb is_digit s end.

(** [isValidCode]; the value of a digit string is kept as an integer: those too
    long for a number are out of bounds either way. *)
Definition isValidCode (code : Z) : bool := (100 <=? code) && (code <=? 599).

Definition ch_dash : jschar := 45.

Definition parseToken (token : jsstring) : option StatusCodeRange :=
  let cleaned := remove_spaces (trim token) in
  match cleaned with
  | [] => None
  | _ =>
      if existsb (Z.eqb ch_dash) cleaned then
        match split_char ch_dash cleaned with
        | a :: b :: _ =>
            if negb (isNumber a) || negb (isNumber b) then None
            else
              let start := digits_value a in
              let end_ := digits_value b in
              if negb (isValidCode start) || negb (isValidCode end_) || (end_ <? start) then None
              else Some (mkRange start end_)
        | _ => None
        end
      else if negb (isNumber cleaned) then None
      else let code := digits_value cleaned in
           if negb (isValidCode code) then None else Some (mkRange code code)
  end.

(** The order of [sort]: by start, then by end. *)
Definition range_le (a b : StatusCodeRange) : bool :=
  if rg_start a =? rg_start b then rg_end a <=? rg_end b else rg_start a <? rg_start b.

Fixpoint insert_range (r : StatusCodeRange) (l : list StatusCodeRange) : list StatusCodeRange :=
  match l with
  | [] => [r]
  | x :: l' => if range_le x r then x :: insert_range r l' else r :: l
  end.

Definition sort_ranges (l : list StatusCodeRange) : list StatusCodeRange :=
  fold_left (λ acc r, insert_range r acc) l [].

(** One turn of the [reduce]; the list is kept with its last element first. *)
Definition merge_step (merged : list StatusCodeRange) (current : StatusCodeRange) : list StatusCodeRange :=
  match merged with
  | [] => [current]
  | last :: before =>
      if rg_end last + 1 <? rg_start current then current :: merged
      else mkRange (rg_start last) (Z.max (rg_end last) (rg_end current)) :: before
  end.

Definition mergeRanges (ranges : list StatusCodeRange) : list StatusCodeRange :=
  rev (fold_left merge_step (sort_ranges ranges) []).

Definition range_token (r : StatusCodeRange) : jsstring :=
  if rg_start r =? rg_end r then string_of_Z (rg_start r)
  else string_of_Z (rg_start r) ++ js "-" ++ string_of_Z (rg_end r).

(** The segments of a text: full-width commas count as commas. *)
Definition rule_segments (raw : jsstring) : list jsstring :=
  let sanitized := map (λ c, if c =? 65292 then 44 else c) raw in
  List.filter (λ s, negb (str_eqb s [])) (map trim (split_char 44 sanitized)).

Definition is_some {A} (o : option A) : bool := match o with Some _ => true | None => false end.

(** [input] is the text of the field, [None] for [null] or [undefined]. *)
Definition parseHttpStatusCodeRules (input : option jsstring) : ParsedHttpStatusCodeRules :=
  let raw := trim (default [] input) in
  if (length raw =? 0)%nat then mkParsed true [] [] [] []
  else
    let segments := rule_segments raw in
    let invalidTokens := List.filter (λ s, negb (is_some (parseToken s))) segments in
    match invalidTokens with
    | _ :: _ => mkParsed false [] [] raw invalidTokens
    | [] =>
        let merged := mergeRanges (omap parseToken segments) in
        let tokens := map range_token merged in
        mkParsed true merged tokens (join (js ",") tokens) []
    end.

Example rules_sample :
  pr_normalized (parseHttpStatusCodeRules (Some (js " 500-503" ++ [65292] ++ js "504, 401 ,402-403,  405"))) = js "401-403,405,500-504".
Proof. reflexivity. Qed.

(** ** Codes *)
Definition in_range (code : Z) (r : StatusCodeRange) : Prop := rg_start r ≤ code ≤ rg_end r.
Definition covers (l : list StatusCodeRange) (code : Z) : Prop := Exists (in_range code) l.

(** Ranges within bounds. *)
Definition valid_range (r : StatusCodeRange) : Prop := 100 ≤ rg_start r ∧ rg_start r ≤ rg_end r ∧ rg_end r ≤ 599.

(** In order and apart: between two ranges at least one code is missing. *)
Fixpoint apart (l : list StatusCodeRange) : Prop :=
  match l with
  | a :: (b :: _) as l' => rg_end a + 1 < rg_start b ∧ apart l'
  | _ => True
  end.

Definition canonical (l : list StatusCodeRange) : Prop := Forall valid_range l ∧ apart l.

(** ** Sorting and merging *)
Definition starts_after (s : Z) (l : list StatusCodeRange) : Prop := Forall (λ r, s ≤ rg_start r) l.

Fixpoint by_start (l : list StatusCodeRange) : Prop :=
  match l with [] => True | r :: l' => starts_after (rg_start r) l' ∧ by_start l' end.

Lemma range_le_start a b : range_le a b = true → rg_start a ≤ rg_start b.
Proof. unfold range_le. repeat case_match; lia. Qed.
Lemma range_gt_start a b : range_le a b = false → rg_start b ≤ rg_start a.
Proof. unfold range_le. repeat case_match; lia. Qed.

Lemma insert_perm r l : insert_range r l ≡ₚ r :: l.
Proof.
  induction l as [|x l IH]; simpl; [done|]. case_match; [|done]. rewrite IH. apply Permutation_swap.
Qed.

Lemma insert_sorted r l : by_start l → by_start (insert_range r l).
Proof.
  induction l as [|x l IH]; simpl; [split; [constructor|done]|]. intros [Hx Hl]. destruct (range_le x r) eqn:E; simpl.
  - split; [|by apply IH]. unfold starts_after in *. rewrite insert_perm. constructor; [by apply range_le_start|done].
  - apply range_gt_start in E. split; [|done]. constructor; [done|]. eapply Forall_impl; [exact Hx|]. simpl. lia.
Qed.

Lemma sort_ranges_spec l : sort_ranges l ≡ₚ l ∧ by_start (sort_ranges l).
Proof.
  unfold sort_ranges. cut (∀ acc, by_start acc →
    fold_left (λ acc r, insert_range r acc) l acc ≡ₚ acc ++ l ∧ by_start (fold_left (λ acc r, insert_range r acc) l acc)).
  { intros H. by apply H. }
  induction l as [|r l IH]; intros acc Ha; simpl; [by rewrite app_nil_r|].
  destruct (IH (insert_range r acc)) as [Hp Hs]; [by apply insert_sorted|]. split; [|done].
  rewrite Hp, insert_perm. simpl. apply Permutation_middle.
Qed.

Lemma covers_perm l1 l2 c : l1 ≡ₚ l2 → covers l1 c ↔ covers l2 c.
Proof. intros H. unfold covers. by rewrite H. Qed.

(** [apart] for a list with its last element first. *)
Fixpoint apart_rev (l : list StatusCodeRange) : Prop :=
  match l with
  | a :: (b :: _) as l' => rg_end b + 1 < rg_start a ∧ apart_rev l'
  | _ => True
  end.

Lemma apart_app l a b : apart (l ++ [b]) → rg_end b + 1 < rg_start a → apart ((l ++ [b]) ++ [a]).
Proof.
  induction l as [|x [|y l] IH]; simpl; auto; intros [H1 H2] H; (split; [done|]); by apply IH.
Qed.

Lemma apart_rev_spec l : apart_rev l → apart (rev l).
Proof.
  induction l as [|a [|b l] IH]; simpl; auto. intros [H1 H2]. apply apart_app; [|done]. by apply IH.
Qed.

Lemma merge_fold l : ∀ acc, by_start l → Forall valid_range l → Forall valid_range acc → apart_rev acc →
  match acc with [] => True | a :: _ => starts_after (rg_start a) l end →
  Forall valid_range (fold_left merge_step l acc) ∧ apart_rev (fold_left merge_step l acc)
  ∧ ∀ c, covers (fold_left merge_step l acc) c ↔ covers acc c ∨ covers l c.
Proof.
  unfold covers.
  induction l as [|r l IH]; intros acc Hsort Hv Ha Hap Hst; simpl.
  { split_and!; try done. intros c. rewrite Exists_nil. tauto. }
  destruct Hsort as [Hr Hs]. apply Forall_cons in Hv as [Hvr Hv].
  assert (∀ acc', Forall valid_range acc' → apart_rev acc' →
    match acc' with [] => True | a :: _ => starts_after (rg_start a) l end →
    (∀ c, Exists (in_range c) acc' ↔ Exists (in_range c) acc ∨ in_range c r) →
    Forall valid_range (fold_left merge_step l acc') ∧ apart_rev (fold_left merge_step l acc')
    ∧ ∀ c, Exists (in_range c) (fold_left merge_step l acc') ↔ Exists (in_range c) acc ∨ Exists (in_range c) (r :: l)) as Hgo.
  { intros acc' H1 H2 H3 H4. destruct (IH acc' Hs Hv H1 H2 H3) as (G1 & G2 & G3). split_and!; try done.
    intros c. rewrite G3, H4, Exists_cons. tauto. }
  destruct acc as [|a acc]; simpl.
  { apply Hgo; [by constructor|done|done|]. intros c. rewrite Exists_cons, !Exists_nil. tauto. }
  apply Forall_cons in Ha as [Hva Ha]. apply Forall_cons in Hst as [Hsr Hst].
  unfold valid_range in *. destruct (Z.ltb_spec (rg_end a + 1) (rg_start r)).
  - apply Hgo; [by repeat (constructor; [done|])|done|done|]. intros c. rewrite !Exists_cons. tauto.
  - apply Hgo; simpl.
    + constructor; [simpl; lia|done].
    + destruct acc as [|b acc]; [done|]. done.
    + done.
    + intros c. rewrite !Exists_cons. unfold in_range. simpl. split; [|intuition lia].
      intros [H'|H']; [|tauto]. destruct (decide (c ≤ rg_end a)); [left; left; lia|right; lia].
Qed.

Lemma merge_spec l : Forall valid_range l → canonical (mergeRanges l) ∧ ∀ c, covers (mergeRanges l) c ↔ covers l c.
Proof.
  intros Hv. destruct (sort_ranges_spec l) as [Hp Hs]. unfold mergeRanges.
  destruct (merge_fold (sort_ranges l) [] Hs) as (H1 & H2 & H3); [by rewrite Hp|done|done|done|].
  split; [split|].
  - by apply Forall_rev.
  - by apply apart_rev_spec.
  - intros c. rewrite (covers_perm _ (fold_left merge_step (sort_ranges l) [])) by (symmetry; apply Permutation_rev).
    rewrite H3, (covers_perm (sort_ranges l) l) by done. unfold covers at 1. rewrite Exists_nil. tauto.
Qed.

(** ** Canonical lists *)
Lemma canonical_cons a l : canonical (a :: l) → valid_range a ∧ canonical l.
Proof.
  intros [[Hv Hl]%Forall_cons Ha]. split; [done|]. split; [done|]. destruct l; [done|]. by destruct Ha.
Qed.

Lemma canonical_above a l c : canonical (a :: l) → covers l c → rg_end a + 1 < c.
Proof.
  revert a. induction l as [|b l IH]; intros a Hc H; [by inversion H|].
  destruct (canonical_cons _ _ Hc) as [_ Hb]. destruct Hc as [_ [Hab _]]. destruct (canonical_cons _ _ Hb) as [Hv _].
  unfold valid_range in Hv. apply Exists_cons in H as [H|H].
  - unfold in_range in H. lia.
  - specialize (IH b Hb H). lia.
Qed.

Lemma covers_head a l : valid_range a → covers (a :: l) (rg_start a) ∧ covers (a :: l) (rg_end a).
Proof. unfold valid_range, covers. intros H. split; apply Exists_cons; left; unfold in_range; lia. Qed.

(** A set of codes has one canonical list. *)
Lemma canonical_unique l1 : ∀ l2, canonical l1 → canonical l2 → (∀ c, covers l1 c ↔ covers l2 c) → l1 = l2.
Proof.
  induction l1 as [|a l1 IH]; intros [|b l2] H1 H2 H; [done| | |].
  - destruct (canonical_cons _ _ H2) as [Hv _]. apply covers_head with (l := l2) in Hv as [Hc _]. by apply H, Exists_nil in Hc.
  - destruct (canonical_cons _ _ H1) as [Hv _]. apply covers_head with (l := l1) in Hv as [Hc _]. by apply H, Exists_nil in Hc.
  - destruct (canonical_cons _ _ H1) as [Hva Hl1], (canonical_cons _ _ H2) as [Hvb Hl2].
    assert (∀ a b l1 l2, canonical (a :: l1) → canonical (b :: l2) → valid_range a → valid_range b →
      (∀ c, covers (a :: l1) c → covers (b :: l2) c) → rg_start b ≤ rg_start a) as Hst.
    { clear. intros a b l1 l2 H1 H2 Hva Hvb H. destruct (covers_head a l1 Hva) as [Hc _]. apply H, Exists_cons in Hc as [Hc|Hc].
      - unfold in_range in Hc. lia.
      - apply (canonical_above _ _ _ H2) in Hc. unfold valid_range in Hvb. lia. }
    assert (∀ a b l1 l2, canonical (a :: l1) → canonical (b :: l2) → valid_range a → valid_range b → rg_start a = rg_start b →
      (∀ c, covers (a :: l1) c → covers (b :: l2) c) → rg_end a ≤ rg_end b) as Hen.
    { clear. intros a b l1 l2 H1 H2 Hva Hvb Hs H. destruct (Z.le_gt_cases (rg_end a) (rg_end b)) as [|Hlt]; [done|]. exfalso.
      assert (covers (a :: l1) (rg_end b + 1)) as Hc by (apply Exists_cons; left; unfold in_range, valid_range in *; lia).
      apply H, Exists_cons in Hc as [Hc|Hc]; [unfold in_range in Hc; lia|]. apply (canonical_above _ _ _ H2) in Hc. lia. }
    assert (rg_start a = rg_start b) as Es.
    { apply Z.le_antisymm; [eapply (Hst b a)|eapply (Hst a b)]; eauto; intros c Hc; by apply H. }
    assert (rg_end a = rg_end b) as Ee.
    { apply Z.le_antisymm; [eapply (Hen a b)|eapply (Hen b a)]; eauto; intros c Hc; by apply H. }
    assert (a = b) as <- by (destruct a, b; simpl in *; congruence). f_equal. apply IH; [done|done|].
    intros c. split; intros Hc.
    + pose proof (canonical_above _ _ _ H1 Hc) as Hgt. assert (covers (a :: l1) c) as Hc' by (apply Exists_cons; by right).
      apply H, Exists_cons in Hc' as [Hc'|Hc']; [unfold in_range in Hc'; lia|done].
    + pose proof (canonical_above _ _ _ H2 Hc) as Hgt. assert (covers (a :: l2) c) as Hc' by (apply Exists_cons; by right).
      apply H, Exists_cons in Hc' as [Hc'|Hc']; [unfold in_range in Hc'; lia|done].
Qed.

Lemma merge_canonical l : canonical l → mergeRanges l = l.
Proof.
  intros H. destruct (merge_spec l (proj1 H)) as [Hc Hcov]. by apply canonical_unique.
Qed.

(** ** Tokens *)
Lemma parseToken_valid t r : parseToken t = Some r → valid_range r.
Proof.
  unfold parseToken, isValidCode, valid_range. destruct (remove_spaces (trim t)) as [|x s]; [done|].
  destruct (existsb _ _).
  - destruct (split_char _ _) as [|a [|b ps]]; try done. destruct (_ || _); [done|].
    destruct (_ || _) eqn:E; [done|]. intros [= <-]. simpl. lia.
  - destruct (negb _); [done|]. destruct (negb _) eqn:E; [done|]. intros [= <-]. simpl. lia.
Qed.

Definition token_char (c : jschar) : bool := is_digit c || (c =? ch_dash).

Lemma code_text z : 0 ≤ z → isNumber (string_of_Z z) = true ∧ digits_value (string_of_Z z) = z ∧ string_of_Z z ≠ []
  ∧ forallb is_digit (string_of_Z z) = true.
Proof.
  intros Hz. unfold string_of_Z. destruct (Z.ltb_spec z 0); [lia|].
  destruct (string_of_nonneg_spec z Hz) as (Hv & Hd & Hne). split_and!; try done.
  unfold isNumber. by destruct (string_of_nonneg z).
Qed.

Lemma digits_token s : forallb is_digit s = true → forallb token_char s = true.
Proof. rewrite !forallb_forall. intros H c Hc. unfold token_char. by rewrite (H c Hc). Qed.

Lemma range_token_chars r : valid_range r → forallb token_char (range_token r) = true ∧ range_token r ≠ [].
Proof.
  intros (H1 & H2 & H3). destruct (code_text (rg_start r)) as (_ & _ & Hs & Hds); [lia|].
  destruct (code_text (rg_end r)) as (_ & _ & _ & Hde); [lia|]. unfold range_token. case_match.
  - split; [by apply digits_token|done].
  - rewrite !forallb_app, (digits_token (string_of_Z (rg_start r))), (digits_token (string_of_Z (rg_end r))) by done.
    split; [done|]. by destruct (string_of_Z (rg_start r)).
Qed.

Lemma token_char_plain c : token_char c = true → is_space c = false ∧ (c =? 44) = false ∧ (c =? 65292) = false.
Proof. unfold token_char, is_digit, ch_dash, is_space. intros H. simpl. lia. Qed.

Lemma no_space_trim s : forallb (λ c, negb (is_space c)) s = true → trim s = s.
Proof.
  assert (∀ s, forallb (λ c, negb (is_space c)) s = true → trim_start s = s) as Hts.
  { intros [|c t]; [done|]. simpl. intros [Hc _]%andb_prop. apply negb_true_iff in Hc. by rewrite Hc. }
  intros H. unfold trim, trim_end. rewrite (Hts s) by done. rewrite (Hts (rev s)); [apply rev_involutive|].
  rewrite forallb_forall in *. intros c Hc. apply H. by apply in_rev.
Qed.

Lemma token_no_space s : forallb token_char s = true → forallb (λ c, negb (is_space c)) s = true.
Proof. rewrite !forallb_forall. intros H c Hc. by destruct (token_char_plain c (H c Hc)) as (-> & _). Qed.

Lemma tokens_no_space s : forallb token_char s = true → remove_spaces s = s ∧ trim s = s.
Proof.
  intros H%token_no_space. split; [|by apply no_space_trim].
  unfold remove_spaces. induction s as [|c s IH]; [done|]. simpl in *. apply andb_prop in H as [Hc Hs].
  rewrite Hc. f_equal. by apply IH.
Qed.

Lemma split_none c s : forallb (λ d, negb (d =? c)) s = true → split_char c s = [s].
Proof. induction s as [|d s IH]; simpl; [done|]. intros [Hd Hs]%andb_prop. apply negb_true_iff in Hd. by rewrite Hd, IH. Qed.

Lemma split_at_first c s t : forallb (λ d, negb (d =? c)) s = true → split_char c (s ++ c :: t) = s :: split_char c t.
Proof.
  induction s as [|d s IH]; simpl; [by rewrite Z.eqb_refl|]. intros [Hd Hs]%andb_prop. apply negb_true_iff in Hd.
  by rewrite Hd, IH.
Qed.

Lemma digits_no_dash s : forallb is_digit s = true → forallb (λ d, negb (d =? ch_dash)) s = true ∧ existsb (Z.eqb ch_dash) s = false.
Proof.
  intros H. assert (∀ c, In c s → c ≠ ch_dash) as Hc.
  { rewrite forallb_forall in H. intros c Hc ->. by specialize (H _ Hc). }
  split.
  - apply forallb_forall. intros c Hin. apply negb_true_iff, Z.eqb_neq. by apply Hc.
  - destruct (existsb _ s) eqn:E; [|done]. apply existsb_exists in E as (c & Hin & Hd%Z.eqb_eq). by destruct (Hc c Hin).
Qed.

(** A range is read back from its token. *)
Lemma parse_range_token r : valid_range r → parseToken (range_token r) = Some r.
Proof.
  intros Hv. destruct (range_token_chars r Hv) as [Hc Hne]. destruct (tokens_no_space _ Hc) as [Hr Ht].
  unfold parseToken. rewrite Ht, Hr. destruct (range_token r) as [|x s] eqn:E; [done|]. rewrite <- E. clear Hr Ht Hc Hne.
  destruct Hv as (H1 & H2 & H3). unfold range_token.
  destruct (code_text (rg_start r)) as (Hn & Hval & _ & Hd); [lia|].
  destruct (code_text (rg_end r)) as (Hn' & Hval' & _ & Hd'); [lia|].
  destruct (digits_no_dash _ Hd) as [Hs1 Hs2]. destruct (digits_no_dash _ Hd') as [Hs1' Hs2'].
  assert (isValidCode (rg_start r) = true) as Hb by (unfold isValidCode; lia).
  assert (isValidCode (rg_end r) = true) as Hb' by (unfold isValidCode; lia).
  destruct (Z.eqb_spec (rg_start r) (rg_end r)) as [Ee|Ee].
  - rewrite Hs2, Hn, Hval, Hb. simpl. f_equal. rewrite Ee at 2. by destruct r.
  - assert (existsb (Z.eqb ch_dash) (string_of_Z (rg_start r) ++ js "-" ++ string_of_Z (rg_end r)) = true) as ->
      by (by rewrite existsb_app; simpl; rewrite orb_true_r).
    change (js "-" ++ string_of_Z (rg_end r)) with (ch_dash :: string_of_Z (rg_end r)).
    rewrite split_at_first, (split_none _ (string_of_Z (rg_end r))) by done. rewrite Hn, Hn', Hval, Hval', Hb, Hb'. simpl.
    destruct (Z.ltb_spec (rg_end r) (rg_start r)); [lia|]. by destruct r.
Qed.

(** ** The normal form is read back *)
Lemma segments_of_tokens tokens : Forall (λ t, forallb token_char t = true ∧ t ≠ []) tokens → tokens ≠ [] →
  rule_segments (join (js ",") tokens) = tokens.
Proof.
  intros Ht Hne. unfold rule_segments.
  assert (map (λ c, if c =? 65292 then 44 else c) (join (js ",") tokens) = join (js ",") tokens) as ->.
  { clear Hne. assert (∀ s, forallb token_char s = true → map (λ c, if c =? 65292 then 44 else c) s = s) as Hs.
    { intros s H. induction s as [|c s IH]; [done|]. simpl in *. apply andb_prop in H as [Hc Hs].
      destruct (token_char_plain c Hc) as (_ & _ & ->). by rewrite IH. }
    induction Ht as [|t [|t' ts] [Hc _] Ht IH]; [done|by apply Hs|].
    change (join (js ",") (t :: t' :: ts)) with (t ++ js "," ++ join (js ",") (t' :: ts)).
    by rewrite !map_app, (Hs t Hc), IH. }
  assert (split_char 44 (join (js ",") tokens) = tokens) as ->.
  { assert (∀ s, forallb token_char s = true → forallb (λ d, negb (d =? 44)) s = true) as Hs.
    { intros s. rewrite !forallb_forall. intros H c Hc. by destruct (token_char_plain c (H c Hc)) as (_ & -> & _). }
    induction Ht as [|t [|t' ts] [Hc _] Ht IH]; [done|by apply split_none, Hs|].
    change (join (js ",") (t :: t' :: ts)) with (t ++ 44 :: join (js ",") (t' :: ts)).
    by rewrite split_at_first, IH by auto. }
  clear Hne. induction Ht as [|t ts [Hc Hn] _ IH]; [done|]. simpl.
  destruct (tokens_no_space t Hc) as [_ ->]. apply str_eqb_neq in Hn. rewrite Hn. simpl. by rewrite IH.
Qed.

Lemma parse_tokens l : Forall valid_range l →
  omap parseToken (map range_token l) = l ∧ List.filter (λ s, negb (is_some (parseToken s))) (map range_token l) = [].
Proof.
  induction 1 as [|r l Hr _ [IH1 IH2]]; [done|]. cbn [map List.filter].
  change (omap parseToken (range_token r :: map range_token l))
    with (match parseToken (range_token r) with
          | Some y => y :: omap parseToken (map range_token l) | None => omap parseToken (map range_token l) end).
  by rewrite parse_range_token, IH1, IH2.
Qed.

Lemma joined_tokens_trimmed l : Forall valid_range l → l ≠ [] →
  trim (join (js ",") (map range_token l)) = join (js ",") (map range_token l) ∧ join (js ",") (map range_token l) ≠ [].
Proof.
  intros Hv Hne. cut (forallb (λ c, negb (is_space c)) (join (js ",") (map range_token l)) = true
    ∧ join (js ",") (map range_token l) ≠ []); [intros [Hs Hn]; split; [by apply no_space_trim|done]|].
  induction Hv as [|r [|r' l] Hr Hv IH]; [done| |].
  - destruct (range_token_chars r Hr) as [Hc Hn]. split; [by apply token_no_space|done].
  - destruct IH as [IH1 IH2]; [done|]. destruct (range_token_chars r Hr) as [Hc Hn].
    change (join (js ",") (map range_token (r :: r' :: l)))
      with (range_token r ++ js "," ++ join (js ",") (map range_token (r' :: l))).
    split; [|by destruct (range_token r)]. by rewrite !forallb_app, IH1, token_no_space.
Qed.

(** Parsing the normal form of a canonical list. *)
Lemma parse_normal l : canonical l →
  parseHttpStatusCodeRules (Some (join (js ",") (map range_token l)))
  = mkParsed true l (map range_token l) (join (js ",") (map range_token l)) [].
Proof.
  intros Hc. destruct l as [|r l]; [done|]. pose proof Hc as [Hv _].
  destruct (joined_tokens_trimmed (r :: l) Hv ltac:(done)) as [Ht Hn]. unfold parseHttpStatusCodeRules.
  change (default [] (Some ?x)) with x. rewrite Ht.
  destruct (length _ =? 0)%nat eqn:E; [apply Nat.eqb_eq, nil_length_inv in E; done|]. clear E.
  rewrite segments_of_tokens.
  - destruct (parse_tokens (r :: l) Hv) as [H1 H2]. rewrite H1, H2, merge_canonical; done.
  - apply Forall_map. eapply Forall_impl; [exact Hv|]. apply range_token_chars.
  - done.
Qed.

(** What an accepted text gives. *)
Lemma parse_accepted input : pr_ok (parseHttpStatusCodeRules input) = true →
  ∃ l, canonical l ∧ parseHttpStatusCodeRules input
    = mkParsed true l (map range_token l) (join (js ",") (map range_token l)) []
  ∧ ∀ c, covers l c ↔ ∃ s r, In s (rule_segments (trim (default [] input))) ∧ parseToken s = Some r ∧ in_range c r.
Proof.
  unfold parseHttpStatusCodeRules. set (raw := trim _). destruct (length raw =? 0)%nat eqn:E.
  { intros _. exists []. split; [by split; [constructor|]|]. split; [done|]. intros c. unfold covers. rewrite Exists_nil.
    apply Nat.eqb_eq, nil_length_inv in E. rewrite E. simpl. split; [done|]. by intros (s & r & [] & _). }
  destruct (List.filter _ _) as [|x xs] eqn:Ef; [|done]. intros _.
  assert (Forall valid_range (omap parseToken (rule_segments raw))) as Hv.
  { apply Forall_forall. intros r (s & _ & H)%list_elem_of_omap. by eapply parseToken_valid. }
  destruct (merge_spec _ Hv) as [Hc Hcov]. exists (mergeRanges (omap parseToken (rule_segments raw))).
  split; [done|]. split; [done|]. intros c. rewrite Hcov. unfold covers. rewrite Exists_exists. split.
  - intros (r & (s & Hs & Hp)%list_elem_of_omap & Hr). exists s, r. split; [by apply list_elem_of_In|done].
  - intros (s & r & Hs & Hp & Hr). exists r. split; [|done]. apply list_elem_of_omap. exists s. split; [by apply list_elem_of_In|done].
Qed.

(** ** Properties *)

(** C23: an accepted text gives ranges in order, apart from each other and within
    100 to 599, which hold exactly the codes its tokens name. *)
Theorem status_rules_canonical input : pr_ok (parseHttpStatusCodeRules input) = true →
  canonical (pr_ranges (parseHttpStatusCodeRules input))
  ∧ ∀ code, covers (pr_ranges (parseHttpStatusCodeRules input)) code ↔
      ∃ s r, In s (rule_segments (trim (default [] input))) ∧ parseToken s = Some r ∧ in_range code r.
Proof. intros (l & Hc & -> & Hcov)%parse_accepted. done. Qed.

(** C24: the normal form is one: the normal form of an accepted text is accepted
    and read as the same rules, and two accepted texts have the same normal form
    exactly when they name the same codes. *)
Theorem status_rules_normal_form input1 input2 :
  pr_ok (parseHttpStatusCodeRules input1) = true → pr_ok (parseHttpStatusCodeRules input2) = true →
  parseHttpStatusCodeRules (Some (pr_normalized (parseHttpStatusCodeRules input1))) = parseHttpStatusCodeRules input1
  ∧ (pr_normalized (parseHttpStatusCodeRules input1) = pr_normalized (parseHttpStatusCodeRules input2) ↔
     ∀ code, covers (pr_ranges (parseHttpStatusCodeRules input1)) code ↔
             covers (pr_ranges (parseHttpStatusCodeRules input2)) code).
Proof.
  intros (l1 & Hc1 & -> & _)%parse_accepted (l2 & Hc2 & -> & _)%parse_accepted. simpl.
  split; [by apply parse_normal|]. split.
  - intros H. pose proof (parse_normal l1 Hc1) as E1. pose proof (parse_normal l2 Hc2) as E2. rewrite H, E2 in E1.
    by injection E1 as ->.
  - intros H. by rewrite (canonical_unique l1 l2).
Qed.

Definition sample_rules_text : jsstring := js "500-503, 504,401".

Lemma status_rules_canonical_witness :
  pr_ranges (parseHttpStatusCodeRules (Some sample_rules_text)) = [mkRange 401 401; mkRange 500 504]
  ∧ canonical (pr_ranges (parseHttpStatusCodeRules (Some sample_rules_text))).
Proof.
  split; [vm_compute; reflexivity|]. apply (status_rules_canonical (Some sample_rules_text)). vm_compute. reflexivity.
Defined.

Lemma status_rules_normal_form_witness :
  pr_normalized (parseHttpStatusCodeRules (Some sample_rules_text)) = js "401,500-504"
  ∧ ∀ code, covers (pr_ranges (parseHttpStatusCodeRules (Some sample_rules_text))) code ↔
            covers (pr_ranges (parseHttpStatusCodeRules (Some (js "401, 500,501,502-504")))) code.
Proof.
  split; [vm_compute; reflexivity|].
  apply (status_rules_normal_form (Some sample_rules_text) (Some (js "401, 500,501,502-504"))); vm_compute; reflexivity.
Defined.

(** A third part of a range is ignored: 401-403-500 is accepted and read as
    401-403, where the backend rejects the token. *)
Theorem extra_range_part_ignored :
  parseToken (js "401-403-500") = Some (mkRange 401 403)
  ∧ pr_ok (parseHttpStatusCodeRules (Some (js "401-403-500"))) = true.
Proof. split; vm_compute; reflexivity. Qed.
