(* ===== verification/ModelMapping.v ===== *)
(** * Model mappings of a channel

    Models [web/src/features/channels/lib/model-mapping-validation.ts] (the
    models and the mapping document of a channel form),
    [model-mapping-rules.ts] (naming rules expanded into pairs, and pairs merged
    into the document) and [model-naming-patterns.ts] (rules suggested for the
    names of an upstream).  A mapping document is the text of a JSON object from
    the model a user asks for to the model the upstream is asked for. *)
From S2P Require Import Prelude JsString JsCollections JsNumber JsRegex JsValue JsJson JsonText Host.
Local Open Scope Z_scope.

Definition non_empty (s : jsstring) : bool := negb (str_eqb s []).

(** ** Reading models and mappings *)

(** [text.split(',').map((m) => m.trim()).filter(Boolean)] *)
Definition comma_list (text : jsstring) : list jsstring := List.filter non_empty (map trim (split_char 44 text)).

Definition parseModelsString (modelsStr : jsstring) : list jsstring :=
  if non_empty modelsStr then comma_list modelsStr else [].

Definition formatModelsArray (models : list jsstring) : jsstring := join (js ",") (set_of models).

Definition normalizeModelName (model : jsstring) : jsstring := trim model.

(** [JSON.parse(text)] when it is an object and not an array: its entries. *)
Definition parsed_object (text : jsstring) : option (list (jsstring * jsval)) :=
  match JSON_parse text with Some (JObject es) => Some (own_entries es) | _ => None end.

Definition extractMappingSourceModels (modelMapping : jsstring) : list jsstring :=
  let trimmed := trim modelMapping in
  if negb (non_empty trimmed) then []
  else match parsed_object trimmed with
    | None => []
    | Some entries => set_of (List.filter non_empty (map trim (map fst entries)))
    end.

Definition string_value (v : jsval) : option jsstring := match v with JString s => Some (trim s) | _ => None end.

Definition extractRedirectModels (modelMapping : jsstring) : list jsstring :=
  let trimmed := trim modelMapping in
  if negb (non_empty trimmed) then []
  else match parsed_object trimmed with
    | None => []
    | Some entries => set_of (List.filter non_empty (omap string_value (map snd entries)))
    end.

Fixpoint same_strings (a b : list jsstring) : bool :=
  match a, b with
  | x :: a', y :: b' => str_eqb x y && same_strings a' b'
  | _, _ => true
  end.

Definition hasModelConfigChanged (currentModels : list jsstring) (currentModelMapping : jsstring)
    (initialModels : list jsstring) (initialModelMapping : jsstring) : bool :=
  if (length initialModels =? 0)%nat && negb (non_empty initialModelMapping) then true
  else if negb (length currentModels =? length initialModels)%nat then true
  else if negb (same_strings currentModels initialModels) then true
  else negb (str_eqb (trim currentModelMapping) (trim initialModelMapping)).

Definition findMissingModelsInMapping (modelMapping : jsstring) (currentModels : list jsstring) : list jsstring :=
  if negb (non_empty modelMapping) || negb (non_empty (trim modelMapping)) then []
  else match parsed_object modelMapping with
    | None => []
    | Some entries =>
        let modelSet := set_of (map normalizeModelName currentModels) in
        set_of (List.filter (λ key, non_empty key && negb (has modelSet key))
          (map normalizeModelName (map fst entries)))
    end.

(** [{ valid, error }]; [None] is [{ valid: true }]. *)
Definition validateModelMappingJson (modelMapping : jsstring) : option string :=
  if negb (non_empty modelMapping) || negb (non_empty (trim modelMapping)) then None
  else match JSON_parse modelMapping with
    | None => Some "Model mapping must be valid JSON format"
    | Some (JObject entries) =>
        if existsb (λ '(_, v), match v with JString _ => false | _ => true end) (own_entries entries)
        then Some "Model mapping values must be strings" else None
    | Some _ => Some "Model mapping must be a valid JSON object"
    end%string.

Definition findExposedTargetModels (modelMapping : jsstring) (currentModels : list jsstring) : list jsstring :=
  let redirectModels := extractRedirectModels modelMapping in
  if (length redirectModels =? 0)%nat then []
  else
    let modelSet := set_of (map normalizeModelName currentModels) in
    List.filter (λ model, has modelSet (normalizeModelName model)) redirectModels.

Record ModelCategories := mkCategories {
  normalizedCurrentModels : list jsstring;
  normalizedRedirectModels : list jsstring;
  classificationSet : list jsstring;
  redirectOnlySet : list jsstring;
}.

Definition categorizeModelsWithRedirect (currentModels redirectModels : list jsstring) : ModelCategories :=
  let current := set_of (List.filter non_empty (map normalizeModelName currentModels)) in
  let redirect := set_of (List.filter non_empty (map normalizeModelName redirectModels)) in
  mkCategories current redirect (set_of (current ++ redirect))
    (set_of (List.filter (λ m, negb (has current m)) redirect)).

(** ** Naming rules *)
Record ModelMappingPair := mkPair { from : jsstring; to : jsstring }.

Inductive ModelMappingDirection := dir_upstream | dir_request.

Inductive ModelMappingRule :=
| strip_prefix (values : jsstring)
| strip_suffix (values : jsstring)
| add_prefix (value : jsstring)
| add_suffix (value : jsstring)
| replace (find replaceWith : jsstring).

Record ModelMappingDerivation := mkDerivation {
  pairs : list ModelMappingPair;
  unchanged : list jsstring;
  conflicts : list jsstring;
}.

(** The text a match is replaced with: [$$], [$&], the text before and the text
    after the match; any other dollar stands for itself. *)
Fixpoint substitution (template matched before after : jsstring) : jsstring :=
  match template with
  | [] => []
  | c :: rest =>
      match rest with
      | d :: rest' =>
          if c =? 36 then
            if d =? 36 then 36 :: substitution rest' matched before after
            else if d =? 38 then matched ++ substitution rest' matched before after
            else if d =? 96 then before ++ substitution rest' matched before after
            else if d =? 39 then after ++ substitution rest' matched before after
            else c :: substitution rest matched before after
          else c :: substitution rest matched before after
      | [] => [c]
      end
  end.

(** [s.replaceAll(find, replaceWith)] for a text that is not empty: [done] is
    what was passed, [skip] counts the code units of the last match still to be
    passed. *)
Fixpoint replace_from (find replaceWith done : jsstring) (skip : nat) (s : jsstring) : jsstring :=
  match s with
  | [] => []
  | c :: s' =>
      match skip with
      | S n => replace_from find replaceWith (done ++ [c]) n s'
      | O =>
          if starts_with s find then
            substitution replaceWith find done (drop (length find) s)
            ++ replace_from find replaceWith (done ++ [c]) (length find - 1) s'
          else c :: replace_from find replaceWith (done ++ [c]) 0 s'
      end
  end.
Definition replaceAll (s find replaceWith : jsstring) : jsstring := replace_from find replaceWith [] 0 s.

(** [rule.values.split(',')...] when the rule has [values]. *)
Definition affixes (rule : ModelMappingRule) : list jsstring :=
  match rule with strip_prefix values | strip_suffix values => comma_list values | _ => [] end.

(** The name a rule derives from a model, before it is trimmed. *)
Definition apply_rule (rule : ModelMappingRule) (model : jsstring) : jsstring :=
  match rule with
  | strip_prefix _ =>
      match List.find (λ affix, starts_with model affix) (affixes rule) with
      | Some prefix => if non_empty prefix then drop (length prefix) model else model
      | None => model
      end
  | strip_suffix _ =>
      match List.find (λ affix, ends_with model affix) (affixes rule) with
      | Some suffix => if non_empty suffix then take (length model - length suffix) model else model
      | None => model
      end
  | add_prefix value => value ++ model
  | add_suffix value => model ++ value
  | replace find replaceWith => if non_empty find then replaceAll model find replaceWith else model
  end.

Record derive_state := mkDerive {
  seen : list jsstring;
  requestNames : list jsstring;
  result : ModelMappingDerivation;
}.

Definition direct_pair (direction : ModelMappingDirection) (model derived : jsstring) : ModelMappingPair :=
  match direction with dir_upstream => mkPair derived model | dir_request => mkPair model derived end.

(** One turn of the loop. *)
Definition derive_step (direction : ModelMappingDirection) (rule : ModelMappingRule) (st : derive_state) (raw : jsstring)
    : derive_state :=
  let model := trim raw in
  if negb (non_empty model) || has (seen st) model then st
  else
    let seen' := js_add (seen st) model in
    let r := result st in
    let derived := trim (apply_rule rule model) in
    if negb (non_empty derived) || str_eqb derived model then
      mkDerive seen' (requestNames st) (mkDerivation (pairs r) (unchanged r ++ [model]) (conflicts r))
    else
      let pair := direct_pair direction model derived in
      if has (requestNames st) (from pair) then
        mkDerive seen' (requestNames st) (mkDerivation (pairs r) (unchanged r) (conflicts r ++ [model]))
      else
        mkDerive seen' (js_add (requestNames st) (from pair))
          (mkDerivation (pairs r ++ [pair]) (unchanged r) (conflicts r)).

Definition derive_start : derive_state := mkDerive [] [] (mkDerivation [] [] []).

Definition deriveModelMappingPairs (models : list jsstring) (direction : ModelMappingDirection) (rule : ModelMappingRule)
    : ModelMappingDerivation :=
  result (fold_left (derive_step direction rule) models derive_start).

(** [mapping[key] = value] on an object literal: assigning a string to
    [__proto__] does nothing. *)
Definition assign (key value : jsstring) (mapping : list (jsstring * jsstring)) : list (jsstring * jsstring) :=
  if str_eqb key (js "__proto__") then mapping else map_set key value mapping.

(** [for (const [key, value] of Object.entries(parsed))]; [None] is the early
    return. *)
Fixpoint copy_entries (entries : list (jsstring * jsval)) (mapping : list (jsstring * jsstring))
    : option (list (jsstring * jsstring)) :=
  match entries with
  | [] => Some mapping
  | (key, JString value) :: entries' => copy_entries entries' (assign key value mapping)
  | _ :: _ => None
  end.

Definition mergeModelMappingPairs (current : jsstring) (pairs : list ModelMappingPair) : option jsstring :=
  let trimmed := trim current in
  mapping ← (if non_empty trimmed then entries ← parsed_object trimmed; copy_entries entries [] else Some []);
  let mapping := fold_left (λ m p, assign (from p) (to p) m) pairs mapping in
  if (length mapping =? 0)%nat then Some []
  else Some (JSON_stringify2 (JObject (map (λ '(k, v), (k, JString v)) mapping))).

(** ** Suggested rules *)
Record ModelNamingSuggestion := mkSuggestion { sg_id : jsstring; sg_rule : ModelMappingRule; sg_models : list jsstring }.

Definition MAX_SUGGESTIONS : nat := 3.
Definition RELAY_SUFFIXES : list jsstring := [js "-all"; js "-latest"; js "-ca"].
Definition MIN_PREFIX_MATCHES : nat := 2.

(** [/-\d{4}-\d{2}-\d{2}$/] *)
Definition DATE_SUFFIX : regex :=
  r_seq [r_lit "-"; r_digit; r_digit; r_digit; r_digit; r_lit "-"; r_digit; r_digit; r_lit "-"; r_digit; r_digit].

(** [DATE_SUFFIX.exec(model)?.[0]]: the leftmost match. *)
Fixpoint date_suffix (model : jsstring) : option jsstring :=
  if test_all DATE_SUFFIX model then Some model
  else match model with [] => None | _ :: rest => date_suffix rest end.

(** [model.slice(0, slash + 1)], empty when there is no vendor part. *)
Definition vendor_prefix (model : jsstring) : jsstring :=
  let slash := span_len (λ c, negb (c =? 47)) model in
  if (0 <? slash)%nat && (slash <? length model - 1)%nat then take (slash + 1) model else [].

Section Patterns.
Context {host : Host}.

Definition covers_suffix (suffix model : jsstring) : bool :=
  ends_with model suffix && (length suffix <? length model)%nat.

(** A suggestion with the number of its models whose derived name is known. *)
Definition suffix_suggestion (known candidates : list jsstring) (suffix : jsstring) : ModelNamingSuggestion * nat :=
  let matched := List.filter (covers_suffix suffix) candidates in
  (mkSuggestion (js "strip-suffix:" ++ suffix) (strip_suffix suffix) matched,
   length (List.filter (λ model, has known (take (length model - length suffix) model)) matched)).

Definition prefix_suggestion (known candidates : list jsstring) (prefix : jsstring) : ModelNamingSuggestion * nat :=
  let matched := List.filter (λ model, starts_with model prefix) candidates in
  (mkSuggestion (js "strip-prefix:" ++ prefix) (strip_prefix prefix) matched,
   length (List.filter (λ model, has known (drop (length prefix) model)) matched)).

Definition dotted_suggestion (known candidates : list jsstring) : ModelNamingSuggestion * nat :=
  let dotted := List.filter (λ model, str_includes model (js ".") && has known (replaceAll model (js ".") (js "-"))) candidates in
  (mkSuggestion (js "replace:.:-") (replace (js ".") (js "-")) dotted, length dotted).

Definition some_models (s : ModelNamingSuggestion * nat) : bool := negb (length (sg_models (fst s)) =? 0)%nat.

Definition compare_suggestions (a b : ModelNamingSuggestion * nat) : Z :=
  let models := Z.of_nat (length (sg_models (fst b))) - Z.of_nat (length (sg_models (fst a))) in
  if negb (models =? 0) then models
  else let verified := Z.of_nat (snd b) - Z.of_nat (snd a) in
    if negb (verified =? 0) then verified else localeCompare (sg_id (fst a)) (sg_id (fst b)).

Definition known_names (knownModels : list jsstring) : list jsstring :=
  set_of (List.filter non_empty (map trim knownModels)).
Definition candidate_names (known models : list jsstring) : list jsstring :=
  set_of (List.filter (λ model, non_empty model && negb (has known model)) (map trim models)).

Definition all_suggestions (known candidates : list jsstring) : list (ModelNamingSuggestion * nat) :=
  let relay := List.filter some_models (map (suffix_suggestion known candidates) RELAY_SUFFIXES) in
  let dates := map (suffix_suggestion known candidates) (List.filter non_empty (set_of (omap date_suffix candidates))) in
  let prefixes := List.filter
    (λ s, negb ((snd s =? 0)%nat && (length (sg_models (fst s)) <? MIN_PREFIX_MATCHES)%nat))
    (map (prefix_suggestion known candidates) (set_of (List.filter non_empty (map vendor_prefix candidates)))) in
  let dotted := List.filter some_models [dotted_suggestion known candidates] in
  relay ++ dates ++ prefixes ++ dotted.

Definition detectModelNamingPatterns (models knownModels : list jsstring) : list ModelNamingSuggestion :=
  let known := known_names knownModels in
  let candidates := candidate_names known models in
  map fst (take MAX_SUGGESTIONS (sort_by compare_suggestions (all_suggestions known candidates))).

End Patterns.

Fixpoint findVerifiedAlias (model : jsstring) (suggestions : list ModelNamingSuggestion) (knownModels : list jsstring)
    : option ModelMappingPair :=
  match suggestions with
  | [] => None
  | s :: rest =>
      let next := findVerifiedAlias model rest knownModels in
      if negb (has (sg_models s) model) then next
      else match pairs (deriveModelMappingPairs [model] dir_upstream (sg_rule s)) with
        | p :: _ => if has knownModels (from p) then Some p else next
        | [] => next
        end
  end.

Example derive_sample :
  deriveModelMappingPairs [js "openai/gpt-4o"; js "gpt-4o"; js " openai/o3 "; js "openai/gpt-4o"] dir_upstream
    (strip_prefix (js "x/, openai/")) =
  mkDerivation [mkPair (js "gpt-4o") (js "openai/gpt-4o"); mkPair (js "o3") (js "openai/o3")] [js "gpt-4o"] [].
Proof. reflexivity. Qed.

Example merge_sample :
  mergeModelMappingPairs (jq "{`a`: `b`, `7`: `c`}") [mkPair (js "a") (js "x"); mkPair (js "3") (js "y")] =
  Some (js "{" ++ line 2 ++ jq "`3`: `y`," ++ line 2 ++ jq "`7`: `c`," ++ line 2 ++ jq "`a`: `x`" ++ line 0 ++ js "}").
Proof. vm_compute. reflexivity. Qed.

Example detect_sample :
  map sg_id (detectModelNamingPatterns (host := plain_host)
    [js "gpt-4o-all"; js "gpt-4o-2024-05-13"; js "x/a"; js "x/b"; js "claude-3.5"] [js "gpt-4o"; js "claude-3-5"]) =
  [js "strip-prefix:x/"; js "replace:.:-"; js "strip-suffix:-2024-05-13"].
Proof. vm_compute. reflexivity. Qed.
