(* ===== verification/ModelMappingFacts.v ===== *)
(** * Theorems on model mappings

    Merging pairs into a mapping document is insertion into a finite map;
    deriving pairs partitions the selected models; a suggested rule renames
    every model it covers. *)
From stdpp Require Import gmap sets.
From S2P Require Import Prelude JsString JsCollections JsNumber JsNumberFacts JsRegex JsValue JsJson JsonText Host ModelMapping.
Local Open Scope Z_scope.

(** ** The document as a finite map *)

Definition string_entries (es : list (jsstring * jsval)) : option (list (jsstring * jsstring)) :=
  mapM (λ '(k, v), match v with JString s => Some (k, s) | _ => None end) es.

(** What a mapping document says; [None] when it is not one. *)
Definition mapping_document (text : jsstring) : option (gmap jsstring jsstring) :=
  if non_empty (trim text) then
    match JSON_parse (trim text) with
    | Some (JObject es) => list_to_map <$> string_entries es
    | _ => None
    end
  else Some ∅.

Definition proto : jsstring := js "__proto__".

(** Insert a sequence of associations, the last one winning. *)
Definition insert_all (l : list (jsstring * jsstring)) (m : gmap jsstring jsstring) : gmap jsstring jsstring :=
  foldl (λ m '(k, v), <[k := v]> m) m l.

Definition assign_all (l m : list (jsstring * jsstring)) : list (jsstring * jsstring) :=
  fold_left (λ m '(k, v), assign k v m) l m.

Definition pair_entry (p : ModelMappingPair) : jsstring * jsstring := (from p, to p).

Lemma lookup_list_to_map (m : list (jsstring * jsstring)) k : (list_to_map m : gmap jsstring jsstring) !! k = map_get k m.
Proof.
  induction m as [|[k' v] m IH]; [done|]. cbn [list_to_map foldr map_get uncurry fst snd].
  case_decide; [subst; by rewrite lookup_insert_eq|]. by rewrite lookup_insert_ne.
Qed.

Lemma assign_all_map l m : map_get proto m = None →
  (list_to_map (assign_all l m) : gmap _ _) = delete proto (insert_all l (list_to_map m)).
Proof.
  revert m; induction l as [|[k v] l IH]; intros m Hm.
  - cbn. symmetry. apply delete_id. by rewrite lookup_list_to_map.
  - cbn [assign_all fold_left insert_all foldl]. fold (assign_all l (assign k v m)). unfold assign.
    destruct (str_eqb k (js "__proto__")) eqn:E; str_hyps.
    + subst k. rewrite IH by done. fold proto. clear. generalize (list_to_map (M := gmap jsstring jsstring) m). intros m'.
      fold (insert_all l (<[proto := v]> m')). apply map_eq. intros i.
      destruct (decide (i = proto)) as [->|Hi]; [by rewrite !lookup_delete_eq|]. rewrite !lookup_delete_ne by done.
      assert (∀ a b : gmap jsstring jsstring, a !! i = b !! i → insert_all l a !! i = insert_all l b !! i) as H.
      { unfold insert_all. induction l as [|[k w] l IH]; intros a b Hab; simpl; [done|]. apply IH.
        destruct (decide (k = i)) as [->|]; [by rewrite !lookup_insert_eq|by rewrite !lookup_insert_ne]. }
      apply H. by rewrite lookup_insert_ne.
    + rewrite IH by (rewrite map_get_set_ne; done). f_equal. fold (insert_all l (<[k := v]> (list_to_map m))). f_equal.
      apply map_eq. intros i. rewrite lookup_list_to_map, map_get_set. case_decide; subst.
      * by rewrite lookup_insert_eq.
      * rewrite lookup_insert_ne by done. by rewrite lookup_list_to_map.
Qed.

Lemma insert_all_union l m : NoDup l.*1 → insert_all l m = list_to_map l ∪ m.
Proof.
  revert m; induction l as [|[k v] l IH]; intros m Hn; [simpl; by rewrite (left_id_L ∅ (∪))|].
  apply NoDup_cons in Hn as [Hk Hn]. cbn. fold (insert_all l (<[k := v]> m)). rewrite IH by done.
  rewrite <- insert_union_r by (by apply not_elem_of_list_to_map_1). by rewrite insert_union_l.
Qed.

Lemma string_entries_perm es es' l : es ≡ₚ es' → string_entries es = Some l →
  ∃ l', string_entries es' = Some l' ∧ l ≡ₚ l'.
Proof.
  unfold string_entries. intros Hp H. apply mapM_Some in H.
  assert (∃ l', l ≡ₚ l' ∧ Forall2 (λ x y, match x with (k, v) => match v with JString s => Some (k, s) | _ => None end end = Some y) es' l')
    as (l' & Hl & H').
  { clear -Hp H. revert l H. induction Hp as [|x es es' Hp IH|x y es|a b c H1 IH1 H2 IH2]; intros l H.
    - inversion H; subst. by exists [].
    - inversion H as [|? z ? l0 Hx Hr]; subst. destruct (IH _ Hr) as (l' & Hl & H'). exists (z :: l'). by split; [f_equiv|constructor].
    - inversion H as [|? z ? l0 Hx Hr]; subst. inversion Hr as [|? w ? l1 Hy Hr']; subst.
      exists (w :: z :: l1). split; [apply Permutation_swap|by repeat constructor].
    - destruct (IH1 _ H) as (l1 & Hl1 & H1'). destruct (IH2 _ H1') as (l2 & Hl2 & H2'). exists l2. split; [by etrans|done]. }
  exists l'. split; [by apply mapM_Some|done].
Qed.

Lemma string_entries_keys es l : string_entries es = Some l → l.*1 = es.*1.
Proof.
  unfold string_entries. intros H%mapM_Some. induction H as [|[k v] y es l Hy Hr IH]; [done|].
  destruct v; try done. injection Hy as <-. rewrite !fmap_cons. by f_equal.
Qed.

Lemma copy_entries_spec es acc : copy_entries es acc = (l ← string_entries es; Some (assign_all l acc)).
Proof.
  revert acc; induction es as [|[k v] es IH]; intros acc; [done|]. cbn [copy_entries].
  unfold string_entries in *. cbn [mapM]. destruct v; try done. rewrite IH. cbn [mbind option_bind].
  by destruct (mapM _ es).
Qed.

(** The mapping the code builds, against the document's map. *)
Lemma merge_source current : units current →
  match mapping_document current with
  | None => (if non_empty (trim current) then entries ← parsed_object (trim current); copy_entries entries [] else Some []) = None
  | Some old => ∃ l, (if non_empty (trim current) then entries ← parsed_object (trim current); copy_entries entries [] else Some [])
      = Some (assign_all l []) ∧ insert_all l ∅ = old ∧ Forall (λ e, units e.1 ∧ units e.2) l
  end.
Proof.
  intros Hu. unfold mapping_document. destruct (non_empty (trim current)); [|by exists []].
  unfold parsed_object. destruct (JSON_parse (trim current)) as [[| | | | | |es]|] eqn:E; try done.
  apply JSON_parse_clean in E; [|by apply units_trim]. inversion E as [| | | | |es' Hn Hes]; subst. cbn [mbind option_bind].
  rewrite copy_entries_spec. destruct (string_entries es) as [l|] eqn:El; cbn [fmap option_fmap option_map].
  - destruct (string_entries_perm es (own_entries es) l) as (l' & El' & Hl); [by rewrite own_entries_perm|done|].
    exists l'. rewrite El'. split; [done|]. apply string_entries_keys in El as Hk.
    assert (NoDup l'.*1) as Hn' by (rewrite <- Hl, Hk; done). split.
    + rewrite insert_all_union by done. rewrite map_union_empty. apply list_to_map_proper; [done|by symmetry].
    + rewrite <- Hl. unfold string_entries in El. apply mapM_Some in El. clear -El Hes.
      induction El as [|[k v] y es l Hy Hr IH]; [constructor|]. apply Forall_cons in Hes as [[Hk Hv] Hes].
      destruct v; try done. injection Hy as <-. inversion Hv; subst. constructor; auto.
  - destruct (string_entries (own_entries es)) as [l|] eqn:El'; [|done].
    destruct (string_entries_perm _ es l (own_entries_perm es) El') as (l' & El2 & _). congruence.
Qed.

Lemma assign_all_app l l' m : assign_all (l ++ l') m = assign_all l' (assign_all l m).
Proof. apply fold_left_app. Qed.

Lemma assign_all_ok l m : NoDup m.*1 → Forall (λ e, units e.1 ∧ units e.2) m → Forall (λ e, units e.1 ∧ units e.2) l →
  NoDup (assign_all l m).*1 ∧ Forall (λ e, units e.1 ∧ units e.2) (assign_all l m).
Proof.
  revert m; induction l as [|[k v] l IH]; intros m Hn Hm Hl; [done|]. apply Forall_cons in Hl as [Hk Hl].
  cbn [assign_all fold_left]. apply IH; [| |done]; unfold assign; destruct (str_eqb _ _); try done.
  - by apply map_set_NoDup.
  - clear -Hm Hk. induction Hm as [|[k' v'] m Hm' Hm IH]; cbn [map_set]; [by constructor|].
    case_decide; subst; constructor; done.
Qed.

Lemma mapping_document_written m : NoDup m.*1 → Forall (λ e, units e.1 ∧ units e.2) m →
  mapping_document (JSON_stringify2 (JObject (map (λ '(k, v), (k, JString v)) m))) = Some (list_to_map m).
Proof.
  intros Hn Hm. unfold mapping_document. rewrite stringify2_object_trim, json_object_roundtrip.
  - destruct (stringify2_object (map (λ '(k, v), (k, JString v)) m)) as [x ->]. cbn [non_empty str_eqb negb].
    rewrite (own_entries_map (λ _ v, JString v)).
    assert (string_entries (map (λ '(k, v), (k, JString v)) (own_entries m)) = Some (own_entries m)) as ->.
    { unfold string_entries. apply mapM_Some. induction (own_entries m) as [|[k v] l IH]; by constructor. }
    cbn. f_equal. apply list_to_map_proper; [by apply own_entries_NoDup|apply own_entries_perm].
  - replace ((map (λ '(k, v), (k, JString v)) m).*1) with m.*1; [done|].
    clear. induction m as [|[k v] m IH]; [done|]. cbn. by f_equal.
  - clear Hn. induction Hm as [|[k v] m [Hk Hv] Hm IH]; cbn; constructor; [|done]. split; [done|by constructor].
Qed.

(** C33: Merging pairs into a mapping document refines insertion into a finite
    map: a text that is not a mapping document is refused, and for one that is
    the answer is a document that says what the old one said with the pairs
    inserted in order, except that the name [__proto__] is lost. *)
Theorem merge_pairs_refines_insert current ps :
  units current → Forall (λ p, units (from p) ∧ units (to p)) ps →
  match mapping_document current with
  | None => mergeModelMappingPairs current ps = None
  | Some old => ∃ text, mergeModelMappingPairs current ps = Some text
      ∧ mapping_document text = Some (delete proto (insert_all (map pair_entry ps) old))
  end.
Proof.
  intros Hu Hps. pose proof (merge_source current Hu) as H. unfold mergeModelMappingPairs.
  destruct (mapping_document current) as [old|]; [|by rewrite H]. destruct H as (l & -> & <- & Hl). cbn [mbind option_bind].
  assert (fold_left (λ m p, assign (from p) (to p) m) ps (assign_all l []) = assign_all (l ++ map pair_entry ps) []) as ->.
  { rewrite assign_all_app. generalize (assign_all l []). clear. induction ps as [|p ps IH]; intros m; [done|]. apply IH. }
  assert (Forall (λ e, units e.1 ∧ units e.2) (l ++ map pair_entry ps)) as Hall.
  { apply Forall_app. split; [done|]. by apply Forall_map. }
  destruct (assign_all_ok (l ++ map pair_entry ps) []) as [Hn Hm]; [constructor|constructor|done|].
  pose proof (assign_all_map (l ++ map pair_entry ps) [] eq_refl) as Hmap.
  assert (insert_all (l ++ map pair_entry ps) ∅ = insert_all (map pair_entry ps) (insert_all l ∅)) as Happ by apply foldl_app.
  rewrite <- Happ. change (list_to_map [] : gmap jsstring jsstring) with (∅ : gmap jsstring jsstring) in Hmap.
  rewrite <- Hmap. destruct (assign_all _ _) as [|e m] eqn:E; cbn [length Nat.eqb].
  - by exists [].
  - eexists. split; [done|]. by apply mapping_document_written.
Qed.

(** ** Deriving pairs *)

(** The side of a pair that was selected, and the side the rule derived. *)
Definition selected_name (d : ModelMappingDirection) (p : ModelMappingPair) : jsstring :=
  match d with dir_upstream => to p | dir_request => from p end.
Definition derived_name (d : ModelMappingDirection) (p : ModelMappingPair) : jsstring :=
  match d with dir_upstream => from p | dir_request => to p end.

(** The distinct names among the selected ones. *)
Definition selected_models (models : list jsstring) : list jsstring :=
  set_of (List.filter non_empty (map trim models)).

(** What a rule makes of a name. *)
Definition renamed (rule : ModelMappingRule) (model : jsstring) : jsstring := trim (apply_rule rule model).

Lemma non_empty_true s : non_empty s = true ↔ s ≠ [].
Proof. unfold non_empty. rewrite negb_true_iff. apply str_eqb_neq. Qed.
Lemma non_empty_false s : non_empty s = false ↔ s = [].
Proof. unfold non_empty. rewrite negb_false_iff. apply str_eqb_eq. Qed.

Section Derive.
Context (d : ModelMappingDirection) (rule : ModelMappingRule).

Record derived_ok (st : derive_state) : Prop := {
  dv_partition : map (selected_name d) (pairs (result st)) ++ unchanged (result st) ++ conflicts (result st) ≡ₚ seen st;
  dv_requests : requestNames st = map from (pairs (result st));
  dv_distinct : NoDup (map from (pairs (result st)));
  dv_pairs : Forall (λ p, derived_name d p = renamed rule (selected_name d p) ∧ derived_name d p ≠ []
    ∧ derived_name d p ≠ selected_name d p) (pairs (result st));
  dv_unchanged : Forall (λ m, renamed rule m = [] ∨ renamed rule m = m) (unchanged (result st));
  dv_conflicts : Forall (λ m, d = dir_upstream
    ∧ ∃ p, p ∈ pairs (result st) ∧ from p = renamed rule m) (conflicts (result st));
}.

Lemma selected_direct m x : selected_name d (direct_pair d m x) = m.
Proof. by destruct d. Qed.
Lemma derived_direct m x : derived_name d (direct_pair d m x) = x.
Proof. by destruct d. Qed.

Lemma derive_step_ok st raw : derived_ok st → derived_ok (derive_step d rule st raw).
Proof.
  intros [Hp Hr Hd Hps Hu Hc]. unfold derive_step. set (model := trim raw).
  destruct (negb (non_empty model) || has (seen st) model) eqn:E; [by constructor|]. bool_hyps.
  fold (renamed rule model). rewrite js_add_fresh by done.
  destruct (negb (non_empty (renamed rule model)) || str_eqb (renamed rule model) model) eqn:E1;
    [|destruct (has (requestNames st) _) eqn:E2]; constructor; cbn [seen requestNames result pairs unchanged conflicts]; try done.
  - rewrite <- Hp. rewrite <- !app_assoc. do 2 f_equiv. by rewrite Permutation_app_comm.
  - apply Forall_app. split; [done|]. apply Forall_singleton.
    apply orb_true_iff in E1 as [E1%negb_true_iff%non_empty_false|E1]; str_hyps; auto.
  - by rewrite <- Hp, <- !app_assoc.
  - apply Forall_app. split; [done|]. apply Forall_singleton. apply has_true in E2. rewrite Hr in E2.
    apply list_elem_of_fmap in E2 as (p & Ep & Hin). destruct d; cbn [direct_pair from] in Ep; [by eauto|].
    exfalso. apply has_false in H0. apply H0. rewrite <- Hp, !elem_of_app. left. apply list_elem_of_fmap. by exists p.
  - rewrite map_app. cbn [map]. rewrite selected_direct, <- Hp, <- !app_assoc.
    f_equiv. rewrite (app_assoc _ _ [model]). by rewrite (Permutation_app_comm _ [model]).
  - rewrite js_add_fresh by done. rewrite map_app. by rewrite Hr.
  - rewrite map_app. apply NoDup_app. apply has_false in E2. rewrite Hr in E2. split; [done|]. split; [|apply NoDup_singleton].
    intros x Hx Hx'. apply list_elem_of_singleton in Hx'. subst. done.
  - apply Forall_app. split; [done|]. apply Forall_singleton. rewrite selected_direct, derived_direct. bool_hyps.
    str_hyps. by rewrite <- non_empty_true.
  - eapply Forall_impl; [exact Hc|]. intros m [-> (p & Hin & Ep)]. split; [done|]. exists p. split; [set_solver|done].
Qed.

Lemma derive_seen models : seen (fold_left (derive_step d rule) models derive_start) = selected_models models.
Proof.
  unfold selected_models. induction models as [|raw models IH] using rev_ind; [done|].
  rewrite fold_left_app, map_app, List.filter_app. cbn [fold_left map List.filter].
  set (st := fold_left _ models derive_start) in *. unfold derive_step at 1.
  destruct (non_empty (trim raw)); cbn [negb orb]; [|by rewrite app_nil_r].
  rewrite set_of_snoc, <- IH. destruct (has (seen st) (trim raw)) eqn:E; [by rewrite js_add_present|].
  cbn zeta. destruct (_ || str_eqb _ _); [done|]. by destruct (has (requestNames st) _).
Qed.

Lemma derive_ok models : derived_ok (fold_left (derive_step d rule) models derive_start).
Proof.
  induction models as [|raw models IH] using rev_ind; [by repeat constructor|].
  rewrite fold_left_app. by apply derive_step_ok.
Qed.
End Derive.

(** Deriving pairs from the selected models takes each distinct name once,
    as a pair, as unchanged or as a conflict; the pairs have distinct request
    names and rename as the rule says; an unchanged name is one the rule leaves
    or empties; a conflict arises only when upstream names were selected, and
    its request name belongs to a pair. *)
Theorem derivation_partitions_models models d rule :
  let r := deriveModelMappingPairs models d rule in
  map (selected_name d) (pairs r) ++ unchanged r ++ conflicts r ≡ₚ selected_models models
  ∧ NoDup (map from (pairs r))
  ∧ Forall (λ p, derived_name d p = renamed rule (selected_name d p) ∧ derived_name d p ≠ []
      ∧ derived_name d p ≠ selected_name d p) (pairs r)
  ∧ Forall (λ m, renamed rule m = [] ∨ renamed rule m = m) (unchanged r)
  ∧ Forall (λ m, d = dir_upstream ∧ ∃ p, p ∈ pairs r ∧ from p = renamed rule m) (conflicts r).
Proof.
  unfold deriveModelMappingPairs. destruct (derive_ok d rule models) as [Hp _ Hd Hps Hu Hc].
  rewrite derive_seen in Hp. done.
Qed.

(** ** Suggested rules *)

(** A text without blanks at its ends. *)
Definition trimmed (s : jsstring) : Prop := trim s = s.

Lemma trim_keeps s c : c ∈ s → is_space c = false → trim s ≠ [].
Proof.
  intros Hin Hc E. destruct (trim_split s) as (a & b & Hs & Ha & Hb). rewrite E in Hs. subst s. cbn [app] in Hin.
  unfold all_space in *. rewrite forallb_forall in Ha, Hb. apply elem_of_app in Hin as [Hin|Hin]; apply list_elem_of_In in Hin.
  - by rewrite (Ha c Hin) in Hc.
  - by rewrite (Hb c Hin) in Hc.
Qed.

Lemma trimmed_head c s : trimmed (c :: s) → is_space c = false.
Proof.
  unfold trimmed. intros H. apply (trim_start_head (c :: s) c s). rewrite <- H at 1. rewrite trim_start_trim. done.
Qed.

Lemma trimmed_last c s : trimmed (s ++ [c]) → is_space c = false.
Proof.
  unfold trimmed. intros H. assert (trim_start (s ++ [c]) = s ++ [c]) as Hs.
  { rewrite <- H at 1. by rewrite trim_start_trim. }
  unfold trim in H. rewrite Hs in H. unfold trim_end in H. apply (f_equal (@rev Z)) in H.
  rewrite rev_involutive, rev_app_distr in H. cbn [rev app] in H. by apply trim_start_head in H.
Qed.

Lemma split_char_none c s : c ∉ s → split_char c s = [s].
Proof.
  induction s as [|x s IH]; [done|]. intros H. cbn [split_char]. destruct (Z.eqb_spec x c) as [->|]; [set_solver|].
  rewrite IH; set_solver.
Qed.

Lemma comma_list_one s : 44 ∉ s → trimmed s → s ≠ [] → comma_list s = [s].
Proof.
  intros Hc Ht Hne. unfold comma_list. rewrite split_char_none by done. cbn [map List.filter].
  rewrite Ht. apply non_empty_true in Hne. by rewrite Hne.
Qed.

Lemma trim_shorter s m : (length s < length m)%nat → trim s ≠ m.
Proof. intros H <-. pose proof (trim_length s). lia. Qed.

Lemma strip_suffix_renames suffix m : 44 ∉ suffix → trimmed suffix → suffix ≠ [] → trimmed m →
  covers_suffix suffix m = true → renamed (strip_suffix suffix) m ≠ [] ∧ renamed (strip_suffix suffix) m ≠ m.
Proof.
  intros Hc Ht Hne Hm Hcov. unfold covers_suffix in Hcov. bool_hyps. unfold renamed, apply_rule. cbn [affixes].
  rewrite comma_list_one by done. cbn [List.find]. rewrite H. pose proof Hne as Hne'. apply non_empty_true in Hne as ->.
  assert (0 < length suffix)%nat by (destruct suffix; [done|simpl; lia]).
  split; [|apply trim_shorter; rewrite length_take; lia].
  destruct m as [|c m]; [simpl in *; lia|]. apply (trim_keeps _ c); [|by apply trimmed_head in Hm].
  replace (length (c :: m) - length suffix)%nat with (S (length m - length suffix)) by (simpl in *; lia). cbn [take]. left.
Qed.

Lemma strip_prefix_renames prefix m : 44 ∉ prefix → trimmed prefix → prefix ≠ [] → trimmed m →
  starts_with m prefix = true → m ≠ prefix → renamed (strip_prefix prefix) m ≠ [] ∧ renamed (strip_prefix prefix) m ≠ m.
Proof.
  intros Hc Ht Hne Hm Hs Hmp. unfold renamed, apply_rule. cbn [affixes]. rewrite comma_list_one by done. cbn [List.find].
  rewrite Hs. pose proof Hne as Hne'. apply non_empty_true in Hne as ->. apply starts_with_inv in Hs.
  assert (0 < length prefix)%nat by (destruct prefix; [done|simpl; lia]).
  destruct (exists_last (l := drop (length prefix) m)) as (t & x & E); [intros E; by rewrite E, app_nil_r in Hs|].
  rewrite E in *.
  assert (length m = length prefix + length (t ++ [x]))%nat as Hlen by (rewrite Hs; apply length_app).
  split; [|apply trim_shorter; lia].
  apply (trim_keeps _ x); [set_solver|]. rewrite Hs, app_assoc in Hm. by apply trimmed_last in Hm.
Qed.

Lemma date_suffix_chars s : test_all DATE_SUFFIX s = true → s ≠ [] ∧ forallb (λ c, (c =? 45) || is_digit c) s = true.
Proof.
  unfold test_all, match_all. destruct (match_at _ s) as [x|] eqn:H; [intros _|done]. revert H.
  unfold match_at, DATE_SUFFIX, r_lit, r_chars, r_seq, r_digit.
  cbn [rmatch js map String.list_ascii_of_string foldr m_rest m_caps]. intros H.
  repeat lazymatch type of H with
  | match ?s with [] => _ | _ :: _ => _ end = _ => destruct s as [|? ?]; try done; cbn [m_rest m_caps] in H
  | (if ?b then _ else _) = _ => let E := fresh "E" in destruct b eqn:E; [|done]; cbn [m_rest m_caps] in H
  end.
  split; [done|]. cbn [forallb]. repeat (apply andb_true_iff; split); try done; apply orb_true_iff; by auto.
Qed.

Lemma date_suffix_spec m s : date_suffix m = Some s → ∃ a, m = a ++ s ∧ s ≠ [] ∧ 44 ∉ s ∧ trimmed s.
Proof.
  induction m as [|c m IH]; cbn [date_suffix]; intros H; (destruct (test_all DATE_SUFFIX _) eqn:E; [|try done]).
  - done.
  - injection H as <-. destruct (date_suffix_chars _ E) as [Hne Hch]. exists []. rewrite forallb_forall in Hch.
    repeat split; [done| |].
    + intros Hin%list_elem_of_In. by apply Hch in Hin.
    + apply trim_no_space. apply forallb_forall. intros x Hx%Hch. unfold is_digit, is_space in *. lia.
  - destruct (IH H) as (a & -> & ?). by exists (c :: a).
Qed.

Lemma vendor_prefix_spec m p : vendor_prefix m = p → p ≠ [] → trimmed m →
  ∃ t, m = p ++ t ∧ trimmed p ∧ ends_with p (js "/") = true.
Proof.
  unfold vendor_prefix. set (n := span_len _ m). intros H Hne Hm. destruct (_ && _) eqn:E in H; [|congruence]. bool_hyps.
  assert (∃ t, drop n m = 47 :: t) as [t Ht].
  { destruct (drop n m) as [|c t] eqn:Ed; [apply (f_equal length) in Ed; rewrite length_drop in Ed; simpl in Ed; lia|].
    pose proof (span_len_stop _ _ _ _ Ed) as Hc. apply negb_false_iff, Z.eqb_eq in Hc. subst. by exists t. }
  assert (p = take n m ++ [47]) as Hp.
  { rewrite <- H, <- (take_drop n m), Ht at 1. rewrite take_app_add' by (rewrite length_take; lia). done. }
  exists t. assert (m = p ++ t) as Hmp by (rewrite Hp, <- app_assoc; cbn [app]; by rewrite <- Ht, take_drop).
  split; [done|]. split; [|by rewrite Hp; unfold ends_with; rewrite rev_app_distr; simpl; destruct (rev _)].
  unfold trimmed. rewrite Hp. destruct (take n m) as [|c q] eqn:Eq; [done|].
  unfold trim. rewrite (trim_start_id _ c (q ++ [47])) by (done || (rewrite Hmp, Hp in Hm; by apply trimmed_head in Hm)).
  by apply trim_end_snoc.
Qed.

Lemma elem_of_trim c s : c ∈ trim s → c ∈ s.
Proof. intros H. destruct (trim_split s) as (a & b & E & _). rewrite E. set_solver. Qed.

(** Names that are not lists of names, and not a bare vendor. *)
Definition plain_names (models : list jsstring) : Prop :=
  Forall (λ m, 44 ∉ m ∧ ends_with (trim m) (js "/") = false) models.

Lemma candidates_spec known models m : m ∈ candidate_names known models ↔ m ∈ selected_models models ∧ m ∉ known.
Proof.
  unfold candidate_names, selected_models. rewrite !elem_of_set_of, !elem_of_filter_b, andb_true_iff, negb_true_iff, has_false.
  tauto.
Qed.

Lemma candidate_facts known models m : plain_names models → m ∈ candidate_names known models →
  trimmed m ∧ m ≠ [] ∧ 44 ∉ m ∧ ends_with m (js "/") = false ∧ m ∉ known.
Proof.
  rewrite candidates_spec. unfold selected_models. rewrite elem_of_set_of, elem_of_filter_b, non_empty_true.
  intros Hp [[Hin Hne] Hk]. apply list_elem_of_fmap in Hin as (raw & -> & Hin).
  unfold plain_names in Hp. rewrite Forall_forall in Hp. destruct (Hp raw Hin) as [Hc Hs].
  repeat split; try done; [apply trim_idemp|]. intros H%elem_of_trim. done.
Qed.

Lemma known_trimmed knownModels k : k ∈ known_names knownModels → trimmed k ∧ k ≠ [].
Proof.
  unfold known_names. rewrite elem_of_set_of, elem_of_filter_b, non_empty_true.
  intros [(raw & -> & _)%list_elem_of_fmap Hne]. split; [apply trim_idemp|done].
Qed.

Definition renames (rule : ModelMappingRule) (m : jsstring) : Prop := renamed rule m ≠ [] ∧ renamed rule m ≠ m.

Lemma suffix_suggestion_ok known models suffix m : plain_names models → 44 ∉ suffix → trimmed suffix → suffix ≠ [] →
  m ∈ sg_models (suffix_suggestion known (candidate_names known models) suffix).1 →
  m ∈ candidate_names known models ∧ renames (strip_suffix suffix) m.
Proof.
  intros Hp Hc Ht Hne Hin. cbn in Hin. apply elem_of_filter_b in Hin as [Hin Hcov]. split; [done|].
  apply (candidate_facts _ _ _ Hp) in Hin as (Hm & _). by apply strip_suffix_renames.
Qed.

Lemma ends_with_prefix_eq p t : ends_with p (js "/") = true → p ++ t = p → ends_with (p ++ t) (js "/") = true.
Proof. by intros H ->. Qed.

Lemma suggestion_ok knownModels models s : plain_names models →
  s ∈ all_suggestions (known_names knownModels) (candidate_names (known_names knownModels) models) →
  ∀ m, m ∈ sg_models s.1 → m ∈ candidate_names (known_names knownModels) models ∧ renames (sg_rule s.1) m.
Proof.
  intros Hp. set (known := known_names knownModels). set (cands := candidate_names known models).
  unfold all_suggestions. rewrite !elem_of_app, !elem_of_filter_b. intros [[H _]|[H|[[H _]|[H _]]]] m Hm.
  - apply list_elem_of_fmap in H as (suffix & -> & Hs).
    assert (44 ∉ suffix ∧ trimmed suffix ∧ suffix ≠ []) as (? & ? & ?).
    { unfold RELAY_SUFFIXES in Hs. rewrite !elem_of_cons in Hs.
      destruct Hs as [->|[->|[->|Hs]]]; [..|set_solver]; (split; [apply has_false; by vm_compute|done]). }
    by apply suffix_suggestion_ok.
  - apply list_elem_of_fmap in H as (suffix & -> & Hs). apply elem_of_filter_b in Hs as [Hs _].
    rewrite elem_of_set_of in Hs. apply list_elem_of_omap in Hs as (m0 & _ & Hd).
    destruct (date_suffix_spec _ _ Hd) as (a & _ & ? & ? & ?). by apply suffix_suggestion_ok.
  - apply list_elem_of_fmap in H as (prefix & -> & Hs). rewrite elem_of_set_of in Hs.
    apply elem_of_filter_b in Hs as [(m0 & Hv & H0)%list_elem_of_fmap Hne%non_empty_true].
    apply (candidate_facts _ _ _ Hp) in H0 as (Hm0 & _ & Hc0 & _).
    destruct (vendor_prefix_spec m0 prefix) as (t & -> & Ht & He); [done|done|done|].
    cbn in Hm. apply elem_of_filter_b in Hm as [Hin Hs]. split; [done|].
    apply (candidate_facts _ _ _ Hp) in Hin as (Htm & _ & _ & Hem & _).
    apply strip_prefix_renames; try done; [set_solver|]. intros ->. congruence.
  - apply list_elem_of_singleton in H as ->. unfold dotted_suggestion in Hm. cbn [fst sg_models] in Hm. apply elem_of_filter_b in Hm as [Hin Hk]. bool_hyps.
    split; [done|]. apply (candidate_facts _ _ _ Hp) in Hin as (_ & _ & _ & _ & Hnk). apply has_true in H0 as Hk.
    destruct (known_trimmed _ _ Hk) as [Hkt Hkne]. unfold renames, renamed. cbn [sg_rule dotted_suggestion fst apply_rule].
    change (non_empty (js ".")) with true. cbn iota. rewrite Hkt. split; [done|]. intros E. by rewrite E in Hk.
Qed.

Lemma verified_alias_spec model ss knownModels p : findVerifiedAlias model ss knownModels = Some p →
  ∃ s, s ∈ ss ∧ model ∈ sg_models s ∧ from p ∈ knownModels ∧ p ∈ pairs (deriveModelMappingPairs [model] dir_upstream (sg_rule s)).
Proof.
  induction ss as [|s ss IH]; cbn [findVerifiedAlias]; [done|].
  destruct (has (sg_models s) model) eqn:E1; cbn [negb]; [|naive_solver set_solver].
  destruct (pairs _) as [|q l] eqn:E2; [naive_solver set_solver|].
  destruct (has knownModels (from q)) eqn:E3; [|naive_solver set_solver].
  intros [= ->]. exists s. rewrite has_true in *. rewrite E2. set_solver.
Qed.

(** Of names without commas and bare vendors at most three rules are
    suggested; each covers only names that are not known, applying it renames
    every name it covers, and an alias found with them gives a known name to
    the very model asked for. *)
Theorem suggestions_rename_what_they_cover (host : Host) models knownModels : plain_names models →
  let ss := detectModelNamingPatterns models knownModels in
  (length ss ≤ MAX_SUGGESTIONS)%nat
  ∧ Forall (λ s, Forall (λ m, m ∈ selected_models models ∧ m ∉ known_names knownModels) (sg_models s)
      ∧ unchanged (deriveModelMappingPairs (sg_models s) dir_upstream (sg_rule s)) = []) ss
  ∧ ∀ model p, findVerifiedAlias model ss knownModels = Some p →
      to p = model ∧ from p ∈ knownModels ∧ from p ≠ model.
Proof.
  intros Hp ss. assert (∀ s, s ∈ ss → ∀ m, m ∈ sg_models s →
    m ∈ candidate_names (known_names knownModels) models ∧ renames (sg_rule s) m) as Hall.
  { intros s Hs. unfold ss, detectModelNamingPatterns in Hs. apply list_elem_of_fmap in Hs as (s' & -> & Hs).
    apply (subseteq_take MAX_SUGGESTIONS) in Hs. rewrite sort_by_perm in Hs. by apply suggestion_ok. }
  split; [unfold ss, detectModelNamingPatterns; rewrite length_map, length_take; lia|]. split.
  - apply Forall_forall. intros s Hs. split.
    + apply Forall_forall. intros m Hm. by apply candidates_spec, (Hall s).
    + unfold deriveModelMappingPairs. destruct (derive_ok dir_upstream (sg_rule s) (sg_models s)) as [Hperm _ _ _ Hu _].
      rewrite derive_seen in Hperm. destruct (unchanged _) as [|m l]; [done|]. exfalso. apply Forall_cons in Hu as [Hu _].
      assert (m ∈ selected_models (sg_models s)) as Hin by (rewrite <- Hperm; set_solver).
      unfold selected_models in Hin. rewrite elem_of_set_of, elem_of_filter_b in Hin.
      destruct Hin as [(raw & -> & Hraw)%list_elem_of_fmap _]. destruct (Hall s Hs raw Hraw) as [Hc [Hr1 Hr2]].
      apply (candidate_facts _ _ _ Hp) in Hc as (Ht & _). rewrite Ht in Hu. naive_solver.
  - intros model p (s & Hs & Hm & Hk & Hpair)%verified_alias_spec.
    unfold deriveModelMappingPairs in Hpair.
    destruct (derive_ok dir_upstream (sg_rule s) [model]) as [Hperm _ _ Hps _ _]. rewrite derive_seen in Hperm.
    destruct (Hall s Hs model Hm) as [Hc Hr]. apply (candidate_facts _ _ _ Hp) in Hc as (Ht & _).
    rewrite Forall_forall in Hps. destruct (Hps p Hpair) as (Hd & _ & Hne). cbn [derived_name selected_name] in *.
    assert (to p = model) as <-; [|done].
    assert (to p ∈ selected_models [model]) as Hin.
    { rewrite <- Hperm. apply elem_of_app. left. apply list_elem_of_fmap. by exists p. }
    unfold selected_models in Hin. rewrite elem_of_set_of, elem_of_filter_b in Hin. cbn in Hin. rewrite Ht in Hin. set_solver.
Qed.

Lemma merge_pairs_refines_insert_witness : ∃ text,
  mergeModelMappingPairs (jq "{`a`: `b`}") [mkPair (js "c") (js "d")] = Some text
  ∧ mapping_document text = Some (delete proto (insert_all [(js "c", js "d")] (list_to_map [(js "a", js "b")]))).
Proof.
  assert (units (jq "{`a`: `b`}") ∧ Forall (λ p, units (from p) ∧ units (to p)) [mkPair (js "c") (js "d")]) as [H1 H2]
    by (split; [reflexivity|constructor; [split; reflexivity|constructor]]).
  exact (merge_pairs_refines_insert (jq "{`a`: `b`}") [mkPair (js "c") (js "d")] H1 H2).
Defined.

Lemma suggestions_rename_what_they_cover_witness :
  plain_names [js "x/a"; js "x/b"] ∧
  Forall (λ s, unchanged (deriveModelMappingPairs (sg_models s) dir_upstream (sg_rule s)) = [])
    (detectModelNamingPatterns (host := plain_host) [js "x/a"; js "x/b"] [js "a"]).
Proof.
  assert (plain_names [js "x/a"; js "x/b"]) as H.
  { constructor; [|constructor; [|constructor]]; (split; [apply has_false; reflexivity|reflexivity]). }
  split; [exact H|].
  pose proof (suggestions_rename_what_they_cover plain_host [js "x/a"; js "x/b"] [js "a"] H) as (_ & Hs & _).
  apply (Forall_impl _ _ _ Hs). intros s [_ Hu]. exact Hu.
Defined.
