(* ===== verification/AdvancedCustom.v ===== *)
(** * Routes of an advanced custom channel

    Models [web/src/features/channels/lib/advanced-custom.ts].  A configuration
    is typed in as JSON or edited route by route; the code casts what it parsed
    to its types without checking it, so configurations and routes are dynamic
    values here, and reading a property of a nullish value or calling [trim] on
    something other than a string throws.  [AdvancedCustomConfig] and the
    records below are the declared types, with their values as objects. *)
From S2P Require Import Prelude JsString JsCollections JsNumber JsValue JsJson JsonText.
Local Open Scope Z_scope.

(** ** Errors *)
Record AdvancedCustomValidationError := mkInvalid { ve_message : jsstring; ve_routeIndex : option nat }.

(** Why a computation stops: a [TypeError], or a [return] with an error of the
    validation. *)
Inductive stop := type_error | invalid (e : AdvancedCustomValidationError).

Abbreviation run := (outcome stop) (only parsing).

(** ** Dynamic values *)

(** [v.key]; none of the keys used here is inherited by any value. *)
Definition get (v : jsval) (key : string) : run jsval :=
  match v with
  | JUndefined | JNull => Throw type_error
  | JObject es => Ok (default JUndefined (own_property (js key) es))
  | _ => Ok JUndefined
  end.

(** [v?.key] *)
Definition get_optional (v : jsval) (key : string) : run jsval :=
  if is_nullish v then Ok JUndefined else get v key.

(** [v.trim()] *)
Definition trim_of (v : jsval) : run jsstring :=
  match v with JString s => Ok (trim s) | _ => Throw type_error end.

(** [v?.trim() || ''] *)
Definition trim_or_empty (v : jsval) : run jsstring := if is_nullish v then Ok [] else trim_of v.

(** [list.map(f)], [list.find(f)], [list.findIndex(f)] and [list.some(f)] with a
    callback that may throw. *)
Fixpoint map_run {A B} (f : A → run B) (l : list A) : run (list B) :=
  match l with
  | [] => Ok []
  | x :: l' => y ← f x; ys ← map_run f l'; Ok (y :: ys)
  end.

Fixpoint filter_run {A} (f : A → run bool) (l : list A) : run (list A) :=
  match l with
  | [] => Ok []
  | x :: l' => b ← f x; ys ← filter_run f l'; Ok (if b : bool then x :: ys else ys)
  end.

Fixpoint find_run {A} (f : A → run bool) (l : list A) : run (option A) :=
  match l with
  | [] => Ok None
  | x :: l' => b ← f x; if b : bool then Ok (Some x) else find_run f l'
  end.

Fixpoint findIndex_run {A} (f : A → run bool) (l : list A) : run (option nat) :=
  match l with
  | [] => Ok None
  | x :: l' => b ← f x; if b : bool then Ok (Some 0%nat) else i ← findIndex_run f l'; Ok (option_map S i)
  end.

Definition some_run {A} (f : A → run bool) (l : list A) : run bool :=
  x ← find_run f l; Ok (match x with Some _ => true | None => false end).

(** ** Declared types *)
Record AdvancedCustomRouteAuth := mkAuth { au_type : option jsstring; au_name : option jsstring; au_value : option jsstring }.

Record AdvancedCustomRoute := mkRoute {
  rt_incoming_path : option jsstring;
  rt_upstream_path : option jsstring;
  rt_converter : option jsstring;
  rt_models : option (list jsstring);
  rt_auth : option AdvancedCustomRouteAuth;
  rt_pass_through_body_enabled : option bool;
}.

Record AdvancedCustomConfig := mkConfig { cf_advanced_routes : option (list AdvancedCustomRoute) }.

(** A property that may be absent. *)
Definition field (key : string) (v : option jsval) : list (jsstring * jsval) :=
  match v with Some x => [(js key, x)] | None => [] end.

Definition auth_value (a : AdvancedCustomRouteAuth) : jsval := JObject
  (field "type" (JString <$> au_type a) ++ field "name" (JString <$> au_name a) ++ field "value" (JString <$> au_value a)).

Definition route_value (r : AdvancedCustomRoute) : jsval := JObject
  (field "incoming_path" (JString <$> rt_incoming_path r) ++ field "upstream_path" (JString <$> rt_upstream_path r)
   ++ field "converter" (JString <$> rt_converter r) ++ field "models" ((λ l, JArray (map JString l)) <$> rt_models r)
   ++ field "pass_through_body_enabled" (JBool <$> rt_pass_through_body_enabled r)
   ++ field "auth" (auth_value <$> rt_auth r)).

Definition config_value (c : AdvancedCustomConfig) : jsval := JObject
  (field "advanced_routes" ((λ l, JArray (map route_value l)) <$> cf_advanced_routes c)).

(** ** Tables *)
Definition ADVANCED_CUSTOM_MODEL_LIST_PATH : jsstring := js "/v1/models".
Definition ADVANCED_CUSTOM_MODEL_LIST_LABEL : jsstring := js "OpenAI Models".
Definition ADVANCED_CUSTOM_BALANCE_PATH : jsstring := js "/v1/dashboard/billing/credit_grants".
Definition ADVANCED_CUSTOM_BALANCE_LABEL : jsstring := js "Balance Query".

Record ConverterOption := mkConverterOption { co_value : jsstring; co_label : jsstring; co_triggerLabel : jsstring }.

Definition ADVANCED_CUSTOM_CONVERTER_OPTIONS : list ConverterOption :=
  map (λ '(v, l, t), mkConverterOption (js v) (js l) (js t))
  [("none", "Native forwarding", "Native forwarding");
   ("anthropic_messages_to_openai_chat_completions", "Anthropic Messages to OpenAI Chat", "To OpenAI Chat");
   ("openai_chat_completions_to_anthropic_messages", "OpenAI Chat to Anthropic Messages", "To Anthropic Messages");
   ("openai_chat_completions_to_openai_responses", "OpenAI Chat to OpenAI Responses", "To OpenAI Responses");
   ("openai_responses_to_openai_chat_completions", "OpenAI Responses to OpenAI Chat", "To OpenAI Chat");
   ("openai_responses_to_gemini_generate_content", "OpenAI Responses to Gemini Generate Content", "To Gemini Generate Content");
   ("gemini_generate_content_to_openai_chat_completions", "Gemini Generate Content to OpenAI Chat", "To OpenAI Chat");
   ("openai_chat_completions_to_gemini_generate_content", "OpenAI Chat to Gemini Generate Content", "To Gemini Generate Content")]%string.

Record PathOption := mkPathOption { po_value : jsstring; po_label : jsstring }.

Definition ADVANCED_CUSTOM_INCOMING_PATH_OPTIONS : list PathOption :=
  map (λ '(v, l), mkPathOption (js v) (js l))
  [("/v1/chat/completions", "OpenAI Chat"); ("/v1/responses", "OpenAI Responses");
   ("/v1/responses/compact", "OpenAI Responses Compact"); ("/v1/alpha/search", "Codex Alpha Search");
   ("/v1/embeddings", "OpenAI Embeddings"); ("/v1/images/generations", "OpenAI Image Generations");
   ("/v1/images/edits", "OpenAI Image Edits"); ("/v1/completions", "OpenAI Completions");
   ("/v1/audio/speech", "OpenAI Audio Speech"); ("/v1/audio/transcriptions", "OpenAI Audio Transcriptions");
   ("/v1/audio/translations", "OpenAI Audio Translations"); ("/v1/rerank", "Rerank");
   ("/v1/realtime", "OpenAI Realtime"); ("/v1/messages", "Claude Messages");
   ("/v1beta/models/{model}:generateContent", "Gemini Generate Content");
   ("/v1beta/models/{model}:embedContent", "Gemini Embed Content");
   ("/v1beta/models/{model}:batchEmbedContents", "Gemini Batch Embed Contents")]%string.

Definition ADVANCED_CUSTOM_ROUTE_SUMMARY_LABELS : list (jsstring * jsstring) :=
  [(js "/v1/chat/completions", js "OpenAI Chat");
   (ADVANCED_CUSTOM_MODEL_LIST_PATH, ADVANCED_CUSTOM_MODEL_LIST_LABEL);
   (ADVANCED_CUSTOM_BALANCE_PATH, ADVANCED_CUSTOM_BALANCE_LABEL)].

Definition ADVANCED_CUSTOM_MODEL_REGEX_PREFIX : jsstring := js "re:".
Definition openAIChatPath : jsstring := js "/v1/chat/completions".
Definition openAIResponsesPath : jsstring := js "/v1/responses".
Definition claudeMessagesPath : jsstring := js "/v1/messages".
Definition geminiGenerateContentPath : jsstring := js "/v1beta/models/{model}:generateContent".

Definition full_auth (type name value : string) : AdvancedCustomRouteAuth :=
  mkAuth (Some (js type)) (Some (js name)) (Some (js value)).
Definition bearerHeaderAuth : AdvancedCustomRouteAuth := full_auth "header" "Authorization" "Bearer {api_key}".
Definition apiKeyHeaderAuth : AdvancedCustomRouteAuth := full_auth "header" "x-api-key" "{api_key}".
Definition geminiQueryAuth : AdvancedCustomRouteAuth := full_auth "query" "key" "{api_key}".

Definition native_route (auth : AdvancedCustomRouteAuth) (path : string) : AdvancedCustomRoute :=
  mkRoute (Some (js path)) (Some (js path)) (Some (js "none")) None (Some auth) None.

Definition createOpenAINativeRoutes : list AdvancedCustomRoute :=
  map (native_route bearerHeaderAuth)
    ["/v1/chat/completions"; "/v1/completions"; "/v1/responses"; "/v1/responses/compact"; "/v1/embeddings";
     "/v1/images/generations"; "/v1/images/edits"; "/v1/audio/speech"; "/v1/audio/transcriptions";
     "/v1/audio/translations"; "/v1/realtime"]%string.
Definition createClaudeNativeRoutes : list AdvancedCustomRoute := [native_route apiKeyHeaderAuth "/v1/messages"].
Definition createGeminiNativeRoutes : list AdvancedCustomRoute :=
  map (native_route geminiQueryAuth)
    ["/v1beta/models/{model}:generateContent"; "/v1beta/models/{model}:embedContent";
     "/v1beta/models/{model}:batchEmbedContents"]%string.
Definition createGatewayNativeRoutes : list AdvancedCustomRoute :=
  map (native_route bearerHeaderAuth) ["/v1/alpha/search"; "/v1/rerank"]%string.

Record TemplateOption := mkTemplate { tp_value : jsstring; tp_label : jsstring; tp_config : AdvancedCustomConfig }.

Definition all_protocols : TemplateOption := mkTemplate (js "all_protocols") (js "All routes")
  (mkConfig (Some (createOpenAINativeRoutes ++ createClaudeNativeRoutes ++ createGeminiNativeRoutes ++ createGatewayNativeRoutes))).
Definition ADVANCED_CUSTOM_TEMPLATE_OPTIONS : list TemplateOption :=
  [all_protocols;
   mkTemplate (js "openai_only") (js "OpenAI only") (mkConfig (Some createOpenAINativeRoutes));
   mkTemplate (js "claude_only") (js "Claude only") (mkConfig (Some createClaudeNativeRoutes));
   mkTemplate (js "gemini_only") (js "Gemini only") (mkConfig (Some createGeminiNativeRoutes))].

Definition getAdvancedCustomTemplateConfig (templateKey : jsstring) : AdvancedCustomConfig :=
  tp_config (default all_protocols (List.find (λ option, str_eqb (tp_value option) templateKey) ADVANCED_CUSTOM_TEMPLATE_OPTIONS)).

(** ** Paths and converters *)
Definition isAdvancedCustomManagementPath (path : jsstring) : bool :=
  str_eqb path ADVANCED_CUSTOM_MODEL_LIST_PATH || str_eqb path ADVANCED_CUSTOM_BALANCE_PATH.

Definition isConverterPathAllowed (incomingPath converter : jsstring) : bool :=
  let conv c := str_eqb converter (js c) in
  if conv "none" then true
  else if str_eqb incomingPath (js "/v1/alpha/search") then false
  else if conv "anthropic_messages_to_openai_chat_completions" then str_eqb incomingPath (js "/v1/messages")
  else if conv "openai_chat_completions_to_anthropic_messages" || conv "openai_chat_completions_to_openai_responses"
    || conv "openai_chat_completions_to_gemini_generate_content" then str_eqb incomingPath (js "/v1/chat/completions")
  else if conv "openai_responses_to_openai_chat_completions" then str_eqb incomingPath (js "/v1/responses")
  else if conv "openai_responses_to_gemini_generate_content" then str_eqb incomingPath (js "/v1/responses")
  else str_includes incomingPath (js ":generateContent") || str_includes incomingPath (js ":streamGenerateContent").

Definition isAdvancedCustomIncomingPathAllowed : jsstring → jsstring → bool := isConverterPathAllowed.

Definition isAdvancedCustomPassThroughAllowed (converter : jsstring) : bool := str_eqb converter (js "none").

Definition getAdvancedCustomIncomingPathOptions (converter : jsstring) : list PathOption :=
  List.filter (λ option, isConverterPathAllowed (po_value option) converter) ADVANCED_CUSTOM_INCOMING_PATH_OPTIONS.

Definition getDefaultAdvancedCustomIncomingPath (converter : jsstring) : jsstring :=
  or_text (match getAdvancedCustomIncomingPathOptions converter with option :: _ => po_value option | [] => [] end)
    (js "/v1/chat/completions").

Definition getAdvancedCustomConverterOptions (incomingPath : jsstring) : list ConverterOption :=
  let normalizedIncomingPath := trim incomingPath in
  List.filter (λ option, str_eqb (co_value option) (js "none")
    || isConverterPathAllowed normalizedIncomingPath (co_value option)) ADVANCED_CUSTOM_CONVERTER_OPTIONS.

Definition getAdvancedCustomIncomingPathLabel (value : jsstring) : jsstring :=
  match List.find (λ option, str_eqb (po_value option) value) ADVANCED_CUSTOM_INCOMING_PATH_OPTIONS with
  | Some option => or_text (po_label option) value
  | None => value
  end.

Definition getAdvancedCustomNativeAuth (incomingPath : jsstring) : AdvancedCustomRouteAuth :=
  if str_eqb incomingPath claudeMessagesPath then apiKeyHeaderAuth
  else if str_includes incomingPath (js ":generateContent") || str_includes incomingPath (js ":streamGenerateContent")
    || str_includes incomingPath (js ":embedContent") || str_includes incomingPath (js ":batchEmbedContents")
  then geminiQueryAuth
  else bearerHeaderAuth.

Record ConverterDefaults := mkDefaults { cd_upstream_path : jsstring; cd_auth : option AdvancedCustomRouteAuth }.

Definition getAdvancedCustomConverterDefaults (converter incomingPath : jsstring) : ConverterDefaults :=
  let conv c := str_eqb converter (js c) in
  let normalizedIncomingPath := or_text (trim incomingPath) (getDefaultAdvancedCustomIncomingPath converter) in
  if conv "none" then mkDefaults normalizedIncomingPath (Some (getAdvancedCustomNativeAuth normalizedIncomingPath))
  else if conv "anthropic_messages_to_openai_chat_completions" || conv "gemini_generate_content_to_openai_chat_completions"
    || conv "openai_responses_to_openai_chat_completions" then mkDefaults openAIChatPath (Some bearerHeaderAuth)
  else if conv "openai_chat_completions_to_openai_responses" then mkDefaults openAIResponsesPath (Some bearerHeaderAuth)
  else if conv "openai_chat_completions_to_anthropic_messages" then mkDefaults claudeMessagesPath (Some apiKeyHeaderAuth)
  else if conv "openai_chat_completions_to_gemini_generate_content" || conv "openai_responses_to_gemini_generate_content"
  then mkDefaults geminiGenerateContentPath (Some geminiQueryAuth)
  else mkDefaults (or_text normalizedIncomingPath openAIChatPath) (Some (getAdvancedCustomNativeAuth normalizedIncomingPath)).

Definition getAdvancedCustomUpstreamPathPlaceholder (converter : jsstring) (incomingPath : option jsstring) : jsstring :=
  cd_upstream_path (getAdvancedCustomConverterDefaults converter
    (default (getDefaultAdvancedCustomIncomingPath converter) incomingPath)).

Definition createAdvancedCustomRoute : AdvancedCustomRoute :=
  mkRoute (Some openAIChatPath) (Some openAIChatPath) (Some (js "none")) None None None.
Definition createAdvancedCustomConfig : AdvancedCustomConfig := mkConfig (Some [createAdvancedCustomRoute]).
Definition createAdvancedCustomManagementRoute (path : jsstring) : AdvancedCustomRoute :=
  mkRoute (Some path) (Some path) (Some (js "none")) (Some []) None None.

(** ** Normal form *)
Definition getAdvancedCustomRouteUpstreamPath (route : jsval) : run jsstring :=
  v ← get route "upstream_path"; trim_of (or_else v (JString [])).

Definition normalizeAdvancedCustomRouteModels (models : jsval) : run (list jsstring) :=
  match models with
  | JArray items => l ← map_run trim_of items; Ok (List.filter (λ m, negb (str_eqb m [])) l)
  | _ => Ok []
  end.

Definition normalized_auth (auth : jsval) : run jsval :=
  type ← get auth "type"; name ← get auth "name"; value ← get auth "value";
  Ok (JObject [(js "type", type); (js "name", or_else name (JString [])); (js "value", or_else value (JString []))]).

Definition normalizeAdvancedCustomRoute (route : jsval) : run jsval :=
  incoming ← get route "incoming_path";
  upstream ← getAdvancedCustomRouteUpstreamPath route;
  converter ← get route "converter";
  rawModels ← get route "models";
  models ← normalizeAdvancedCustomRouteModels rawModels;
  pass ← get route "pass_through_body_enabled";
  auth ← get route "auth";
  nextAuth ← (if truthy auth then a ← normalized_auth auth; Ok [(js "auth", a)] else Ok []);
  Ok (JObject
    ([(js "incoming_path", or_else incoming (JString [])); (js "upstream_path", JString upstream);
      (js "converter", or_else converter (JString (js "none")))]
     ++ (match models with [] => [] | _ => [(js "models", JArray (map JString models))] end)
     ++ (if strict_equals pass (JBool true) then [(js "pass_through_body_enabled", JBool true)] else [])
     ++ nextAuth)).

(** The routes of a normalized configuration. *)
Definition normalized_routes (config : jsval) : run (list jsval) :=
  routes ← get config "advanced_routes";
  match routes with JArray l => map_run normalizeAdvancedCustomRoute l | _ => Ok [] end.

Definition config_of (routes : list jsval) : jsval := JObject [(js "advanced_routes", JArray routes)].

Definition normalizeAdvancedCustomConfig (config : jsval) : run jsval := config_of <$> normalized_routes config.

Definition parseAdvancedCustomConfig (value : option jsstring) : option jsval :=
  match value with
  | None => None
  | Some text =>
      if str_eqb (trim text) [] then None
      else match JSON_parse text with
        | Some (JObject es) =>
            match normalizeAdvancedCustomConfig (JObject es) with Ok config => Some config | _ => None end
        | _ => None
        end
  end.

Definition stringifyAdvancedCustomConfig (config : jsval) : run jsstring :=
  JSON_stringify2 <$> normalizeAdvancedCustomConfig config.

Definition parseAdvancedCustomRouteModels (value : jsstring) : list jsstring :=
  set_of (List.filter (λ m, negb (str_eqb m [])) (map trim (split_char 44 value))).

(** [getAdvancedCustomModelRuleKind(rule) === 'regex'] *)
Definition is_regex_rule (modelRule : jsstring) : bool := starts_with modelRule ADVANCED_CUSTOM_MODEL_REGEX_PREFIX.
Definition getAdvancedCustomRegexModelPattern (modelRule : jsstring) : jsstring :=
  drop (length ADVANCED_CUSTOM_MODEL_REGEX_PREFIX) modelRule.

(** ** Management and forwarding routes *)

(** [route.incoming_path?.trim() === path] *)
Definition has_path (path : jsstring) (route : jsval) : run bool :=
  v ← get route "incoming_path";
  if is_nullish v then Ok false else t ← trim_of v; Ok (str_eqb t path).

(** [isAdvancedCustomManagementPath(route.incoming_path?.trim() || '')] *)
Definition is_management (route : jsval) : run bool :=
  v ← get route "incoming_path"; t ← trim_or_empty v; Ok (isAdvancedCustomManagementPath t).

Definition getAdvancedCustomManagementRoute (config : jsval) (path : jsstring) : run (option jsval) :=
  routes ← normalized_routes config; find_run (has_path path) routes.

Definition replaceAdvancedCustomManagementRoute (config : jsval) (path : jsstring) (route : option jsval) : run jsval :=
  routes ← normalized_routes config;
  index ← findIndex_run (has_path path) routes;
  match route with
  | None => Ok (config_of (match index with Some i => delete i routes | None => routes end))
  | Some r =>
      upstream ← get r "upstream_path"; auth ← get r "auth";
      let managementRoute := JObject
        [(js "incoming_path", JString path); (js "upstream_path", or_else upstream (JString []));
         (js "converter", JString (js "none")); (js "models", JArray []); (js "auth", auth)] in
      Ok (config_of (match index with Some i => <[i := managementRoute]> routes | None => routes ++ [managementRoute] end))
  end.

Definition replaceAdvancedCustomForwardingRoutes (config : jsval) (forwardingRoutes : list jsval) : run jsval :=
  routes ← normalized_routes config;
  firstForwardingIndex ← findIndex_run (λ route, negb <$> is_management route) routes;
  managementRoutes ← filter_run is_management routes;
  match firstForwardingIndex with
  | None => Ok (config_of (managementRoutes ++ forwardingRoutes))
  | Some i =>
      before ← filter_run is_management (take i routes);
      after ← filter_run is_management (drop i routes);
      Ok (config_of (before ++ forwardingRoutes ++ after))
  end.

(** ** Validation *)

(** [new URL(text)]: its host and its protocol, [None] when it throws. *)
Class UrlParser := new_URL : jsstring → option (jsstring * jsstring).

Definition at_route (index : nat) (message : jsstring) : AdvancedCustomValidationError := mkInvalid message (Some index).

(** [if (condition) return { routeIndex: index, message }] *)
Definition reject (condition : bool) (index : nat) (message : jsstring) : run unit :=
  if condition then Throw (invalid (at_route index message)) else Ok tt.

(** What was seen of the routes with one incoming path. *)
Record path_state := mkPath { catchAllIndex : option nat; path_models : list (jsstring * nat) }.

Record validation_state := mkValidation {
  routeModelsByPath : list (jsstring * path_state);
  modelListRouteIndex : option nat;
  balanceRouteIndex : option nat;
}.

Fixpoint validate_models (routeIndex : nat) (seenInRoute : list jsstring) (models : list jsstring)
    (known : list (jsstring * nat)) : run (list (jsstring * nat)) :=
  match models with
  | [] => Ok known
  | model :: rest =>
      _ ← reject (is_regex_rule model && str_eqb (getAdvancedCustomRegexModelPattern model) []) routeIndex
            (js "Model regex cannot be empty");
      _ ← reject (has seenInRoute model) routeIndex (js "Duplicate model in route models");
      _ ← reject (match map_get model known with Some _ => true | None => false end) routeIndex
            (js "Route models must be unique for the same incoming path");
      validate_models routeIndex (js_add seenInRoute model) rest (map_set model routeIndex known)
  end.

Definition is_some {A} (o : option A) : bool := match o with Some _ => true | None => false end.

Definition validateAdvancedCustomRouteModels (routeIndex : nat) (incomingPath : jsstring) (models : list jsstring)
    (byPath : list (jsstring * path_state)) : run (list (jsstring * path_state)) :=
  let state := default (mkPath None []) (map_get incomingPath byPath) in
  match models with
  | [] =>
      _ ← reject (is_some (catchAllIndex state)) routeIndex
            (js "Only one catch-all route is allowed for the same incoming path");
      Ok (map_set incomingPath (mkPath (Some routeIndex) (path_models state)) byPath)
  | _ =>
      _ ← reject (is_some (catchAllIndex state)) routeIndex
            (js "Catch-all route must be last for the same incoming path");
      known ← validate_models routeIndex [] models (path_models state);
      Ok (map_set incomingPath (mkPath (catchAllIndex state) known) byPath)
  end.

Definition isAdvancedCustomConverter (value : jsval) : bool :=
  existsb (λ option, strict_equals (JString (co_value option)) value) ADVANCED_CUSTOM_CONVERTER_OPTIONS.

(** The message of an authentication that is not valid. *)
Definition validateRouteAuth (auth : jsval) : run (option jsstring) :=
  if negb (truthy auth) then Ok None
  else
    type ← get auth "type";
    if strict_equals type (JString (js "none")) then Ok None
    else if negb (strict_equals type (JString (js "header"))) && negb (strict_equals type (JString (js "query")))
    then Ok (Some (js "Auth type is invalid"))
    else
      name ← get auth "name"; name ← trim_or_empty name;
      if str_eqb name [] then Ok (Some (js "Auth name is required"))
      else
        value ← get auth "value"; value ← trim_or_empty value;
        if str_eqb value [] then Ok (Some (js "Auth value is required")) else Ok None.

(** The checks of a management route, and the indices of the routes seen. *)
Definition validate_management (index : nat) (incomingPath upstreamPath : jsstring) (converter : jsval)
    (routeModels : list jsstring) (pass : jsval) (st : validation_state) : run validation_state :=
  let isModelListRoute := str_eqb incomingPath ADVANCED_CUSTOM_MODEL_LIST_PATH in
  let existingIndex := if isModelListRoute then modelListRouteIndex st else balanceRouteIndex st in
  let routeLabel := if isModelListRoute then js "OpenAI Models" else js "Balance Query" in
  _ ← reject (is_some existingIndex) index (js "Only one " ++ routeLabel ++ js " route is allowed");
  let st := if isModelListRoute then mkValidation (routeModelsByPath st) (Some index) (balanceRouteIndex st)
            else mkValidation (routeModelsByPath st) (modelListRouteIndex st) (Some index) in
  _ ← reject (0 <? length routeModels)%nat index (routeLabel ++ js " route does not support client model rules");
  _ ← reject (negb (strict_equals converter (JString (js "none")))) index
        (routeLabel ++ js " route must use native forwarding");
  _ ← reject (str_includes upstreamPath (js "{model}")) index
        (routeLabel ++ js " upstream path must not contain {model}");
  _ ← reject (truthy pass) index (routeLabel ++ js " route does not support pass-through");
  Ok st.

Definition text_of (v : jsval) : jsstring := match v with JString s => s | _ => [] end.

Section Validate.
Context {url : UrlParser}.

Definition isFullHttpURLOrAbsolutePath (value : jsstring) : bool :=
  if starts_with value (js "/") then negb (starts_with value (js "//"))
  else match new_URL value with
    | Some (host, protocol) =>
        negb (str_eqb host []) && (str_eqb protocol (js "http:") || str_eqb protocol (js "https:"))
    | None => false
    end.

(** One turn of the loop over the routes. *)
Definition validate_route (index : nat) (route : jsval) (st : validation_state) : run validation_state :=
  v ← get route "incoming_path"; incomingPath ← trim_or_empty v;
  upstreamPath ← getAdvancedCustomRouteUpstreamPath route;
  c ← get route "converter";
  let converter := or_else c (JString (js "none")) in
  m ← get route "models"; routeModels ← normalizeAdvancedCustomRouteModels m;
  pass ← get route "pass_through_body_enabled";
  auth ← get route "auth";
  _ ← reject (str_eqb incomingPath []) index (js "Incoming path is required");
  _ ← reject (negb (starts_with incomingPath (js "/"))) index (js "Incoming path must start with /");
  _ ← reject (str_includes incomingPath (js "?")) index (js "Incoming path must not include query");
  st ← (if isAdvancedCustomManagementPath incomingPath
        then validate_management index incomingPath upstreamPath converter routeModels pass st else Ok st);
  byPath ← validateAdvancedCustomRouteModels index incomingPath routeModels (routeModelsByPath st);
  _ ← reject (str_eqb upstreamPath []) index (js "Upstream path is required");
  _ ← reject (negb (isFullHttpURLOrAbsolutePath upstreamPath)) index
        (js "Upstream path must be a full URL or a path starting with /");
  _ ← reject (negb (isAdvancedCustomConverter converter)) index (js "Converter is not registered");
  _ ← reject (negb (isConverterPathAllowed incomingPath (text_of converter))) index
        (js "Converter does not match incoming path");
  _ ← reject (truthy pass && negb (isAdvancedCustomPassThroughAllowed (text_of converter))) index
        (js "Pass-through requires native forwarding");
  authError ← validateRouteAuth auth;
  _ ← (match authError with Some message => Throw (invalid (at_route index message)) | None => Ok tt end);
  Ok (mkValidation byPath (modelListRouteIndex st) (balanceRouteIndex st)).

Fixpoint validate_routes (index : nat) (routes : list jsval) (st : validation_state) : run validation_state :=
  match routes with
  | [] => Ok st
  | route :: rest => st' ← validate_route index route st; validate_routes (S index) rest st'
  end.

Definition validation_start : validation_state := mkValidation [] None None.

Definition validateAdvancedCustomConfig (config : option jsval) : run (option AdvancedCustomValidationError) :=
  match config with
  | None => Ok (Some (mkInvalid (js "Advanced custom configuration is required") None))
  | Some config =>
      routes ← normalized_routes config;
      match routes with
      | [] => Ok (Some (mkInvalid (js "Advanced custom configuration requires at least one route") None))
      | _ =>
          match validate_routes 0 routes validation_start with
          | Ok _ => Ok None
          | Throw (invalid e) => Ok (Some e)
          | Throw type_error => Throw type_error
          | NoFuel => NoFuel
          end
      end
  end.

Definition hasValidAdvancedCustomModelListRoute (config : option jsval) : run bool :=
  match config with
  | None => Ok false
  | Some c =>
      error ← validateAdvancedCustomConfig config;
      if is_some error then Ok false
      else routes ← normalized_routes c; some_run (has_path ADVANCED_CUSTOM_MODEL_LIST_PATH) routes
  end.

(** What a summary shows for a path: the label table is an object, so a name of
    [Object.prototype] finds a built-in there. *)
Inductive summary_label := label_text (s : jsstring) | label_builtin (name : jsstring).

#[export] Instance summary_label_eq_dec : EqDecision summary_label.
Proof. solve_decision. Defined.

Definition OBJECT_PROTOTYPE_NAMES : list jsstring := map js
  ["constructor"; "__defineGetter__"; "__defineSetter__"; "hasOwnProperty"; "__lookupGetter__"; "__lookupSetter__";
   "isPrototypeOf"; "propertyIsEnumerable"; "toString"; "valueOf"; "__proto__"; "toLocaleString"]%string.

Definition getAdvancedCustomRouteSummaryLabel (route : jsval) : run (option summary_label) :=
  v ← get route "incoming_path"; incomingPath ← trim_or_empty v;
  if str_eqb incomingPath [] then Ok None
  else if str_in incomingPath OBJECT_PROTOTYPE_NAMES then Ok (Some (label_builtin incomingPath))
  else Ok (Some (label_text (match own_property incomingPath ADVANCED_CUSTOM_ROUTE_SUMMARY_LABELS with
    | Some label => or_text label (getAdvancedCustomIncomingPathLabel incomingPath)
    | None => getAdvancedCustomIncomingPathLabel incomingPath
    end))).

Record AdvancedCustomStats := mkStats { st_routeCount : nat; st_valid : bool; st_routeTypeLabels : list summary_label }.

Definition getAdvancedCustomStats (value : option jsstring) : run AdvancedCustomStats :=
  match parseAdvancedCustomConfig value with
  | None => Ok (mkStats 0 false [])
  | Some config =>
      normalized ← normalizeAdvancedCustomConfig config;
      routes ← normalized_routes config;
      labels ← map_run getAdvancedCustomRouteSummaryLabel routes;
      error ← validateAdvancedCustomConfig (Some normalized);
      Ok (mkStats (length routes) (negb (is_some error))
        (set_of (List.filter (λ l, negb (bool_decide (l = label_text []))) (omap id labels))))
  end.
End Validate.

Definition advancedCustomConfigUsesRelativeUpstreamPath (config : option jsval) : run bool :=
  match config with
  | None => Ok false
  | Some c =>
      routes ← normalized_routes c;
      some_run (λ route, p ← getAdvancedCustomRouteUpstreamPath route; Ok (starts_with p (js "/"))) routes
  end.

(** ** Authentication modes *)
Inductive AdvancedCustomAuthMode := mode_default | mode_none | mode_header | mode_query.

Definition buildAdvancedCustomAuth (mode : AdvancedCustomAuthMode) (previousAuth : option AdvancedCustomRouteAuth)
    : option AdvancedCustomRouteAuth :=
  let previous f := default [] (previousAuth ≫= f) in
  match mode with
  | mode_default => None
  | mode_none => Some (mkAuth (Some (js "none")) None None)
  | mode_header => Some (mkAuth (Some (js "header")) (Some (or_text (previous au_name) (js "Authorization")))
      (Some (or_text (previous au_value) (js "Bearer {api_key}"))))
  | mode_query => Some (mkAuth (Some (js "query")) (Some (or_text (previous au_name) (js "api_key")))
      (Some (or_text (previous au_value) (js "{api_key}"))))
  end.

Definition auth_mode_name (mode : AdvancedCustomAuthMode) : jsstring :=
  js (match mode with mode_default => "default" | mode_none => "none" | mode_header => "header" | mode_query => "query" end).

Definition getAdvancedCustomAuthMode (route : AdvancedCustomRoute) : jsstring :=
  or_text (default [] (rt_auth route ≫= au_type)) (js "default").
