(* ===== verification/AdvancedCustomFacts.v ===== *)
(** * Theorems on advanced custom routes

    On configurations of the declared types: normalising is idempotent and what
    is written is read back normalised; the validation accepts exactly the
    configurations described by [valid_config], and otherwise points at the
    first route that is wrong; the management routes of a configuration behave
    like two cells beside the forwarding routes. *)
From stdpp Require Import sets.
From S2P Require Import Prelude JsString JsCollections JsNumber JsValue JsJson JsonText AdvancedCustom.
Local Open Scope Z_scope.

(** ** Reading the declared types *)
Section Gets.
Context (r : AdvancedCustomRoute).

Ltac read_fields := destruct r as [[] [] [] [] [] []]; reflexivity.

Lemma get_incoming : get (route_value r) "incoming_path" = Ok (default JUndefined (JString <$> rt_incoming_path r)).
Proof. read_fields. Qed.
Lemma get_upstream : get (route_value r) "upstream_path" = Ok (default JUndefined (JString <$> rt_upstream_path r)).
Proof. read_fields. Qed.
Lemma get_converter : get (route_value r) "converter" = Ok (default JUndefined (JString <$> rt_converter r)).
Proof. read_fields. Qed.
Lemma get_models :
  get (route_value r) "models" = Ok (default JUndefined ((λ l, JArray (map JString l)) <$> rt_models r)).
Proof. read_fields. Qed.
Lemma get_pass : get (route_value r) "pass_through_body_enabled"
  = Ok (default JUndefined (JBool <$> rt_pass_through_body_enabled r)).
Proof. read_fields. Qed.
Lemma get_auth : get (route_value r) "auth" = Ok (default JUndefined (auth_value <$> rt_auth r)).
Proof. read_fields. Qed.
End Gets.

Lemma get_auth_fields a :
  get (auth_value a) "type" = Ok (default JUndefined (JString <$> au_type a))
  ∧ get (auth_value a) "name" = Ok (default JUndefined (JString <$> au_name a))
  ∧ get (auth_value a) "value" = Ok (default JUndefined (JString <$> au_value a)).
Proof. by destruct a as [[] [] []]. Qed.

(** ** The normal form on the declared types *)
Definition r_path (r : AdvancedCustomRoute) : jsstring := trim (default [] (rt_incoming_path r)).
Definition r_upstream (r : AdvancedCustomRoute) : jsstring := trim (default [] (rt_upstream_path r)).
Definition r_converter (r : AdvancedCustomRoute) : jsstring := or_text (default [] (rt_converter r)) (js "none").
Definition clean_models (l : list jsstring) : list jsstring := List.filter (λ m, negb (str_eqb m [])) (map trim l).
Definition r_models (r : AdvancedCustomRoute) : list jsstring := clean_models (default [] (rt_models r)).
Definition r_pass (r : AdvancedCustomRoute) : bool := default false (rt_pass_through_body_enabled r).

Definition norm_auth (a : AdvancedCustomRouteAuth) : AdvancedCustomRouteAuth :=
  mkAuth (au_type a) (Some (default [] (au_name a))) (Some (default [] (au_value a))).

Definition norm_route (r : AdvancedCustomRoute) : AdvancedCustomRoute :=
  mkRoute (Some (default [] (rt_incoming_path r))) (Some (r_upstream r)) (Some (r_converter r))
    (match r_models r with [] => None | l => Some l end) (norm_auth <$> rt_auth r)
    (if r_pass r then Some true else None).

Definition routes_of (c : AdvancedCustomConfig) : list AdvancedCustomRoute := default [] (cf_advanced_routes c).
Definition norm_config (c : AdvancedCustomConfig) : AdvancedCustomConfig := mkConfig (Some (map norm_route (routes_of c))).

(** An authentication has a type. *)
Definition has_auth_type (r : AdvancedCustomRoute) : Prop := ∀ a, rt_auth r = Some a → au_type a ≠ None.

Lemma map_run_ok {A B} (f : A → run B) g l : (∀ x, x ∈ l → f x = Ok (g x)) → map_run f l = Ok (map g l).
Proof.
  induction l as [|x l IH]; intros H; [done|]. cbn [map_run]. rewrite H by set_solver. cbn. rewrite IH by set_solver. done.
Qed.

Lemma map_run_values {A B} (v : A → jsval) (f : jsval → run B) (g : A → B) l :
  (∀ x, x ∈ l → f (v x) = Ok (g x)) → map_run f (map v l) = Ok (map g l).
Proof.
  induction l as [|x l IH]; intros H; [done|]. cbn [map_run map]. rewrite H by set_solver. cbn. rewrite IH by set_solver. done.
Qed.

Lemma or_else_text o d : or_else (default JUndefined (JString <$> o)) (JString d) = JString (or_text (default [] o) d).
Proof. by destruct o as [[|]|]. Qed.

Lemma or_text_empty s : or_text s [] = s.
Proof. by destruct s. Qed.

Lemma upstream_of r : getAdvancedCustomRouteUpstreamPath (route_value r) = Ok (r_upstream r).
Proof.
  unfold getAdvancedCustomRouteUpstreamPath, r_upstream. rewrite get_upstream. cbn [mbind outcome_bind].
  rewrite or_else_text, or_text_empty. done.
Qed.

Lemma models_of o : normalizeAdvancedCustomRouteModels (default JUndefined ((λ l, JArray (map JString l)) <$> o))
  = Ok (clean_models (default [] o)).
Proof. destruct o as [l|]; [|done]. cbn. by rewrite (map_run_values JString trim_of trim). Qed.

Lemma norm_auth_value a : au_type a ≠ None → normalized_auth (auth_value a) = Ok (auth_value (norm_auth a)).
Proof.
  intros Ht. unfold normalized_auth. destruct (get_auth_fields a) as (-> & -> & ->). cbn [mbind outcome_bind].
  rewrite !or_else_text, !or_text_empty. destruct a as [[t|] n v]; [|done]. done.
Qed.

Lemma norm_route_value r : has_auth_type r → normalizeAdvancedCustomRoute (route_value r) = Ok (route_value (norm_route r)).
Proof.
  intros Ht. unfold normalizeAdvancedCustomRoute. rewrite get_incoming. cbn [mbind outcome_bind].
  rewrite upstream_of, get_converter, get_models. cbn [mbind outcome_bind]. rewrite models_of. cbn [mbind outcome_bind].
  rewrite get_pass, get_auth. cbn [mbind outcome_bind]. rewrite !or_else_text, or_text_empty.
  unfold norm_route, route_value. cbn [rt_incoming_path rt_upstream_path rt_converter rt_models rt_auth
    rt_pass_through_body_enabled]. unfold r_models, r_pass. destruct (rt_auth r) as [a|] eqn:Ea.
  - change (default JUndefined (auth_value <$> Some a)) with (auth_value a).
    change (truthy (auth_value a)) with true. cbn iota. rewrite norm_auth_value by (by apply Ht). cbn [mbind outcome_bind].
    destruct (clean_models _); destruct (rt_pass_through_body_enabled r) as [[]|]; done.
  - destruct (clean_models _); destruct (rt_pass_through_body_enabled r) as [[]|]; done.
Qed.

Lemma norm_routes_value c : Forall has_auth_type (routes_of c) →
  normalized_routes (config_value c) = Ok (map route_value (map norm_route (routes_of c))).
Proof.
  intros H. unfold normalized_routes, routes_of in *. destruct c as [[l|]]; [|done]. cbn [cf_advanced_routes] in H.
  assert (get (config_value (mkConfig (Some l))) "advanced_routes" = Ok (JArray (map route_value l))) as -> by reflexivity.
  cbn [mbind outcome_bind cf_advanced_routes].
  rewrite (map_run_values route_value _ (λ r, route_value (norm_route r))); [by rewrite map_map|].
  intros r Hr. rewrite Forall_forall in H. by apply norm_route_value, H.
Qed.

(** ** Round trip *)
Definition units_option (o : option jsstring) : Prop := match o with Some s => units s | None => True end.

Record route_units (r : AdvancedCustomRoute) : Prop := {
  ru_incoming : units_option (rt_incoming_path r);
  ru_upstream : units_option (rt_upstream_path r);
  ru_converter : units_option (rt_converter r);
  ru_models : ∀ l, rt_models r = Some l → Forall units l;
  ru_auth : ∀ a, rt_auth r = Some a → units_option (au_type a) ∧ units_option (au_name a) ∧ units_option (au_value a);
}.

Lemma default_units o : units_option o → units (default [] o).
Proof. by destruct o. Qed.

(** Names that are no array indices are listed as they were created. *)
Lemma own_entries_names {A} (es : list (jsstring * A)) : forallb (λ e, negb (is_index e)) es = true → own_entries es = es.
Proof.
  rewrite forallb_forall. intros H. unfold own_entries. rewrite filter_none, filter_all; [done|..].
  - intros x Hx. apply H, list_elem_of_In, Hx.
  - intros x Hx. apply negb_true_iff, H, list_elem_of_In, Hx.
Qed.

(** An object whose names are known is a document when its values are. *)
Lemma doc_fields (es : list (jsstring * jsval)) :
  bool_decide (NoDup es.*1) = true → forallb (λ e, negb (is_index e)) es = true → forallb (λ e, forallb is_unit (fst e)) es = true →
  Forall (λ e, json_doc (snd e)) es → json_doc (JObject es).
Proof.
  intros Hn Hi Hu Hd. apply doc_object; [by apply bool_decide_eq_true in Hn|by apply own_entries_names|].
  rewrite forallb_forall in Hu. apply Forall_forall. intros e He. rewrite Forall_forall in Hd.
  split; [apply Hu, list_elem_of_In, He|by apply Hd].
Qed.

Lemma doc_auth a : units_option (au_type a) → units_option (au_name a) → units_option (au_value a) → json_doc (auth_value a).
Proof.
  destruct a as [[t|] [n|] [v|]]; cbn [au_type au_name au_value units_option]; intros;
    (apply doc_fields; [reflexivity..|]); repeat constructor; done.
Qed.

Lemma clean_models_units l : Forall units l → Forall units (clean_models l).
Proof.
  intros H. unfold clean_models. apply Forall_forall. intros m Hm. apply elem_of_filter_b in Hm as [Hm _].
  apply list_elem_of_fmap in Hm as (x & -> & Hx). rewrite Forall_forall in H. apply units_trim. by apply H.
Qed.

Lemma doc_strings l : Forall units l → json_doc (JArray (map JString l)).
Proof. intros H. constructor. apply Forall_map. eapply Forall_impl; [exact H|]. intros. by constructor. Qed.

Lemma doc_route r : route_units r → json_doc (route_value (norm_route r)).
Proof.
  intros [Hi Hu Hc Hm Ha]. unfold norm_route, route_value. cbn [rt_incoming_path rt_upstream_path rt_converter rt_models
    rt_auth rt_pass_through_body_enabled].
  assert (json_doc (JString (default [] (rt_incoming_path r)))) by (constructor; by apply default_units).
  assert (json_doc (JString (r_upstream r))) by (constructor; apply units_trim; by apply default_units).
  assert (json_doc (JString (r_converter r))).
  { constructor. unfold r_converter. destruct (rt_converter r) as [[|c s]|]; done. }
  assert (json_doc (JArray (map JString (r_models r)))) as Hd.
  { apply doc_strings. apply clean_models_units. destruct (rt_models r); [by apply Hm|constructor]. }
  assert (∀ a, rt_auth r = Some a → json_doc (auth_value (norm_auth a))) as Hau.
  { intros a Ea. destruct (Ha a Ea) as (? & ? & ?). apply doc_auth; cbn; [done|by apply default_units..]. }
  destruct (r_models r) as [|m ms]; destruct (r_pass r); destruct (rt_auth r) as [a|]; cbn [fmap option_fmap option_map];
    (apply doc_fields; [reflexivity..|]);
    repeat first [apply Forall_nil_2 | apply Forall_cons; split; [cbn [snd]; solve [auto|constructor]|]].
Qed.

Lemma trimmed_models l : clean_models (clean_models l) = clean_models l.
Proof.
  unfold clean_models. induction l as [|m l IH]; [done|]. cbn [map List.filter]. destruct (negb (str_eqb (trim m) [])) eqn:E; [|done].
  cbn [map List.filter]. rewrite trim_idemp, E. by f_equal.
Qed.

Lemma norm_route_idemp r : norm_route (norm_route r) = norm_route r.
Proof.
  assert (r_upstream (norm_route r) = r_upstream r) as E1 by (unfold r_upstream; cbn; apply trim_idemp).
  assert (r_converter (norm_route r) = r_converter r) as E2.
  { unfold r_converter at 1. cbn. unfold r_converter. by destruct (rt_converter r) as [[|]|]. }
  assert (r_models (norm_route r) = r_models r) as E3.
  { assert (default [] (rt_models (norm_route r)) = r_models r) as E by (cbn; by destruct (r_models r)).
    unfold r_models at 1. rewrite E. apply trimmed_models. }
  assert (r_pass (norm_route r) = r_pass r) as E4 by (unfold r_pass at 1, norm_route; cbn; by destruct (r_pass r)).
  unfold norm_route at 1. rewrite E1, E2, E3, E4. unfold norm_route. cbn. f_equal. by destruct (rt_auth r).
Qed.

Lemma norm_route_auth r : has_auth_type r → has_auth_type (norm_route r).
Proof.
  intros Hr a. unfold norm_route. cbn. destruct (rt_auth r) as [a'|] eqn:E; [|done]. intros [= <-]. exact (Hr a' E).
Qed.

Lemma norm_config_idemp c : norm_config (norm_config c) = norm_config c.
Proof. unfold norm_config, routes_of. cbn. do 2 f_equal. rewrite map_map. apply map_ext, norm_route_idemp. Qed.

(** C35: For configurations of code-unit texts whose authentications have a type,
    normalising is idempotent, and a configuration that is written is read back
    normalised. *)
Theorem config_roundtrip c : Forall has_auth_type (routes_of c) → Forall route_units (routes_of c) →
  normalizeAdvancedCustomConfig (config_value c) = Ok (config_value (norm_config c))
  ∧ normalizeAdvancedCustomConfig (config_value (norm_config c)) = Ok (config_value (norm_config c))
  ∧ ∃ text, stringifyAdvancedCustomConfig (config_value c) = Ok text
      ∧ parseAdvancedCustomConfig (Some text) = Some (config_value (norm_config c)).
Proof.
  intros Ht Hu. assert (∀ c, Forall has_auth_type (routes_of c) →
    normalizeAdvancedCustomConfig (config_value c) = Ok (config_value (norm_config c))) as Hnorm.
  { clear. intros c H. unfold normalizeAdvancedCustomConfig. by rewrite norm_routes_value. }
  assert (normalizeAdvancedCustomConfig (config_value (norm_config c)) = Ok (config_value (norm_config c))) as Hid.
  { rewrite Hnorm; [by rewrite norm_config_idemp|]. unfold norm_config, routes_of. cbn. apply Forall_map.
    eapply Forall_impl; [exact Ht|]. apply norm_route_auth. }
  split; [by apply Hnorm|]. split; [done|]. unfold stringifyAdvancedCustomConfig. rewrite Hnorm by done.
  eexists. split; [done|]. unfold parseAdvancedCustomConfig.
  assert (json_doc (config_value (norm_config c))) as Hdoc.
  { apply doc_fields; [reflexivity..|]. constructor; [|constructor]. cbn [snd]. constructor. apply Forall_map.
    unfold routes_of in *. cbn. apply Forall_map. eapply Forall_impl; [exact Hu|]. apply doc_route. }
  unfold config_value in *. rewrite stringify2_object_trim, json_doc_roundtrip by done.
  match goal with |- context [JSON_stringify2 (JObject ?es)] => destruct (stringify2_object es) as [x ->] end.
  cbn [str_eqb]. by rewrite Hid.
Qed.

(** ** Validation *)
Definition auth_valid (o : option AdvancedCustomRouteAuth) : Prop :=
  match o with
  | None => True
  | Some a => au_type a = Some (js "none")
      ∨ (au_type a = Some (js "header") ∨ au_type a = Some (js "query"))
        ∧ trim (default [] (au_name a)) ≠ [] ∧ trim (default [] (au_value a)) ≠ []
  end.

Section Validity.
Context {url : UrlParser}.

(** What makes a route right after the ones before it. *)
Record valid_route (earlier : list AdvancedCustomRoute) (r : AdvancedCustomRoute) : Prop := {
  vr_path : starts_with (r_path r) (js "/") = true;
  vr_query : str_includes (r_path r) (js "?") = false;
  vr_management : isAdvancedCustomManagementPath (r_path r) = true →
    (∀ e, e ∈ earlier → r_path e ≠ r_path r) ∧ r_models r = [] ∧ r_converter r = js "none"
    ∧ str_includes (r_upstream r) (js "{model}") = false ∧ r_pass r = false;
  vr_same_path : ∀ e, e ∈ earlier → r_path e = r_path r →
    r_models e ≠ [] ∧ ∀ m, m ∈ r_models r → m ∉ r_models e;
  vr_models : NoDup (r_models r) ∧ ADVANCED_CUSTOM_MODEL_REGEX_PREFIX ∉ r_models r;
  vr_upstream : isFullHttpURLOrAbsolutePath (r_upstream r) = true ∧ r_upstream r ≠ [];
  vr_converter : r_converter r ∈ map co_value ADVANCED_CUSTOM_CONVERTER_OPTIONS
    ∧ isConverterPathAllowed (r_path r) (r_converter r) = true;
  vr_pass : r_pass r = true → r_converter r = js "none";
  vr_auth : auth_valid (rt_auth r);
}.

Definition valid_config (routes : list AdvancedCustomRoute) : Prop :=
  routes ≠ [] ∧ ∀ i r, routes !! i = Some r → valid_route (take i routes) r.

(** The state of the loop after some routes. *)
Record tracks (st : validation_state) (earlier : list AdvancedCustomRoute) : Prop := {
  tr_catch path : is_some (catchAllIndex (default (mkPath None []) (map_get path (routeModelsByPath st)))) = true ↔
    ∃ e, e ∈ earlier ∧ r_path e = path ∧ r_models e = [];
  tr_models path m : m ∈ (path_models (default (mkPath None []) (map_get path (routeModelsByPath st)))).*1 ↔
    ∃ e, e ∈ earlier ∧ r_path e = path ∧ m ∈ r_models e;
  tr_list : is_some (modelListRouteIndex st) = true ↔ ∃ e, e ∈ earlier ∧ r_path e = ADVANCED_CUSTOM_MODEL_LIST_PATH;
  tr_balance : is_some (balanceRouteIndex st) = true ↔ ∃ e, e ∈ earlier ∧ r_path e = ADVANCED_CUSTOM_BALANCE_PATH;
}.

(** A check ends well and [P] holds, or it points at the route and [P] fails. *)
Definition checks {A} (index : nat) (o : run A) (P : Prop) (Q : A → Prop) : Prop :=
  match o with
  | Ok a => P ∧ Q a
  | Throw (invalid e) => ve_routeIndex e = Some index ∧ ¬ P
  | _ => False
  end.

Lemma checks_reject {A} index b message (k : run A) (P : Prop) Q :
  (b = true → ¬ P) → (b = false → checks index k P Q) → checks index (_ ← reject b index message; k) P Q.
Proof. intros H1 H2. destruct b; cbn; [split; auto|auto]. Qed.

Lemma checks_bind {A B} index (o : run A) (P P' : Prop) (Q : A → Prop) (k : A → run B) Q' :
  checks index o P Q → (P' → P) → (∀ a, P → Q a → checks index (k a) P' Q') → checks index (o ≫= k) P' Q'.
Proof. destruct o as [a|[|e]|]; cbn; try done; [intros [HP HQ] _ H; by apply H|]. intros [Hi HP] H _. split; auto. Qed.

Lemma checks_weaken {A} index (o : run A) (P P' : Prop) (Q Q' : A → Prop) :
  checks index o P Q → (P ↔ P') → (∀ a, P → Q a → Q' a) → checks index o P' Q'.
Proof. destruct o as [a|[|e]|]; cbn; try done; intuition. Qed.

Lemma regex_rule_empty m :
  is_regex_rule m && str_eqb (getAdvancedCustomRegexModelPattern m) [] = true ↔ m = ADVANCED_CUSTOM_MODEL_REGEX_PREFIX.
Proof.
  unfold is_regex_rule, getAdvancedCustomRegexModelPattern. rewrite andb_true_iff, str_eqb_eq. split; [|by intros ->].
  intros [H%starts_with_inv E]. rewrite E, app_nil_r in H. done.
Qed.

Lemma validate_models_checks index models : ∀ seen known,
  checks index (validate_models index seen models known)
    (NoDup models ∧ (∀ m, m ∈ models → m ∉ seen ∧ m ∉ known.*1) ∧ ADVANCED_CUSTOM_MODEL_REGEX_PREFIX ∉ models)
    (λ known', ∀ m, m ∈ known'.*1 ↔ m ∈ known.*1 ∨ m ∈ models).
Proof.
  induction models as [|m models IH]; intros seen known; [cbn; split; [split; [constructor|set_solver]|set_solver]|].
  cbn [validate_models]. apply checks_reject.
  { intros E%regex_rule_empty (_ & _ & H). subst. set_solver. }
  intros Er. apply checks_reject; [intros E%has_true (_ & H & _); by destruct (H m ltac:(set_solver))|].
  intros Es%has_false. apply checks_reject.
  { intros E (_ & H & _). destruct (H m ltac:(set_solver)) as [_ Hk]. apply map_get_None in Hk. by rewrite Hk in E. }
  intros Ek. assert (m ∉ known.*1) as Hk by (apply map_get_None; by destruct (map_get m known)).
  eapply checks_weaken; [apply IH| |].
  - rewrite map_set_keys. setoid_rewrite elem_of_js_add. rewrite NoDup_cons.
    rewrite not_elem_of_cons. split.
    + intros (Hn & Hm & Hr). split; [split; [|done]; intros Hin; destruct (Hm m Hin); tauto|]. split.
      * intros x [->|Hx]%elem_of_cons; [done|]. destruct (Hm x Hx). tauto.
      * split; [|done]. intros <-. by rewrite (proj2 (regex_rule_empty _) eq_refl) in Er.
    + intros ([Hnm Hn] & Hm & _ & Hr). split; [done|]. split; [|done]. intros x Hx.
      destruct (Hm x ltac:(set_solver)) as [Ha Hb]. split; intros [Hc|Hc]; try done; by subst.
  - intros known' _ Hk' x. cbn beta in Hk'. rewrite Hk', map_set_keys, elem_of_js_add, elem_of_cons. tauto.
Qed.

(** The models of a route against the routes with its path. *)
Definition models_fit (earlier : list AdvancedCustomRoute) (r : AdvancedCustomRoute) : Prop :=
  (∀ e, e ∈ earlier → r_path e = r_path r → r_models e ≠ [] ∧ ∀ m, m ∈ r_models r → m ∉ r_models e)
  ∧ NoDup (r_models r) ∧ ADVANCED_CUSTOM_MODEL_REGEX_PREFIX ∉ r_models r.

Lemma route_models_checks st earlier r index : tracks st earlier →
  checks index (validateAdvancedCustomRouteModels index (r_path r) (r_models r) (routeModelsByPath st))
    (models_fit earlier r)
    (λ byPath, ∀ list balance, (is_some list = true ↔ ∃ e, e ∈ earlier ++ [r] ∧ r_path e = ADVANCED_CUSTOM_MODEL_LIST_PATH) →
       (is_some balance = true ↔ ∃ e, e ∈ earlier ++ [r] ∧ r_path e = ADVANCED_CUSTOM_BALANCE_PATH) →
       tracks (mkValidation byPath list balance) (earlier ++ [r])).
Proof.
  intros [Hc Hm _ _]. unfold validateAdvancedCustomRouteModels.
  set (state := default (mkPath None []) (map_get (r_path r) (routeModelsByPath st))).
  assert (∀ new, (is_some (catchAllIndex new) = true ↔ is_some (catchAllIndex state) = true ∨ r_models r = []) →
    (∀ m, m ∈ (path_models new).*1 ↔ m ∈ (path_models state).*1 ∨ m ∈ r_models r) →
    ∀ list balance, (is_some list = true ↔ ∃ e, e ∈ earlier ++ [r] ∧ r_path e = ADVANCED_CUSTOM_MODEL_LIST_PATH) →
       (is_some balance = true ↔ ∃ e, e ∈ earlier ++ [r] ∧ r_path e = ADVANCED_CUSTOM_BALANCE_PATH) →
       tracks (mkValidation (map_set (r_path r) new (routeModelsByPath st)) list balance) (earlier ++ [r])) as Hnew.
  { intros new Hn1 Hn2 list balance Hl Hb. constructor; try done; cbn [routeModelsByPath]; [intros path|intros path m];
      rewrite map_get_set; (destruct (decide (r_path r = path)) as [<-|Hp]; cbn [default from_option id]).
    - rewrite Hn1. unfold state. rewrite Hc. setoid_rewrite elem_of_app. setoid_rewrite list_elem_of_singleton. naive_solver.
    - rewrite Hc. setoid_rewrite elem_of_app. setoid_rewrite list_elem_of_singleton. naive_solver.
    - rewrite Hn2. unfold state. rewrite Hm. setoid_rewrite elem_of_app. setoid_rewrite list_elem_of_singleton. naive_solver.
    - rewrite Hm. setoid_rewrite elem_of_app. setoid_rewrite list_elem_of_singleton. naive_solver. }
  assert (is_some (catchAllIndex state) = true → ¬ models_fit earlier r) as Hcatch.
  { unfold state. intros (e & He & Hp & Hemp)%Hc [Hf _]. by destruct (Hf e He Hp). }
  assert (is_some (catchAllIndex state) = false → ∀ e, e ∈ earlier → r_path e = r_path r → r_models e ≠ []) as Hno.
  { intros Hf e He Hp Hemp. assert (is_some (catchAllIndex state) = true) as Ht by (apply Hc; by exists e). congruence. }
  destruct (r_models r) as [|m0 ms] eqn:Er.
  - apply checks_reject; [done|]. intros Hf. split.
    + split; [|split; [rewrite Er; constructor|rewrite Er; set_solver]]. intros e He Hp. split; [by apply Hno|].
      rewrite Er. set_solver.
    + apply Hnew; cbn; [tauto|]. intros m. set_solver.
  - apply checks_reject; [done|]. intros Hf. rewrite <- Er in *.
    eapply (checks_bind index _ _ (models_fit earlier r) _ _ _ (validate_models_checks index (r_models r) [] (path_models state))).
    + intros [H1 [H2 H3]]. split; [done|]. split; [|done]. intros m Hin. split; [set_solver|]. unfold state.
      rewrite Hm. intros (e & He & Hp & Hme). by apply (proj2 (H1 e He Hp) m).
    + intros known (Hnd & Hd & Hre) Hk. cbn beta in Hk. split.
      * split; [|done]. intros e He Hp. split; [by apply Hno|]. intros m Hin Hme. apply (proj2 (Hd m Hin)).
        unfold state. rewrite Hm. by exists e.
      * apply Hnew; cbn; [|done]. split; [auto|]. intros [?|E]; [done|]. congruence.
Qed.
(** The checks of a management route. *)
Definition management_fits (earlier : list AdvancedCustomRoute) (r : AdvancedCustomRoute) : Prop :=
  isAdvancedCustomManagementPath (r_path r) = true →
    (∀ e, e ∈ earlier → r_path e ≠ r_path r) ∧ r_models r = [] ∧ r_converter r = js "none"
    ∧ str_includes (r_upstream r) (js "{model}") = false ∧ r_pass r = false.

Definition pass_value (r : AdvancedCustomRoute) : jsval := default JUndefined (JBool <$> rt_pass_through_body_enabled r).

Lemma truthy_pass r : truthy (pass_value r) = r_pass r.
Proof. unfold pass_value, r_pass. by destruct (rt_pass_through_body_enabled r) as [[]|]. Qed.

Lemma seen_path_snoc earlier r path : (∃ e, e ∈ earlier ++ [r] ∧ r_path e = path) ↔ (∃ e, e ∈ earlier ∧ r_path e = path) ∨ r_path r = path.
Proof. setoid_rewrite elem_of_app. setoid_rewrite list_elem_of_singleton. naive_solver. Qed.

Lemma management_checks st earlier r index : tracks st earlier →
  checks index (if isAdvancedCustomManagementPath (r_path r)
      then validate_management index (r_path r) (r_upstream r) (JString (r_converter r)) (r_models r) (pass_value r) st else Ok st)
    (management_fits earlier r)
    (λ st', routeModelsByPath st' = routeModelsByPath st
      ∧ (is_some (modelListRouteIndex st') = true ↔ ∃ e, e ∈ earlier ++ [r] ∧ r_path e = ADVANCED_CUSTOM_MODEL_LIST_PATH)
      ∧ (is_some (balanceRouteIndex st') = true ↔ ∃ e, e ∈ earlier ++ [r] ∧ r_path e = ADVANCED_CUSTOM_BALANCE_PATH)).
Proof.
  intros [_ _ Hl Hb]. unfold management_fits, isAdvancedCustomManagementPath.
  destruct (str_eqb (r_path r) ADVANCED_CUSTOM_MODEL_LIST_PATH) eqn:E1;
    [|destruct (str_eqb (r_path r) ADVANCED_CUSTOM_BALANCE_PATH) eqn:E2]; cbn [orb]; str_hyps;
    [| |cbn; split; [done|]; rewrite !seen_path_snoc, Hl, Hb; naive_solver].
  all: unfold validate_management; rewrite ?E1, ?E2; cbn [str_eqb]; rewrite ?str_eqb_refl.
  2: assert (str_eqb ADVANCED_CUSTOM_BALANCE_PATH ADVANCED_CUSTOM_MODEL_LIST_PATH = false) as -> by reflexivity.
  all: apply checks_reject;
    [intros Hrej (H1 & _)%(λ H, H eq_refl); (apply Hl in Hrej || apply Hb in Hrej); destruct Hrej as (e & He & Hp); by apply (H1 e He)
    |intros N0].
  all: apply checks_reject; [intros Hrej (_ & H2 & _)%(λ H, H eq_refl); by rewrite H2 in Hrej|intros N1].
  all: apply checks_reject; [intros Hrej (_ & _ & H3 & _)%(λ H, H eq_refl); by rewrite H3 in Hrej|intros N2].
  all: apply checks_reject; [intros Hrej (_ & _ & _ & H4 & _)%(λ H, H eq_refl); congruence|intros N3].
  all: apply checks_reject; [rewrite truthy_pass; intros Hrej (_ & _ & _ & _ & H5)%(λ H, H eq_refl); congruence|rewrite truthy_pass; intros N4].
  all: cbn [checks routeModelsByPath modelListRouteIndex balanceRouteIndex is_some]; cbn [strict_equals] in N2.
  all: apply negb_false_iff in N2; str_hyps; apply Nat.ltb_ge in N1; rewrite !seen_path_snoc, ?Hl, ?Hb.
  all: split; [intros _; split; [intros e He Hp; first [assert (is_some (modelListRouteIndex st) = true) by (apply Hl; by exists e); congruence
    | assert (is_some (balanceRouteIndex st) = true) by (apply Hb; by exists e); congruence]|]; split; [by destruct (r_models r); simpl in *; [|lia]|done]|].
  all: split; [done|]. 
  - split; [split; auto|]. rewrite E1. split; [auto|]. intros [?|?]; done.
  - split; [|split; auto]. rewrite E2. split; [auto|]. intros [?|?]; done.
Qed.

Lemma auth_checks r : ∃ o, validateRouteAuth (default JUndefined (auth_value <$> rt_auth r)) = Ok o ∧ (o = None ↔ auth_valid (rt_auth r)).
Proof.
  destruct (rt_auth r) as [a|]; [|by exists None]. change (default JUndefined (auth_value <$> Some a)) with (auth_value a).
  unfold validateRouteAuth. change (truthy (auth_value a)) with true. destruct (get_auth_fields a) as (-> & -> & ->).
  cbn [negb mbind outcome_bind auth_valid]. destruct a as [t n v]; cbn [au_type au_name au_value].
  assert (∀ o, trim_or_empty (default JUndefined (JString <$> o)) = Ok (trim (default [] o))) as Htrim by (by intros []).
  rewrite !Htrim. cbn [mbind outcome_bind].
  destruct t as [t|]; [|eexists; split; [done|]; split; [done|]; intros [?|[[?|?] _]]; done].
  change (default JUndefined (JString <$> Some t)) with (JString t). cbn [strict_equals].
  destruct (str_eqb t (js "none")) eqn:E1; str_hyps; [subst; exists None; split; [done|]; split; auto|].
  destruct (str_eqb t (js "header")) eqn:E2; destruct (str_eqb t (js "query")) eqn:E3; cbn [negb andb]; str_hyps;
    try (destruct (str_eqb (trim (default [] n)) []) eqn:E4; [|destruct (str_eqb (trim (default [] v)) []) eqn:E5]); str_hyps;
    (eexists; split; [done|]); split; try done; try (intros _; right; subst; by auto); intros [?|[[?|?] [? ?]]]; congruence.
Qed.
Lemma incoming_of r : trim_or_empty (default JUndefined (JString <$> rt_incoming_path r)) = Ok (r_path r).
Proof. unfold r_path. by destruct (rt_incoming_path r). Qed.

Lemma converter_registered c :
  isAdvancedCustomConverter (JString c) = true ↔ c ∈ map co_value ADVANCED_CUSTOM_CONVERTER_OPTIONS.
Proof.
  unfold isAdvancedCustomConverter. rewrite existsb_exists, list_elem_of_fmap. split.
  - intros (o & Ho & E). cbn [strict_equals] in E. str_hyps. exists o. by rewrite list_elem_of_In.
  - intros (o & -> & Ho%list_elem_of_In). exists o. split; [done|]. apply str_eqb_refl.
Qed.

Lemma validate_route_checks st earlier r index : tracks st earlier →
  checks index (validate_route index (route_value r) st) (valid_route earlier r) (λ st', tracks st' (earlier ++ [r])).
Proof.
  intros Htr. unfold validate_route. rewrite get_incoming. cbn [mbind outcome_bind]. rewrite incoming_of, upstream_of.
  cbn [mbind outcome_bind]. rewrite get_converter, get_models. cbn [mbind outcome_bind]. rewrite models_of, get_pass, get_auth.
  cbn [mbind outcome_bind]. rewrite or_else_text. fold (r_converter r) (r_models r) (pass_value r). cbn [text_of].
  apply checks_reject; [intros E%str_eqb_eq [Hp]; by rewrite E in Hp|intros N1].
  apply checks_reject; [intros E%negb_true_iff [Hp]; congruence|intros N2%negb_false_iff].
  apply checks_reject; [intros E [_ Hq]; congruence|intros N3].
  eapply (checks_bind index _ _ _ _ _ _ (management_checks st earlier r index Htr)); [by intros []|].
  intros st' Hman (Hby & Hlist & Hbal). rewrite Hby.
  eapply (checks_bind index _ _ _ _ _ _ (route_models_checks st earlier r index Htr)); [intros []; by split|].
  intros byPath [Hsame Hmod] Htracks. cbn beta in Htracks. specialize (Htracks _ _ Hlist Hbal).
  apply checks_reject; [intros E%str_eqb_eq V; by apply (vr_upstream _ _ V)|intros N4].
  apply checks_reject; [intros E%negb_true_iff V; by rewrite (proj1 (vr_upstream _ _ V)) in E|intros N5%negb_false_iff].
  apply checks_reject.
  { intros E%negb_true_iff V. destruct (vr_converter _ _ V) as [Hc%converter_registered _]. congruence. }
  intros N6%negb_false_iff%converter_registered.
  apply checks_reject; [intros E%negb_true_iff V; by rewrite (proj2 (vr_converter _ _ V)) in E|intros N7%negb_false_iff].
  rewrite truthy_pass. unfold isAdvancedCustomPassThroughAllowed. apply checks_reject.
  { intros [Hp Hn]%andb_prop V. rewrite (vr_pass _ _ V Hp) in Hn. done. }
  intros N8. destruct (auth_checks r) as (o & -> & Ho). cbn [mbind outcome_bind]. destruct o as [message|].
  - cbn. split; [done|]. intros V. destruct Ho as [_ Ho]. by discriminate (Ho (vr_auth _ _ V)).
  - cbn. split; [|done]. constructor; try done; [by str_hyps; split| |by apply Ho].
    intros Hp. rewrite Hp in N8. cbn [andb] in N8. apply negb_false_iff in N8. by str_hyps.
Qed.

Lemma validate_routes_checks routes : ∀ earlier st index, tracks st earlier → index = length earlier →
  match validate_routes index (map route_value routes) st with
  | Ok _ => ∀ i r, routes !! i = Some r → valid_route (earlier ++ take i routes) r
  | Throw (invalid e) => ∃ i r, ve_routeIndex e = Some (index + i)%nat ∧ routes !! i = Some r
      ∧ ¬ valid_route (earlier ++ take i routes) r
      ∧ ∀ j r', (j < i)%nat → routes !! j = Some r' → valid_route (earlier ++ take j routes) r'
  | _ => False
  end.
Proof.
  induction routes as [|r routes IH]; intros earlier st index Htr Hi; [done|]. cbn [map validate_routes].
  pose proof (validate_route_checks st earlier r index Htr) as H.
  destruct (validate_route index (route_value r) st) as [st'|[|e]|]; cbn [mbind outcome_bind checks] in *; try done.
  - destruct H as [Hv Htr']. specialize (IH (earlier ++ [r]) st' (S index) Htr').
    rewrite length_app in IH. cbn [length] in IH. specialize (IH ltac:(lia)).
    assert (∀ k l, (earlier ++ [r]) ++ take k l = earlier ++ take (S k) (r :: l)) as Hap by (intros; by rewrite <- app_assoc).
    destruct (validate_routes _ _ _) as [st2|[|e]|]; try done.
    + intros [|i] r' Hr; cbn in Hr; [injection Hr as <-; cbn; by rewrite app_nil_r|]. rewrite <- Hap. by apply IH.
    + destruct IH as (i & r' & He & Hr & Hn & Hb). exists (S i), r'. rewrite <- Hap. split; [rewrite He; f_equal; lia|].
      split; [done|]. split; [done|]. intros [|j] r2 Hj Hr2; cbn in Hr2; [injection Hr2 as <-; cbn; by rewrite app_nil_r|].
      rewrite <- Hap. apply Hb; [lia|done].
  - destruct H as [He Hn]. exists 0%nat, r. cbn [take]. rewrite app_nil_r, Nat.add_0_r.
    split; [done|]. split; [done|]. split; [done|]. intros j r' Hj. lia.
Qed.

Lemma tracks_start : tracks validation_start [].
Proof. constructor; cbn; intros; set_solver. Qed.

(** An authentication without a type is normalised to one whose type is the
    undefined value; the validation reads the same of both. *)
Record reads_like (v w : jsval) : Prop := {
  rl_incoming : get v "incoming_path" = get w "incoming_path";
  rl_upstream : get v "upstream_path" = get w "upstream_path";
  rl_converter : get v "converter" = get w "converter";
  rl_models : get v "models" = get w "models";
  rl_pass : get v "pass_through_body_enabled" = get w "pass_through_body_enabled";
  rl_auth : ∃ a b, get v "auth" = Ok a ∧ get w "auth" = Ok b ∧ validateRouteAuth a = validateRouteAuth b;
}.

Lemma normalized_route_reads r : ∃ v, normalizeAdvancedCustomRoute (route_value r) = Ok v
  ∧ reads_like v (route_value (norm_route r)).
Proof.
  unfold normalizeAdvancedCustomRoute. rewrite get_incoming. cbn [mbind outcome_bind].
  rewrite upstream_of, get_converter, get_models. cbn [mbind outcome_bind]. rewrite models_of. cbn [mbind outcome_bind].
  rewrite get_pass, get_auth. cbn [mbind outcome_bind]. rewrite !or_else_text, or_text_empty.
  unfold norm_route, route_value. cbn [rt_incoming_path rt_upstream_path rt_converter rt_models rt_auth
    rt_pass_through_body_enabled]. unfold r_models, r_pass.
  destruct (rt_auth r) as [[ty name value]|].
  - change (default JUndefined (auth_value <$> Some ?a)) with (auth_value a). change (truthy (auth_value ?a)) with true.
    cbn iota. unfold normalized_auth. destruct (get_auth_fields (mkAuth ty name value)) as (-> & -> & ->).
    cbn [mbind outcome_bind au_type au_name au_value]. rewrite !or_else_text, !or_text_empty. eexists. split; [done|].
    destruct (clean_models _); destruct (rt_pass_through_body_enabled r) as [[]|]; (split; [reflexivity..|]);
      (eexists _, _; split; [reflexivity|]; split; [reflexivity|]); by destruct ty.
  - eexists. split; [done|].
    destruct (clean_models _); destruct (rt_pass_through_body_enabled r) as [[]|]; (split; [reflexivity..|]);
      (eexists _, _; split; [reflexivity|]; split; reflexivity).
Qed.

Lemma normalized_config_reads c : ∃ vs, normalized_routes (config_value c) = Ok vs
  ∧ Forall2 (λ v r, reads_like v (route_value r)) vs (map norm_route (routes_of c)).
Proof.
  unfold normalized_routes, routes_of. destruct c as [[l|]]; [|by exists []; split; [|constructor]].
  assert (get (config_value (mkConfig (Some l))) "advanced_routes" = Ok (JArray (map route_value l))) as -> by reflexivity.
  cbn [mbind outcome_bind cf_advanced_routes default]. induction l as [|r l (vs & IH & Hvs)]; [by exists []; split; [|constructor]|].
  destruct (normalized_route_reads r) as (v & Hv & Hr). exists (v :: vs). cbn [map map_run]. rewrite Hv. cbn [mbind outcome_bind].
  cbn [default] in IH. rewrite IH. split; [done|]. by constructor.
Qed.

Lemma validate_route_reads index v w st : reads_like v w → validate_route index v st = validate_route index w st.
Proof.
  intros [H1 H2 H3 H4 H5 (a & b & H6 & H7 & H8)]. unfold validate_route, getAdvancedCustomRouteUpstreamPath.
  rewrite H1, H2, H3, H4, H5, H6, H7. cbn [mbind outcome_bind]. by rewrite H8.
Qed.

Lemma validate_routes_read vs routes : ∀ index st, Forall2 (λ v r, reads_like v (route_value r)) vs routes →
  validate_routes index vs st = validate_routes index (map route_value routes) st.
Proof.
  intros index st H. revert index st. induction H as [|v r vs routes Hv _ IH]; intros index st; [done|].
  cbn [map validate_routes]. rewrite (validate_route_reads _ _ _ _ Hv). by destruct (validate_route _ _ _); cbn; auto.
Qed.

(** C34: The validation of a configuration of the declared types never throws.
    It answers no error exactly when the configuration has routes and each is
    right after the ones before it; when it has routes, an error always carries
    the index of the first route that is not right, and only the error about
    missing routes carries no index. *)
Theorem validation_decides_validity c :
  let routes := map norm_route (routes_of c) in
  ∃ o, validateAdvancedCustomConfig (Some (config_value c)) = Ok o
  ∧ (o = None ↔ valid_config routes)
  ∧ ∀ e, o = Some e →
      (routes = [] ∧ ve_routeIndex e = None) ∨
      ∃ i r, ve_routeIndex e = Some i ∧ routes !! i = Some r ∧ ¬ valid_route (take i routes) r
        ∧ ∀ j r', (j < i)%nat → routes !! j = Some r' → valid_route (take j routes) r'.
Proof.
  intros routes. unfold validateAdvancedCustomConfig. destruct (normalized_config_reads c) as (vs & -> & Hvs).
  fold routes in Hvs. cbn [mbind outcome_bind].
  destruct vs as [|v vs].
  { apply Forall2_nil_inv_l in Hvs. assert (routes = []) as -> by (by destruct routes).
    cbn. eexists. split; [done|]. split; [split; [done|by intros [? _]]|]. intros e [= <-]. by left. }
  assert (routes ≠ []) as Hne by (intros E; rewrite E in Hvs; inversion Hvs).
  rewrite (validate_routes_read _ _ _ _ Hvs).
  pose proof (validate_routes_checks routes [] validation_start 0 tracks_start eq_refl) as H.
  destruct (validate_routes 0 (map route_value routes) validation_start) as [st|[|e]|]; try done; eexists; (split; [done|]).
  - split; [|done]. by split.
  - destruct H as (i & r & He & Hr & Hn & Hb). split.
    + split; [done|]. intros [_ Hall]. by destruct Hn; apply Hall.
    + intros e' [= <-]. right. by exists i, r.
Qed.
End Validity.

(** ** Management and forwarding routes *)
Lemma map_run_Forall2 {A B} (f : A → run B) l l' : Forall2 (λ x y, f x = Ok y) l l' → map_run f l = Ok l'.
Proof. induction 1 as [|x y l l' Hx Hl IH]; [done|]. cbn [map_run]. rewrite Hx. cbn. by rewrite IH. Qed.

Section PureCallbacks.
Context {A : Type} (v : A → jsval) (f : jsval → run bool) (g : A → bool).
Context (l : list A) (Hf : ∀ x, x ∈ l → f (v x) = Ok (g x)).

Lemma find_run_pure : find_run f (map v l) = Ok (v <$> List.find g l).
Proof.
  induction l as [|x l' IH]; [done|]. cbn [map find_run List.find]. rewrite Hf by set_solver. cbn [mbind outcome_bind].
  destruct (g x); [done|]. apply IH. set_solver.
Qed.

Lemma filter_run_pure : filter_run f (map v l) = Ok (map v (List.filter g l)).
Proof.
  induction l as [|x l' IH]; [done|]. cbn [map filter_run List.filter]. rewrite Hf by set_solver. cbn [mbind outcome_bind].
  rewrite IH by set_solver. cbn. by destruct (g x).
Qed.

Fixpoint first_index (l : list A) : option nat :=
  match l with [] => None | x :: l' => if g x then Some 0%nat else S <$> first_index l' end.

Lemma findIndex_run_pure : findIndex_run f (map v l) = Ok (first_index l).
Proof.
  induction l as [|x l' IH]; [done|]. cbn [map findIndex_run first_index]. rewrite Hf by set_solver. cbn [mbind outcome_bind].
  destruct (g x); [done|]. by rewrite IH by set_solver.
Qed.

Lemma first_index_spec i : first_index l = Some i → ∃ a x b, l = a ++ x :: b ∧ length a = i ∧ g x = true ∧ List.filter g a = [].
Proof.
  clear Hf. revert i. induction l as [|x l' IH]; intros i; cbn [first_index]; [done|].
  destruct (g x) eqn:E; [intros [= <-]; by exists [], x, l'|]. destruct (first_index l') as [j|]; [|done].
  intros [= <-]. destruct (IH j eq_refl) as (a & y & b & -> & <- & Hy & Ha). exists (x :: a), y, b. cbn. by rewrite E.
Qed.

Lemma first_index_none : first_index l = None → List.filter g l = [] ∧ List.find g l = None.
Proof.
  clear Hf. induction l as [|x l' IH]; cbn [first_index List.filter List.find]; [done|]. destruct (g x); [done|].
  destruct (first_index l'); [done|]. auto.
Qed.
End PureCallbacks.

Lemma has_path_norm p r : has_path p (route_value (norm_route r)) = Ok (str_eqb (r_path (norm_route r)) p).
Proof. unfold has_path. by rewrite get_incoming. Qed.

Lemma is_management_norm r :
  is_management (route_value (norm_route r)) = Ok (isAdvancedCustomManagementPath (r_path (norm_route r))).
Proof. unfold is_management. rewrite get_incoming. cbn [mbind outcome_bind]. by rewrite incoming_of. Qed.

(** The route that is stored for a management path. *)
Definition management_route (p : jsstring) (r : AdvancedCustomRoute) : AdvancedCustomRoute :=
  mkRoute (Some p) (Some (r_upstream r)) (Some (js "none")) None (norm_auth <$> rt_auth r) None.

Lemma management_route_norm p r : norm_route (management_route p r) = management_route p r.
Proof.
  assert (r_upstream (management_route p r) = r_upstream r) as E by apply trim_idemp.
  unfold norm_route. rewrite E. unfold management_route. cbn. f_equal. by destruct (rt_auth r).
Qed.

Definition at_path (p : jsstring) (r : AdvancedCustomRoute) : bool := str_eqb (r_path r) p.

(** What [replaceAdvancedCustomManagementRoute] stores before it is normalised. *)
Lemma stored_management p r : has_auth_type r →
  normalizeAdvancedCustomRoute (JObject
    [(js "incoming_path", JString p);
     (js "upstream_path", or_else (default JUndefined (JString <$> rt_upstream_path r)) (JString []));
     (js "converter", JString (js "none")); (js "models", JArray []); (js "auth", default JUndefined (auth_value <$> rt_auth r))])
  = Ok (route_value (management_route p r)).
Proof.
  intros Hr. rewrite or_else_text, or_text_empty. set (up := JString (default [] (rt_upstream_path r))). set (au := default JUndefined (auth_value <$> rt_auth r)).
  set (o := JObject _). unfold normalizeAdvancedCustomRoute, getAdvancedCustomRouteUpstreamPath.
  assert (get o "incoming_path" = Ok (JString p) ∧ get o "upstream_path" = Ok up ∧ get o "converter" = Ok (JString (js "none"))
    ∧ get o "models" = Ok (JArray []) ∧ get o "pass_through_body_enabled" = Ok JUndefined ∧ get o "auth" = Ok au)
    as (-> & -> & -> & -> & -> & ->) by (repeat split; reflexivity).
  cbn [mbind outcome_bind]. assert (or_else up (JString []) = up) as -> by (unfold up; by destruct (default [] _)).
  unfold up. cbn [trim_of mbind outcome_bind normalizeAdvancedCustomRouteModels map_run]. fold (r_upstream r).
  assert (or_else (JString p) (JString []) = JString p) as -> by (by destruct p). unfold au.
  destruct (rt_auth r) as [a|] eqn:Ea; unfold management_route; rewrite Ea; [|done].
  change (default JUndefined (auth_value <$> Some a)) with (auth_value a). change (truthy (auth_value a)) with true. cbn iota.
  rewrite norm_auth_value by (by apply Hr). done.
Qed.

Definition put_management (p : jsstring) (new : AdvancedCustomRoute) (routes : list AdvancedCustomRoute) : list AdvancedCustomRoute :=
  match first_index (at_path p) routes with Some i => <[i := new]> routes | None => routes ++ [new] end.

Definition drop_management (p : jsstring) (routes : list AdvancedCustomRoute) : list AdvancedCustomRoute :=
  match first_index (at_path p) routes with Some i => delete i routes | None => routes end.

Definition other_paths (p : jsstring) (routes : list AdvancedCustomRoute) : list AdvancedCustomRoute :=
  List.filter (λ r, negb (at_path p r)) routes.

Lemma put_management_laws p new routes : at_path p new = true →
  List.find (at_path p) (put_management p new routes) = Some new
  ∧ other_paths p (put_management p new routes) = other_paths p routes.
Proof.
  intros Hnew. unfold put_management, other_paths. destruct (first_index (at_path p) routes) as [i|] eqn:E.
  - apply first_index_spec in E as (a & x & b & -> & <- & Hx & Ha). rewrite insert_app_r_alt, Nat.sub_diag by done. cbn [insert list_insert].
    rewrite !List.filter_app. cbn [List.filter]. rewrite Hx, Hnew. split; [|done].
    assert (∀ y, y ∈ a → at_path p y = false) as Hn.
    { intros y Hy. destruct (at_path p y) eqn:Ey; [|done]. assert (y ∈ List.filter (at_path p) a) as Hin by (by apply elem_of_filter_b).
      rewrite Ha in Hin. set_solver. }
    clear Ha. induction a as [|y a IH]; cbn [app List.find]; [by rewrite Hnew|]. rewrite Hn by set_solver. apply IH. set_solver.
  - apply first_index_none in E as [_ Hfind]. rewrite List.filter_app. cbn [List.filter]. rewrite Hnew. cbn [negb].
    rewrite app_nil_r. split; [|done]. induction routes as [|x l IH]; cbn [app List.find] in *; [by rewrite Hnew|].
    destruct (at_path p x); [done|]. by apply IH.
Qed.

Lemma drop_management_laws p routes :
  other_paths p (drop_management p routes) = other_paths p routes
  ∧ ((length (List.filter (at_path p) routes) ≤ 1)%nat → List.find (at_path p) (drop_management p routes) = None).
Proof.
  unfold drop_management, other_paths. destruct (first_index (at_path p) routes) as [i|] eqn:E.
  - apply first_index_spec in E as (a & x & b & -> & <- & Hx & Ha). rewrite delete_middle, !List.filter_app. cbn [List.filter].
    rewrite Hx. cbn [negb]. split; [done|]. rewrite Ha. cbn [app length]. intros Hlen.
    assert (List.filter (at_path p) (a ++ b) = []) as Hn.
    { rewrite List.filter_app, Ha. destruct (List.filter (at_path p) b); [done|simpl in Hlen; lia]. }
    destruct (List.find (at_path p) (a ++ b)) as [y|] eqn:Ef; [|done]. apply List.find_some in Ef as [Hin Hy].
    assert (y ∈ List.filter (at_path p) (a ++ b)) as Hy' by (apply elem_of_filter_b; by rewrite list_elem_of_In). rewrite Hn in Hy'. set_solver.
  - split; [done|]. intros _. by apply first_index_none in E as [_ ?].
Qed.

(** Routes in normal form. *)
Definition normal (r : AdvancedCustomRoute) : Prop := norm_route r = r ∧ has_auth_type r.

Lemma normal_routes c : Forall has_auth_type (routes_of c) → Forall normal (map norm_route (routes_of c)).
Proof.
  intros H. apply Forall_map. eapply Forall_impl; [exact H|]. intros r Hr. split; [apply norm_route_idemp|by apply norm_route_auth].
Qed.

Lemma normal_management p r : has_auth_type r → normal (management_route p r).
Proof.
  intros Hr. split; [apply management_route_norm|]. intros a Ea. cbn in Ea. destruct (rt_auth r) as [a'|] eqn:E; [|done].
  injection Ea as <-. exact (Hr a' E).
Qed.

Lemma normal_path p routes : Forall normal routes → ∀ x, x ∈ routes → has_path p (route_value x) = Ok (at_path p x).
Proof. rewrite Forall_forall. intros H x Hx. destruct (H x Hx) as [<- _]. apply has_path_norm. Qed.

Lemma normal_management_path routes : Forall normal routes →
  ∀ x, x ∈ routes → is_management (route_value x) = Ok (isAdvancedCustomManagementPath (r_path x)).
Proof. rewrite Forall_forall. intros H x Hx. destruct (H x Hx) as [<- _]. apply is_management_norm. Qed.

Lemma normal_value routes : Forall normal routes →
  Forall2 (λ x y, normalizeAdvancedCustomRoute x = Ok y) (map route_value routes) (map route_value routes).
Proof.
  intros H. induction H as [|r l [Hr Ht] Hl IH]; cbn [map]; constructor; [|done]. rewrite norm_route_value by done. by rewrite Hr.
Qed.

Lemma get_management_normal config p routes : normalized_routes config = Ok (map route_value routes) → Forall normal routes →
  getAdvancedCustomManagementRoute config p = Ok (route_value <$> List.find (at_path p) routes).
Proof.
  intros H Hn. unfold getAdvancedCustomManagementRoute. rewrite H. cbn [mbind outcome_bind].
  by apply find_run_pure, normal_path.
Qed.

(** A management route is a cell of the configuration: after it is replaced
    it is the one found at its path, after it is removed none is found there
    unless the path was listed twice, and either way every route at another path
    stays, in its order. *)
Theorem management_route_is_a_cell c p r : Forall has_auth_type (routes_of c) → has_auth_type r → trim p = p →
  let routes := map norm_route (routes_of c) in
  (∃ c' routes', replaceAdvancedCustomManagementRoute (config_value c) p (Some (route_value r)) = Ok c'
    ∧ normalized_routes c' = Ok (map route_value routes')
    ∧ getAdvancedCustomManagementRoute c' p = Ok (Some (route_value (management_route p r)))
    ∧ other_paths p routes' = other_paths p routes)
  ∧ (∃ c' routes', replaceAdvancedCustomManagementRoute (config_value c) p None = Ok c'
    ∧ normalized_routes c' = Ok (map route_value routes')
    ∧ ((length (List.filter (at_path p) routes) ≤ 1)%nat → getAdvancedCustomManagementRoute c' p = Ok None)
    ∧ other_paths p routes' = other_paths p routes).
Proof.
  intros Hc Hr Hp routes. pose proof (normal_routes c Hc) as Hn. fold routes in Hn. pose proof (normal_value _ Hn) as Hv.
  unfold replaceAdvancedCustomManagementRoute. rewrite norm_routes_value by done. fold routes. cbn [mbind outcome_bind].
  rewrite (findIndex_run_pure route_value _ _ _ (normal_path p _ Hn)). cbn [mbind outcome_bind].
  rewrite get_upstream, get_auth. cbn [mbind outcome_bind]. split.
  - assert (at_path p (management_route p r) = true) as Hat by (unfold at_path; change (r_path (management_route p r)) with (trim p); rewrite Hp; apply str_eqb_refl).
    destruct (put_management_laws p (management_route p r) routes Hat) as [Hf Ho].
    eexists _, (put_management p (management_route p r) routes). split; [done|].
    match goal with |- normalized_routes ?c' = _ ∧ _ => assert (normalized_routes c' = Ok (map route_value
      (put_management p (management_route p r) routes))) as Hnorm end.
    { unfold normalized_routes, put_management. apply map_run_Forall2. destruct (first_index _ _) as [i|].
      - change (map route_value (<[i:=?x]> routes)) with (route_value <$> <[i:=x]> routes). rewrite list_fmap_insert.
        apply Forall2_insert; [done|]. by apply stored_management.
      - rewrite map_app. apply Forall2_app; [done|]. constructor; [by apply stored_management|constructor]. }
    split; [done|]. split; [|done]. rewrite (get_management_normal _ p _ Hnorm); [by rewrite Hf|].
    unfold put_management. destruct (first_index _ _); [apply Forall_insert|apply Forall_app; split; [done|constructor; [|constructor]]];
      done || by apply normal_management.
  - destruct (drop_management_laws p routes) as [Ho Hf]. eexists _, (drop_management p routes). split; [done|].
    match goal with |- normalized_routes ?c' = _ ∧ _ => assert (normalized_routes c' = Ok (map route_value
      (drop_management p routes))) as Hnorm end.
    { unfold normalized_routes, drop_management. apply map_run_Forall2. destruct (first_index _ _) as [i|]; [|done].
      change (map route_value (delete i routes)) with (route_value <$> delete i routes). rewrite list_fmap_delete.
      by apply Forall2_delete. }
    split; [done|]. split; [|done]. intros Hlen. rewrite (get_management_normal _ p _ Hnorm); [by rewrite Hf|].
    unfold drop_management. destruct (first_index _ _); [by apply Forall_delete|done].
Qed.

(** Replacing the forwarding routes keeps the management routes in their
    order, and the forwarding routes are then the given ones. *)
Theorem forwarding_routes_replaced c new : Forall has_auth_type (routes_of c) → Forall normal new →
  Forall (λ r, isAdvancedCustomManagementPath (r_path r) = false) new →
  let management := List.filter (λ r, isAdvancedCustomManagementPath (r_path r)) in
  let forwarding := List.filter (λ r, negb (isAdvancedCustomManagementPath (r_path r))) in
  ∃ c' routes', replaceAdvancedCustomForwardingRoutes (config_value c) (map route_value new) = Ok c'
    ∧ normalized_routes c' = Ok (map route_value routes')
    ∧ management routes' = management (map norm_route (routes_of c)) ∧ forwarding routes' = new.
Proof.
  intros Hc Hnew Hfw management forwarding. set (routes := map norm_route (routes_of c)).
  pose proof (normal_routes c Hc) as Hn. fold routes in Hn.
  assert (∀ l, Forall normal l → filter_run is_management (map route_value l) = Ok (map route_value (management l))) as Hfil.
  { intros l Hl. apply filter_run_pure. by apply normal_management_path. }
  assert (∀ l, management (management l) = management l) as Hmm.
  { intros l. apply filter_all. intros x Hx. by apply elem_of_filter_b in Hx as [_ ?]. }
  assert (∀ l, forwarding (management l) = []) as Hfm.
  { intros l. apply filter_none. intros x Hx. apply elem_of_filter_b in Hx as [_ Hx]. by rewrite Hx. }
  rewrite Forall_forall in Hfw.
  assert (management new = []) as Hmn by (apply filter_none; intros x Hx; by apply Hfw).
  assert (forwarding new = new) as Hfn by (apply filter_all; intros x Hx; by rewrite Hfw).
  assert (∀ a b, Forall normal a → Forall normal b → ∃ routes', normalized_routes (config_of (map route_value (management a)
      ++ map route_value new ++ map route_value (management b))) = Ok (map route_value routes')
    ∧ management routes' = management (a ++ b) ∧ forwarding routes' = new) as Hgo.
  { intros a b Ha Hb. exists (management a ++ new ++ management b). split.
    - unfold normalized_routes. rewrite <- !map_app. apply map_run_Forall2, normal_value.
      repeat (apply Forall_app; split); try done; apply Forall_forall; intros x Hx; apply elem_of_filter_b in Hx as [Hx _];
        [by rewrite Forall_forall in Ha; apply Ha|by rewrite Forall_forall in Hb; apply Hb].
    - unfold management at 1, forwarding at 1. rewrite !List.filter_app. fold management forwarding.
      rewrite !Hmm, Hmn, !Hfm, Hfn, app_nil_r. split; [|done]. unfold management. by rewrite List.filter_app. }
  unfold replaceAdvancedCustomForwardingRoutes. rewrite norm_routes_value by done. fold routes. cbn [mbind outcome_bind].
  rewrite (findIndex_run_pure route_value _ (λ r, negb (isAdvancedCustomManagementPath (r_path r))))
    by (intros x Hx; by rewrite (normal_management_path _ Hn x Hx)).
  cbn [mbind outcome_bind]. rewrite Hfil by done. cbn [mbind outcome_bind]. destruct (first_index _ routes) as [i|].
  - change (take i (map route_value routes)) with (take i (route_value <$> routes)).
    change (drop i (map route_value routes)) with (drop i (route_value <$> routes)). rewrite <- fmap_take, <- fmap_drop.
    change (route_value <$> ?l) with (map route_value l).
    assert (Forall normal (take i routes) ∧ Forall normal (drop i routes)) as [Ht Hd] by (split; [by apply Forall_take|by apply Forall_drop]).
    rewrite !Hfil by done. cbn [mbind outcome_bind]. destruct (Hgo _ _ Ht Hd) as (routes' & H1 & H2 & H3).
    rewrite take_drop in H2. eexists _, routes'. by split.
  - destruct (Hgo routes [] Hn ltac:(constructor)) as (routes' & H1 & H2 & H3). rewrite !app_nil_r in H1, H2.
    eexists _, routes'. by split.
Qed.

(** ** Examples *)
Definition no_urls : UrlParser := λ _, None.

(** The templates pass the validation, whatever the URL parser. *)
Example templates_are_valid (url : UrlParser) : ∀ t, t ∈ ADVANCED_CUSTOM_TEMPLATE_OPTIONS →
  validateAdvancedCustomConfig (Some (config_value (tp_config t))) = Ok None.
Proof. intros t Ht. repeat (apply elem_of_cons in Ht as [->|Ht]; [vm_compute; reflexivity|]). set_solver. Qed.

(** A number typed as an incoming path is accepted by the reader, and the
    summary of the configuration then throws. *)
Example numeric_path_throws (url : UrlParser) :
  let text := jq "{`advanced_routes`: [{`incoming_path`: 5}]}" in
  is_some (parseAdvancedCustomConfig (Some text)) = true ∧ getAdvancedCustomStats (Some text) = Throw type_error.
Proof. split; vm_compute; reflexivity. Qed.

Definition sample_routes : AdvancedCustomConfig :=
  mkConfig (Some [createAdvancedCustomRoute; createAdvancedCustomManagementRoute ADVANCED_CUSTOM_MODEL_LIST_PATH]).

Lemma sample_routes_ok : Forall has_auth_type (routes_of sample_routes) ∧ Forall route_units (routes_of sample_routes).
Proof. split; repeat constructor; try done; intros l [= <-]; constructor. Qed.

Lemma config_roundtrip_witness : ∃ text, stringifyAdvancedCustomConfig (config_value sample_routes) = Ok text
  ∧ parseAdvancedCustomConfig (Some text) = Some (config_value (norm_config sample_routes)).
Proof.
  destruct (config_roundtrip sample_routes (proj1 sample_routes_ok) (proj2 sample_routes_ok)) as (_ & _ & H). exact H.
Defined.

Lemma management_route_is_a_cell_witness : ∃ c',
  replaceAdvancedCustomManagementRoute (config_value sample_routes) ADVANCED_CUSTOM_BALANCE_PATH
    (Some (route_value createAdvancedCustomRoute)) = Ok c'
  ∧ getAdvancedCustomManagementRoute c' ADVANCED_CUSTOM_BALANCE_PATH
    = Ok (Some (route_value (management_route ADVANCED_CUSTOM_BALANCE_PATH createAdvancedCustomRoute))).
Proof.
  destruct (management_route_is_a_cell sample_routes ADVANCED_CUSTOM_BALANCE_PATH createAdvancedCustomRoute
    (proj1 sample_routes_ok) ltac:(done) eq_refl) as [(c' & routes' & H1 & _ & H2 & _) _].
  exists c'. split; [exact H1|exact H2].
Defined.

Lemma forwarding_routes_replaced_witness : ∃ c' routes',
  replaceAdvancedCustomForwardingRoutes (config_value sample_routes) (map route_value [norm_route createAdvancedCustomRoute]) = Ok c'
  ∧ normalized_routes c' = Ok (map route_value routes')
  ∧ List.filter (λ r, negb (isAdvancedCustomManagementPath (r_path r))) routes' = [norm_route createAdvancedCustomRoute].
Proof.
  destruct (forwarding_routes_replaced sample_routes [norm_route createAdvancedCustomRoute] (proj1 sample_routes_ok))
    as (c' & routes' & H1 & H2 & _ & H3).
  - constructor; [split; [reflexivity|done]|constructor].
  - constructor; [reflexivity|constructor].
  - exists c', routes'. split; [exact H1|split; [exact H2|exact H3]].
Defined.
