(* ===== verification/ParamOverride.v ===== *)
(** * Parameter overrides of a channel: data and helpers

    Models the types, tables and helper functions of
    [web/src/features/channels/components/dialogs/param-override-editor-dialog.tsx]
    (everything before the component).  A parameter override is a JSON document;
    its new format lists operations, which the editor shows as forms whose
    values are texts.  The helpers turn parsed documents into forms and back,
    and validate the forms.  Identifiers come from a counter of the module
    ([localIdSeed]), so a helper that makes some is a computation on it. *)
From S2P Require Import Prelude JsString JsCollections JsNumber JsNumberFacts JsValue JsJson JsonText JsonSerialize JsDynamic Host.
Local Open Scope Z_scope.

(** [payload[key] = v] *)
Definition put (key : string) (v : jsval) (payload : list (jsstring * jsval)) : list (jsstring * jsval) :=
  put_property (js key) v payload.

(** [if (condition) payload[key] = v] *)
Definition put_if (condition : bool) (key : string) (v : jsval) (payload : list (jsstring * jsval)) :=
  if condition then put key v payload else payload.

Definition is_empty (s : jsstring) : bool := match s with [] => true | _ => false end.

(** ** The environment *)
Class EditorHost := {
  (** [Date.now()] when the identifier with this number was made *)
  date_now : nat → Z;
  (** [String.prototype.toUpperCase] *)
  toUpperCase : jsstring → jsstring;
  (** [error.message] of the [TypeError] of a conversion to a string *)
  conversion_message : jsstring;
  (** [t(key)] and [t(key, { line })] *)
  translate : jsstring → option nat → jsstring;
}.

(** ** Types *)
Record ParamOverrideCondition := mkCondition {
  c_id : jsstring;
  c_path : jsstring;
  c_mode : jsstring;
  c_value_text : jsstring;
  c_invert : bool;
  c_pass_missing_key : bool;
}.

Record ParamOverrideOperation := mkOperation {
  o_id : jsstring;
  o_description : jsstring;
  o_path : jsstring;
  o_mode : jsstring;
  o_from : jsstring;
  o_to : jsstring;
  o_value_text : jsstring;
  o_keep_origin : bool;
  o_logic : jsstring;
  o_conditions : list ParamOverrideCondition;
}.

(** ** Tables *)
Record mode_option := mkOption { mo_label : jsstring; mo_value : jsstring }.

Definition OPERATION_MODE_OPTIONS : list mode_option :=
  map (λ '(l, v), mkOption (js l) (js v))
  [("Set Field", "set"); ("Delete Field", "delete"); ("Append to End", "append"); ("Prepend to Start", "prepend");
   ("Copy Field", "copy"); ("Move Field", "move"); ("String Replace", "replace"); ("Regex Replace", "regex_replace");
   ("Trim Prefix", "trim_prefix"); ("Trim Suffix", "trim_suffix"); ("Ensure Prefix", "ensure_prefix");
   ("Ensure Suffix", "ensure_suffix"); ("Trim Space", "trim_space"); ("To Lowercase", "to_lower");
   ("To Uppercase", "to_upper"); ("Return Custom Error", "return_error"); ("Prune Object Items", "prune_objects");
   ("Pass Through Headers", "pass_headers"); ("Sync Fields", "sync_fields"); ("Set Request Header", "set_header");
   ("Delete Request Header", "delete_header"); ("Copy Request Header", "copy_header");
   ("Move Request Header", "move_header")]%string.

Definition OPERATION_MODE_VALUES : list jsstring := map mo_value OPERATION_MODE_OPTIONS.

Definition OPERATION_MODE_LABEL_MAP : list (jsstring * jsstring) :=
  fold_left (λ acc item, map_set (mo_value item) (mo_label item) acc) OPERATION_MODE_OPTIONS [].

Definition CONDITION_MODE_OPTIONS : list mode_option :=
  map (λ '(l, v), mkOption (js l) (js v))
  [("Exact Match", "full"); ("Prefix", "prefix"); ("Suffix", "suffix"); ("Contains", "contains");
   ("Greater Than", "gt"); ("Greater Than or Equal", "gte"); ("Less Than", "lt"); ("Less Than or Equal", "lte")]%string.

Definition CONDITION_MODE_VALUES : list jsstring := map mo_value CONDITION_MODE_OPTIONS.

(** [to] is [true], [false] or absent; the editor distinguishes the last two,
    the helpers below do not. *)
Record mode_meta := mkMeta {
  m_path : bool;
  m_pathOptional : bool;
  m_value : bool;
  m_from : bool;
  m_to : option bool;
  m_keepOrigin : bool;
  m_pathAlias : bool;
}.

Definition path_meta : mode_meta := mkMeta true false false false None false false.
Definition set_meta : mode_meta := mkMeta true false true false None true false.
Definition text_meta : mode_meta := mkMeta true false true false None false false.
Definition from_to_meta : mode_meta := mkMeta false false false true (Some true) false false.
Definition replace_meta : mode_meta := mkMeta true false false true (Some false) false false.
Definition header_copy_meta : mode_meta := mkMeta false false false true (Some true) true true.

Definition MODE_META : list (jsstring * mode_meta) :=
  map (λ '(mode, meta), (js mode, meta))
  [("delete", path_meta); ("set", set_meta); ("append", set_meta); ("prepend", set_meta); ("copy", from_to_meta);
   ("move", from_to_meta); ("replace", replace_meta); ("regex_replace", replace_meta); ("trim_prefix", text_meta);
   ("trim_suffix", text_meta); ("ensure_prefix", text_meta); ("ensure_suffix", text_meta); ("trim_space", path_meta);
   ("to_lower", path_meta); ("to_upper", path_meta); ("return_error", mkMeta false false true false None false false);
   ("prune_objects", mkMeta false true true false None false false);
   ("pass_headers", mkMeta false false true false None true false); ("sync_fields", from_to_meta);
   ("set_header", set_meta); ("delete_header", path_meta); ("copy_header", header_copy_meta);
   ("move_header", header_copy_meta)]%string.

(** [MODE_META[mode] || MODE_META.set]; the modes of operations are those of
    the table ([operation_wf] below), so none names a built-in of objects. *)
Definition meta_of (mode : jsstring) : mode_meta := default set_meta (map_get mode MODE_META).

Definition VALUE_REQUIRED_MODES : list jsstring := map js
  ["trim_prefix"; "trim_suffix"; "ensure_prefix"; "ensure_suffix"; "set_header"; "return_error"; "prune_objects";
   "pass_headers"]%string.
Definition FROM_REQUIRED_MODES : list jsstring := map js
  ["copy"; "move"; "replace"; "regex_replace"; "copy_header"; "move_header"; "sync_fields"]%string.
Definition TO_REQUIRED_MODES : list jsstring := map js
  ["copy"; "move"; "copy_header"; "move_header"; "sync_fields"]%string.

Definition MODE_DESCRIPTIONS : list (jsstring * jsstring) :=
  map (λ '(k, v), (js k, js v))
  [("set", "Write value to the target field"); ("delete", "Remove the target field");
   ("append", "Append value to array / string / object end"); ("prepend", "Prepend value to array / string / object start");
   ("copy", "Copy source field to target field"); ("move", "Move source field to target field");
   ("replace", "Do string replacement in the target field"); ("regex_replace", "Do regex replacement in the target field");
   ("trim_prefix", "Remove string prefix"); ("trim_suffix", "Remove string suffix");
   ("ensure_prefix", "Ensure the string has a specified prefix"); ("ensure_suffix", "Ensure the string has a specified suffix");
   ("trim_space", "Trim leading/trailing whitespace"); ("to_lower", "Convert string to lowercase");
   ("to_upper", "Convert string to uppercase"); ("return_error", "Return a custom error immediately");
   ("prune_objects", "Prune object items by conditions"); ("pass_headers", "Pass specified request headers to upstream");
   ("sync_fields", "Auto-fill when one field exists and another is missing");
   ("set_header", "Set runtime request header: override entire value, or manipulate comma-separated tokens");
   ("delete_header", "Delete a runtime request header"); ("copy_header", "Copy a request header");
   ("move_header", "Move a request header")]%string.

Definition SYNC_TARGET_TYPE_OPTIONS : list mode_option :=
  [mkOption (js "Request Body Field") (js "json"); mkOption (js "Request Header Field") (js "header")].

(** ** Templates *)
Definition obj (es : list (string * jsval)) : jsval := JObject (map (λ '(k, v), (js k, v)) es).
Definition text (s : string) : jsval := JString (js s).
Definition one_operation (es : list (string * jsval)) : jsval := obj [("operations"%string, JArray [obj es])].

Definition LEGACY_TEMPLATE : jsval :=
  obj [("temperature", JNumber num_zero); ("max_tokens", JNumber (num_of_Z 1000))]%string.

Definition OPERATION_TEMPLATE : jsval := one_operation
  [("description", text "Set default temperature for openai/* models."); ("path", text "temperature"); ("mode", text "set");
   ("value", JNumber (Number_of_string (js "0.7")));
   ("conditions", JArray [obj [("path", text "model"); ("mode", text "prefix"); ("value", text "openai/")]]);
   ("logic", text "AND")]%string.

Definition HEADER_PASSTHROUGH_TEMPLATE : jsval := one_operation
  [("description", text "Pass through X-Request-Id header to upstream."); ("mode", text "pass_headers");
   ("value", JArray [text "X-Request-Id"]); ("keep_origin", JBool true)]%string.

Definition GEMINI_IMAGE_4K_TEMPLATE : jsval := one_operation
  [("description", text "Set imageSize to 4K when model contains gemini/image and ends with 4k."); ("mode", text "set");
   ("path", text "generationConfig.imageConfig.imageSize"); ("value", text "4K");
   ("conditions", JArray
     [obj [("path", text "original_model"); ("mode", text "contains"); ("value", text "gemini")];
      obj [("path", text "original_model"); ("mode", text "contains"); ("value", text "image")];
      obj [("path", text "original_model"); ("mode", text "suffix"); ("value", text "4k")]]);
   ("logic", text "AND")]%string.

Definition CODEX_CLI_HEADER_PASSTHROUGH_HEADERS : list jsstring := map js
  ["Originator"; "Session_id"; "Thread_id"; "Session-Id"; "Thread-Id"; "X-Client-Request-Id"; "User-Agent";
   "X-Codex-Beta-Features"; "X-Codex-Turn-State"; "X-Codex-Turn-Metadata"; "X-Codex-Window-Id";
   "X-Codex-Parent-Thread-Id"; "X-OpenAI-Subagent"; "X-OpenAI-Memgen-Request"; "X-ResponsesAPI-Include-Timing-Metrics";
   "X-OpenAI-Internal-Codex-Responses-Lite"]%string.

Definition CLAUDE_CLI_HEADER_PASSTHROUGH_HEADERS : list jsstring := map js
  ["X-Stainless-Arch"; "X-Stainless-Lang"; "X-Stainless-Os"; "X-Stainless-Package-Version"; "X-Stainless-Retry-Count";
   "X-Stainless-Runtime"; "X-Stainless-Runtime-Version"; "X-Stainless-Timeout"; "User-Agent"; "X-App"; "Anthropic-Beta";
   "Anthropic-Dangerous-Direct-Browser-Access"; "Anthropic-Version"]%string.

Definition buildPassHeadersTemplate (headers : list jsstring) : jsval := one_operation
  [("mode", text "pass_headers"); ("value", JArray (map JString headers)); ("keep_origin", JBool true)]%string.

Definition CODEX_CLI_HEADER_PASSTHROUGH_TEMPLATE : jsval := one_operation
  [("mode", text "pass_headers"); ("value", JArray (map JString CODEX_CLI_HEADER_PASSTHROUGH_HEADERS));
   ("keep_origin", JBool true)]%string.
Definition CLAUDE_CLI_HEADER_PASSTHROUGH_TEMPLATE : jsval := buildPassHeadersTemplate CLAUDE_CLI_HEADER_PASSTHROUGH_HEADERS.

Definition AWS_BEDROCK_ANTHROPIC_COMPAT_TEMPLATE : jsval := obj [("operations"%string, JArray [
  obj [("description", text "Normalize anthropic-beta header tokens for Bedrock compatibility.");
    ("mode", text "set_header"); ("path", text "anthropic-beta");
    ("value", obj
      [("advanced-tool-use-2025-11-20", text "tool-search-tool-2025-10-19");
       ("bash_20241022", JNull); ("bash_20250124", JNull); ("code-execution-2025-08-25", JNull);
       ("compact-2026-01-12", text "compact-2026-01-12"); ("computer-use-2025-01-24", text "computer-use-2025-01-24");
       ("computer-use-2025-11-24", text "computer-use-2025-11-24"); ("context-1m-2025-08-07", text "context-1m-2025-08-07");
       ("context-management-2025-06-27", text "context-management-2025-06-27");
       ("effort-2025-11-24", JNull); ("fast-mode-2026-02-01", JNull); ("files-api-2025-04-14", JNull);
       ("fine-grained-tool-streaming-2025-05-14", JNull);
       ("interleaved-thinking-2025-05-14", text "interleaved-thinking-2025-05-14");
       ("mcp-client-2025-11-20", JNull); ("mcp-client-2025-04-04", JNull); ("mcp-servers-2025-12-04", JNull);
       ("output-128k-2025-02-19", JNull); ("structured-output-2024-03-01", JNull);
       ("prompt-caching-scope-2026-01-05", JNull); ("skills-2025-10-02", JNull); ("structured-outputs-2025-11-13", JNull);
       ("text_editor_20241022", JNull); ("text_editor_20250124", JNull); ("token-efficient-tools-2025-02-19", JNull);
       ("tool-search-tool-2025-10-19", text "tool-search-tool-2025-10-19"); ("web-fetch-2025-09-10", JNull);
       ("web-search-2025-03-05", JNull); ("oauth-2025-04-20", JNull)])];
  obj [("description", text "Remove all tools[*].custom.input_examples before upstream relay.");
    ("mode", text "delete"); ("path", text "tools.*.custom.input_examples")]])]%string.

Inductive template_kind := kind_operations | kind_legacy.

Record TemplatePresetConfig := mkPreset { tp_label : jsstring; tp_kind : template_kind; tp_payload : jsval }.

Definition operations_default : TemplatePresetConfig := mkPreset (js "New Format Template") kind_operations OPERATION_TEMPLATE.

Definition TEMPLATE_PRESET_CONFIG : list (jsstring * TemplatePresetConfig) :=
  [(js "operations_default", operations_default);
   (js "legacy_default", mkPreset (js "Legacy Format Template") kind_legacy LEGACY_TEMPLATE);
   (js "pass_headers_auth", mkPreset (js "Header Passthrough (X-Request-Id)") kind_operations HEADER_PASSTHROUGH_TEMPLATE);
   (js "gemini_image_4k", mkPreset (js "Gemini Image 4K") kind_operations GEMINI_IMAGE_4K_TEMPLATE);
   (js "claude_cli_headers_passthrough",
     mkPreset (js "Claude CLI Header Passthrough") kind_operations CLAUDE_CLI_HEADER_PASSTHROUGH_TEMPLATE);
   (js "codex_cli_headers_passthrough",
     mkPreset (js "Codex CLI Header Passthrough") kind_operations CODEX_CLI_HEADER_PASSTHROUGH_TEMPLATE);
   (js "aws_bedrock_anthropic_beta_override",
     mkPreset (js "AWS Bedrock Claude Compat") kind_operations AWS_BEDROCK_ANTHROPIC_COMPAT_TEMPLATE)].

(** ** Helpers *)
Section Helpers.
Context {host : Host} {editor : EditorHost}.

(** The identifier with a number, and the counter. *)
Definition local_id (n : nat) : jsstring :=
  js "po_" ++ string_of_Z (date_now n) ++ js "_" ++ string_of_Z (Z.of_nat n).

Definition nextLocalId : act nat jsstring := λ localIdSeed, (Ok (local_id localIdSeed), S localIdSeed).

(** [JSON.stringify] does not throw on parsed values. *)
Definition toValueText (value : jsval) : jsstring :=
  match value with
  | JUndefined => []
  | JString s => s
  | _ => JSON_stringify0 value
  end.

Definition parseLooseValue (valueText : jsstring) : jsval :=
  let raw := trim valueText in
  if is_empty raw then JString [] else match JSON_parse raw with Some v => v | None => JString raw end.

Definition verifyJSON (text : jsstring) : bool := match JSON_parse text with Some _ => true | None => false end.

(** [values.has(mode) ? mode : fallback] *)
Definition mode_or (values : list jsstring) (mode : jsval) (fallback : string) : jsstring :=
  match mode with JString m => if has values m then m else js fallback | _ => js fallback end.

(** [operation = {}] for a missing argument *)
Definition or_empty_object (v : jsval) : jsval := match v with JUndefined => JObject [] | _ => v end.

Definition normalizeCondition (condition : jsval) : act nat ParamOverrideCondition :=
  let condition := or_empty_object condition in
  id ← nextLocalId;
  path ← lift (property condition "path");
  mode ← lift (property condition "mode");
  value ← lift (property condition "value");
  invert ← lift (property condition "invert");
  pass_missing_key ← lift (property condition "pass_missing_key");
  mret (mkCondition id (string_or_empty path) (mode_or CONDITION_MODE_VALUES mode "full") (toValueText value)
    (strict_equals invert (JBool true)) (strict_equals pass_missing_key (JBool true))).

Definition createDefaultCondition : act nat ParamOverrideCondition := normalizeCondition (JObject []).

(** [Array.isArray(v) ? v.map(normalizeCondition) : []] *)
Definition conditions_of (v : jsval) : act nat (list ParamOverrideCondition) :=
  match v with JArray l => map_act normalizeCondition l | _ => mret [] end.

Definition normalizeOperation (operation : jsval) : act nat ParamOverrideOperation :=
  let operation := or_empty_object operation in
  id ← nextLocalId;
  description ← lift (property operation "description");
  path ← lift (property operation "path");
  mode ← lift (property operation "mode");
  value ← lift (property operation "value");
  keep_origin ← lift (property operation "keep_origin");
  from ← lift (property operation "from");
  to ← lift (property operation "to");
  rawLogic ← lift (property operation "logic");
  logic ← lift (String_of (or_else rawLogic (text "OR")));
  rawConditions ← lift (property operation "conditions");
  conditions ← conditions_of rawConditions;
  mret (mkOperation id (string_or_empty description) (string_or_empty path) (mode_or OPERATION_MODE_VALUES mode "set")
    (string_or_empty from) (string_or_empty to) (toValueText value) (strict_equals keep_origin (JBool true))
    (if str_eqb (toUpperCase logic) (js "AND") then js "AND" else js "OR") conditions).

Definition createDefaultOperation : act nat ParamOverrideOperation := normalizeOperation (obj [("mode"%string, text "set")]).

Inductive drop_position := before | after.

Definition has_id (id : jsstring) (o : ParamOverrideOperation) : bool := str_eqb (o_id o) id.

Definition reorderOperations (ops : list ParamOverrideOperation) (sourceId targetId : jsstring) (position : drop_position)
    : list ParamOverrideOperation :=
  if is_empty sourceId || is_empty targetId || str_eqb sourceId targetId then ops
  else match findIndex (has_id sourceId) ops with
    | None => ops
    | Some srcIdx =>
        match ops !! srcIdx with
        | None => ops
        | Some moved =>
            let next := delete srcIdx ops in
            match findIndex (has_id targetId) next with
            | None => ops
            | Some insertIdx => insert_at (match position with after => S insertIdx | before => insertIdx end) moved next
            end
        end
    end.

Definition isOperationBlank (operation : ParamOverrideOperation) : bool :=
  let hasCondition := existsb (λ c, negb (is_empty (trim (c_path c))) || negb (is_empty (trim (c_value_text c)))
    || negb (str_eqb (c_mode c) (js "full")) || c_invert c || c_pass_missing_key c) (o_conditions operation) in
  str_eqb (o_mode operation) (js "set") && is_empty (trim (o_path operation)) && is_empty (trim (o_from operation))
  && is_empty (trim (o_to operation)) && is_empty (trim (o_value_text operation)) && negb (o_keep_origin operation)
  && negb hasCondition.

Definition getOperationSummary (operation : ParamOverrideOperation) (index : nat) : jsstring :=
  let mode := or_text (o_mode operation) (js "set") in
  let modeLabel := or_text (default [] (map_get mode OPERATION_MODE_LABEL_MAP)) mode in
  let from := trim (o_from operation) in
  let to := trim (o_to operation) in
  let path := trim (o_path operation) in
  string_of_Z (Z.of_nat index + 1) ++ js ". " ++ modeLabel ++ [32; 183; 32]
  ++ (if str_eqb mode (js "sync_fields") then or_text from (or_text to (js "-"))
      else or_text path (or_text from (or_text to (js "-")))).

Definition getModeTagTailwind (mode : jsstring) : jsstring :=
  let includes part := str_includes mode (js part) in
  js (if includes "header" then "bg-cyan-500/15 text-cyan-700 dark:text-cyan-300 border-cyan-500/20"
      else if includes "replace" || includes "trim"
      then "bg-violet-500/15 text-violet-700 dark:text-violet-300 border-violet-500/20"
      else if includes "copy" || includes "move" then "bg-blue-500/15 text-blue-700 dark:text-blue-300 border-blue-500/20"
      else if includes "error" || includes "prune" then "bg-red-500/15 text-red-700 dark:text-red-300 border-red-500/20"
      else if includes "sync" then "bg-green-500/15 text-green-700 dark:text-green-300 border-green-500/20"
      else "bg-muted text-muted-foreground")%string.

Definition mode_is (mode : jsstring) (names : list string) : bool := str_in mode (map js names).

Definition getModePathLabel (mode : jsstring) : jsstring :=
  js (if mode_is mode ["set_header"; "delete_header"] then "Header Name"
      else if mode_is mode ["prune_objects"] then "Target Path (optional)" else "Target Field Path")%string.

Definition getModePathPlaceholder (mode : jsstring) : jsstring :=
  js (if mode_is mode ["set_header"] then "Authorization" else if mode_is mode ["delete_header"] then "X-Debug-Mode"
      else if mode_is mode ["prune_objects"] then "messages" else "temperature")%string.

Definition getModeFromLabel (mode : jsstring) : jsstring :=
  js (if mode_is mode ["replace"] then "Match Text" else if mode_is mode ["regex_replace"] then "Regex Pattern"
      else if mode_is mode ["copy_header"; "move_header"] then "Source Header" else "Source Field")%string.

Definition getModeFromPlaceholder (mode : jsstring) : jsstring :=
  js (if mode_is mode ["replace"] then "openai/" else if mode_is mode ["regex_replace"] then "^gpt-"
      else if mode_is mode ["copy_header"; "move_header"] then "Authorization" else "model")%string.

Definition getModeToLabel (mode : jsstring) : jsstring :=
  js (if mode_is mode ["replace"; "regex_replace"] then "Replace With"
      else if mode_is mode ["copy_header"; "move_header"] then "Target Header" else "Target Field")%string.

Definition getModeToPlaceholder (mode : jsstring) : jsstring :=
  js (if mode_is mode ["replace"] then "(leave empty to delete)" else if mode_is mode ["regex_replace"] then "openai/gpt-"
      else if mode_is mode ["copy_header"; "move_header"] then "X-Upstream-Auth" else "original_model")%string.

Definition affix_modes : list string := ["trim_prefix"; "trim_suffix"; "ensure_prefix"; "ensure_suffix"]%string.

Definition getModeValueLabel (mode : jsstring) : jsstring :=
  js (if mode_is mode ["set_header"] then "Header Value (supports string or JSON mapping)"
      else if mode_is mode ["pass_headers"] then "Pass-through Headers (comma-separated or JSON array)"
      else if mode_is mode affix_modes then "Prefix/Suffix Text"
      else if mode_is mode ["prune_objects"] then "Prune Rule (string or JSON object)"
      else "Value (supports JSON or plain text)")%string.

Definition getModeValuePlaceholder (mode : jsstring) : jsstring :=
  if mode_is mode ["set_header"%string] then js "Bearer sk-xxx"
  else if mode_is mode ["pass_headers"%string] then js "Authorization, X-Request-Id"
  else if mode_is mode affix_modes then js "openai/"
  else if mode_is mode ["prune_objects"%string] then jq "{`type`:`redacted_thinking`}"
  else js "0.7".

(** *** Targets of [sync_fields] *)

(** [s.indexOf(c)], [None] for [-1] *)
Definition index_of_char (c : jschar) (s : jsstring) : option nat := findIndex (λ d, d =? c) s.

Record sync_target := mkTarget { st_type : jsstring; st_key : jsstring }.

Definition parseSyncTargetSpec (spec : jsstring) : sync_target :=
  let raw := trim spec in
  if is_empty raw then mkTarget (js "json") []
  else match index_of_char 58 raw with
    | None => mkTarget (js "json") raw
    | Some idx =>
        let prefix := toLowerCase (trim (take idx raw)) in
        let key := trim (drop (S idx) raw) in
        if str_eqb prefix (js "header") then mkTarget (js "header") key else mkTarget (js "json") key
    end.

Definition buildSyncTargetSpec (type key : jsstring) : jsstring :=
  let normalizedType := if str_eqb type (js "header") then js "header" else js "json" in
  let normalizedKey := trim key in
  if is_empty normalizedKey then [] else normalizedType ++ js ":" ++ normalizedKey.

(** *** The value of [return_error] *)
Record ReturnErrorDraft := mkErrorDraft {
  rd_message : jsstring;
  rd_statusCode : number;
  rd_code : jsstring;
  rd_type : jsstring;
  rd_skipRetry : bool;
  rd_simpleMode : bool;
}.

(** [Number.isInteger(x) && x >= 100 && x <= 599 ? x : 400] *)
Definition status_or_400 (x : number) : number :=
  if isInteger x && num_leb (num_of_Z 100) x && num_leb x (num_of_Z 599) then x else num_of_Z 400.

Definition read_error_draft (parsed : jsval) : run ReturnErrorDraft :=
  status_code ← property parsed "status_code"; status ← property parsed "status";
  statusValue ← Number_of (match status_code with JUndefined => status | _ => status_code end);
  message ← property parsed "message"; msg ← property parsed "msg";
  messageText ← String_of (or_else message (or_else msg (JString [])));
  code ← property parsed "code"; codeText ← String_of (or_else code (JString []));
  type ← property parsed "type"; typeText ← String_of (or_else type (JString []));
  skip_retry ← property parsed "skip_retry";
  Ok (mkErrorDraft (trim messageText) (status_or_400 statusValue) (trim codeText) (trim typeText)
    (negb (strict_equals skip_retry (JBool false))) false).

Definition parseReturnErrorDraft (valueText : jsstring) : ReturnErrorDraft :=
  let defaults := mkErrorDraft [] (num_of_Z 400) [] [] true true in
  let raw := trim valueText in
  if is_empty raw then defaults
  else match JSON_parse raw with
    | Some (JObject es) =>
        match read_error_draft (JObject es) with
        | Ok draft => draft
        | _ => mkErrorDraft raw (num_of_Z 400) [] [] true true
        end
    | _ => mkErrorDraft raw (num_of_Z 400) [] [] true true
    end.

Definition buildReturnErrorValueText (draft : ReturnErrorDraft) : jsstring :=
  let message := trim (rd_message draft) in
  if rd_simpleMode draft then message
  else
    let payload := put "status_code" (JNumber (status_or_400 (rd_statusCode draft))) (put "message" (JString message) []) in
    let code := trim (rd_code draft) in
    let type := trim (rd_type draft) in
    let payload := put_if (negb (is_empty code)) "code" (JString code) payload in
    let payload := put_if (negb (is_empty type)) "type" (JString type) payload in
    let payload := put_if (negb (rd_skipRetry draft)) "skip_retry" (JBool false) payload in
    JSON_stringify0 (JObject payload).

(** *** The value of [prune_objects] *)
Record PruneRule := mkRule {
  pr_id : jsstring;
  pr_path : jsstring;
  pr_mode : jsstring;
  pr_value_text : jsstring;
  pr_invert : bool;
  pr_pass_missing_key : bool;
}.

Record PruneObjectsDraft := mkPruneDraft {
  pd_simpleMode : bool;
  pd_typeText : jsstring;
  pd_logic : jsstring;
  pd_recursive : bool;
  pd_rules : list PruneRule;
}.

Definition normalizePruneRule (rule : jsval) : act nat PruneRule :=
  let rule := or_empty_object rule in
  id ← nextLocalId;
  path ← lift (property rule "path");
  mode ← lift (property rule "mode");
  value ← lift (property rule "value");
  invert ← lift (property rule "invert");
  pass_missing_key ← lift (property rule "pass_missing_key");
  mret (mkRule id (string_or_empty path) (mode_or CONDITION_MODE_VALUES mode "full") (toValueText value)
    (strict_equals invert (JBool true)) (strict_equals pass_missing_key (JBool true))).

(** One rule per entry of an object: the entry's name equals its value. *)
Definition entry_rules (es : list (jsstring * jsval)) : act nat (list PruneRule) :=
  map_act (λ '(path, value), normalizePruneRule (obj [("path", JString path); ("mode", text "full"); ("value", value)]%string))
    (own_entries es).

(** [v === undefined ? '' : String(v)] *)
Definition text_or_empty (v : jsval) : run jsstring := match v with JUndefined => Ok [] | _ => String_of v end.

(** The rules of the property [where], and those of [conditions]. *)
Definition where_rules (v : jsval) : act nat (list PruneRule) := match v with JObject es => entry_rules es | _ => mret [] end.

Definition condition_rules (v : jsval) : act nat (list PruneRule) :=
  match v with
  | JArray items => map_act normalizePruneRule (List.filter is_object items)
  | JObject es => entry_rules es
  | _ => mret []
  end.

Definition read_prune_draft (parsed : jsval) : act nat PruneObjectsDraft :=
  where_ ← lift (property parsed "where");
  whereRules ← where_rules where_;
  conditions ← lift (property parsed "conditions");
  conditionRules ← condition_rules conditions;
  type ← lift (property parsed "type");
  typeText ← lift (text_or_empty type);
  rawLogic ← lift (property parsed "logic");
  logic ← lift (String_of (or_else rawLogic (text "AND")));
  recursive ← lift (property parsed "recursive");
  let present (v : jsval) := negb (strict_equals v JUndefined) in
  let hasAdvancedFields := present rawLogic || present recursive || present where_ || present conditions in
  mret (mkPruneDraft (negb hasAdvancedFields) (trim typeText)
    (if str_eqb (toUpperCase logic) (js "OR") then js "OR" else js "AND")
    (negb (strict_equals recursive (JBool false))) (whereRules ++ conditionRules)).

Definition simple_prune_draft (typeText : jsstring) : PruneObjectsDraft := mkPruneDraft true typeText (js "AND") true [].

Definition parsePruneObjectsDraft (valueText : jsstring) : act nat PruneObjectsDraft :=
  let raw := trim valueText in
  if is_empty raw then mret (simple_prune_draft [])
  else try_or (match JSON_parse raw with
    | None => mret (simple_prune_draft raw)
    | Some (JString s) => mret (simple_prune_draft (trim s))
    | Some (JObject es) => read_prune_draft (JObject es)
    | Some parsed => s ← lift (if is_nullish parsed then Ok [] else String_of parsed); mret (simple_prune_draft (trim s))
    end) (simple_prune_draft raw).

Definition prune_condition_payload (rule : PruneRule) : jsval :=
  let valueRaw := trim (pr_value_text rule) in
  let payload := put "mode" (JString (if has CONDITION_MODE_VALUES (pr_mode rule) then pr_mode rule else js "full"))
    (put "path" (JString (trim (pr_path rule))) []) in
  let payload := put_if (negb (is_empty valueRaw)) "value" (parseLooseValue valueRaw) payload in
  let payload := put_if (pr_invert rule) "invert" (JBool true) payload in
  JObject (put_if (pr_pass_missing_key rule) "pass_missing_key" (JBool true) payload).

Definition buildPruneObjectsValueText (draft : PruneObjectsDraft) : jsstring :=
  let typeText := trim (pd_typeText draft) in
  if pd_simpleMode draft then typeText
  else
    let payload := put_if (negb (is_empty typeText)) "type" (JString typeText) [] in
    let payload := put_if (str_eqb (toUpperCase (or_text (pd_logic draft) (js "AND"))) (js "OR")) "logic" (text "OR") payload in
    let payload := put_if (negb (pd_recursive draft)) "recursive" (JBool false) payload in
    let conditions := map prune_condition_payload
      (List.filter (λ rule, negb (is_empty (trim (pr_path rule)))) (pd_rules draft)) in
    let payload := put_if (negb (Nat.eqb (length conditions) 0)) "conditions" (JArray conditions) payload in
    if is_empty typeText && Nat.eqb (length conditions) 0 then JSON_stringify0 (obj [("logic"%string, text "AND")])
    else JSON_stringify0 (JObject payload).

(** *** The value of [pass_headers] *)

(** [items.map((i) => String(i ?? '').trim()).filter(Boolean)] *)
Definition header_names (items : list jsval) : run (list jsstring) :=
  names ← map_thrown (λ i, if is_nullish i then Ok [] else trim <$> String_of i) items;
  Ok (List.filter (λ name, negb (is_empty name)) names).

Definition parsePassHeaderNames (rawValue : jsval) : run (list jsstring) :=
  match rawValue with
  | JArray items => header_names items
  | JObject _ =>
      headers ← property rawValue "headers"; header ← property rawValue "header";
      match headers, header with
      | JArray items, _ => header_names items
      | _, JUndefined => Ok []
      | _, _ => header_names [header]
      end
  | JString s => Ok (List.filter (λ name, negb (is_empty name)) (map trim (split_char 44 s)))
  | _ => Ok []
  end.

(** *** Conditions *)
Definition buildConditionPayload (condition : ParamOverrideCondition) : option jsval :=
  let path := trim (c_path condition) in
  if is_empty path then None
  else
    let payload := put "value" (parseLooseValue (c_value_text condition))
      (put "mode" (JString (or_text (c_mode condition) (js "full"))) (put "path" (JString path) [])) in
    let payload := put_if (c_invert condition) "invert" (JBool true) payload in
    Some (JObject (put_if (c_pass_missing_key condition) "pass_missing_key" (JBool true) payload)).

(** *** Validation *)

(** [return t(message, { line })] *)
Definition at_line (line : nat) (message : string) : run (option jsstring) :=
  Ok (Some (translate (js message) (Some line))).

(** The checks of one operation; [None] when none of them returns. *)
Definition validate_operation (op : ParamOverrideOperation) (line : nat) : run (option jsstring) :=
  let mode := or_text (o_mode op) (js "set") in
  let meta := meta_of mode in
  let pathValue := trim (o_path op) in
  let fromValue := trim (o_from op) in
  let toValue := trim (o_to op) in
  let raw := trim (o_value_text op) in
  let aliased := m_pathAlias meta && negb (is_empty pathValue) in
  if m_path meta && is_empty pathValue then at_line line "Rule {{line}} is missing target path"
  else if has FROM_REQUIRED_MODES mode && is_empty fromValue && negb aliased
  then at_line line "Rule {{line}} is missing source field"
  else if has TO_REQUIRED_MODES mode && is_empty toValue && negb aliased
  then at_line line "Rule {{line}} is missing target field"
  else if has VALUE_REQUIRED_MODES mode && is_empty raw then at_line line "Rule {{line}} is missing value"
  else if str_eqb mode (js "return_error") then
    if is_empty raw then at_line line "Rule {{line}} is missing value"
    else match JSON_parse raw with
      | Some (JObject es) =>
          match (message ← property (JObject es) "message"; String_of (or_else message (JString []))) with
          | Ok message =>
              if is_empty (trim message) then at_line line "Rule {{line}} return_error requires a message field" else Ok None
          | _ => Ok None
          end
      | _ => Ok None
      end
  else if str_eqb mode (js "prune_objects") then
    if is_empty raw then at_line line "Rule {{line}} prune_objects is missing conditions" else Ok None
  else if str_eqb mode (js "pass_headers") then
    if is_empty raw then at_line line "Rule {{line}} pass_headers is missing header names"
    else
      headers ← parsePassHeaderNames (parseLooseValue raw);
      if Nat.eqb (length headers) 0 then at_line line "Rule {{line}} pass_headers format is invalid" else Ok None
  else Ok None.

(** The loop, from the line of its first operation. *)
Fixpoint validate_from (line : nat) (operations : list ParamOverrideOperation) : run jsstring :=
  match operations with
  | [] => Ok []
  | op :: rest =>
      message ← validate_operation op line;
      match message with Some m => Ok m | None => validate_from (S line) rest end
  end.

Definition validateOperations (operations : list ParamOverrideOperation) : run jsstring := validate_from 1 operations.

(** *** Opening a document *)
Inductive edit_mode := edit_visual | edit_json.
Inductive visual_mode := visual_operations | visual_legacy.

Record EditorState := mkEditorState {
  es_editMode : edit_mode;
  es_visualMode : visual_mode;
  es_legacyValue : jsstring;
  es_operations : list ParamOverrideOperation;
  es_jsonText : jsstring;
  es_jsonError : jsstring;
}.

(** [items.length > 0 ? items.map(normalizeOperation) : [createDefaultOperation()]] *)
Definition operations_of (items : list jsval) : act nat (list ParamOverrideOperation) :=
  match items with
  | [] => o ← createDefaultOperation; mret [o]
  | _ => map_act normalizeOperation items
  end.

Definition parseInitialState (rawValue : jsstring) : act nat EditorState :=
  let trimmed := trim rawValue in
  if is_empty trimmed then
    o ← createDefaultOperation; mret (mkEditorState edit_visual visual_operations [] [o] [] [])
  else match JSON_parse trimmed with
    | None =>
        o ← createDefaultOperation;
        mret (mkEditorState edit_json visual_operations [] [o] rawValue (js "Invalid JSON format"))
    | Some parsed =>
        let pretty := JSON_stringify2 parsed in
        match parsed with
        | JObject _ =>
            operations ← lift (property parsed "operations");
            match operations with
            | JArray items =>
                ops ← operations_of items;
                mret (mkEditorState edit_visual visual_operations [] ops pretty [])
            | _ => o ← createDefaultOperation; mret (mkEditorState edit_visual visual_legacy pretty [o] pretty [])
            end
        | _ => o ← createDefaultOperation; mret (mkEditorState edit_json visual_operations [] [o] pretty [])
        end
    end.

(** *** Writing a document *)
Definition operation_payload (operation : ParamOverrideOperation) : jsval :=
  let mode := or_text (o_mode operation) (js "set") in
  let meta := meta_of mode in
  let descriptionValue := trim (o_description operation) in
  let pathValue := trim (o_path operation) in
  let fromValue := trim (o_from operation) in
  let toValue := trim (o_to operation) in
  let to_field := default false (m_to meta) in
  let payload := put "mode" (JString mode) [] in
  let payload := put_if (negb (is_empty descriptionValue)) "description" (JString descriptionValue) payload in
  let payload := put_if (m_path meta) "path" (JString pathValue) payload in
  let payload := put_if (m_pathOptional meta && negb (is_empty pathValue)) "path" (JString pathValue) payload in
  let payload := put_if (m_value meta) "value" (parseLooseValue (o_value_text operation)) payload in
  let payload := put_if (m_keepOrigin meta && o_keep_origin operation) "keep_origin" (JBool true) payload in
  let payload := put_if (m_from meta) "from" (JString fromValue) payload in
  let payload := put_if (negb to_field && negb (is_empty toValue)) "to" (JString toValue) payload in
  let payload := put_if to_field "to" (JString toValue) payload in
  let payload :=
    if m_pathAlias meta then
      let missing key payload := negb (truthy (default JUndefined (own_property (js key) payload))) in
      let payload := put_if (missing "from"%string payload && negb (is_empty pathValue)) "from" (JString pathValue) payload in
      put_if (missing "to"%string payload && negb (is_empty pathValue)) "to" (JString pathValue) payload
    else payload in
  let conditions := omap buildConditionPayload (o_conditions operation) in
  JObject (if Nat.eqb (length conditions) 0 then payload
    else put "logic" (if str_eqb (o_logic operation) (js "AND") then text "AND" else text "OR")
      (put "conditions" (JArray conditions) payload)).

Definition operations_document (ops : list ParamOverrideOperation) : jsval :=
  JObject [(js "operations", JArray (map operation_payload ops))].

Definition buildOperationsJson (sourceOperations : list ParamOverrideOperation) (validate : bool) : run jsstring :=
  let filteredOps := List.filter (λ o, negb (isOperationBlank o)) sourceOperations in
  match filteredOps with
  | [] => Ok []
  | _ =>
      _ ← (if validate then
             message ← validateOperations filteredOps;
             if is_empty message then Ok tt else Throw (Err message)
           else Ok tt);
      Ok (JSON_stringify2 (operations_document filteredOps))
  end.
End Helpers.
