(* ===== verification/ParamValueFacts.v ===== *)
(** * Values of parameter overrides

    Values are texts in the forms of the editor.  Here: what a text becomes when
    it is saved as a value and read again ([loose_roundtrip]), the conversions
    that do not depend on how a value was written, and the same for the
    conditions of an operation. *)
From S2P Require Import Prelude JsString JsCollections JsNumber JsNumberFacts JsValue JsDynamic JsJson JsonText JsonSerialize Host ParamOverride.
Local Open Scope Z_scope.

(** ** The environment *)

(** Upper-casing an ASCII code unit. *)
Definition ascii_upper (c : jschar) : jschar := if is_lower c then c - 32 else c.

(** What the proofs use of the environment: upper-casing agrees with the ASCII
    mapping on ASCII strings, and the message of a key is not empty. *)
Class EditorLaws (editor : EditorHost) := {
  toUpperCase_ascii s : forallb is_ascii s = true → toUpperCase s = map ascii_upper s;
  translate_nonempty key line : key ≠ [] → translate key line ≠ [];
}.

(** An environment that satisfies them. *)
Definition plain_editor : EditorHost := {|
  date_now _ := 1700000000000;
  toUpperCase := map ascii_upper;
  conversion_message := js "Cannot convert object to primitive value";
  translate key line := key ++ js "@" ++ match line with Some n => string_of_Z (Z.of_nat n) | None => [] end;
|}.

#[export] Instance plain_editor_laws : EditorLaws plain_editor.
Proof. split; [done|]. intros key line _ H. apply (f_equal length) in H. cbn in H. rewrite !length_app in H. cbn in H. lia. Qed.

(** ** Texts *)
Lemma is_empty_true s : is_empty s = true ↔ s = [].
Proof. by destruct s. Qed.

Lemma is_empty_false s : is_empty s = false ↔ s ≠ [].
Proof. by destruct s. Qed.

Lemma trim_nil_of s : is_empty (trim (trim s)) = is_empty (trim s).
Proof. by rewrite trim_idemp. Qed.

Lemma positive_no_space m e : bounded num_prec num_emax m e = true →
  forallb (λ c, negb (is_space c)) (positive_to_string m e) = true.
Proof.
  intros Hb. destruct (positive_to_string_numeral m e Hb) as (s & E & Hn & _). apply numeral_chars in Hn.
  rewrite forallb_forall in *. intros c Hc. by rewrite numeral_char_not_space by auto.
Qed.

Lemma number_trim x : valid_number x = true → isFinite x = true → trim (String_of_number x) = String_of_number x.
Proof.
  intros Hv Hf. destruct x as [s|[]| |[] m e]; try done; apply trim_no_space; cbn [String_of_number app];
    rewrite ?forallb_app, positive_no_space by done; done.
Qed.

Lemma gap_block_ends open close gap indent ts : ∃ x, gap_block open close gap indent ts = open :: x ++ [close].
Proof. destruct ts as [|t ts]; [by exists []|]. rewrite gap_block_cons by done. eexists. by rewrite !app_assoc. Qed.

(** A text of [JSON.stringify] has no space around it. *)
Lemma stringify0_trim v : json_clean v → trim (JSON_stringify0 v) = JSON_stringify0 v ∧ JSON_stringify0 v ≠ [].
Proof.
  intros Hv. split; [|destruct (serialize_reads v Hv 0 0) as (t & Et & _ & Ht); unfold JSON_stringify0; by rewrite Et].
  unfold JSON_stringify0. destruct Hv as [|b|x Hx|s Hs|l Hl|es Hn Hes]; cbn [serialize default].
  - done.
  - by destruct b.
  - change (default ?d (Some ?x)) with x. destruct (isFinite x) eqn:E; [by apply number_trim|done].
  - unfold JSON_stringify. by apply trim_ends.
  - match goal with |- context [gap_block ?a ?b ?c ?d ?e] => destruct (gap_block_ends a b c d e) as [x ->] end. by apply trim_ends.
  - match goal with |- context [gap_block ?a ?b ?c ?d ?e] => destruct (gap_block_ends a b c d e) as [x ->] end. by apply trim_ends.
Qed.

(** ** Values *)

(** No number of a value overflows. *)
Fixpoint finite_value (v : jsval) : bool :=
  match v with
  | JNumber x => isFinite x
  | JArray l => forallb finite_value l
  | JObject es => forallb (λ e, finite_value (snd e)) es
  | _ => true
  end.

(** A value text that is not a quoted JSON string and does not overflow. *)
Definition settled (s : jsstring) : bool :=
  match JSON_parse (trim s) with
  | Some (JString _) => false
  | Some v => finite_value v
  | None => true
  end.

(** The value text after saving and reopening. *)
Definition reopened_text (s : jsstring) : jsstring := toValueText (canon (parseLooseValue s)).

Lemma parseLooseValue_empty s : trim s = [] → parseLooseValue s = JString [].
Proof. intros H. unfold parseLooseValue. by rewrite H. Qed.

Lemma parseLooseValue_trim s : parseLooseValue (trim s) = parseLooseValue s.
Proof. unfold parseLooseValue. by rewrite trim_idemp. Qed.

(** What a value text is read as. *)
Lemma loose_cases s : units s → settled s = true →
  (parseLooseValue s = JString (trim s) ∧ reopened_text s = trim s ∧ (JSON_parse (trim s) = None ∨ trim s = []))
  ∨ (∃ v, parseLooseValue s = v ∧ JSON_parse (trim s) = Some v ∧ json_clean v ∧ finite_value v = true
       ∧ is_string v = false ∧ reopened_text s = JSON_stringify0 v).
Proof.
  intros Hu Hs. unfold settled in Hs. unfold reopened_text, parseLooseValue.
  destruct (is_empty (trim s)) eqn:E; [apply is_empty_true in E; rewrite E; left; auto|].
  destruct (JSON_parse (trim s)) as [v|] eqn:Ep; [|left; auto]. right. exists v.
  assert (json_clean v) as Hc by (eapply JSON_parse_clean; [by apply units_trim|done]).
  assert (JSON_stringify0 (canon v) = JSON_stringify0 v) as Hsame by (unfold JSON_stringify0; by rewrite serialize_canon).
  repeat (split; [try done; by destruct v|]).
  destruct v as [| |b|x|q|l|es]; try done; try (by inversion Hc). rewrite <- Hsame. cbn [canon]. by destruct (isFinite x).
Qed.

(** A settled value is read back as itself, up to its canonical form. *)
Lemma loose_roundtrip s : units s → settled s = true → parseLooseValue (reopened_text s) = canon (parseLooseValue s).
Proof.
  intros Hu Hs. destruct (loose_cases s Hu Hs) as [(E & -> & _)|(v & -> & Ep & Hc & _ & Hv & ->)].
  - by rewrite parseLooseValue_trim, E.
  - destruct (stringify0_trim v Hc) as [Ht Hne]. unfold parseLooseValue. rewrite Ht, stringify0_parse by done.
    by rewrite (proj2 (is_empty_false _) Hne).
Qed.

(** It stays present. *)
Lemma reopened_nonempty s : units s → settled s = true → trim s ≠ [] → trim (reopened_text s) ≠ [].
Proof.
  intros Hu Hs Hne. destruct (loose_cases s Hu Hs) as [(_ & -> & _)|(v & _ & _ & Hc & _ & _ & ->)]; [by rewrite trim_idemp|].
  by destruct (stringify0_trim v Hc) as [-> ?].
Qed.

(** ** Canonical forms *)
Definition canon_entries (es : list (jsstring * jsval)) : list (jsstring * jsval) := map (λ '(k, x), (k, canon x)) es.

Lemma canon_idemp v : canon (canon v) = canon v.
Proof.
  revert v. fix IH 1. intros [| |b|x|s|l|es]; try reflexivity; cbn [canon].
  - destruct (isFinite x) eqn:E; [|reflexivity]. cbn [canon]. destruct x; try discriminate; reflexivity.
  - f_equal. induction l as [|x l IHl]; [reflexivity|]. cbn [map]. rewrite IH. f_equal. exact IHl.
  - f_equal. rewrite (own_entries_map (λ _ x, canon x)), own_entries_idemp, <- (own_entries_map (λ _ x, canon x)). f_equal.
    induction es as [|[k x] es IHes]; [reflexivity|]. cbn [map]. rewrite IH. f_equal. exact IHes.
Qed.

Lemma canon_entries_put key v es : canon_entries (put key v es) = put key (canon v) (canon_entries es).
Proof.
  unfold put, canon_entries. induction es as [|[k x] es IH]; cbn [put_property map]; [done|].
  destruct (str_eqb k (js key)); cbn [map]; [done|]. by rewrite <- IH.
Qed.

Lemma canon_entries_put_if b key v es :
  canon_entries (put_if b key v es) = put_if b key (canon v) (canon_entries es).
Proof. destruct b; [apply canon_entries_put|done]. Qed.

Lemma put_NoDup key v es : NoDup es.*1 → NoDup (put key v es).*1.
Proof. apply put_property_NoDup. Qed.

Lemma put_if_NoDup b key v es : NoDup es.*1 → NoDup (put_if b key v es).*1.
Proof. destruct b; [apply put_NoDup|done]. Qed.

(** A property read from the canonical form of an object. *)
Definition look (es : list (jsstring * jsval)) (key : string) : jsval := default JUndefined (own_property (js key) es).

Lemma property_look es key : property (JObject es) key = Ok (look es key).
Proof. done. Qed.

Lemma look_canon es key : NoDup es.*1 → look (own_entries (canon_entries es)) key = canon (look es key).
Proof. intros Hn. unfold look. rewrite own_property_canon by done. by destruct (own_property _ es). Qed.

Lemma own_property_Forall (P : jsval → Prop) key es v :
  Forall (λ e, P (snd e)) es → own_property key es = Some v → P v.
Proof.
  rewrite own_property_map_get. intros HP H%map_get_In. rewrite Forall_forall in HP. exact (HP _ H).
Qed.

Lemma truthy_canon v : finite_value v = true → truthy (canon v) = truthy v.
Proof. destruct v as [| |b|x|s|l|es]; try done. cbn. intros ->. by destruct x. Qed.

Lemma nullish_canon v : finite_value v = true → is_nullish (canon v) = is_nullish v.
Proof. destruct v as [| |b|x|s|l|es]; try done. cbn. by intros ->. Qed.

(** [String(v)] does not depend on the order of properties or the sign of zero. *)
Lemma String_of_canon v : json_clean v → finite_value v = true → String_of (canon v) = String_of v.
Proof.
  revert v. fix IH 2. intros v [|b|x Hx|s Hs|l Hl|es Hn Hes] Hf; try reflexivity.
  - cbn in *. rewrite Hf. destruct x; try discriminate; reflexivity.
  - cbn [String_of canon]. f_equal. cbn [finite_value] in Hf. revert Hf.
    induction Hl as [|x l Hx Hl IHl]; intros Hf; [reflexivity|]. cbn [map forallb] in *.
    apply andb_prop in Hf as [Hf1 Hf2]. rewrite (nullish_canon x Hf1), (IH x Hx Hf1), (IHl Hf2). reflexivity.
  - cbn [String_of canon]. rewrite own_property_canon by exact Hn. by destruct (own_property _ es).
Qed.

Lemma header_names_canon l : Forall json_clean l → forallb finite_value l = true → header_names (map canon l) = header_names l.
Proof.
  intros Hc Hf. unfold header_names. f_equal. revert Hf. induction Hc as [|x l Hx Hl IH]; intros Hf; [done|].
  cbn [forallb map map_thrown] in *. apply andb_prop in Hf as [Hf1 Hf2].
  by rewrite nullish_canon, String_of_canon, IH.
Qed.

Lemma finite_look es key : finite_value (JObject es) = true → finite_value (look es key) = true.
Proof.
  cbn. intros H. unfold look. destruct (own_property (js key) es) as [v|] eqn:E; [|done].
  apply (own_property_Forall (λ v, finite_value v = true) _ _ _) in E; [done|].
  rewrite Forall_forall. rewrite forallb_forall in H. intros e He. apply H. by apply list_elem_of_In.
Qed.

Lemma clean_look es key : json_clean (JObject es) → look es key = JUndefined ∨ json_clean (look es key).
Proof.
  intros H. inversion H as [| | | | |es' Hn Hes]; subst. unfold look. destruct (own_property (js key) es) as [v|] eqn:E; [|by left].
  right. apply (own_property_Forall json_clean _ _ _) in E; [done|]. eapply Forall_impl; [exact Hes|]. by intros e [_ ?].
Qed.

(** The names in the properties [headers] and [header]. *)
Definition single_header (h : jsval) : run (list jsstring) := match h with JUndefined => Ok [] | _ => header_names [h] end.

Lemma parsePassHeaderNames_object es : parsePassHeaderNames (JObject es) =
  match look es "headers" with JArray items => header_names items | _ => single_header (look es "header") end.
Proof.
  unfold parsePassHeaderNames. rewrite !property_look. cbn [mbind outcome_bind]. unfold single_header.
  by destruct (look es "headers"), (look es "header").
Qed.

Lemma single_header_canon h : h = JUndefined ∨ json_clean h → finite_value h = true →
  single_header (canon h) = single_header h.
Proof.
  intros [->|Hc] Hf; [done|]. assert (header_names [canon h] = header_names [h]) as E.
  { apply (header_names_canon [h]); [by repeat constructor|]. cbn [forallb]. by rewrite Hf. }
  destruct h as [| |b|x|s|l|es]; try done; try (by inversion Hc). cbn in *. rewrite Hf in *. exact E.
Qed.

Lemma parsePassHeaderNames_canon v : json_clean v → finite_value v = true →
  parsePassHeaderNames (canon v) = parsePassHeaderNames v.
Proof.
  intros Hc Hf. destruct v as [| |b|x|s|l|es]; try done.
  - cbn in *. by rewrite Hf.
  - apply header_names_canon; [by inversion Hc|done].
  - assert (NoDup es.*1) as Hn by (by inversion Hc). cbn [canon]. fold (canon_entries es).
    rewrite !parsePassHeaderNames_object, !look_canon by done.
    pose proof (finite_look es "headers" Hf) as Hf1.
    rewrite (single_header_canon _ (clean_look es "header" Hc) (finite_look es "header" Hf)).
    destruct (clean_look es "headers" Hc) as [E1|H1]; [by rewrite E1|].
    destruct (look es "headers") as [| |b|x|s|l|es'] eqn:E; try done; [cbn in *; by rewrite Hf1|].
    apply header_names_canon; [by inversion H1|done].
Qed.

(** ** Written operations *)

(** The forms as the editor keeps them: modes of the tables, texts made of code
    units. *)
Definition condition_wf (c : ParamOverrideCondition) : Prop :=
  c_mode c ∈ CONDITION_MODE_VALUES ∧ units (c_path c) ∧ units (c_value_text c).

Definition operation_wf (o : ParamOverrideOperation) : Prop :=
  o_mode o ∈ OPERATION_MODE_VALUES ∧ units (o_description o) ∧ units (o_path o) ∧ units (o_from o) ∧ units (o_to o)
  ∧ units (o_value_text o) ∧ Forall condition_wf (o_conditions o).

Definition condition_settled (c : ParamOverrideCondition) : bool := settled (c_value_text c).
Definition operation_settled (o : ParamOverrideOperation) : bool :=
  settled (o_value_text o) && forallb condition_settled (o_conditions o).

Lemma units_js s : units (js s).
Proof.
  unfold units, js. rewrite forallb_forall. intros c Hc. apply in_map_iff in Hc as (a & <- & _).
  unfold is_unit. pose proof (Ascii.N_ascii_bounded a). lia.
Qed.

Lemma parseLooseValue_clean s : units s → json_clean (parseLooseValue s).
Proof.
  intros Hu. apply units_trim in Hu. unfold parseLooseValue. destruct (is_empty _); [by constructor|].
  destruct (JSON_parse (trim s)) as [v|] eqn:E; [|by constructor]. by apply JSON_parse_clean in E.
Qed.

Lemma put_clean key v es : clean_entries es → json_clean v → clean_entries (put key v es).
Proof.
  intros [Hn Hes] Hv. split; [by apply put_NoDup|]. apply put_property_Forall; [done|]. split; [apply units_js|done].
Qed.

Lemma put_if_clean b key v es : clean_entries es → json_clean v → clean_entries (put_if b key v es).
Proof. destruct b; [apply put_clean|done]. Qed.

Lemma clean_nil : clean_entries [].
Proof. split; constructor. Qed.

Create HintDb clean.
#[local] Hint Resolve put_clean put_if_clean clean_nil clean_string clean_bool clean_array units_trim units_js parseLooseValue_clean : clean.

(** *** Conditions *)
Definition condition_fields (path mode : jsstring) (value : jsval) (inv pass : bool) : list (jsstring * jsval) :=
  put_if pass "pass_missing_key" (JBool true) (put_if inv "invert" (JBool true)
    (put "value" value (put "mode" (JString mode) (put "path" (JString path) [])))).

Definition condition_payload (c : ParamOverrideCondition) : jsval :=
  JObject (condition_fields (trim (c_path c)) (c_mode c) (parseLooseValue (c_value_text c)) (c_invert c) (c_pass_missing_key c)).

(** Conditions with a path are written. *)
Definition has_path (c : ParamOverrideCondition) : bool := negb (is_empty (trim (c_path c))).

Lemma condition_modes_nonempty m : m ∈ CONDITION_MODE_VALUES → m ≠ [].
Proof. intros H ->. assert (has CONDITION_MODE_VALUES [] = true) as E by (by apply has_true). discriminate E. Qed.

Lemma operation_modes_nonempty m : m ∈ OPERATION_MODE_VALUES → m ≠ [].
Proof. intros H ->. assert (has OPERATION_MODE_VALUES [] = true) as E by (by apply has_true). discriminate E. Qed.

Lemma or_text_nonempty a b : a ≠ [] → or_text a b = a.
Proof. by destruct a. Qed.

Lemma buildConditionPayload_wf c : condition_wf c →
  buildConditionPayload c = if has_path c then Some (condition_payload c) else None.
Proof.
  intros (Hm & _ & _). unfold buildConditionPayload, has_path, condition_payload, condition_fields.
  rewrite or_text_nonempty by (by apply condition_modes_nonempty). by destruct (is_empty _).
Qed.

Lemma written_conditions cs : Forall condition_wf cs →
  omap buildConditionPayload cs = map condition_payload (List.filter has_path cs).
Proof.
  induction 1 as [|c cs Hc Hcs IH]; [done|]. cbn [omap list_omap List.filter]. rewrite buildConditionPayload_wf by done.
  fold (omap (M := list) (A := ParamOverrideCondition) (B := jsval)). destruct (has_path c); cbn [map]; [f_equal|]; exact IH.
Qed.

Lemma condition_payload_clean c : condition_wf c → json_clean (condition_payload c).
Proof.
  intros (Hm & Hp & Hv). unfold condition_payload, condition_fields.
  assert (units (c_mode c)) as Hu.
  { unfold CONDITION_MODE_VALUES, CONDITION_MODE_OPTIONS in Hm. rewrite map_map in Hm. apply list_elem_of_In, in_map_iff in Hm
      as ([l v] & <- & _). apply units_js. }
  apply clean_object; apply put_if_clean; auto 10 with clean.
Qed.

(** The condition after saving and reopening. *)
Definition reopened_condition (id : jsstring) (c : ParamOverrideCondition) : ParamOverrideCondition :=
  mkCondition id (trim (c_path c)) (c_mode c) (reopened_text (c_value_text c)) (c_invert c) (c_pass_missing_key c).

Section Reopen.
Context {editor : EditorHost}.

Lemma normalizeCondition_object es n : normalizeCondition (JObject es) n =
  (Ok (mkCondition (local_id n) (string_or_empty (look es "path")) (mode_or CONDITION_MODE_VALUES (look es "mode") "full")
    (toValueText (look es "value")) (strict_equals (look es "invert") (JBool true))
    (strict_equals (look es "pass_missing_key") (JBool true))), S n).
Proof. reflexivity. Qed.

Lemma condition_fields_NoDup path mode value inv pass : NoDup (condition_fields path mode value inv pass).*1.
Proof. unfold condition_fields. repeat first [apply put_if_NoDup|apply put_NoDup]. constructor. Qed.

Lemma condition_fields_look path mode value inv pass :
  let es := condition_fields path mode value inv pass in
  look es "path" = JString path ∧ look es "mode" = JString mode ∧ look es "value" = value
  ∧ look es "invert" = (if inv then JBool true else JUndefined)
  ∧ look es "pass_missing_key" = (if pass then JBool true else JUndefined).
Proof. by destruct inv, pass. Qed.

Lemma condition_reopens c n : condition_wf c →
  normalizeCondition (canon (condition_payload c)) n = (Ok (reopened_condition (local_id n) c), S n).
Proof.
  intros (Hm & _ & _). unfold condition_payload. cbn [canon]. fold (canon_entries).
  match goal with |- context [own_entries ?l] => change l with (canon_entries
    (condition_fields (trim (c_path c)) (c_mode c) (parseLooseValue (c_value_text c)) (c_invert c) (c_pass_missing_key c))) end.
  rewrite normalizeCondition_object, !look_canon by apply condition_fields_NoDup.
  unfold reopened_condition, reopened_text. apply has_true in Hm.
  match goal with |- context [look (condition_fields ?p ?m ?v ?i ?q) _] =>
    destruct (condition_fields_look p m v i q) as (-> & -> & -> & -> & ->) end.
  cbn [canon mode_or string_or_empty]. rewrite Hm. by destruct (c_invert c), (c_pass_missing_key c).
Qed.

Lemma conditions_reopen cs : Forall condition_wf cs → ∀ n,
  map_act normalizeCondition (map canon (map condition_payload cs)) n
  = (Ok (imap (λ i c, reopened_condition (local_id (n + i)) c) cs), (n + length cs)%nat).
Proof.
  induction 1 as [|c cs Hc Hcs IH]; intros n; [cbn; by rewrite Nat.add_0_r|].
  cbn [map map_act]. unfold mbind at 1, act_bind at 1. rewrite condition_reopens by done.
  unfold mbind, act_bind. rewrite IH, imap_cons. cbn [length]. rewrite Nat.add_0_r, Nat.add_succ_r.
  unfold mret, act_ret. do 3 f_equal. apply imap_ext. intros i x Hx. unfold compose. by rewrite Nat.add_succ_r.
Qed.

(** Saving a reopened condition writes the same value. *)
Lemma condition_again c id : condition_wf c → condition_settled c = true →
  condition_payload (reopened_condition id c) = JObject
    (condition_fields (trim (c_path c)) (c_mode c) (canon (parseLooseValue (c_value_text c))) (c_invert c) (c_pass_missing_key c))
  ∧ has_path (reopened_condition id c) = has_path c.
Proof.
  intros (_ & _ & Hv) Hs. unfold condition_payload, has_path, reopened_condition.
  cbn [c_path c_mode c_value_text c_invert c_pass_missing_key]. by rewrite trim_idemp, loose_roundtrip.
Qed.

Lemma canon_fields_value path mode value inv pass :
  canon (JObject (condition_fields path mode (canon value) inv pass)) = canon (JObject (condition_fields path mode value inv pass)).
Proof.
  cbn [canon]. fold canon_entries. do 2 f_equal. change (canon_entries (condition_fields path mode (canon value) inv pass)
    = canon_entries (condition_fields path mode value inv pass)).
  unfold condition_fields. rewrite !canon_entries_put_if, !canon_entries_put. by rewrite canon_idemp.
Qed.

Lemma reopened_wf c id : condition_wf c → c_mode (reopened_condition id c) ∈ CONDITION_MODE_VALUES.
Proof. by intros (? & _). Qed.

(** The same conditions are written after reopening, up to canonical form. *)
Lemma conditions_again cs ids : Forall condition_wf cs → forallb condition_settled cs = true → length ids = length cs →
  forallb has_path cs = true →
  map canon (omap buildConditionPayload (zip_with reopened_condition ids cs)) = map canon (map condition_payload cs).
Proof.
  intros Hw. revert ids. induction Hw as [|c cs Hc Hcs IH]; intros [|id ids] Hs Hl Hp; try done.
  cbn [forallb] in Hs, Hp. apply andb_prop in Hs as [Hs1 Hs2], Hp as [Hp1 Hp2]. cbn [zip_with omap list_omap].
  fold (omap (M := list) (A := ParamOverrideCondition) (B := jsval)).
  destruct (condition_again c id Hc Hs1) as [E1 E2].
  assert (buildConditionPayload (reopened_condition id c) = Some (condition_payload (reopened_condition id c))) as ->.
  { destruct Hc as (Hm & _). unfold buildConditionPayload, condition_payload, condition_fields.
    unfold has_path in E2, Hp1. rewrite or_text_nonempty by (by apply condition_modes_nonempty).
    destruct (is_empty (trim (c_path (reopened_condition id c)))) eqn:E; [|done]. by rewrite <- E2 in Hp1. }
  cbn [map]. rewrite E1, canon_fields_value. f_equal. apply (IH ids); [done|by injection Hl|done].
Qed.
End Reopen.
