(* ===== verification/ParamOverrideFacts.v ===== *)
(** * Saving and reopening parameter overrides

    Validation accepts exactly the operations that meet the requirements of
    their mode, and the document the editor writes for validated operations is
    opened again as operations that write the same document. *)
From S2P Require Import Prelude JsString JsCollections JsNumber JsNumberFacts JsValue JsDynamic JsJson JsonText JsonSerialize Host ParamOverride ParamValueFacts.
Local Open Scope Z_scope.

Section Reopen.
Context {host : Host} {editor : EditorHost} {laws : EditorLaws editor}.

(** *** Operations *)

(** The properties of a written operation, from its trimmed texts. *)
Definition payload_fields (meta : mode_meta) (mode desc path : jsstring) (value : jsval) (keep : bool) (from to : jsstring)
    (conditions : list jsval) (logic : jsval) : list (jsstring * jsval) :=
  let to_field := default false (m_to meta) in
  let payload := put "mode" (JString mode) [] in
  let payload := put_if (negb (is_empty desc)) "description" (JString desc) payload in
  let payload := put_if (m_path meta) "path" (JString path) payload in
  let payload := put_if (m_pathOptional meta && negb (is_empty path)) "path" (JString path) payload in
  let payload := put_if (m_value meta) "value" value payload in
  let payload := put_if (m_keepOrigin meta && keep) "keep_origin" (JBool true) payload in
  let payload := put_if (m_from meta) "from" (JString from) payload in
  let payload := put_if (negb to_field && negb (is_empty to)) "to" (JString to) payload in
  let payload := put_if to_field "to" (JString to) payload in
  let payload :=
    if m_pathAlias meta then
      let missing key payload := negb (truthy (default JUndefined (own_property (js key) payload))) in
      let payload := put_if (missing "from"%string payload && negb (is_empty path)) "from" (JString path) payload in
      put_if (missing "to"%string payload && negb (is_empty path)) "to" (JString path) payload
    else payload in
  if Nat.eqb (length conditions) 0 then payload
  else put "logic" logic (put "conditions" (JArray conditions) payload).

Definition logic_value (logic : jsstring) : jsval := if str_eqb logic (js "AND") then text "AND" else text "OR".

Definition fields_of (o : ParamOverrideOperation) (conditions : list jsval) : list (jsstring * jsval) :=
  payload_fields (meta_of (o_mode o)) (o_mode o) (trim (o_description o)) (trim (o_path o)) (parseLooseValue (o_value_text o))
    (o_keep_origin o) (trim (o_from o)) (trim (o_to o)) conditions (logic_value (o_logic o)).

Lemma operation_payload_fields o : o_mode o ∈ OPERATION_MODE_VALUES →
  operation_payload o = JObject (fields_of o (omap buildConditionPayload (o_conditions o))).
Proof.
  intros Hm. unfold operation_payload. rewrite or_text_nonempty by (by apply operation_modes_nonempty). reflexivity.
Qed.

(** The kinds of modes. *)
Definition METAS : list mode_meta :=
  [path_meta; set_meta; text_meta; from_to_meta; replace_meta; header_copy_meta;
   mkMeta false false true false None false false; mkMeta false true true false None false false;
   mkMeta false false true false None true false].

#[local] Instance mode_meta_eq_dec : EqDecision mode_meta.
Proof. solve_decision. Defined.

Lemma meta_of_cases mode : meta_of mode ∈ METAS.
Proof.
  unfold meta_of. destruct (map_get mode MODE_META) as [m|] eqn:E; [|by right; left].
  apply map_get_In in E. assert (forallb (λ e, bool_decide (snd e ∈ METAS)) MODE_META = true) as H by (by vm_compute).
  rewrite forallb_forall in H. apply list_elem_of_In in E. apply H in E. by apply bool_decide_eq_true in E.
Qed.

(** What reopening makes of the texts. *)
Definition path' (meta : mode_meta) (path : jsstring) : jsstring := if m_path meta || m_pathOptional meta then path else [].
Definition from' (meta : mode_meta) (from path : jsstring) : jsstring :=
  if m_from meta then if m_pathAlias meta && is_empty from then path else from else [].
Definition to' (meta : mode_meta) (to path : jsstring) : jsstring :=
  if m_pathAlias meta && is_empty to then path else to.

Ltac split_metas H :=
  repeat (apply elem_of_cons in H as [->|H]); [..|by apply elem_of_nil in H].

(** The written properties, read. *)
Lemma payload_fields_look meta mode desc path value keep from to conditions logic : meta ∈ METAS →
  let es := payload_fields meta mode desc path value keep from to conditions logic in
  look es "mode" = JString mode
  ∧ string_or_empty (look es "description") = desc
  ∧ string_or_empty (look es "path") = path' meta path
  ∧ look es "value" = (if m_value meta then value else JUndefined)
  ∧ look es "keep_origin" = (if m_keepOrigin meta && keep then JBool true else JUndefined)
  ∧ string_or_empty (look es "from") = from' meta from path
  ∧ string_or_empty (look es "to") = to' meta to path
  ∧ look es "conditions" = (if Nat.eqb (length conditions) 0 then JUndefined else JArray conditions)
  ∧ look es "logic" = (if Nat.eqb (length conditions) 0 then JUndefined else logic).
Proof.
  intros H. split_metas H; destruct desc as [|? ?], path as [|? ?], from as [|? ?], to as [|? ?], keep, conditions as [|? ?];
    vm_compute; repeat split.
Qed.

Lemma payload_fields_again meta mode desc path value keep from to conditions logic : meta ∈ METAS →
  payload_fields meta mode desc (path' meta path) value (m_keepOrigin meta && keep) (from' meta from path) (to' meta to path)
    conditions logic
  = payload_fields meta mode desc path value keep from to conditions logic.
Proof.
  intros H. split_metas H; destruct desc as [|? ?], path as [|? ?], from as [|? ?], to as [|? ?], keep; vm_compute; reflexivity.
Qed.

Lemma payload_fields_canon meta mode desc path value keep from to conditions logic : meta ∈ METAS →
  canon_entries (payload_fields meta mode desc path value keep from to conditions logic)
  = payload_fields meta mode desc path (canon value) keep from to (map canon conditions) (canon logic).
Proof.
  intros H. unfold payload_fields at 2. rewrite length_map. unfold payload_fields.
  split_metas H; destruct desc as [|? ?], path as [|? ?], from as [|? ?], to as [|? ?], keep, conditions as [|? ?];
    reflexivity.
Qed.

Lemma payload_fields_NoDup meta mode desc path value keep from to conditions logic :
  NoDup (payload_fields meta mode desc path value keep from to conditions logic).*1.
Proof.
  unfold payload_fields. destruct (m_pathAlias meta), (Nat.eqb _ _);
    repeat first [apply put_if_NoDup|apply put_NoDup]; constructor.
Qed.

(** The operation after saving and reopening, with the identifiers from [n] on. *)
Definition kept_conditions (o : ParamOverrideOperation) : list ParamOverrideCondition := List.filter has_path (o_conditions o).

Definition reopened_operation (n : nat) (o : ParamOverrideOperation) : ParamOverrideOperation :=
  let meta := meta_of (o_mode o) in
  mkOperation (local_id n) (trim (o_description o)) (path' meta (trim (o_path o))) (o_mode o)
    (from' meta (trim (o_from o)) (trim (o_path o))) (to' meta (trim (o_to o)) (trim (o_path o)))
    (if m_value meta then reopened_text (o_value_text o) else []) (m_keepOrigin meta && o_keep_origin o)
    (if Nat.eqb (length (kept_conditions o)) 0 then js "OR" else if str_eqb (o_logic o) (js "AND") then js "AND" else js "OR")
    (imap (λ i c, reopened_condition (local_id (S n + i)) c) (kept_conditions o)).

Lemma normalizeOperation_object es n : normalizeOperation (JObject es) n =
  match String_of (or_else (look es "logic") (text "OR")) with
  | Ok logic =>
      match conditions_of (look es "conditions") (S n) with
      | (Ok conditions, n') =>
          (Ok (mkOperation (local_id n) (string_or_empty (look es "description")) (string_or_empty (look es "path"))
             (mode_or OPERATION_MODE_VALUES (look es "mode") "set") (string_or_empty (look es "from"))
             (string_or_empty (look es "to")) (toValueText (look es "value")) (strict_equals (look es "keep_origin") (JBool true))
             (if str_eqb (toUpperCase logic) (js "AND") then js "AND" else js "OR") conditions), n')
      | (Throw e, n') => (Throw e, n')
      | (NoFuel, n') => (NoFuel, n')
      end
  | Throw e => (Throw e, S n)
  | NoFuel => (NoFuel, S n)
  end.
Proof.
  unfold normalizeOperation. cbn [or_empty_object]. rewrite !property_look. unfold mbind, act_bind, lift, nextLocalId, mret, act_ret.
  by destruct (String_of _).
Qed.

Lemma string_or_empty_canon v : string_or_empty (canon v) = string_or_empty v.
Proof. destruct v; try done. cbn. by destruct (isFinite _). Qed.

Lemma upper_AND : toUpperCase (js "AND") = js "AND".
Proof. by rewrite toUpperCase_ascii. Qed.
Lemma upper_OR : toUpperCase (js "OR") = js "OR".
Proof. by rewrite toUpperCase_ascii. Qed.

Lemma logic_text logic : String_of (or_else (canon (logic_value logic)) (text "OR"))
  = Ok (if str_eqb logic (js "AND") then js "AND" else js "OR").
Proof. unfold logic_value. by destruct (str_eqb logic (js "AND")). Qed.

Lemma operation_reopens o n : operation_wf o →
  normalizeOperation (canon (operation_payload o)) n
  = (Ok (reopened_operation n o), (S n + length (kept_conditions o))%nat).
Proof.
  intros (Hm & _ & _ & _ & _ & _ & Hcs). rewrite operation_payload_fields by done. rewrite written_conditions by done.
  fold (kept_conditions o). set (cs := kept_conditions o).
  assert (Forall condition_wf cs) as Hwf by (apply Forall_forall; intros c [Hc _]%elem_of_filter_b; by eapply Forall_forall in Hcs).
  cbn [canon]. fold (canon_entries (fields_of o (map condition_payload cs))).
  rewrite normalizeOperation_object, !look_canon by apply payload_fields_NoDup. rewrite !string_or_empty_canon.
  unfold fields_of.
  match goal with |- context [payload_fields ?meta ?mode ?desc ?path ?value ?keep ?from ?to ?conds ?logic] =>
    destruct (payload_fields_look meta mode desc path value keep from to conds logic (meta_of_cases _))
      as (-> & -> & -> & -> & -> & -> & -> & -> & ->) end.
  rewrite length_map. apply has_true in Hm. unfold reopened_operation. fold cs. cbn [canon mode_or]. rewrite Hm.
  assert (toValueText (canon (if m_value (meta_of (o_mode o)) then parseLooseValue (o_value_text o) else JUndefined))
    = if m_value (meta_of (o_mode o)) then reopened_text (o_value_text o) else []) as -> by (by destruct (m_value _)).
  assert (strict_equals (canon (if m_keepOrigin (meta_of (o_mode o)) && o_keep_origin o then JBool true else JUndefined)) (JBool true)
    = m_keepOrigin (meta_of (o_mode o)) && o_keep_origin o) as -> by (by destruct (_ && _)).
  destruct (Nat.eqb_spec (length cs) 0) as [El|El].
  - destruct cs; [|done]. cbn [canon conditions_of or_else truthy String_of text imap length]. rewrite upper_OR.
    unfold mret, act_ret. do 2 f_equal. lia.
  - cbn [canon conditions_of]. rewrite (conditions_reopen cs Hwf), logic_text.
    destruct (str_eqb (o_logic o) (js "AND")); by rewrite ?upper_AND, ?upper_OR.
Qed.

Lemma imap_ids {A} (f : jsstring → A → A) (cs : list A) : ∀ n,
  imap (λ i c, f (local_id (n + i)) c) cs = zip_with f (map local_id (seq n (length cs))) cs.
Proof.
  induction cs as [|c cs IH]; intros n; [done|]. rewrite imap_cons. cbn [length seq map zip_with]. rewrite Nat.add_0_r. f_equal.
  rewrite <- IH. apply imap_ext. intros i x _. unfold compose. by rewrite Nat.add_succ_r.
Qed.

Lemma payload_fields_unused meta mode desc path v w keep from to conditions logic logic' :
  (m_value meta = true → v = w) → (conditions ≠ [] → logic = logic') →
  payload_fields meta mode desc path v keep from to conditions logic
  = payload_fields meta mode desc path w keep from to conditions logic'.
Proof.
  intros Hv Hl. unfold payload_fields. destruct (m_value meta); [rewrite Hv by done|];
    (destruct conditions as [|c cs]; [done|by rewrite Hl]).
Qed.

Lemma trim_reopened meta path from to : let p := trim path in
  trim (path' meta p) = path' meta p ∧ trim (from' meta (trim from) p) = from' meta (trim from) p
  ∧ trim (to' meta (trim to) p) = to' meta (trim to) p.
Proof.
  cbn. unfold path', from', to'. split_and!.
  - destruct (_ || _); [apply trim_idemp|done].
  - destruct (m_from _); [|done]. destruct (_ && _); apply trim_idemp.
  - destruct (_ && _); apply trim_idemp.
Qed.

Lemma kept_wf o : operation_wf o → Forall condition_wf (kept_conditions o).
Proof.
  intros (_ & _ & _ & _ & _ & _ & Hcs). apply Forall_forall. intros c [Hc _]%elem_of_filter_b. by eapply Forall_forall in Hcs.
Qed.

Lemma kept_settled o : operation_settled o = true →
  settled (o_value_text o) = true ∧ forallb condition_settled (kept_conditions o) = true.
Proof.
  intros [Hv Hs]%andb_prop. split; [done|]. rewrite forallb_forall in *. intros c [Hc _]%filter_In. auto.
Qed.

Lemma kept_path o : forallb has_path (kept_conditions o) = true.
Proof. apply forallb_forall. by intros c [_ Hc]%filter_In. Qed.

(** A reopened operation is written as the same document. *)
Lemma operation_again n o : operation_wf o → operation_settled o = true →
  canon (operation_payload (reopened_operation n o)) = canon (operation_payload o).
Proof.
  intros Hw Hs. pose proof (kept_wf o Hw) as Hk. destruct (kept_settled o Hs) as [Hsv Hsk].
  destruct Hw as (Hm & _ & _ & _ & _ & Hv & Hcs).
  rewrite !operation_payload_fields by done. rewrite (written_conditions (o_conditions o)) by done. fold (kept_conditions o).
  cbn [canon]. do 2 f_equal. unfold fields_of.
  rewrite (payload_fields_canon (meta_of (o_mode o))) by apply meta_of_cases.
  change (map (λ '(k, x), (k, canon x)) ?l) with (canon_entries l).
  rewrite (payload_fields_canon (meta_of _)) by apply meta_of_cases.
  unfold reopened_operation. cbn [o_mode o_description o_path o_from o_to o_value_text o_keep_origin o_logic o_conditions].
  destruct (trim_reopened (meta_of (o_mode o)) (o_path o) (o_from o) (o_to o)) as (-> & -> & ->). rewrite trim_idemp.
  rewrite (imap_ids reopened_condition), conditions_again by (done || apply kept_path || by rewrite length_map, length_seq).
  rewrite payload_fields_again by apply meta_of_cases. apply payload_fields_unused.
  - intros ->. rewrite loose_roundtrip by done. apply canon_idemp.
  - intros Hne. assert (length (kept_conditions o) ≠ 0%nat) as El by (by destruct (kept_conditions o)).
    apply Nat.eqb_neq in El. rewrite El. unfold logic_value. by destruct (str_eqb (o_logic o) (js "AND")) eqn:E; rewrite ?E.
Qed.

(** *** Validation after reopening *)
Lemma value_required_written mode : has VALUE_REQUIRED_MODES mode = true → m_value (meta_of mode) = true.
Proof.
  intros H%has_true. assert (forallb (λ m, m_value (meta_of m)) VALUE_REQUIRED_MODES = true) as E by (by vm_compute).
  rewrite forallb_forall in E. apply E. by apply list_elem_of_In.
Qed.

Lemma from_required_meta mode : has FROM_REQUIRED_MODES mode = true → m_from (meta_of mode) = true.
Proof.
  intros H%has_true. assert (forallb (λ m, m_from (meta_of m)) FROM_REQUIRED_MODES = true) as E by (by vm_compute).
  rewrite forallb_forall in E. apply E. by apply list_elem_of_In.
Qed.

(** What the checks ask of an operation. *)
Record operation_ok (o : ParamOverrideOperation) : Prop := {
  ok_path : m_path (meta_of (o_mode o)) = true → trim (o_path o) ≠ [];
  ok_from : o_mode o ∈ FROM_REQUIRED_MODES →
    trim (o_from o) ≠ [] ∨ (m_pathAlias (meta_of (o_mode o)) = true ∧ trim (o_path o) ≠ []);
  ok_to : o_mode o ∈ TO_REQUIRED_MODES →
    trim (o_to o) ≠ [] ∨ (m_pathAlias (meta_of (o_mode o)) = true ∧ trim (o_path o) ≠ []);
  ok_value : o_mode o ∈ VALUE_REQUIRED_MODES → trim (o_value_text o) ≠ [];
  ok_error : o_mode o = js "return_error" → ∀ es message, JSON_parse (trim (o_value_text o)) = Some (JObject es) →
    String_of (or_else (look es "message") (JString [])) = Ok message → trim message ≠ [];
  ok_headers : o_mode o = js "pass_headers" →
    ∃ name names, parsePassHeaderNames (parseLooseValue (o_value_text o)) = Ok (name :: names);
}.

(** The four checks for missing fields, and the check of the value by mode. *)
Definition missing_field (o : ParamOverrideOperation) : bool :=
  let meta := meta_of (o_mode o) in
  let aliased := m_pathAlias meta && negb (is_empty (trim (o_path o))) in
  m_path meta && is_empty (trim (o_path o))
  || has FROM_REQUIRED_MODES (o_mode o) && is_empty (trim (o_from o)) && negb aliased
  || has TO_REQUIRED_MODES (o_mode o) && is_empty (trim (o_to o)) && negb aliased
  || has VALUE_REQUIRED_MODES (o_mode o) && is_empty (trim (o_value_text o)).

Definition error_value_ok (raw : jsstring) : bool :=
  match JSON_parse raw with
  | Some (JObject es) =>
      match String_of (or_else (look es "message") (JString [])) with Ok message => negb (is_empty (trim message)) | _ => true end
  | _ => true
  end.

Lemma validate_operation_cases o line : o_mode o ≠ [] →
  validate_operation o line = Ok None ↔ missing_field o = false
    ∧ (o_mode o = js "return_error" → error_value_ok (trim (o_value_text o)) = true)
    ∧ (o_mode o = js "pass_headers" → ∃ name names, parsePassHeaderNames (parseLooseValue (o_value_text o)) = Ok (name :: names)).
Proof.
  intros Hm. unfold validate_operation, missing_field. rewrite or_text_nonempty by done. cbn zeta.
  destruct (m_path _ && _); [split; [done|by intros [? _]]|]. destruct (has FROM_REQUIRED_MODES _ && _ && _); [split; [done|by intros [? _]]|].
  destruct (has TO_REQUIRED_MODES _ && _ && _); [split; [done|by intros [? _]]|]. cbn [orb].
  destruct (is_empty (trim (o_value_text o))) eqn:Er.
  - destruct (has VALUE_REQUIRED_MODES (o_mode o)) eqn:Ev; [split; [done|by intros [? _]]|].
    assert (∀ name, o_mode o = js name → has VALUE_REQUIRED_MODES (js name) = true → False) as Hno.
    { intros name E. rewrite <- E. congruence. }
    cbn [andb]. repeat match goal with |- context [str_eqb (o_mode o) (js ?n)] =>
      let E := fresh "E" in destruct (str_eqb (o_mode o) (js n)) eqn:E; [apply str_eqb_eq in E; by destruct (Hno _ E)|] end.
    split; [|done]. intros _. repeat split; intros Hmode; by destruct (Hno _ Hmode).
  - rewrite andb_false_r. destruct (str_eqb (o_mode o) (js "return_error")) eqn:E1; str_hyps.
    + rewrite E1. unfold error_value_ok. split.
      * intros H. split_and!; [done| |done]. intros _. destruct (JSON_parse _) as [[| | | | | |es]|]; try done.
        rewrite property_look in H. cbn [mbind outcome_bind] in H. destruct (String_of _) as [m| |]; try done.
        by destruct (is_empty (trim m)).
      * intros (_ & H & _). specialize (H eq_refl). destruct (JSON_parse _) as [[| | | | | |es]|]; try done.
        rewrite property_look. cbn [mbind outcome_bind]. destruct (String_of _) as [m| |]; try done.
        by destruct (is_empty (trim m)).
    + destruct (str_eqb (o_mode o) (js "prune_objects")) eqn:E2; str_hyps.
      { split; [|done]. intros _. split_and!; [done|done|]. intros E. rewrite E in E2. discriminate E2. }
      destruct (str_eqb (o_mode o) (js "pass_headers")) eqn:E3; str_hyps; [|by split].
      rewrite parseLooseValue_trim. split.
      * intros H. split_and!; [done|done|]. intros _. destruct (parsePassHeaderNames _) as [[|name names]| |]; try done. by eauto.
      * intros (_ & _ & H). destruct (H E3) as (name & names & E). by rewrite E.
Qed.

Lemma validate_operation_ok o line : o_mode o ≠ [] → validate_operation o line = Ok None ↔ operation_ok o.
Proof.
  intros Hm. rewrite validate_operation_cases by done. unfold missing_field.
  assert (error_value_ok (trim (o_value_text o)) = true ↔ ∀ es message, JSON_parse (trim (o_value_text o)) = Some (JObject es) →
    String_of (or_else (look es "message") (JString [])) = Ok message → trim message ≠ []) as He.
  { unfold error_value_ok. split.
    - intros H es message E1 E2. rewrite E1, E2 in H. apply is_empty_false. by apply negb_true_iff.
    - intros H. destruct (JSON_parse _) as [[| | | | | |es]|]; try done. destruct (String_of _) as [m| |] eqn:E; try done.
      by rewrite (proj2 (is_empty_false _) (H es m eq_refl E)). }
  assert (∀ l text, has l (o_mode o) && is_empty text && negb (m_pathAlias (meta_of (o_mode o)) && negb (is_empty (trim (o_path o)))) = false
    ↔ (o_mode o ∈ l → text ≠ [] ∨ (m_pathAlias (meta_of (o_mode o)) = true ∧ trim (o_path o) ≠ []))) as Ha.
  { intros l txt. rewrite <- has_true, <- !is_empty_false.
    destruct (has l (o_mode o)), (is_empty txt), (m_pathAlias _), (is_empty (trim (o_path o))); cbn; naive_solver. }
  assert (∀ b (txt : jsstring), b && is_empty txt = false ↔ (b = true → txt ≠ [])) as Hb.
  { intros b txt. rewrite <- is_empty_false. destruct b, (is_empty txt); naive_solver. }
  split.
  - intros ([[[H1 H2]%orb_false_iff H3]%orb_false_iff H4]%orb_false_iff & H5 & H6).
    split; [by apply Hb|by apply Ha|by apply Ha| |by intros Em; apply He, H5|done].
    intros Hin%has_true. revert Hin. by apply Hb.
  - intros [H1 H2 H3 H4 H5 H6]. split_and!; [|by intros Em; apply He, H5|done].
    rewrite !orb_false_iff. split_and!; [by apply Hb|by apply Ha|by apply Ha|].
    apply Hb. intros Hin%has_true. auto.
Qed.

Lemma validate_operation_message o line m : validate_operation o line = Ok (Some m) →
  ∃ key, js key ≠ [] ∧ m = translate (js key) (Some line).
Proof.
  unfold validate_operation, at_line. cbn zeta. intros H.
  repeat match type of H with
  | (if ?b then _ else _) = _ => destruct b; [injection H as <-; eexists; split; [|reflexivity]; discriminate|]
  end.
  destruct (str_eqb _ (js "return_error")); [|destruct (str_eqb _ (js "prune_objects")); [|destruct (str_eqb _ (js "pass_headers")); [|done]]];
    (destruct (is_empty _); [injection H as <-; eexists; split; [|reflexivity]; discriminate|]); [|done|].
  - destruct (JSON_parse _) as [[| | | | | |es]|]; try done. destruct (property _ _ ≫= _); try done.
    destruct (is_empty _); [injection H as <-; eexists; split; [|reflexivity]; discriminate|done].
  - apply bind_Ok_inv in H as (hs & _ & H). destruct (Nat.eqb _ _); [injection H as <-; eexists; split; [|reflexivity]; discriminate|done].
Qed.

Lemma validate_from_first ops : Forall (λ o, o_mode o ≠ []) ops → ∀ line m, validate_from line ops = Ok m →
  (m = [] ∧ Forall operation_ok ops)
  ∨ ∃ i o key, ops !! i = Some o ∧ ¬ operation_ok o ∧ Forall operation_ok (take i ops)
      ∧ js key ≠ [] ∧ m = translate (js key) (Some (line + i)%nat).
Proof.
  induction 1 as [|o ops Ho Hops IH]; intros line m H; cbn [validate_from] in H.
  - left. by injection H as <-.
  - apply bind_Ok_inv in H as ([k|] & Hk & H).
    + injection H as <-. right. destruct (validate_operation_message o line k Hk) as (key & Hkey & ->).
      exists 0%nat, o, key. rewrite Nat.add_0_r. split_and!; [done| |constructor|done|done].
      intros Hok%(validate_operation_ok o line Ho). congruence.
    + apply (validate_operation_ok o line Ho) in Hk. destruct (IH _ _ H) as [[-> Hall]|(i & o' & key & Hi & Hn & Ht & Hkey & ->)].
      * left. split; [done|by constructor].
      * right. exists (S i), o', key. rewrite Nat.add_succ_r. cbn [lookup take]. split_and!; try done. by constructor.
Qed.

Lemma validate_from_ok ops : Forall (λ o, o_mode o ≠ []) ops → ∀ line, Forall operation_ok ops → validate_from line ops = Ok [].
Proof.
  induction 1 as [|o ops Ho Hops IH]; intros line Hok; [done|]. inversion Hok; subst. cbn [validate_from].
  rewrite (proj2 (validate_operation_ok o line Ho)) by done. by apply IH.
Qed.

(** C38: Validation accepts exactly the lists whose operations all satisfy the
    requirements of their mode ([operation_ok]); otherwise, when it returns a
    message, the message carries the number of the first operation that does
    not. *)
Theorem validation_names_first_error (ops : list ParamOverrideOperation) :
  Forall (λ o, o_mode o ≠ []) ops →
  (validateOperations ops = Ok [] ↔ Forall operation_ok ops) ∧
  (∀ m, validateOperations ops = Ok m → m ≠ [] →
     ∃ i o key, ops !! i = Some o ∧ ¬ operation_ok o ∧ Forall operation_ok (take i ops) ∧ m = translate (js key) (Some (S i))).
Proof.
  intros Hm. split; [split|].
  - intros H. destruct (validate_from_first ops Hm 1 [] H) as [[_ ?]|(i & o & key & _ & _ & _ & Hk & E)]; [done|].
    symmetry in E. by apply (translate_nonempty _ _ Hk) in E.
  - by apply validate_from_ok.
  - intros m H Hne. destruct (validate_from_first ops Hm 1 m H) as [[? _]|(i & o & key & H1 & H2 & H3 & _ & H4)]; [done|].
    by exists i, o, key.
Qed.

(** *** Validity is kept *)
Lemma error_value_reopened s : units s → settled s = true → error_value_ok (trim (reopened_text s)) = error_value_ok (trim s).
Proof.
  intros Hu Hs. destruct (loose_cases s Hu Hs) as [(_ & -> & _)|(v & _ & Ep & Hc & Hf & _ & ->)]; [by rewrite trim_idemp|].
  destruct (stringify0_trim v Hc) as [-> _]. unfold error_value_ok. rewrite Ep, stringify0_parse by done.
  destruct v as [| |b|x|q|l|es]; try done; [cbn [canon]; by destruct (isFinite x)|]. cbn [canon]. fold (canon_entries es).
  assert (NoDup es.*1) as Hn by (by inversion Hc). rewrite look_canon by done.
  pose proof (finite_look es "message" Hf) as Hf'. unfold or_else. rewrite truthy_canon by done.
  destruct (truthy (look es "message")) eqn:E; [|done].
  destruct (clean_look es "message" Hc) as [Eu|Hcl]; [by rewrite Eu in E|]. by rewrite String_of_canon.
Qed.

Lemma headers_reopened s : units s → settled s = true →
  parsePassHeaderNames (parseLooseValue (reopened_text s)) = parsePassHeaderNames (parseLooseValue s).
Proof.
  intros Hu Hs. rewrite loose_roundtrip by done. destruct (loose_cases s Hu Hs) as [(-> & _)|(v & -> & _ & Hc & Hf & _)]; [done|].
  by apply parsePassHeaderNames_canon.
Qed.

Lemma alias_meta meta : meta ∈ METAS → m_pathAlias meta = true →
  m_from meta = true ∧ m_path meta = false ∧ m_pathOptional meta = false.
Proof. intros H. split_metas H; done. Qed.

Lemma operation_ok_reopened n o : operation_wf o → operation_settled o = true → operation_ok o →
  operation_ok (reopened_operation n o).
Proof.
  intros (Hm & _ & _ & _ & _ & Hu & _) [Hs _]%andb_prop [H1 H2 H3 H4 H5 H6].
  assert (∀ name, o_mode o = js name → has VALUE_REQUIRED_MODES (js name) = true → m_value (meta_of (o_mode o)) = true) as Hval.
  { intros name E. rewrite E. apply value_required_written. }
  pose proof (trim_reopened (meta_of (o_mode o)) (o_path o) (o_from o) (o_to o)) as (T1 & T2 & T3).
  split; cbn [reopened_operation o_mode o_path o_from o_to o_value_text].
  - intros Hp. rewrite T1. unfold path'. rewrite Hp. by apply H1.
  - intros Hin. left. rewrite T2. unfold from'. rewrite (from_required_meta _ (proj2 (has_true _ _) Hin)).
    destruct (H2 Hin) as [Hne|[Ha Hp]]; [rewrite (proj2 (is_empty_false _) Hne), andb_false_r; done|].
    rewrite Ha. by destruct (trim (o_from o)).
  - intros Hin. left. rewrite T3. unfold to'.
    destruct (H3 Hin) as [Hne|[Ha Hp]]; [rewrite (proj2 (is_empty_false _) Hne), andb_false_r; done|].
    rewrite Ha. by destruct (trim (o_to o)).
  - intros Hin. rewrite (value_required_written _ (proj2 (has_true _ _) Hin)). apply reopened_nonempty; auto.
  - intros E. rewrite (Hval _ E eq_refl). intros es message Ep Em.
    pose proof (error_value_reopened (o_value_text o) Hu Hs) as He.
    assert (error_value_ok (trim (o_value_text o)) = true) as Hok.
    { unfold error_value_ok. destruct (JSON_parse (trim (o_value_text o))) as [[| | | | | |es']|] eqn:Ep'; try done.
      destruct (String_of (or_else (look es' "message") (JString []))) as [m| |] eqn:Em'; try done.
      by rewrite (proj2 (is_empty_false _) (H5 E es' m eq_refl Em')). }
    rewrite Hok in He. unfold error_value_ok in He. rewrite Ep, Em in He. apply is_empty_false. by apply negb_true_iff.
  - intros E. rewrite (Hval _ E eq_refl), headers_reopened by done. auto.
Qed.

(** ** The whole document *)
Lemma payload_fields_clean meta mode desc path value keep from to conditions logic :
  units mode → units desc → units path → json_clean value → units from → units to → Forall json_clean conditions →
  json_clean logic → clean_entries (payload_fields meta mode desc path value keep from to conditions logic).
Proof.
  intros. unfold payload_fields. destruct (m_pathAlias meta), (Nat.eqb _ _);
    repeat first [apply put_if_clean|apply put_clean]; auto using clean_nil, clean_string, clean_bool, clean_array.
Qed.

Lemma operation_modes_units m : m ∈ OPERATION_MODE_VALUES → units m.
Proof.
  unfold OPERATION_MODE_VALUES, OPERATION_MODE_OPTIONS. rewrite map_map.
  intros Hm%list_elem_of_In%in_map_iff. destruct Hm as ([l v] & <- & _). apply units_js.
Qed.

Lemma operation_payload_clean o : operation_wf o → json_clean (operation_payload o).
Proof.
  intros Hw. pose proof (kept_wf o Hw) as Hk. destruct Hw as (Hm & Hd & Hp & Hf & Ht & Hv & Hcs).
  rewrite operation_payload_fields, written_conditions by done. fold (kept_conditions o).
  apply clean_object; apply payload_fields_clean; auto using units_trim, parseLooseValue_clean, operation_modes_units;
    try (unfold logic_value; destruct (str_eqb _ _); constructor; apply units_js).
  all: apply Forall_map; eapply Forall_impl; [exact Hk|]; apply condition_payload_clean.
Qed.

Lemma document_parse ops : Forall operation_wf ops →
  JSON_parse (JSON_stringify2 (operations_document ops))
  = Some (JObject [(js "operations", JArray (map canon (map operation_payload ops)))]).
Proof.
  intros Hw. rewrite stringify2_parse; [done|]. apply clean_object; [by apply NoDup_singleton|]. repeat constructor.
  apply Forall_map. eapply Forall_impl; [exact Hw|]. apply operation_payload_clean.
Qed.

Lemma operations_reopen ops : Forall operation_wf ops → ∀ n, ∃ ops' n',
  map_act normalizeOperation (map canon (map operation_payload ops)) n = (Ok ops', n')
  ∧ Forall2 (λ o o', ∃ k, o' = reopened_operation k o) ops ops'.
Proof.
  induction 1 as [|o ops Ho Hops IH]; intros n; [by exists [], n|].
  destruct (IH (S n + length (kept_conditions o))%nat) as (ops' & n' & E & HF).
  exists (reopened_operation n o :: ops'), n'. split; [|constructor; [by eexists|done]].
  cbn [map map_act]. unfold mbind at 1, act_bind at 1. rewrite operation_reopens by done.
  unfold mbind, act_bind. by rewrite E.
Qed.

Lemma operations_of_nonempty items : items ≠ [] → operations_of items = map_act normalizeOperation items.
Proof. by destruct items. Qed.

Lemma ok_not_blank o : operation_ok o → isOperationBlank o = false.
Proof.
  intros Hok. unfold isOperationBlank. destruct (str_eqb (o_mode o) (js "set")) eqn:E; [|done]. apply str_eqb_eq in E.
  assert (is_empty (trim (o_path o)) = false) as ->; [|done]. apply is_empty_false, Hok. by rewrite E.
Qed.

Lemma document_again ops ops' : Forall operation_wf ops → Forall (λ o, operation_settled o = true) ops →
  Forall2 (λ o o', ∃ k, o' = reopened_operation k o) ops ops' →
  JSON_stringify2 (operations_document ops') = JSON_stringify2 (operations_document ops).
Proof.
  intros Hw Hs HF. rewrite <- (stringify2_canon (operations_document ops')), <- (stringify2_canon (operations_document ops)).
  assert (map canon (map operation_payload ops') = map canon (map operation_payload ops)) as E;
    [|unfold operations_document; cbn [canon map]; by rewrite E].
  revert Hw Hs. induction HF as [|o o' ops ops' [k ->] HF IH]; intros Hw Hs; [done|].
  inversion Hw; inversion Hs; subst. cbn [map]. f_equal; [by apply operation_again|by apply IH].
Qed.

Lemma reopened_ok ops ops' : Forall operation_wf ops → Forall (λ o, operation_settled o = true) ops → Forall operation_ok ops →
  Forall2 (λ o o', ∃ k, o' = reopened_operation k o) ops ops' → Forall operation_ok ops' ∧ Forall (λ o, o_mode o ≠ []) ops'.
Proof.
  intros Hw Hs Hok HF. induction HF as [|o o' l l' [k ->] HF IH]; [done|].
  inversion Hw as [|? ? Ho Hw']; inversion Hs; inversion Hok; subst. destruct IH as [? ?]; [done..|].
  split; constructor; try done; [by apply operation_ok_reopened|]. destruct Ho as [Hm _]. by apply operation_modes_nonempty.
Qed.

Definition not_blank (ops : list ParamOverrideOperation) : list ParamOverrideOperation :=
  List.filter (λ o, negb (isOperationBlank o)) ops.

Lemma Forall_not_blank (P : ParamOverrideOperation → Prop) ops : Forall P ops → Forall P (not_blank ops).
Proof. intros H. apply Forall_forall. intros o [Ho _]%elem_of_filter_b. by eapply Forall_forall in H. Qed.

(** What a successful build gives. *)
Lemma build_valid ops txt : Forall (λ o, o_mode o ≠ []) ops → buildOperationsJson ops true = Ok txt → txt ≠ [] →
  txt = JSON_stringify2 (operations_document (not_blank ops)) ∧ Forall operation_ok (not_blank ops) ∧ not_blank ops ≠ [].
Proof.
  intros Hm H Hne. unfold buildOperationsJson in H. fold (not_blank ops) in H. apply Forall_not_blank in Hm.
  destruct (not_blank ops) as [|o rest] eqn:E; [by injection H as <-|]. apply bind_Ok_inv in H as (u & Hu & H).
  injection H as <-. apply bind_Ok_inv in Hu as (m & Hv & Hu). destruct (is_empty m) eqn:Em; [|done].
  apply is_empty_true in Em. subst m. split_and!; [done| |done].
  destruct (validate_from_first _ Hm 1 _ Hv) as [[_ ?]|(i & o' & key & _ & _ & _ & Hk & Ek)]; [done|].
  symmetry in Ek. by apply (translate_nonempty _ _ Hk) in Ek.
Qed.

Lemma build_of_valid ops : Forall (λ o, o_mode o ≠ []) ops → Forall operation_ok ops → ops ≠ [] →
  buildOperationsJson ops true = Ok (JSON_stringify2 (operations_document ops)).
Proof.
  intros Hm Hok Hne. assert (not_blank ops = ops) as E.
  { apply filter_all. intros o Ho. by rewrite ok_not_blank by (by eapply Forall_forall in Hok). }
  unfold buildOperationsJson. fold (not_blank ops). rewrite E. destruct ops as [|o rest]; [done|].
  unfold validateOperations. rewrite validate_from_ok by done. done.
Qed.

(** C36: Saving, reopening and saving again writes the same text.  For
    operations with modes of the tables whose value texts are neither quoted
    JSON strings nor overflowing numbers, the text that passes validation and is
    saved is opened again in the visual editor, as as many operations as were
    written, without an error, and saving those gives the same text. *)
Theorem save_reopen_save (ops : list ParamOverrideOperation) (txt : jsstring) (n : nat) :
  Forall operation_wf ops → Forall (λ o, operation_settled o = true) ops →
  buildOperationsJson ops true = Ok txt → txt ≠ [] →
  ∃ st n', parseInitialState txt n = (Ok st, n')
    ∧ es_editMode st = edit_visual ∧ es_visualMode st = visual_operations ∧ es_jsonText st = txt ∧ es_jsonError st = []
    ∧ length (es_operations st) = length (not_blank ops)
    ∧ buildOperationsJson (es_operations st) true = Ok txt.
Proof.
  intros Hw Hs Hb Hne.
  assert (Forall (λ o, o_mode o ≠ []) ops) as Hm.
  { eapply Forall_impl; [exact Hw|]. intros o [Ho _]. by apply operation_modes_nonempty. }
  destruct (build_valid ops txt Hm Hb Hne) as (-> & Hok & Hnb).
  apply Forall_not_blank in Hw, Hs. set (fops := not_blank ops) in *.
  destruct (operations_reopen fops Hw n) as (ops' & n' & E & HF).
  exists (mkEditorState edit_visual visual_operations [] ops' (JSON_stringify2 (operations_document fops)) []), n'.
  destruct (reopened_ok fops ops' Hw Hs Hok HF) as [Hok' Hm'].
  split; [|split_and!; try done; cbn].
  - unfold parseInitialState, operations_document. rewrite stringify2_object_trim. fold (operations_document fops).
    rewrite (proj2 (is_empty_false _) Hne), document_parse by done. rewrite property_look. unfold mbind, act_bind, lift.
    change (look [(js "operations", ?a)] "operations") with a. cbn iota.
    rewrite operations_of_nonempty by (by destruct fops). rewrite E. unfold mret, act_ret. do 3 f_equal.
    change (JObject [(js "operations", JArray (map canon (map operation_payload fops)))])
      with (canon (operations_document fops)). apply stringify2_canon.
  - by apply Forall2_length in HF.
  - assert (ops' ≠ []) as Hne' by (destruct HF; done). rewrite build_of_valid by done. f_equal. by apply document_again.
Qed.
End Reopen.

(** A rule with an optional description, a number, and a condition. *)
Definition sample_operation : ParamOverrideOperation :=
  mkOperation (js "po_1") (js " Default temperature ") (js " temperature") (js "set") [] [] (js "0.70") true (js "AND")
    [mkCondition (js "po_2") (js "model") (js "prefix") (js "openai/") false true;
     mkCondition (js "po_3") (js " ") (js "full") [] false false].

Lemma sample_operation_wf : operation_wf sample_operation.
Proof.
  split; [by apply has_true|]. repeat (split; [reflexivity|]).
  repeat (constructor; [split; [by apply has_true|done]|]). constructor.
Qed.

Lemma save_reopen_save_witness : ∃ txt st n',
  buildOperationsJson (editor := plain_editor) [sample_operation] true = Ok txt
  ∧ parseInitialState (editor := plain_editor) txt 5%nat = (Ok st, n')
  ∧ buildOperationsJson (editor := plain_editor) (es_operations st) true = Ok txt.
Proof.
  assert (∃ txt, buildOperationsJson (editor := plain_editor) [sample_operation] true = Ok txt ∧ txt ≠ []) as (txt & E & Hne)
    by (eexists; split; [vm_compute; reflexivity|done]).
  destruct (save_reopen_save (editor := plain_editor) [sample_operation] txt 5%nat) as (st & n' & Hp & _ & _ & _ & _ & _ & Hb);
    [by constructor; [apply sample_operation_wf|]|by repeat constructor|done|done|].
  by exists txt, st, n'.
Defined.

Lemma validation_names_first_error_witness :
  validateOperations (editor := plain_editor) [sample_operation] = Ok [] ∧ Forall operation_ok [sample_operation].
Proof.
  split; [reflexivity|]. apply (validation_names_first_error (editor := plain_editor)); [by repeat constructor|reflexivity].
Defined.
