(* ===== verification/ParamEditor.v ===== *)
(** * The parameter override editor

    Models the component [ParamOverrideEditorDialog] of
    [web/src/features/channels/components/dialogs/param-override-editor-dialog.tsx]:
    its state, the effects, the values it derives while rendering, and its
    handlers.  A handler is a computation on the state of the component and the
    module's identifier counter; toasts and calls of the properties [onSave]
    and [onOpenChange] are recorded in order.  A handler reads the values its
    closure captured, which are those of the state it starts from, so each one
    that needs them binds the state first. *)
From S2P Require Import Prelude JsString JsCollections JsNumber JsNumberFacts JsValue JsDynamic JsJson JsonText JsonSerialize Host ParamOverride.
Local Open Scope Z_scope.

(** ** State *)
Inductive output := toast_error (message : jsstring) | on_save (value : jsstring) | on_open_change (open : bool).

Record dialog := mkDialog {
  editMode : edit_mode;
  visualMode : visual_mode;
  legacyValue : jsstring;
  operations : list ParamOverrideOperation;
  jsonText : jsstring;
  jsonError : jsstring;
  operationSearch : jsstring;
  selectedOperationId : jsstring;
  expandedConditions : list (jsstring * bool);
  draggedOperationId : jsstring;
  dragOverOperationId : jsstring;
  dragOverPosition : drop_position;
  templatePresetKey : jsstring;
  localIdSeed : nat;
  outputs : list output;
}.

Definition modify (f : dialog → dialog) : act dialog unit := λ d, (Ok tt, f d).
Definition now : act dialog dialog := λ d, (Ok d, d).

Definition setEditMode (x : edit_mode) : act dialog unit := modify (λ '(mkDialog _ b c d e f g h i j k l m n o),
  mkDialog x b c d e f g h i j k l m n o).
Definition setVisualMode (x : visual_mode) : act dialog unit := modify (λ '(mkDialog a _ c d e f g h i j k l m n o),
  mkDialog a x c d e f g h i j k l m n o).
Definition setLegacyValue (x : jsstring) : act dialog unit := modify (λ '(mkDialog a b _ d e f g h i j k l m n o),
  mkDialog a b x d e f g h i j k l m n o).
Definition setJsonText (x : jsstring) : act dialog unit := modify (λ '(mkDialog a b c d _ f g h i j k l m n o),
  mkDialog a b c d x f g h i j k l m n o).
Definition setJsonError (x : jsstring) : act dialog unit := modify (λ '(mkDialog a b c d e _ g h i j k l m n o),
  mkDialog a b c d e x g h i j k l m n o).
Definition setOperationSearch (x : jsstring) : act dialog unit := modify (λ '(mkDialog a b c d e f _ h i j k l m n o),
  mkDialog a b c d e f x h i j k l m n o).
Definition setSelectedOperationId (x : jsstring) : act dialog unit := modify (λ '(mkDialog a b c d e f g _ i j k l m n o),
  mkDialog a b c d e f g x i j k l m n o).
Definition setExpandedConditions (u : list (jsstring * bool) → list (jsstring * bool)) : act dialog unit :=
  modify (λ '(mkDialog a b c d e f g h i j k l m n o), mkDialog a b c d e f g h (u i) j k l m n o).
Definition setDraggedOperationId (x : jsstring) : act dialog unit := modify (λ '(mkDialog a b c d e f g h i _ k l m n o),
  mkDialog a b c d e f g h i x k l m n o).
Definition setDragOverOperationId (x : jsstring) : act dialog unit := modify (λ '(mkDialog a b c d e f g h i j _ l m n o),
  mkDialog a b c d e f g h i j x l m n o).
Definition setDragOverPosition (x : drop_position) : act dialog unit := modify (λ '(mkDialog a b c d e f g h i j k _ m n o),
  mkDialog a b c d e f g h i j k x m n o).
Definition setTemplatePresetKey (x : jsstring) : act dialog unit := modify (λ '(mkDialog a b c d e f g h i j k l _ n o),
  mkDialog a b c d e f g h i j k l x n o).
Definition emit (x : output) : act dialog unit := modify (λ '(mkDialog a b c d e f g h i j k l m n o),
  mkDialog a b c d e f g h i j k l m n (o ++ [x])).

(** Run a computation that makes identifiers. *)
Definition with_ids {A} (m : act nat A) : act dialog A := λ '(mkDialog a b c d e f g h i j k l p n o),
  let (r, n') := m n in (r, mkDialog a b c d e f g h i j k l p n' o).

(** [setOperations(updater)] *)
Definition setOperations (u : list ParamOverrideOperation → list ParamOverrideOperation) : act dialog unit :=
  modify (λ '(mkDialog a b c d e f g h i j k l m n o), mkDialog a b c (u d) e f g h i j k l m n o).

(** [setOperations(updater)] with an updater that makes identifiers *)
Definition setOperations_with (u : list ParamOverrideOperation → act nat (list ParamOverrideOperation)) : act dialog unit :=
  d ← now; next ← with_ids (u (operations d)); setOperations (λ _, next).

Definition same_edit_mode (a b : edit_mode) : bool :=
  match a, b with edit_visual, edit_visual | edit_json, edit_json => true | _, _ => false end.

(** [list[0]?.id || ''] *)
Definition first_id (ops : list ParamOverrideOperation) : jsstring := match ops with o :: _ => o_id o | [] => [] end.

(** ** Patches: the fields the form sets, [None] for an absent one *)
Record OperationPatch := mkPatch {
  pt_description : option jsstring;
  pt_path : option jsstring;
  pt_mode : option jsstring;
  pt_from : option jsstring;
  pt_to : option jsstring;
  pt_value_text : option jsstring;
  pt_keep_origin : option bool;
  pt_logic : option jsstring;
}.

(** [{ ...o, ...patch }] *)
Definition patch_operation (p : OperationPatch) (o : ParamOverrideOperation) : ParamOverrideOperation :=
  mkOperation (o_id o) (default (o_description o) (pt_description p)) (default (o_path o) (pt_path p))
    (default (o_mode o) (pt_mode p)) (default (o_from o) (pt_from p)) (default (o_to o) (pt_to p))
    (default (o_value_text o) (pt_value_text p)) (default (o_keep_origin o) (pt_keep_origin p))
    (default (o_logic o) (pt_logic p)) (o_conditions o).

Record ConditionPatch := mkConditionPatch {
  ct_path : option jsstring;
  ct_mode : option jsstring;
  ct_value_text : option jsstring;
  ct_invert : option bool;
  ct_pass_missing_key : option bool;
}.

Definition patch_condition (p : ConditionPatch) (c : ParamOverrideCondition) : ParamOverrideCondition :=
  mkCondition (c_id c) (default (c_path c) (ct_path p)) (default (c_mode c) (ct_mode p))
    (default (c_value_text c) (ct_value_text p)) (default (c_invert c) (ct_invert p))
    (default (c_pass_missing_key c) (ct_pass_missing_key p)).

Definition patch_rule (p : ConditionPatch) (r : PruneRule) : PruneRule :=
  mkRule (pr_id r) (default (pr_path r) (ct_path p)) (default (pr_mode r) (ct_mode p))
    (default (pr_value_text r) (ct_value_text p)) (default (pr_invert r) (ct_invert p))
    (default (pr_pass_missing_key r) (ct_pass_missing_key p)).

Record ErrorPatch := mkErrorPatch {
  ep_message : option jsstring;
  ep_statusCode : option number;
  ep_code : option jsstring;
  ep_type : option jsstring;
  ep_skipRetry : option bool;
  ep_simpleMode : option bool;
}.

Definition patch_error (p : ErrorPatch) (d : ReturnErrorDraft) : ReturnErrorDraft :=
  mkErrorDraft (default (rd_message d) (ep_message p)) (default (rd_statusCode d) (ep_statusCode p))
    (default (rd_code d) (ep_code p)) (default (rd_type d) (ep_type p)) (default (rd_skipRetry d) (ep_skipRetry p))
    (default (rd_simpleMode d) (ep_simpleMode p)).

Record PrunePatch := mkPrunePatch {
  pp_simpleMode : option bool;
  pp_typeText : option jsstring;
  pp_logic : option jsstring;
  pp_recursive : option bool;
}.

Definition patch_prune (p : PrunePatch) (d : PruneObjectsDraft) : PruneObjectsDraft :=
  mkPruneDraft (default (pd_simpleMode d) (pp_simpleMode p)) (default (pd_typeText d) (pp_typeText p))
    (default (pd_logic d) (pp_logic p)) (default (pd_recursive d) (pp_recursive p)) (pd_rules d).

Definition set_value_text (value : jsstring) (o : ParamOverrideOperation) : ParamOverrideOperation :=
  mkOperation (o_id o) (o_description o) (o_path o) (o_mode o) (o_from o) (o_to o) value (o_keep_origin o) (o_logic o)
    (o_conditions o).

Definition set_conditions (cs : list ParamOverrideCondition) (o : ParamOverrideOperation) : ParamOverrideOperation :=
  mkOperation (o_id o) (o_description o) (o_path o) (o_mode o) (o_from o) (o_to o) (o_value_text o) (o_keep_origin o)
    (o_logic o) cs.

(** [prev.map((o) => (o.id === id ? f(o) : o))] *)
Definition update_where (id : jsstring) (f : ParamOverrideOperation → ParamOverrideOperation)
    : list ParamOverrideOperation → list ParamOverrideOperation := map (λ o, if has_id id o then f o else o).

Section Editor.
Context {host : Host} {editor : EditorHost}.

(** [t(key)] *)
Definition t_ (key : string) : jsstring := translate (js key) None.

Definition error_message (e : thrown) : jsstring := match e with TypeErr => conversion_message | Err m => m end.

(** ** Effects *)

(** When the dialog opens. *)
Definition open_effect (open : bool) (value : jsstring) : act dialog unit :=
  if negb open then mret tt
  else
    state ← with_ids (parseInitialState value);
    setEditMode (es_editMode state);;
    setVisualMode (es_visualMode state);;
    setLegacyValue (es_legacyValue state);;
    setOperations (λ _, es_operations state);;
    setJsonText (es_jsonText state);;
    setJsonError (es_jsonError state);;
    setOperationSearch [];;
    setSelectedOperationId (first_id (es_operations state));;
    setExpandedConditions (λ _, []);;
    setDraggedOperationId [];;
    setDragOverOperationId [];;
    setDragOverPosition before;;
    setTemplatePresetKey (match es_visualMode state with
      | visual_legacy => js "legacy_default" | visual_operations => js "operations_default" end).

(** Keep [selectedOperationId] valid. *)
Definition selection_effect : act dialog unit :=
  d ← now;
  match operations d with
  | [] => setSelectedOperationId []
  | o :: _ =>
      if negb (existsb (has_id (selectedOperationId d)) (operations d)) then setSelectedOperationId (o_id o) else mret tt
  end.

(** ** Derived values *)
Definition templatePresetOptions : list (jsstring * jsstring) :=
  map (λ '(value, config), (value, tp_label config)) TEMPLATE_PRESET_CONFIG.

Definition operationCount (d : dialog) : nat := length (List.filter (λ o, negb (isOperationBlank o)) (operations d)).

Definition filteredOperations (d : dialog) : list ParamOverrideOperation :=
  let keyword := toLowerCase (trim (operationSearch d)) in
  if is_empty keyword then operations d
  else List.filter (λ op,
    let searchableText := toLowerCase (join (js " ") (List.filter (λ s, negb (is_empty s))
      [o_description op; o_mode op; o_path op; o_from op; o_to op; o_value_text op])) in
    str_includes searchableText keyword) (operations d).

Definition selectedOperation (d : dialog) : option ParamOverrideOperation :=
  List.find (has_id (selectedOperationId d)) (operations d).

Definition selectedOperationIndex (d : dialog) : option nat := findIndex (has_id (selectedOperationId d)) (operations d).

Definition returnErrorDraft (d : dialog) : option ReturnErrorDraft :=
  match selectedOperation d with
  | Some o => if str_eqb (o_mode o) (js "return_error") then Some (parseReturnErrorDraft (o_value_text o)) else None
  | None => None
  end.

Definition pruneObjectsDraft (d : dialog) : act nat (option PruneObjectsDraft) :=
  match selectedOperation d with
  | Some o =>
      if str_eqb (o_mode o) (js "prune_objects") then draft ← parsePruneObjectsDraft (o_value_text o); mret (Some draft)
      else mret None
  | None => mret None
  end.

Definition mode_counts (ops : list ParamOverrideOperation) : list (jsstring * Z) :=
  fold_left (λ counts op,
    let mode := or_text (o_mode op) (js "set") in
    map_set mode (default 0 (map_get mode counts) + 1) counts) ops [].

Definition topOperationModes (d : dialog) : list (jsstring * Z) :=
  take 4 (sort_by (λ a b, snd b - snd a) (mode_counts (operations d))).

(** A render: the initial value of [operations] is made anew, and the draft of a
    selected [prune_objects] operation is parsed. *)
Definition render : act dialog (option PruneObjectsDraft) :=
  _ ← with_ids createDefaultOperation; d ← now; with_ids (pruneObjectsDraft d).

(** ** Operations *)
Definition updateOperation (operationId : jsstring) (patch : OperationPatch) : act dialog unit :=
  setOperations (update_where operationId (patch_operation patch)).

Definition addOperation : act dialog unit :=
  created ← with_ids createDefaultOperation;
  setOperations (λ prev, prev ++ [created]);;
  setSelectedOperationId (o_id created).

Definition clone_source (source : ParamOverrideOperation) : jsval :=
  obj [("description", JString (o_description source)); ("path", JString (o_path source)); ("mode", JString (o_mode source));
    ("value", parseLooseValue (o_value_text source)); ("keep_origin", JBool (o_keep_origin source));
    ("from", JString (o_from source)); ("to", JString (o_to source)); ("logic", JString (o_logic source));
    ("conditions", JArray (map (λ c, obj [("path", JString (c_path c)); ("mode", JString (c_mode c));
       ("value", parseLooseValue (c_value_text c)); ("invert", JBool (c_invert c));
       ("pass_missing_key", JBool (c_pass_missing_key c))]%string) (o_conditions source)))]%string.

(** React may run the updater at once or at the next render; [insertedId] is
    only known afterwards in the first case ([eager]). *)
Definition duplicateOperation (eager : bool) (operationId : jsstring) : act dialog unit :=
  d ← now;
  match findIndex (has_id operationId) (operations d) with
  | None => mret tt
  | Some idx =>
      match operations d !! idx with
      | None => mret tt
      | Some source =>
          cloned ← with_ids (normalizeOperation (clone_source source));
          setOperations (insert_at (S idx) cloned);;
          if eager then setSelectedOperationId (o_id cloned) else mret tt
      end
  end.

Definition removeOperation (operationId : jsstring) : act dialog unit :=
  setOperations_with (λ prev,
    if (length prev <=? 1)%nat then o ← createDefaultOperation; mret [o]
    else mret (List.filter (λ o, negb (has_id operationId o)) prev)).

(** *** Conditions *)
Definition addCondition (operationId : jsstring) : act dialog unit :=
  created ← with_ids createDefaultCondition;
  setOperations (update_where operationId (λ op, set_conditions (o_conditions op ++ [created]) op));;
  setExpandedConditions (map_set (c_id created) true).

Definition updateCondition (operationId conditionId : jsstring) (patch : ConditionPatch) : act dialog unit :=
  setOperations (update_where operationId (λ op,
    set_conditions (map (λ c, if str_eqb (c_id c) conditionId then patch_condition patch c else c) (o_conditions op)) op)).

Definition removeCondition (operationId conditionId : jsstring) : act dialog unit :=
  setOperations (update_where operationId (λ op,
    set_conditions (List.filter (λ c, negb (str_eqb (c_id c) conditionId)) (o_conditions op)) op)).

(** *** Drafts *)
Definition updateReturnErrorDraft (operationId : jsstring) (draftPatch : ErrorPatch) : act dialog unit :=
  setOperations (update_where operationId (λ op,
    set_value_text (buildReturnErrorValueText (patch_error draftPatch (parseReturnErrorDraft (o_value_text op)))) op)).

(** The updater is a function of the draft, which may make identifiers; a
    partial draft is the function [patch_prune]. *)
Definition prune_operation (updater : PruneObjectsDraft → act nat PruneObjectsDraft) (op : ParamOverrideOperation)
    : act nat ParamOverrideOperation :=
  draft ← parsePruneObjectsDraft (o_value_text op);
  nextDraft ← updater draft;
  mret (set_value_text (buildPruneObjectsValueText nextDraft) op).

Definition updatePruneObjectsDraft (operationId : jsstring) (updater : PruneObjectsDraft → act nat PruneObjectsDraft)
    : act dialog unit :=
  setOperations_with (map_act (λ op, if has_id operationId op then prune_operation updater op else mret op)).

Definition patchPruneObjectsDraft (operationId : jsstring) (patch : PrunePatch) : act dialog unit :=
  updatePruneObjectsDraft operationId (λ draft, mret (patch_prune patch draft)).

Definition with_rules (simple : bool) (rules : list PruneRule) (draft : PruneObjectsDraft) : PruneObjectsDraft :=
  mkPruneDraft simple (pd_typeText draft) (pd_logic draft) (pd_recursive draft) rules.

Definition addPruneRule (operationId : jsstring) : act dialog unit :=
  updatePruneObjectsDraft operationId (λ draft,
    rule ← normalizePruneRule (JObject []); mret (with_rules false (pd_rules draft ++ [rule]) draft)).

Definition updatePruneRule (operationId ruleId : jsstring) (patch : ConditionPatch) : act dialog unit :=
  updatePruneObjectsDraft operationId (λ draft, mret (with_rules (pd_simpleMode draft)
    (map (λ r, if str_eqb (pr_id r) ruleId then patch_rule patch r else r) (pd_rules draft)) draft)).

Definition removePruneRule (operationId ruleId : jsstring) : act dialog unit :=
  updatePruneObjectsDraft operationId (λ draft, mret (with_rules (pd_simpleMode draft)
    (List.filter (λ r, negb (str_eqb (pr_id r) ruleId)) (pd_rules draft)) draft)).

(** *** Drag and drop *)
Definition resetDragState : act dialog unit :=
  setDraggedOperationId [];; setDragOverOperationId [];; setDragOverPosition before.

Definition handleDragStart (operationId : jsstring) : act dialog unit :=
  setDraggedOperationId operationId;; setSelectedOperationId operationId.

(** The event gives [clientY] and the [top] and [height] of its target. *)
Definition handleDragOver (clientY top height : number) (operationId : jsstring) : act dialog unit :=
  d ← now;
  if is_empty (draggedOperationId d) || str_eqb (draggedOperationId d) operationId then mret tt
  else
    let position := if num_ltb (num_div height (num_of_Z 2)) (num_sub clientY top) then after else before in
    setDragOverOperationId operationId;; setDragOverPosition position.

(** [data] is [event.dataTransfer.getData('text/plain')]. *)
Definition handleDrop (data operationId : jsstring) : act dialog unit :=
  d ← now;
  let sourceId := or_text (draggedOperationId d) data in
  let position := if str_eqb (dragOverOperationId d) operationId then dragOverPosition d else before in
  (if negb (is_empty sourceId) && negb (is_empty operationId) && negb (str_eqb sourceId operationId) then
     setOperations (λ prev, reorderOperations prev sourceId operationId position);;
     setSelectedOperationId sourceId
   else mret tt);;
  resetDragState.

(** ** Mode switching and templates *)
Definition buildVisualJson (d : dialog) : run jsstring :=
  match visualMode d with
  | visual_legacy =>
      let trimmed := trim (legacyValue d) in
      if is_empty trimmed then Ok []
      else match JSON_parse trimmed with
        | None => Throw (Err (t_ "Parameter override must be valid JSON format"))
        | Some (JObject es) => Ok (JSON_stringify2 (JObject es))
        | Some _ => Throw (Err (t_ "Legacy format must be a JSON object"))
        end
  | visual_operations => buildOperationsJson (operations d) true
  end.

Definition switchToJsonMode : act dialog unit :=
  d ← now;
  if same_edit_mode (editMode d) edit_json then mret tt
  else
    (match buildVisualJson d with
     | Ok text => setJsonText text;; setJsonError []
     | Throw e =>
         emit (toast_error (error_message e));;
         (match visualMode d with
          | visual_legacy => setJsonText (legacyValue d)
          | visual_operations => text ← lift (buildOperationsJson (operations d) false); setJsonText text
          end);;
         setJsonError (or_text (error_message e) (t_ "Parameter configuration error"))
     | NoFuel => lift NoFuel
     end);;
    setEditMode edit_json.

Definition switchToVisualMode : act dialog unit :=
  d ← now;
  if same_edit_mode (editMode d) edit_visual then mret tt
  else
    let trimmed := trim (jsonText d) in
    if is_empty trimmed then
      fallback ← with_ids createDefaultOperation;
      setVisualMode visual_operations;;
      setOperations (λ _, [fallback]);;
      setSelectedOperationId (o_id fallback);;
      setLegacyValue [];;
      setJsonError [];;
      setEditMode edit_visual
    else match JSON_parse trimmed with
      | None => emit (toast_error (t_ "Parameter override must be valid JSON format"))
      | Some parsed =>
          match parsed with
          | JObject _ =>
              parsedOperations ← lift (property parsed "operations");
              match parsedOperations with
              | JArray items =>
                  nextOps ← with_ids (operations_of items);
                  setVisualMode visual_operations;;
                  setOperations (λ _, nextOps);;
                  setSelectedOperationId (first_id nextOps);;
                  setLegacyValue [];;
                  setJsonError [];;
                  setEditMode edit_visual;;
                  setTemplatePresetKey (js "operations_default")
              | _ =>
                  fallback ← with_ids createDefaultOperation;
                  setVisualMode visual_legacy;;
                  setLegacyValue (JSON_stringify2 parsed);;
                  setOperations (λ _, [fallback]);;
                  setSelectedOperationId (o_id fallback);;
                  setJsonError [];;
                  setEditMode edit_visual;;
                  setTemplatePresetKey (js "legacy_default")
              end
          | _ => emit (toast_error (t_ "Parameter override must be a valid JSON object"))
          end
      end.

(** The properties [...v] copies: own enumerable ones. *)
Definition spread_entries (v : jsval) : list (jsstring * jsval) :=
  let indexed (l : list jsval) := imap (λ i x, (string_of_Z (Z.of_nat i), x)) l in
  match v with
  | JObject es => own_entries es
  | JArray l => indexed l
  | JString s => indexed (map (λ c, JString [c]) s)
  | _ => []
  end.

(** [{ ...a, ...b }] *)
Definition spread_merge (a b : jsval) : jsval :=
  JObject (fold_left (λ acc '(k, v), put_property k v acc) (spread_entries a ++ spread_entries b) []).

Inductive fill_mode := fill | append.

(** The legacy template becomes the document. *)
Definition show_legacy (text : jsstring) : act dialog unit :=
  setVisualMode visual_legacy;;
  setLegacyValue text;;
  created ← with_ids createDefaultOperation;
  setOperations (λ _, [created]);;
  setJsonText text;;
  setJsonError [];;
  setEditMode edit_visual.

Definition fillTemplate (mode : fill_mode) : act dialog unit :=
  d ← now;
  let preset := default operations_default (map_get (templatePresetKey d) TEMPLATE_PRESET_CONFIG) in
  let payload := tp_payload preset in
  match tp_kind preset with
  | kind_legacy =>
      match mode, visualMode d with
      | append, visual_legacy =>
          let trimmed := trim (legacyValue d) in
          match (if is_empty trimmed then Some (JObject []) else JSON_parse trimmed) with
          | None => emit (toast_error (t_ "Current legacy JSON is invalid, cannot append"))
          | Some parsedCurrent => show_legacy (JSON_stringify2 (spread_merge payload parsedCurrent))
          end
      | _, _ => show_legacy (JSON_stringify2 payload)
      end
  | kind_operations =>
      rawOperations ← lift (property payload "operations");
      let operationsPayload := match rawOperations with JArray items => items | _ => [] end in
      match mode with
      | append =>
          appended ← with_ids (map_act normalizeOperation operationsPayload);
          let existing := match visualMode d with
            | visual_operations => List.filter (λ o, negb (isOperationBlank o)) (operations d)
            | visual_legacy => []
            end in
          let nextOps := existing ++ appended in
          setVisualMode visual_operations;;
          setOperations (λ _, match nextOps with [] => appended | _ => nextOps end);;
          setSelectedOperationId (or_text (first_id nextOps) (first_id appended));;
          setLegacyValue [];;
          setJsonError [];;
          setEditMode edit_visual;;
          setJsonText []
      | fill =>
          finalOps ← with_ids (operations_of operationsPayload);
          setVisualMode visual_operations;;
          setOperations (λ _, finalOps);;
          setSelectedOperationId (first_id finalOps);;
          setJsonText (JSON_stringify2 (JObject [(js "operations", JArray operationsPayload)]));;
          setJsonError [];;
          setEditMode edit_visual
      end
  end.

Definition resetEditorState : act dialog unit :=
  fallback ← with_ids createDefaultOperation;
  setVisualMode visual_operations;;
  setLegacyValue [];;
  setOperations (λ _, [fallback]);;
  setSelectedOperationId (o_id fallback);;
  setJsonText [];;
  setJsonError [];;
  setTemplatePresetKey (js "operations_default");;
  setEditMode edit_visual.

(** ** JSON mode and saving *)
Definition handleJsonChange (nextValue : jsstring) : act dialog unit :=
  setJsonText nextValue;;
  let trimmed := trim nextValue in
  if is_empty trimmed then setJsonError []
  else setJsonError (if verifyJSON trimmed then [] else t_ "JSON format error").

Definition visualValidationError (d : dialog) : jsstring :=
  if negb (same_edit_mode (editMode d) edit_visual) then []
  else match buildVisualJson d with
    | Throw e => or_text (error_message e) (t_ "Parameter configuration error")
    | _ => []
    end.

(** What is saved, or what is thrown before [onSave] is called. *)
Definition saved_text (d : dialog) : run jsstring :=
  match editMode d with
  | edit_json =>
      let trimmed := trim (jsonText d) in
      if is_empty trimmed then Ok []
      else match JSON_parse trimmed with
        | None => Throw (Err (t_ "Parameter override must be valid JSON format"))
        | Some v => Ok (JSON_stringify2 v)
        end
  | edit_visual => buildVisualJson d
  end.

Definition handleSave : act dialog unit :=
  d ← now;
  match saved_text d with
  | Ok result => emit (on_save result);; emit (on_open_change false)
  | Throw e => emit (toast_error (error_message e))
  | NoFuel => lift NoFuel
  end.

(** [{ ...prev, ...Object.fromEntries(ids.map((id) => [id, open])) }] *)
Definition expand_ids (open : bool) (ids : list jsstring) (prev : list (jsstring * bool)) : list (jsstring * bool) :=
  fold_left (λ acc id, map_set id open acc) ids prev.

Definition setAllConditions (open : bool) : act dialog unit :=
  d ← now;
  match selectedOperation d with
  | None => mret tt
  | Some o => setExpandedConditions (expand_ids open (map c_id (o_conditions o)))
  end.

Definition expandAllConditions : act dialog unit := setAllConditions true.
Definition collapseAllConditions : act dialog unit := setAllConditions false.

(** ** The form of one operation *)
Definition from_patch (s : jsstring) : OperationPatch := mkPatch None None None (Some s) None None None None.
Definition to_patch (s : jsstring) : OperationPatch := mkPatch None None None None (Some s) None None None.
Definition value_patch (s : jsstring) : OperationPatch := mkPatch None None None None None (Some s) None None.

(** The button that formats a JSON value. *)
Definition formatValue (operation : ParamOverrideOperation) : act dialog unit :=
  match JSON_parse (o_value_text operation) with
  | Some parsed => updateOperation (o_id operation) (value_patch (JSON_stringify2 parsed))
  | None => mret tt
  end.

(** The two ends of [sync_fields]: the chosen type with the shown key, and the
    typed key with the shown type. *)
Definition changeSyncFromType (operation : ParamOverrideOperation) (v : jsstring) : act dialog unit :=
  updateOperation (o_id operation) (from_patch (buildSyncTargetSpec v (st_key (parseSyncTargetSpec (o_from operation))))).
Definition changeSyncFromKey (operation : ParamOverrideOperation) (value : jsstring) : act dialog unit :=
  updateOperation (o_id operation) (from_patch (buildSyncTargetSpec (st_type (parseSyncTargetSpec (o_from operation))) value)).
Definition changeSyncToType (operation : ParamOverrideOperation) (v : jsstring) : act dialog unit :=
  updateOperation (o_id operation) (to_patch (buildSyncTargetSpec v (st_key (parseSyncTargetSpec (o_to operation))))).
Definition changeSyncToKey (operation : ParamOverrideOperation) (value : jsstring) : act dialog unit :=
  updateOperation (o_id operation) (to_patch (buildSyncTargetSpec (st_type (parseSyncTargetSpec (o_to operation))) value)).

(** The presets of both ends, and of the error response. *)
Definition SYNC_PRESETS : list (jsstring * jsstring) :=
  [(js "header:session_id", js "json:prompt_cache_key"); (js "json:prompt_cache_key", js "header:session_id")].
Definition applySyncPreset (operation : ParamOverrideOperation) (preset : jsstring * jsstring) : act dialog unit :=
  updateOperation (o_id operation) (mkPatch None None None (Some (fst preset)) (Some (snd preset)) None None None).

Definition ERROR_PRESETS : list (Z * jsstring * jsstring) :=
  [(400, js "invalid_request", js "invalid_request_error"); (401, js "unauthorized", js "authentication_error");
   (429, js "rate_limited", js "rate_limit_error")].
Definition applyErrorPreset (operationId : jsstring) (preset : Z * jsstring * jsstring) : act dialog unit :=
  let '(statusCode, code, type) := preset in
  updateReturnErrorDraft operationId (mkErrorPatch None (Some (num_of_Z statusCode)) (Some code) (Some type) None None).
End Editor.
