(* ===== verification/ParamIdFacts.v ===== *)
(** * Identifiers of the parameter override editor

    Identifiers are distinct because each carries the counter's value, and
    every helper that makes operations, conditions or rules gives them the
    identifiers made while it ran, in order. *)
From S2P Require Import Prelude JsString JsCollections JsNumber JsNumberFacts JsValue JsDynamic JsJson JsonText JsonSerialize Host ParamOverride ParamEditor.
Local Open Scope Z_scope.

(** ** Identifiers *)
Lemma digits_no_underscore s : all_digits s = true → 95 ∉ s.
Proof.
  intros H Hin%list_elem_of_In. unfold all_digits in H. rewrite forallb_forall in H. by apply H in Hin.
Qed.

Lemma string_of_nat_inj n m : string_of_Z (Z.of_nat n) = string_of_Z (Z.of_nat m) → n = m.
Proof.
  unfold string_of_Z. destruct (Z.ltb_spec (Z.of_nat n) 0), (Z.ltb_spec (Z.of_nat m) 0); try lia. intros E.
  destruct (string_of_nonneg_spec (Z.of_nat n) ltac:(lia)) as (En & _), (string_of_nonneg_spec (Z.of_nat m) ltac:(lia)) as (Em & _).
  rewrite E in En. lia.
Qed.

(** The text after the last separator. *)
Lemma after_last_separator (c : Z) (a b a' b' : list Z) : c ∉ b → c ∉ b' → a ++ c :: b = a' ++ c :: b' → b = b'.
Proof.
  intros Hb Hb' E. destruct (app_eq_app _ _ _ _ E) as (l & [[-> El]|[-> El]]); destruct l as [|x l]; cbn in El;
    [by injection El| |by injection El|]; injection El as -> El; [destruct Hb'|destruct Hb]; rewrite El; apply elem_of_app; right; left.
Qed.

Section Editor.
Context {host : Host} {editor : EditorHost}.

Lemma local_id_inj n m : local_id n = local_id m → n = m.
Proof.
  intros E. unfold local_id in E. apply string_of_nat_inj. change (js "_") with [95] in E.
  assert (∀ k, 95 ∉ string_of_Z (Z.of_nat k)) as Hno.
  { intros k. unfold string_of_Z. destruct (Z.ltb_spec (Z.of_nat k) 0); [lia|].
    apply digits_no_underscore, string_of_nonneg_spec. lia. }
  apply (after_last_separator 95 (js "po_" ++ string_of_Z (date_now n)) _ (js "po_" ++ string_of_Z (date_now m))); auto.
Qed.

#[local] Instance local_id_injective : Inj (=) (=) local_id.
Proof. intros n m. apply local_id_inj. Qed.

(** The identifiers made while the counter went from [n] to [n']. *)
Definition ids_between (n n' : nat) : list jsstring := map local_id (seq n (n' - n)).

(** Distinct identifiers that were made before the counter reached [n]. *)
Definition ids_ok (n : nat) (ids : list jsstring) : Prop := NoDup ids ∧ Forall (λ id, ∃ k, (k < n)%nat ∧ id = local_id k) ids.

Lemma ids_ok_mono n n' ids : (n ≤ n')%nat → ids_ok n ids → ids_ok n' ids.
Proof. intros H [Hn Ho]. split; [done|]. eapply Forall_impl; [exact Ho|]. intros id (k & Hk & ->). exists k. split; [lia|done]. Qed.

Lemma ids_ok_sublist n ids ids' : sublist ids' ids → ids_ok n ids → ids_ok n ids'.
Proof.
  intros Hs [Hn Ho]. split; [by eapply sublist_NoDup|]. rewrite Forall_forall in *. intros x Hx. apply Ho.
  eapply elem_of_submseteq; [exact Hx|by apply sublist_submseteq].
Qed.

Lemma ids_ok_perm n ids ids' : ids' ≡ₚ ids → ids_ok n ids → ids_ok n ids'.
Proof. intros Hp [Hn Ho]. split; by rewrite Hp. Qed.

Lemma ids_between_ok n n' : ids_ok n' (ids_between n n').
Proof.
  split; [apply NoDup_fmap_2; [apply _|apply NoDup_seq]|]. apply Forall_forall. intros x Hx.
  apply list_elem_of_fmap in Hx as (k & -> & Hk%elem_of_seq). exists k. split; [lia|done].
Qed.

Lemma ids_ok_fresh n n' ids : (n ≤ n')%nat → ids_ok n ids → ids_ok n' (ids ++ ids_between n n').
Proof.
  intros Hle Hids. destruct (ids_between_ok n n') as [Hb1 Hb2]. destruct (ids_ok_mono n n' ids Hle Hids) as [Hn Ho].
  split; [|by apply Forall_app]. apply NoDup_app. split_and!; [done| |done]. intros x Hx Hb.
  destruct Hids as [_ Hold]. rewrite Forall_forall in Hold. destruct (Hold x Hx) as (k & Hk & ->).
  apply list_elem_of_fmap in Hb as (j & E%local_id_inj & Hj%elem_of_seq). lia.
Qed.

Lemma ids_between_split n m p : (n ≤ m)%nat → (m ≤ p)%nat → ids_between n p = ids_between n m ++ ids_between m p.
Proof.
  intros H1 H2. unfold ids_between. rewrite <- map_app. f_equal. replace (p - n)%nat with ((m - n) + (p - m))%nat by lia.
  rewrite seq_app. do 2 f_equal. lia.
Qed.

Lemma ids_between_one n : ids_between n (S n) = [local_id n].
Proof. unfold ids_between. by replace (S n - n)%nat with 1%nat by lia. Qed.

(** ** What makes identifiers *)
Definition op_ids (o : ParamOverrideOperation) : list jsstring := o_id o :: map c_id (o_conditions o).
Definition all_ids (ops : list ParamOverrideOperation) : list jsstring := concat (map op_ids ops).

Definition modes_ok (o : ParamOverrideOperation) : Prop :=
  o_mode o ∈ OPERATION_MODE_VALUES ∧ Forall (λ c, c_mode c ∈ CONDITION_MODE_VALUES) (o_conditions o).

Lemma mode_or_in values v fallback : js fallback ∈ values → mode_or values v fallback ∈ values.
Proof. intros H. destruct v; try done. cbn. destruct (has values s) eqn:E; [by apply has_true|done]. Qed.

Lemma full_mode : js "full" ∈ CONDITION_MODE_VALUES.
Proof. by apply has_true. Qed.
Lemma set_mode : js "set" ∈ OPERATION_MODE_VALUES.
Proof. by apply has_true. Qed.

(** A computation that makes identifiers: the counter does not go back, and a
    result's identifiers are those made, in order. *)
Definition makes {A} (m : act nat A) (ids : A → list jsstring) (P : A → Prop) : Prop :=
  ∀ n, let '(r, n') := m n in (n ≤ n')%nat ∧ ∀ a, r = Ok a → ids a = ids_between n n' ∧ P a.

Lemma map_act_makes {A B} (f : A → act nat B) ids P (l : list A) : (∀ x, makes (f x) ids P) →
  makes (map_act f l) (λ bs, concat (map ids bs)) (λ bs, Forall P bs ∧ length bs = length l).
Proof.
  intros Hf. induction l as [|x l IH]; intros n; cbn [map_act].
  - cbn. split; [done|]. intros a [= <-]. unfold ids_between. by rewrite Nat.sub_diag.
  - unfold mbind, act_bind. specialize (Hf x n). destruct (f x n) as [[y|e|] n1]; [|by destruct Hf..].
    destruct Hf as [Hle Hy]. destruct (Hy y eq_refl) as [Ey Py]. specialize (IH n1).
    destruct (map_act f l n1) as [[ys|e|] n2]; [|destruct IH; (split; [lia|done])..]. destruct IH as [Hle2 Hys].
    destruct (Hys ys eq_refl) as (Eys & Pys & Hl). cbn. split; [lia|]. intros a [= <-]. cbn [map concat length].
    rewrite Ey, Eys, <- ids_between_split by lia. split; [done|]. split; [by constructor|by rewrite Hl].
Qed.

Lemma property_cases v key : (is_nullish v = true ∧ property v key = Throw TypeErr) ∨ (is_nullish v = false ∧ ∃ w, property v key = Ok w).
Proof. destruct v; eauto 6. Qed.

Lemma normalizeCondition_makes v : makes (normalizeCondition v) (λ c, [c_id c]) (λ c, c_mode c ∈ CONDITION_MODE_VALUES).
Proof.
  intros n. unfold normalizeCondition, mbind, act_bind, nextLocalId, lift, mret, act_ret.
  set (w := or_empty_object v). destruct (is_nullish w) eqn:E.
  - destruct w; try done; cbn; (split; [lia|done]).
  - destruct (property_cases w "path") as [[? _]|[_ [a1 ->]]]; [congruence|].
    destruct (property_cases w "mode") as [[? _]|[_ [a2 ->]]]; [congruence|].
    destruct (property_cases w "value") as [[? _]|[_ [a3 ->]]]; [congruence|].
    destruct (property_cases w "invert") as [[? _]|[_ [a4 ->]]]; [congruence|].
    destruct (property_cases w "pass_missing_key") as [[? _]|[_ [a5 ->]]]; [congruence|].
    split; [lia|]. intros c [= <-]. rewrite ids_between_one. split; [done|]. apply mode_or_in, full_mode.
Qed.

Lemma normalizePruneRule_same v n : normalizePruneRule v n =
  match normalizeCondition v n with
  | (Ok c, n') => (Ok (mkRule (c_id c) (c_path c) (c_mode c) (c_value_text c) (c_invert c) (c_pass_missing_key c)), n')
  | (Throw e, n') => (Throw e, n')
  | (NoFuel, n') => (NoFuel, n')
  end.
Proof.
  unfold normalizePruneRule, normalizeCondition, mbind, act_bind, nextLocalId, lift, mret, act_ret.
  by destruct (or_empty_object v).
Qed.

Lemma normalizePruneRule_makes v : makes (normalizePruneRule v) (λ r, [pr_id r]) (λ _, True).
Proof.
  intros n. rewrite normalizePruneRule_same. pose proof (normalizeCondition_makes v n) as H.
  destruct (normalizeCondition v n) as [[c|e|] n']; destruct H as [Hle H]; (split; [done|]); try done.
  intros r [= <-]. destruct (H c eq_refl) as [E _]. done.
Qed.

Lemma conditions_of_makes v : makes (conditions_of v) (λ cs, map c_id cs) (λ cs, Forall (λ c, c_mode c ∈ CONDITION_MODE_VALUES) cs).
Proof.
  intros n. destruct v as [| | | | |l|];
    try (split; [done|]; intros a [= <-]; unfold ids_between; by rewrite Nat.sub_diag). cbn [conditions_of].
  pose proof (map_act_makes normalizeCondition _ _ l normalizeCondition_makes n) as H.
  destruct (map_act normalizeCondition l n) as [r n']. destruct H as [Hle H]. split; [done|].
  intros a Ha. destruct (H a Ha) as (Ei & Hm & _). split; [|done]. rewrite <- Ei. clear.
  induction a as [|c a IH]; [done|]. cbn. by rewrite IH.
Qed.

Lemma normalizeOperation_makes v : makes (normalizeOperation v) op_ids modes_ok.
Proof.
  intros n. unfold normalizeOperation. set (w := or_empty_object v).
  destruct (is_nullish w) eqn:E; [destruct w; try done; cbn; (split; [lia|done])|].
  unfold mbind, act_bind, nextLocalId, lift, mret, act_ret.
  do 8 match goal with |- context [property w ?k] => destruct (property_cases w k) as [[? _]|[_ [? ->]]]; [congruence|] end.
  destruct (String_of _) as [logic|e|]; [|split; [lia|done]..].
  match goal with |- context [property w ?k] => destruct (property_cases w k) as [[? _]|[_ [conds ->]]]; [congruence|] end.
  pose proof (conditions_of_makes conds (S n)) as Hcs. destruct (conditions_of conds (S n)) as [[a|e|] n']; destruct Hcs as [Hle Hcs]; [|split; [lia|done]..].
  destruct (Hcs a eq_refl) as [Ea Hm]. split; [lia|]. intros o [= <-].
  unfold op_ids, modes_ok. cbn [o_id o_conditions o_mode]. rewrite (ids_between_split n (S n) n'), ids_between_one, Ea by lia.
  split; [done|]. split; [apply mode_or_in, set_mode|done].
Qed.

Lemma operations_of_makes items : makes (operations_of items) all_ids (λ ops, Forall modes_ok ops ∧ ops ≠ []).
Proof.
  intros n. destruct items as [|x items].
  - cbn [operations_of]. pose proof (normalizeOperation_makes (obj [("mode"%string, text "set")]) n) as H.
    unfold mbind, act_bind, createDefaultOperation. destruct (normalizeOperation _ n) as [[o|e|] n']; destruct H as [Hle H]; try done.
    split; [done|]. intros a [= <-]. destruct (H o eq_refl) as [E Hm]. unfold all_ids. cbn. rewrite app_nil_r.
    split; [done|]. split; [by apply Forall_singleton|done].
  - change (operations_of (x :: items)) with (map_act normalizeOperation (x :: items)).
    pose proof (map_act_makes normalizeOperation op_ids modes_ok (x :: items) normalizeOperation_makes n) as H.
    destruct (map_act normalizeOperation (x :: items) n) as [r n']. destruct H as [Hle H]. split; [done|].
    intros a Ha. destruct (H a Ha) as (E & Hm & Hl). split; [done|]. split; [done|]. by destruct a.
Qed.

Lemma default_operation_makes : makes createDefaultOperation op_ids modes_ok.
Proof. apply normalizeOperation_makes. Qed.

Lemma default_operation_ok n : ∃ o, createDefaultOperation n = (Ok o, S n) ∧ o_id o = local_id n ∧ o_conditions o = []
  ∧ modes_ok o.
Proof. eexists. split; [reflexivity|]. split; [done|]. split; [done|]. split; [apply set_mode|constructor]. Qed.
End Editor.
