(* ===== verification/ParamEditorFacts.v ===== *)
(** * The parameter override editor: states and edits

    Every identifier in the editor is distinct and older than the counter in
    every state the handlers reach, so a handler that names an operation or a
    condition touches one; dropping moves one operation; the rules of
    [prune_objects] cannot be edited. *)
From S2P Require Import Prelude JsString JsCollections JsNumber JsNumberFacts JsValue JsDynamic JsJson JsonText JsonSerialize Host ParamOverride ParamEditor ParamValueFacts ParamIdFacts.
Local Open Scope Z_scope.

Section Editor.
Context {host : Host} {editor : EditorHost}.

(** ** The invariant *)

(** With identifiers that were made but are not in the operations yet. *)
Definition pending (ids : list jsstring) (d : dialog) : Prop :=
  operations d ≠ [] ∧ Forall modes_ok (operations d) ∧ ids_ok (localIdSeed d) (all_ids (operations d) ++ ids).

Definition dialog_inv (d : dialog) : Prop := pending [] d.

Lemma ids_ok_sub n ids ids' : ids' ⊆+ ids → ids_ok n ids → ids_ok n ids'.
Proof.
  intros (k & Hk)%submseteq_Permutation [Hn Ho]. rewrite Hk in Hn, Ho. apply NoDup_app in Hn as [Hn _].
  apply Forall_app in Ho as [Ho _]. by split.
Qed.

Lemma pending_inv ids d : pending ids d → dialog_inv d.
Proof.
  intros (? & ? & Hi). split_and!; try done. eapply ids_ok_sub; [|exact Hi]. rewrite app_nil_r. apply submseteq_inserts_r. done.
Qed.

(** Replace the operations, using up the pending identifiers. *)
Lemma pending_operations ids d ops' d' : pending ids d → operations d' = ops' → localIdSeed d' = localIdSeed d →
  ops' ≠ [] → Forall modes_ok ops' → all_ids ops' ⊆+ all_ids (operations d) ++ ids → dialog_inv d'.
Proof.
  intros (_ & _ & Hi) Eo Es Hne Hm Hsub. split_and!; rewrite ?Eo, ?Es; try done. rewrite app_nil_r. by eapply ids_ok_sub.
Qed.

(** Before, a computation, after; the invariant also holds when it throws. *)
Definition triple {A} (P : dialog → Prop) (m : act dialog A) (Q : A → dialog → Prop) : Prop :=
  ∀ d, P d → match m d with (Ok a, d') => Q a d' | (_, d') => dialog_inv d' end.

Definition keeps {A} (m : act dialog A) : Prop := triple dialog_inv m (λ _, dialog_inv).

Lemma triple_bind {A B} P (m : act dialog A) R (f : A → act dialog B) Q :
  triple P m R → (∀ a, triple (R a) (f a) Q) → triple P (m ≫= f) Q.
Proof.
  intros Hm Hf d Hd. specialize (Hm d Hd). unfold mbind, act_bind. destruct (m d) as [[a|e|] d']; [|done..]. by apply Hf.
Qed.

Lemma triple_pre {A} (P P' : dialog → Prop) (m : act dialog A) Q : (∀ d, P d → P' d) → triple P' m Q → triple P m Q.
Proof. intros H Hm d Hd. by apply Hm, H. Qed.

Lemma keeps_bind {A B} (m : act dialog A) (f : A → act dialog B) : keeps m → (∀ a, keeps (f a)) → keeps (m ≫= f).
Proof. intros Hm Hf. eapply triple_bind; [exact Hm|]. intros a. apply Hf. Qed.

Lemma keeps_ret {A} (a : A) : keeps (mret a).
Proof. by intros d Hd. Qed.

Lemma keeps_lift {A} (r : run A) : keeps (lift r).
Proof. intros d Hd. unfold lift. by destruct r. Qed.

Lemma keeps_now : keeps now.
Proof. by intros d Hd. Qed.

(** Setters of other fields. *)
Lemma keeps_modify f : (∀ d, operations (f d) = operations d ∧ localIdSeed (f d) = localIdSeed d) → keeps (modify f).
Proof. intros H d Hd. destruct (H d) as [E1 E2]. unfold modify, dialog_inv, pending. by rewrite E1, E2. Qed.

Ltac setter := apply keeps_modify; intros []; done.

Lemma keeps_setEditMode x : keeps (setEditMode x). Proof. setter. Qed.
Lemma keeps_setVisualMode x : keeps (setVisualMode x). Proof. setter. Qed.
Lemma keeps_setLegacyValue x : keeps (setLegacyValue x). Proof. setter. Qed.
Lemma keeps_setJsonText x : keeps (setJsonText x). Proof. setter. Qed.
Lemma keeps_setJsonError x : keeps (setJsonError x). Proof. setter. Qed.
Lemma keeps_setOperationSearch x : keeps (setOperationSearch x). Proof. setter. Qed.
Lemma keeps_setSelected x : keeps (setSelectedOperationId x). Proof. setter. Qed.
Lemma keeps_setExpanded u : keeps (setExpandedConditions u). Proof. setter. Qed.
Lemma keeps_setDragged x : keeps (setDraggedOperationId x). Proof. setter. Qed.
Lemma keeps_setDragOver x : keeps (setDragOverOperationId x). Proof. setter. Qed.
Lemma keeps_setPosition x : keeps (setDragOverPosition x). Proof. setter. Qed.
Lemma keeps_setPreset x : keeps (setTemplatePresetKey x). Proof. setter. Qed.
Lemma keeps_emit x : keeps (emit x). Proof. setter. Qed.

Create HintDb keeps.
#[local] Hint Resolve keeps_bind keeps_ret keeps_lift keeps_now keeps_setEditMode keeps_setVisualMode keeps_setLegacyValue
  keeps_setJsonText keeps_setJsonError keeps_setOperationSearch keeps_setSelected keeps_setExpanded keeps_setDragged
  keeps_setDragOver keeps_setPosition keeps_setPreset keeps_emit : keeps.

(** The same setters while identifiers are pending. *)
Lemma pending_modify ids f : (∀ d, operations (f d) = operations d ∧ localIdSeed (f d) = localIdSeed d) →
  triple (pending ids) (modify f) (λ _, pending ids).
Proof. intros H d Hd. destruct (H d) as [E1 E2]. unfold modify, pending. by rewrite E1, E2. Qed.

(** Making identifiers. *)
Lemma makes_pending {A} (m : act nat A) ids P : makes m ids P →
  triple dialog_inv (with_ids m) (λ a d, pending (ids a) d ∧ P a).
Proof.
  intros Hm [a b c d e f g h i j k l p n o] (Hne & Hmo & Hi). unfold with_ids. cbn in *. rewrite app_nil_r in Hi.
  specialize (Hm n). destruct (m n) as [r n']. destruct Hm as [Hle Hm].
  assert (dialog_inv (mkDialog a b c d e f g h i j k l p n' o)) as Hinv.
  { split_and!; cbn; try done. rewrite app_nil_r. by eapply ids_ok_mono. }
  destruct r as [x| |]; try exact Hinv. destruct (Hm x eq_refl) as [E Hx]. split; [|done]. split_and!; cbn; try done.
  rewrite E. by apply ids_ok_fresh.
Qed.

Lemma makes_keeps {A} (m : act nat A) ids P : makes m ids P → keeps (with_ids m).
Proof.
  intros Hm d Hd. pose proof (makes_pending m ids P Hm d Hd) as H. destruct (with_ids m d) as [[a|e|] d']; [|done..].
  destruct H as [H _]. by eapply pending_inv.
Qed.

(** Showing operations that were just made. *)
Lemma show_operations ops : ops ≠ [] → Forall modes_ok ops →
  triple (pending (all_ids ops)) (setOperations (λ _, ops)) (λ _, dialog_inv).
Proof.
  intros Hne Hm d Hd. unfold setOperations, modify. eapply (pending_operations _ d ops); [exact Hd|by destruct d|by destruct d|done|done|].
  apply submseteq_inserts_l. done.
Qed.

Lemma all_ids_app ops ops' : all_ids (ops ++ ops') = all_ids ops ++ all_ids ops'.
Proof. unfold all_ids. by rewrite map_app, concat_app. Qed.

Lemma all_ids_one o : all_ids [o] = op_ids o.
Proof. unfold all_ids. cbn. by rewrite app_nil_r. Qed.

Lemma all_ids_perm ops ops' : ops ≡ₚ ops' → all_ids ops ≡ₚ all_ids ops'.
Proof.
  intros H. unfold all_ids. induction H as [|x l l' H IH|x y l|l1 l2 l3 H1 IH1 H2 IH2]; cbn [map concat];
    [done|by rewrite IH| |by rewrite IH1]. by rewrite !app_assoc, (Permutation_app_comm (op_ids y)).
Qed.

(** An updater that only moves, patches or drops operations. *)
Lemma update_operations u : (∀ ops, ops ≠ [] → NoDup (all_ids ops) → Forall modes_ok ops →
    u ops ≠ [] ∧ Forall modes_ok (u ops) ∧ all_ids (u ops) ⊆+ all_ids ops) → keeps (setOperations u).
Proof.
  intros Hu d Hd. destruct Hd as (Hne & Hm & Hi). pose proof Hi as [Hn _]. rewrite app_nil_r in Hn.
  destruct (Hu _ Hne Hn Hm) as (? & ? & Hs). unfold setOperations, modify.
  eapply (pending_operations [] d (u (operations d))); [done|by destruct d|by destruct d|done|done|]. by rewrite app_nil_r.
Qed.

Lemma update_operations_with u : (∀ ops n, ops ≠ [] → NoDup (all_ids ops) → Forall modes_ok ops →
    let '(r, n') := u ops n in (n ≤ n')%nat ∧ ∀ ops', r = Ok ops' →
      ops' ≠ [] ∧ Forall modes_ok ops' ∧ all_ids ops' ⊆+ all_ids ops ++ ids_between n n') →
  keeps (setOperations_with u).
Proof.
  intros Hu [a b c d e f g h i j k l p n o] (Hne & Hm & Hi). cbn in Hne, Hm, Hi. rewrite app_nil_r in Hi.
  unfold setOperations_with, mbind, act_bind, now, with_ids. cbn [operations].
  specialize (Hu d n Hne (proj1 Hi) Hm). destruct (u d n) as [r n']. destruct Hu as [Hle Hu].
  destruct r as [ops'|e'|]; [|split_and!; cbn; try done; rewrite app_nil_r; by eapply ids_ok_mono..].
  destruct (Hu ops' eq_refl) as (? & ? & Hs). unfold setOperations, modify. split_and!; cbn; try done. rewrite app_nil_r.
  eapply ids_ok_sub; [exact Hs|]. by apply ids_ok_fresh.
Qed.

(** *** Updates of one operation *)
Lemma op_id_in o ops : o ∈ ops → o_id o ∈ all_ids ops.
Proof.
  intros Ho. unfold all_ids. apply list_elem_of_In, in_concat. exists (op_ids o). split; [|by left].
  apply in_map. by apply list_elem_of_In.
Qed.

Lemma update_where_other id f o ops : NoDup (all_ids (o :: ops)) → has_id id o = true → update_where id f ops = ops.
Proof.
  intros Hn Ho. unfold has_id in Ho. apply str_eqb_eq in Ho. change (all_ids (o :: ops)) with (op_ids o ++ all_ids ops) in Hn.
  apply NoDup_app in Hn as (_ & Hd & _). unfold update_where. rewrite <- (map_id ops) at 2. apply map_ext_in.
  intros x Hx%list_elem_of_In. destruct (has_id id x) eqn:E; [|done]. unfold has_id in E. apply str_eqb_eq in E.
  destruct (Hd (o_id o)); [by left|]. rewrite Ho, <- E. by apply op_id_in.
Qed.

Lemma update_where_same id f ops : (∀ o, op_ids (f o) = op_ids o) → all_ids (update_where id f ops) = all_ids ops.
Proof.
  intros Hf. unfold all_ids, update_where. rewrite map_map. f_equal. apply map_ext. intros o. by destruct (has_id id o).
Qed.

Lemma update_where_sub id f ops : (∀ o, op_ids (f o) ⊆+ op_ids o) → all_ids (update_where id f ops) ⊆+ all_ids ops.
Proof.
  intros Hf. induction ops as [|o ops IH]; [done|]. unfold all_ids, update_where in *. cbn [map concat].
  apply submseteq_app; [|exact IH]. by destruct (has_id id o).
Qed.

Lemma update_where_modes id f ops : (∀ o, modes_ok o → modes_ok (f o)) → Forall modes_ok ops → Forall modes_ok (update_where id f ops).
Proof. intros Hf H. apply Forall_map. eapply Forall_impl; [exact H|]. intros o Ho. destruct (has_id id o); auto. Qed.

Lemma update_where_nonempty id f ops : ops ≠ [] → update_where id f ops ≠ [].
Proof. by destruct ops. Qed.

Lemma keeps_update_where id f : (∀ o, modes_ok o → modes_ok (f o)) → (∀ o, op_ids (f o) ⊆+ op_ids o) →
  keeps (setOperations (update_where id f)).
Proof.
  intros Hm Hs. apply update_operations. intros ops Hne _ Hmo.
  split_and!; [by apply update_where_nonempty|by apply update_where_modes|by apply update_where_sub].
Qed.

Definition patch_ok (p : OperationPatch) : Prop := ∀ m, pt_mode p = Some m → m ∈ OPERATION_MODE_VALUES.
Definition condition_patch_ok (p : ConditionPatch) : Prop := ∀ m, ct_mode p = Some m → m ∈ CONDITION_MODE_VALUES.

Lemma default_in {A} (l : list A) (x : A) (o : option A) : x ∈ l → (∀ y, o = Some y → y ∈ l) → default x o ∈ l.
Proof. intros Hx Ho. destruct o; cbn; auto. Qed.

Lemma keeps_updateOperation id p : patch_ok p → keeps (updateOperation id p).
Proof.
  intros Hp. apply keeps_update_where; [|done]. intros o [Hm Hc]. split; [by apply default_in|done].
Qed.

Lemma keeps_updateCondition id cid p : condition_patch_ok p → keeps (updateCondition id cid p).
Proof.
  intros Hp. apply keeps_update_where.
  - intros o [Hm Hc]. split; [done|]. cbn. apply Forall_map. eapply Forall_impl; [exact Hc|]. intros c Hmc.
    destruct (str_eqb _ _); [by apply default_in|done].
  - intros o. unfold op_ids. cbn. rewrite map_map. apply submseteq_skip.
    assert (map (λ c, c_id (if str_eqb (c_id c) cid then patch_condition p c else c)) (o_conditions o) = map c_id (o_conditions o))
      as ->; [|done]. apply map_ext. intros c. by destruct (str_eqb _ _).
Qed.

Lemma filter_sublist {A} (p : A → bool) (l : list A) : sublist (List.filter p l) l.
Proof. induction l as [|x l IH]; cbn; [constructor|]. destruct (p x); by constructor. Qed.

Lemma keeps_removeCondition id cid : keeps (removeCondition id cid).
Proof.
  apply keeps_update_where.
  - intros o [Hm Hc]. split; [done|]. cbn. apply Forall_forall. intros c [Hin _]%elem_of_filter_b. by eapply Forall_forall in Hc.
  - intros o. unfold op_ids. cbn. apply submseteq_skip, fmap_submseteq, sublist_submseteq, filter_sublist.
Qed.

Lemma keeps_updateReturnErrorDraft id p : keeps (updateReturnErrorDraft id p).
Proof. by apply keeps_update_where. Qed.

(** *** Adding and removing *)
Lemma keeps_addOperation : keeps addOperation.
Proof.
  eapply triple_bind; [apply (makes_pending _ _ _ default_operation_makes)|]. intros o.
  eapply triple_bind with (R := λ _, dialog_inv); [|intros _; apply keeps_setSelected].
  intros d [Hd Ho]. unfold setOperations, modify. pose proof Hd as (_ & Hm & _).
  eapply (pending_operations (op_ids o) d (operations d ++ [o])); [done|by destruct d|by destruct d| | |].
  - by destruct (operations d).
  - apply Forall_app. split; [done|by apply Forall_singleton].
  - by rewrite all_ids_app, all_ids_one.
Qed.

Lemma insert_at_perm {A} i (x : A) l : insert_at i x l ≡ₚ x :: l.
Proof. unfold insert_at. rewrite <- Permutation_middle. by rewrite take_drop. Qed.

Lemma keeps_duplicateOperation eager id : keeps (duplicateOperation eager id).
Proof.
  apply keeps_bind; [apply keeps_now|]. intros d0. destruct (findIndex _ _) as [idx|]; [|apply keeps_ret].
  destruct (operations d0 !! idx) as [source|]; [|apply keeps_ret].
  eapply triple_bind; [apply (makes_pending _ _ _ (normalizeOperation_makes _))|]. intros o.
  eapply triple_bind with (R := λ _, dialog_inv); [|intros _; destruct eager; [apply keeps_setSelected|apply keeps_ret]].
  intros d [Hd Ho]. unfold setOperations, modify. pose proof Hd as (_ & Hm & _).
  eapply (pending_operations (op_ids o) d (insert_at (S idx) o (operations d))); [done|by destruct d|by destruct d| | |].
  - intros E%(f_equal length). unfold insert_at in E. rewrite length_app in E. cbn in E. lia.
  - rewrite insert_at_perm. by constructor.
  - rewrite (all_ids_perm _ _ (insert_at_perm _ _ _)). change (all_ids (o :: operations d)) with (op_ids o ++ all_ids (operations d)).
    by rewrite Permutation_app_comm.
Qed.

Lemma all_ids_sublist ops ops' : sublist ops' ops → sublist (all_ids ops') (all_ids ops).
Proof.
  induction 1; unfold all_ids in *; cbn [map concat]; [done|by apply sublist_app|by apply sublist_inserts_l].
Qed.

Lemma remove_keeps_one id ops : (1 < length ops)%nat → NoDup (all_ids ops) → List.filter (λ o, negb (has_id id o)) ops ≠ [].
Proof.
  destruct ops as [|o1 [|o2 ops]]; cbn [length]; try lia. intros _ Hn. cbn [List.filter].
  destruct (has_id id o1) eqn:E1; [|done]. destruct (has_id id o2) eqn:E2; [|done].
  unfold has_id in *. apply str_eqb_eq in E1, E2. change (all_ids (o1 :: o2 :: ops)) with (op_ids o1 ++ all_ids (o2 :: ops)) in Hn.
  apply NoDup_app in Hn as (_ & Hd & _). destruct (Hd (o_id o1)); [by left|]. rewrite E1, <- E2. apply op_id_in. by left.
Qed.

Lemma keeps_removeOperation id : keeps (removeOperation id).
Proof.
  apply update_operations_with. intros ops n Hne Hn Hm. destruct (Nat.leb_spec (length ops) 1) as [Hl|Hl].
  - destruct (default_operation_ok n) as (o & E & Hid & Hc & Hmo). unfold mbind, act_bind. rewrite E. cbn. split; [lia|].
    intros ops' [= <-]. split_and!; [done|by apply Forall_singleton|]. rewrite all_ids_one, ids_between_one. unfold op_ids.
    rewrite Hid, Hc. cbn. apply submseteq_inserts_l. done.
  - cbn. split; [done|]. intros ops' [= <-]. split_and!; [by apply remove_keeps_one| |].
    + apply Forall_forall. intros o [Ho _]%elem_of_filter_b. by eapply Forall_forall in Hm.
    + apply submseteq_inserts_r, sublist_submseteq, all_ids_sublist, filter_sublist.
Qed.

Lemma keeps_addCondition id : keeps (addCondition id).
Proof.
  eapply triple_bind; [apply (makes_pending _ _ _ (normalizeCondition_makes _))|]. intros c.
  eapply triple_bind with (R := λ _, dialog_inv); [|intros _; apply keeps_setExpanded].
  intros d [Hd Hc]. unfold setOperations, modify. pose proof Hd as (Hne & Hm & [Hn _]). apply NoDup_app in Hn as [Hn _].
  set (f := λ op, set_conditions (o_conditions op ++ [c]) op).
  eapply (pending_operations [c_id c] d (update_where id f (operations d))); [done|by destruct d|by destruct d| | |].
  - by apply update_where_nonempty.
  - apply update_where_modes; [|done]. intros o [Ho Hcs]. split; [done|]. cbn. apply Forall_app. split; [done|by apply Forall_singleton].
  - clear Hd Hm Hne. revert Hn. generalize (operations d). induction l as [|o ops IH]; intros Hn; [apply submseteq_nil_l|].
    cbn [update_where map]. change (map (λ o, if has_id id o then f o else o) ops) with (update_where id f ops).
    destruct (has_id id o) eqn:E.
    + rewrite (update_where_other id f o ops Hn E). change (all_ids (f o :: ops)) with (op_ids (f o) ++ all_ids ops).
      change (all_ids (o :: ops)) with (op_ids o ++ all_ids ops). unfold op_ids, f. cbn [o_id o_conditions set_conditions].
      rewrite map_app. cbn [map]. rewrite <- !app_comm_cons, <- !app_assoc. apply submseteq_skip, submseteq_app; [done|].
      by rewrite Permutation_app_comm.
    + change (all_ids (o :: ?l)) with (op_ids o ++ all_ids l). rewrite <- app_assoc. apply submseteq_app; [done|]. apply IH.
      change (all_ids (o :: ops)) with (op_ids o ++ all_ids ops) in Hn. by apply NoDup_app in Hn as (_ & _ & ?).
Qed.

(** *** Dragging *)
Lemma findIndex_Some {A} (p : A → bool) l i : findIndex p l = Some i →
  ∃ l1 x l2, l = l1 ++ x :: l2 ∧ length l1 = i ∧ p x = true ∧ Forall (λ y, p y = false) l1.
Proof.
  revert i. induction l as [|x l IH]; intros i H; [done|]. cbn in H. destruct (p x) eqn:E.
  - injection H as <-. by exists [], x, l.
  - destruct (findIndex p l) as [j|]; [|done]. injection H as <-. destruct (IH j eq_refl) as (l1 & y & l2 & -> & Hl & Hy & Hf).
    exists (x :: l1), y, l2. cbn. split_and!; try done; [by rewrite Hl|by constructor].
Qed.

Lemma findIndex_None {A} (p : A → bool) l : findIndex p l = None → Forall (λ y, p y = false) l.
Proof.
  induction l as [|x l IH]; intros H; [constructor|]. cbn in H. destruct (p x) eqn:E; [done|].
  destruct (findIndex p l); [done|]. constructor; auto.
Qed.

Lemma insert_beside (k1 k2 l : list ParamOverrideOperation) target moved position : l = k1 ++ target :: k2 →
  insert_at (match position with after => S (length k1) | before => length k1 end) moved l
  = k1 ++ (match position with before => [moved; target] | after => [target; moved] end) ++ k2.
Proof.
  intros ->. unfold insert_at. destruct position.
  - by rewrite take_app_length, drop_app_length.
  - change (k1 ++ target :: k2) with (k1 ++ [target] ++ k2). rewrite app_assoc.
    replace (S (length k1)) with (length (k1 ++ [target])) by (rewrite length_app; cbn; lia).
    rewrite take_app_length, drop_app_length. by rewrite <- app_assoc.
Qed.

(** The list without the moved operation, with it put back next to the target. *)
Lemma reorder_cases ops sourceId targetId position :
  reorderOperations ops sourceId targetId position = ops
  ∨ ∃ l1 moved l2 k1 target k2, ops = l1 ++ moved :: l2 ∧ l1 ++ l2 = k1 ++ target :: k2
      ∧ o_id moved = sourceId ∧ o_id target = targetId ∧ Forall (λ o, has_id sourceId o = false) l1
      ∧ reorderOperations ops sourceId targetId position
        = k1 ++ (match position with before => [moved; target] | after => [target; moved] end) ++ k2.
Proof.
  unfold reorderOperations. destruct (_ || _ || _); [by left|].
  destruct (findIndex (has_id sourceId) ops) as [i|] eqn:Ei; [|by left].
  apply findIndex_Some in Ei as (l1 & moved & l2 & -> & <- & Hm & Hf1). rewrite list_lookup_middle by done.
  replace (delete (length l1) (l1 ++ moved :: l2)) with (l1 ++ l2) by (by rewrite delete_middle).
  destruct (findIndex (has_id targetId) (l1 ++ l2)) as [j|] eqn:Ej; [|by left]. right.
  apply findIndex_Some in Ej as (k1 & target & k2 & E & <- & Ht & _).
  exists l1, moved, l2, k1, target, k2. unfold has_id in Hm, Ht. apply str_eqb_eq in Hm, Ht. split_and!; try done.
  by apply insert_beside.
Qed.

Lemma reorder_perm ops sourceId targetId position : reorderOperations ops sourceId targetId position ≡ₚ ops.
Proof.
  destruct (reorder_cases ops sourceId targetId position) as [->|(l1 & m & l2 & k1 & t & k2 & -> & E & _ & _ & _ & ->)]; [done|].
  transitivity (m :: k1 ++ t :: k2); [|rewrite <- E; apply Permutation_middle].
  destruct position; [symmetry; apply Permutation_middle|].
  change (k1 ++ t :: k2) with (k1 ++ [t] ++ k2). rewrite !app_assoc. cbn [app].
  change (k1 ++ [t; m]) with (k1 ++ [t] ++ [m]). rewrite app_assoc, <- app_assoc. symmetry. apply (Permutation_middle (k1 ++ [t])).
Qed.

Lemma keeps_handleDrop data id : keeps (handleDrop data id).
Proof.
  apply keeps_bind; [apply keeps_now|]. intros d. apply keeps_bind; [|intros _; unfold resetDragState; auto 10 with keeps].
  destruct (_ && _); [|apply keeps_ret]. apply keeps_bind; [|intros _; apply keeps_setSelected].
  apply update_operations. intros ops Hne _ Hm. pose proof (reorder_perm ops (or_text (draggedOperationId d) data) id
    (if str_eqb (dragOverOperationId d) id then dragOverPosition d else before)) as Hp. split_and!.
  - intros E. rewrite E in Hp. by apply Permutation_nil_l in Hp.
  - by rewrite Hp.
  - by rewrite (all_ids_perm _ _ Hp).
Qed.

(** Another operation is neither first of those before the moved one nor moved. *)
Lemma not_source_filter sourceId l : Forall (λ o, has_id sourceId o = false) l →
  List.filter (λ o, negb (has_id sourceId o)) l = l.
Proof. intros H. apply filter_all. intros o Ho. rewrite Forall_forall in H. by rewrite (H o Ho). Qed.

Lemma filter_one_out ops l1 moved l2 sourceId : NoDup (map o_id ops) → ops = l1 ++ moved :: l2 → o_id moved = sourceId →
  List.filter (λ o, negb (has_id sourceId o)) ops = l1 ++ l2.
Proof.
  intros Hn -> Hm. rewrite map_app in Hn. cbn [map] in Hn. apply NoDup_app in Hn as (_ & Hd & [Hn2 _]%NoDup_cons).
  rewrite List.filter_app. cbn [List.filter]. assert (has_id sourceId moved = true) as -> by (unfold has_id; by apply str_eqb_eq).
  cbn [negb]. rewrite !not_source_filter; [done|..]; apply Forall_forall; intros o Ho; unfold has_id; apply str_eqb_neq; intros E.
  - apply Hn2. rewrite Hm, <- E. by apply list_elem_of_fmap_2.
  - apply (Hd (o_id o)); [by apply list_elem_of_fmap_2|]. rewrite E, <- Hm. left.
Qed.

(** Dropping an operation on another one reorders the list and nothing
    else: the result is a permutation for any identifiers, and when both
    operations exist, the moved one stands right before or right after the
    target and all others keep their order. *)
Theorem reorder_moves_one (ops : list ParamOverrideOperation) (sourceId targetId : jsstring) (position : drop_position) :
  reorderOperations ops sourceId targetId position ≡ₚ ops ∧
  (NoDup (map o_id ops) → sourceId ∈ map o_id ops → targetId ∈ map o_id ops → sourceId ≠ targetId →
   sourceId ≠ [] → targetId ≠ [] →
   ∃ k1 target k2 moved, moved ∈ ops ∧ o_id moved = sourceId ∧ o_id target = targetId
     ∧ List.filter (λ o, negb (has_id sourceId o)) ops = k1 ++ target :: k2
     ∧ reorderOperations ops sourceId targetId position
       = k1 ++ (match position with before => [moved; target] | after => [target; moved] end) ++ k2).
Proof.
  split; [apply reorder_perm|]. intros Hn Hs Ht Hne Hs0 Ht0. unfold reorderOperations.
  rewrite (proj2 (is_empty_false sourceId) Hs0), (proj2 (is_empty_false targetId) Ht0), (proj2 (str_eqb_neq _ _) Hne). cbn [orb].
  assert (∀ id l, id ∈ map o_id l → findIndex (has_id id) l ≠ None) as Hfind.
  { intros id l Hin E%findIndex_None. apply list_elem_of_fmap in Hin as (o & -> & Ho). rewrite Forall_forall in E.
    specialize (E o Ho). unfold has_id in E. by rewrite str_eqb_refl in E. }
  destruct (findIndex (has_id sourceId) ops) as [i|] eqn:Ei; [|by destruct (Hfind _ _ Hs)].
  apply findIndex_Some in Ei as (l1 & moved & l2 & E & <- & Hm & _). unfold has_id in Hm. apply str_eqb_eq in Hm.
  rewrite (filter_one_out ops l1 moved l2 sourceId Hn E Hm). subst ops. rewrite list_lookup_middle by done.
  replace (delete (length l1) (l1 ++ moved :: l2)) with (l1 ++ l2) by (by rewrite delete_middle).
  assert (targetId ∈ map o_id (l1 ++ l2)) as Hin.
  { rewrite map_app in *. cbn [map] in Ht. rewrite elem_of_app, elem_of_cons in Ht. rewrite elem_of_app.
    destruct Ht as [?|[?|?]]; [by left| |by right]. congruence. }
  destruct (findIndex (has_id targetId) (l1 ++ l2)) as [j|] eqn:Ej; [|by destruct (Hfind _ _ Hin)].
  apply findIndex_Some in Ej as (k1 & target & k2 & E & <- & Htg & _). unfold has_id in Htg. apply str_eqb_eq in Htg.
  exists k1, target, k2, moved. split_and!; [apply elem_of_app; right; left|done|done|done|]. by apply insert_beside.
Qed.

(** *** Drafts of [prune_objects] *)

(** Rules made while the counter went from [n] to [n']. *)
Definition rules_between (n n' : nat) (rules : list PruneRule) : Prop :=
  Forall (λ r, ∃ k, (n ≤ k < n')%nat ∧ pr_id r = local_id k) rules.

Definition makes_rules {A} (rules : A → list PruneRule) (m : act nat A) : Prop :=
  ∀ n, let '(r, n') := m n in (n ≤ n')%nat ∧ ∀ a, r = Ok a → rules_between n n' (rules a).

Lemma rules_between_mono n0 n n' n1 rules : (n0 ≤ n)%nat → (n' ≤ n1)%nat → rules_between n n' rules → rules_between n0 n1 rules.
Proof. intros ? ? H. eapply Forall_impl; [exact H|]. intros r (k & ? & ?). exists k. split; [lia|done]. Qed.

Lemma map_rules {A} (f : A → act nat PruneRule) l : (∀ x, makes (f x) (λ r, [pr_id r]) (λ _, True)) → makes_rules id (map_act f l).
Proof.
  intros Hf n. pose proof (map_act_makes f _ _ l Hf n) as H. destruct (map_act f l n) as [r n']. destruct H as [Hle H].
  split; [done|]. intros rs E. destruct (H rs E) as [Ei _]. apply Forall_forall. intros x Hx.
  assert (pr_id x ∈ ids_between n n') as Hin.
  { rewrite <- Ei. apply list_elem_of_In, in_concat. exists [pr_id x]. split; [|by left].
    apply (in_map (λ r, [pr_id r])). by apply list_elem_of_In. }
  apply list_elem_of_fmap in Hin as (k & -> & Hk%elem_of_seq). exists k. split; [lia|done].
Qed.

Lemma makes_rules_ret {A} (rules : A → list PruneRule) a : rules a = [] → makes_rules rules (mret a).
Proof. intros E n. split; [done|]. intros x [= <-]. rewrite E. constructor. Qed.

Lemma makes_rules_lift {A B} (rules : B → list PruneRule) (r : run A) (f : A → act nat B) :
  (∀ a, makes_rules rules (f a)) → makes_rules rules (lift r ≫= f).
Proof. intros Hf n. unfold mbind, act_bind, lift. destruct r as [a|e|]; [apply Hf|done..]. Qed.

Lemma entry_rules_make es : makes_rules id (entry_rules es).
Proof. apply map_rules. intros [k v]. apply normalizePruneRule_makes. Qed.

Lemma where_rules_make v : makes_rules id (where_rules v).
Proof. destruct v; try (by apply makes_rules_ret). apply entry_rules_make. Qed.

Lemma condition_rules_make v : makes_rules id (condition_rules v).
Proof. destruct v; try (by apply makes_rules_ret); [|apply entry_rules_make]. apply map_rules, normalizePruneRule_makes. Qed.

Lemma read_prune_draft_rules es : makes_rules pd_rules (read_prune_draft (JObject es)).
Proof.
  intros n. unfold read_prune_draft. rewrite !property_look. unfold mbind, act_bind, lift, mret, act_ret.
  pose proof (where_rules_make (look es "where") n) as H1. destruct (where_rules _ n) as [[rs1|e|] n1]; destruct H1 as [Hle1 H1]; [|done..].
  specialize (H1 rs1 eq_refl).
  pose proof (condition_rules_make (look es "conditions") n1) as H2.
  destruct (condition_rules _ n1) as [[rs2|e|] n2]; destruct H2 as [Hle2 H2]; [|split; [lia|done]..]. specialize (H2 rs2 eq_refl).
  assert (rules_between n n2 (rs1 ++ rs2)) as H.
  { apply Forall_app. split; eapply rules_between_mono; [| |exact H1| | |exact H2]; lia. }
  destruct (text_or_empty _) as [typeText|e|]; [|split; [lia|done]..].
  destruct (String_of _) as [logic|e|]; [|split; [lia|done]..]. split; [lia|]. by intros a [= <-].
Qed.

(** Parsing a draft never throws; its rules are new. *)
Lemma String_of_fuel v : String_of v ≠ NoFuel.
Proof.
  revert v. fix IH 1. intros [| |b|x|s|l|es]; cbn [String_of]; try discriminate; [|by destruct (own_property _ es)].
  assert (∀ m : run (list jsstring), m ≠ NoFuel → (parts ← m; Ok (join (js ",") parts)) ≠ NoFuel) as H by (by intros [?|?|]).
  apply H. clear H. induction l as [|x l IHl]; [discriminate|].
  assert ((if is_nullish x then Ok [] else String_of x) ≠ NoFuel) as Hx by (destruct (is_nullish x); [discriminate|apply IH]).
  destruct (if is_nullish x then _ else _) as [t|e|]; [|discriminate|by destruct Hx]. cbn [mbind outcome_bind].
  match goal with |- context [mbind _ ?m] => destruct m as [ts|e|] end; [discriminate..|by destruct IHl].
Qed.

Definition total {A} (m : act nat A) : Prop := ∀ n, fst (m n) ≠ NoFuel.

Lemma total_ret {A} (a : A) : total (mret a).
Proof. done. Qed.

Lemma total_bind {A B} (m : act nat A) (f : A → act nat B) : total m → (∀ a, total (f a)) → total (m ≫= f).
Proof.
  intros Hm Hf n. unfold mbind, act_bind. specialize (Hm n). destruct (m n) as [[a|e|] n']; [apply Hf|done|done].
Qed.

Lemma total_lift {A} (r : run A) : r ≠ NoFuel → total (lift r).
Proof. by intros H n. Qed.

Lemma total_map {A B} (f : A → act nat B) l : (∀ x, total (f x)) → total (map_act f l).
Proof. intros Hf. induction l as [|x l IH]; [done|]. cbn. apply total_bind; [done|]. intros y. by apply total_bind. Qed.

Lemma property_fuel v key : property v key ≠ NoFuel.
Proof. by destruct v. Qed.

Lemma text_or_empty_fuel v : text_or_empty v ≠ NoFuel.
Proof. destruct v; try done; apply String_of_fuel. Qed.

Create HintDb total.
#[local] Hint Resolve total_ret total_bind total_lift total_map property_fuel String_of_fuel text_or_empty_fuel : total.

Lemma total_rule v : total (normalizePruneRule v).
Proof. unfold normalizePruneRule. apply total_bind; [done|]. intros id. auto 20 with total. Qed.

Lemma total_entry_rules es : total (entry_rules es).
Proof. apply total_map. intros [k v]. apply total_rule. Qed.

#[local] Hint Resolve total_rule total_entry_rules : total.

Lemma total_read_prune es : total (read_prune_draft (JObject es)).
Proof.
  unfold read_prune_draft, where_rules, condition_rules.
  repeat first [apply total_bind; [|intros ?]|apply total_ret|apply total_lift|progress auto with total]; auto with total;
    repeat case_match; auto with total.
Qed.

Lemma parsePrune_spec s n : ∃ draft n', parsePruneObjectsDraft s n = (Ok draft, n')
  ∧ (n ≤ n')%nat ∧ rules_between n n' (pd_rules draft).
Proof.
  unfold parsePruneObjectsDraft. destruct (is_empty _); [eexists _, _; split; [reflexivity|]; split; [done|constructor]|].
  set (m := match JSON_parse (trim s) with None => _ | Some _ => _ end).
  assert (makes_rules pd_rules m ∧ total m) as [Hm Ht].
  { unfold m. assert (∀ t, makes_rules pd_rules (mret (simple_prune_draft t))) as Hs by (intros; by apply makes_rules_ret).
    destruct (JSON_parse (trim s)) as [v|]; [|by split]. destruct v; try (by split);
      try (split; [by apply makes_rules_lift|apply total_bind; [apply total_lift; cbn; auto with total; done|by intros]]).
    - split; [by apply makes_rules_lift|]. apply total_bind; [|by intros]. apply total_lift, String_of_fuel.
    - split; [apply read_prune_draft_rules|apply total_read_prune]. }
  clearbody m. unfold try_or. specialize (Hm n). specialize (Ht n). destruct (m n) as [[draft|e|] n']; destruct Hm as [Hle Hr].
  - exists draft, n'. auto.
  - eexists _, n'. split; [reflexivity|]. split; [done|constructor].
  - done.
Qed.

(** One operation with the identifier is rewritten. *)
Lemma map_act_none {A} (p : A → bool) (F : A → act nat A) l n : Forall (λ x, p x = false) l →
  map_act (λ x, if p x then F x else mret x) l n = (Ok l, n).
Proof.
  induction 1 as [|x l Hx Hl IH]; [done|]. cbn [map_act]. rewrite Hx. unfold mbind, act_bind, mret, act_ret in *. by rewrite IH.
Qed.

Lemma map_act_one {A} (p : A → bool) (F : A → act nat A) l1 x l2 n y n' : Forall (λ x, p x = false) l1 → p x = true →
  Forall (λ x, p x = false) l2 → F x n = (Ok y, n') →
  map_act (λ x, if p x then F x else mret x) (l1 ++ x :: l2) n = (Ok (l1 ++ y :: l2), n').
Proof.
  intros H1 Hx H2 HF. induction H1 as [|z l1 Hz H1 IH]; cbn [app map_act].
  - rewrite Hx. unfold mbind, act_bind. rewrite HF. by rewrite map_act_none.
  - rewrite Hz. unfold mbind, act_bind, mret, act_ret in *. by rewrite IH.
Qed.

Lemma others_have_other_id id l1 o l2 : NoDup (all_ids (l1 ++ o :: l2)) → has_id id o = true →
  Forall (λ o, has_id id o = false) l1 → Forall (λ o, has_id id o = false) l2.
Proof.
  intros Hn Ho _. unfold has_id in Ho. apply str_eqb_eq in Ho. rewrite all_ids_app in Hn. apply NoDup_app in Hn as (_ & _ & Hn).
  change (all_ids (o :: l2)) with (op_ids o ++ all_ids l2) in Hn. apply NoDup_app in Hn as (_ & Hd & _).
  apply Forall_forall. intros x Hx. unfold has_id. apply str_eqb_neq. intros E. apply (Hd (o_id o)); [left|].
  rewrite Ho, <- E. by apply op_id_in.
Qed.

(** The operations after a draft was updated. *)
Lemma prune_update_spec id u d : NoDup (all_ids (operations d)) → (∀ draft n, ∃ draft' n', u draft n = (Ok draft', n')) →
  operations (snd (updatePruneObjectsDraft id u d)) = operations d
    ∧ Forall (λ o, has_id id o = false) (operations d)
  ∨ ∃ l1 o l2 draft n1 draft' n2, operations d = l1 ++ o :: l2 ∧ has_id id o = true
      ∧ Forall (λ o, has_id id o = false) l1
      ∧ parsePruneObjectsDraft (o_value_text o) (localIdSeed d) = (Ok draft, n1) ∧ u draft n1 = (Ok draft', n2)
      ∧ operations (snd (updatePruneObjectsDraft id u d)) = l1 ++ set_value_text (buildPruneObjectsValueText draft') o :: l2.
Proof.
  intros Hn Hu. unfold updatePruneObjectsDraft, setOperations_with, mbind at 1, act_bind at 1, now.
  destruct d as [a b c ops e f g h i j k l p n o]. cbn [operations localIdSeed] in *. unfold mbind, act_bind, with_ids.
  destruct (findIndex (has_id id) ops) as [ix|] eqn:Ei.
  - right. apply findIndex_Some in Ei as (l1 & op & l2 & -> & _ & Hop & Hl1).
    pose proof (others_have_other_id id l1 op l2 Hn Hop Hl1) as Hl2.
    destruct (parsePrune_spec (o_value_text op) n) as (draft & n1 & E1 & _). destruct (Hu draft n1) as (draft' & n2 & E2).
    exists l1, op, l2, draft, n1, draft', n2. split_and!; try done.
    rewrite (map_act_one (has_id id) (prune_operation u) l1 op l2 n (set_value_text (buildPruneObjectsValueText draft') op) n2);
      try done. unfold prune_operation, mbind, act_bind. by rewrite E1, E2.
  - left. apply findIndex_None in Ei. split; [|done]. by rewrite (map_act_none (has_id id)).
Qed.

Definition no_change : PrunePatch := mkPrunePatch None None None None.
Definition advanced_mode : PrunePatch := mkPrunePatch (Some false) None None None.

Lemma patch_no_change draft : patch_prune no_change draft = draft.
Proof. by destruct draft. Qed.

(** A rule with an identifier made earlier is not among the rules of a draft
    that is parsed now. *)
Lemma old_rule_absent n n' k rules : (k < n)%nat → rules_between n n' rules →
  Forall (λ r, str_eqb (pr_id r) (local_id k) = false) rules.
Proof.
  intros Hk H. eapply Forall_impl; [exact H|]. intros r (j & Hj & ->). apply str_eqb_neq. intros E%local_id_inj. lia.
Qed.

Lemma map_no_match {A} (p : A → bool) (f : A → A) l : Forall (λ x, p x = false) l → map (λ x, if p x then f x else x) l = l.
Proof. induction 1 as [|x l Hx Hl IH]; [done|]. cbn. by rewrite Hx, IH. Qed.

Lemma filter_no_match {A} (p : A → bool) l : Forall (λ x, p x = false) l → List.filter (λ x, negb (p x)) l = l.
Proof. induction 1 as [|x l Hx Hl IH]; [done|]. cbn. by rewrite Hx, IH. Qed.

Lemma blank_rule_dropped simple rules rule draft : pr_path rule = [] →
  buildPruneObjectsValueText (with_rules simple (rules ++ [rule]) draft) = buildPruneObjectsValueText (with_rules simple rules draft).
Proof.
  intros E. unfold buildPruneObjectsValueText, with_rules. cbn [pd_rules pd_simpleMode pd_typeText pd_logic pd_recursive].
  rewrite List.filter_app. cbn [List.filter]. rewrite E. cbn [trim trim_start trim_end rev app is_empty negb]. by rewrite app_nil_r.
Qed.

(** Two updaters that write the same text for the drafts parsed now. *)
Lemma prune_update_same id u v d : NoDup (all_ids (operations d)) →
  (∀ draft n, ∃ draft' n', u draft n = (Ok draft', n')) → (∀ draft n, ∃ draft' n', v draft n = (Ok draft', n')) →
  (∀ draft n, rules_between (localIdSeed d) n (pd_rules draft) → ∀ a b n1 n2, u draft n = (Ok a, n1) → v draft n = (Ok b, n2) →
     buildPruneObjectsValueText a = buildPruneObjectsValueText b) →
  operations (snd (updatePruneObjectsDraft id u d)) = operations (snd (updatePruneObjectsDraft id v d)).
Proof.
  intros Hn Hu Hv Huv. destruct (prune_update_spec id u d Hn Hu) as [[-> Hno]|(l1 & o & l2 & draft & n1 & a & n2 & Eo & Ho & Hl1 & Ep & Ea & ->)];
  destruct (prune_update_spec id v d Hn Hv) as [[-> Hno']|(k1 & p & k2 & draft' & m1 & b & m2 & Eo' & Hp & Hk1 & Ep' & Eb & ->)].
  - done.
  - rewrite Eo', Forall_app in Hno. destruct Hno as [_ Hno]. inversion Hno; congruence.
  - rewrite Eo, Forall_app in Hno'. destruct Hno' as [_ Hno]. inversion Hno; congruence.
  - rewrite Eo in Eo'. assert (l1 = k1 ∧ o = p ∧ l2 = k2) as (<- & <- & <-).
    { clear -Eo' Ho Hp Hl1 Hk1. revert k1 Eo' Hk1. induction Hl1 as [|x l1 Hx Hl1 IH]; intros [|y k1] E Hk1; cbn in E.
      - by injection E.
      - injection E as <- _. inversion Hk1; congruence.
      - injection E as -> _. congruence.
      - injection E as <- E. inversion Hk1; subst. by destruct (IH k1 E) as (-> & -> & ->). }
    rewrite Ep in Ep'. injection Ep' as <- <-. destruct (parsePrune_spec (o_value_text o) (localIdSeed d)) as (x & y & Exy & _ & Hr).
    rewrite Ep in Exy. injection Exy as <- <-. by rewrite (Huv draft n1 Hr a b n2 m2 Ea Eb).
Qed.

(** C40: The rules of a [prune_objects] operation cannot be edited.  After a
    render, changing or removing any rule shown leaves the operations exactly as
    re-saving the unchanged draft does, whatever the patch, and adding a rule
    leaves them as switching the draft to its advanced mode does: the handlers
    parse the draft anew, so its rules have new identifiers that none on the
    screen equals, and a new rule has no path and is dropped when written. *)
Theorem prune_rules_cannot_be_edited (d d' : dialog) (draft : PruneObjectsDraft) (operationId : jsstring) :
  dialog_inv d → render d = (Ok (Some draft), d') →
  (∀ rule patch, rule ∈ pd_rules draft →
     operations (snd (updatePruneRule operationId (pr_id rule) patch d'))
       = operations (snd (patchPruneObjectsDraft operationId no_change d'))
     ∧ operations (snd (removePruneRule operationId (pr_id rule) d'))
       = operations (snd (patchPruneObjectsDraft operationId no_change d')))
  ∧ operations (snd (addPruneRule operationId d')) = operations (snd (patchPruneObjectsDraft operationId advanced_mode d')).
Proof.
  intros (_ & _ & [Hn _]) Hr. rewrite app_nil_r in Hn.
  assert (operations d' = operations d ∧ rules_between 0 (localIdSeed d') (pd_rules draft)) as [Eo Hold].
  { revert Hr. unfold render, mbind, act_bind, now, with_ids, pruneObjectsDraft.
    destruct d as [a b c ops e f g h i j k l p n o]. destruct (default_operation_ok n) as (x & -> & _). cbn [operations].
    destruct (selectedOperation _) as [s|]; [|done]. destruct (str_eqb _ _); [|done]. unfold mbind, act_bind.
    destruct (parsePrune_spec (o_value_text s) (S n)) as (dr & n' & -> & Hle & Hrb). cbn. intros [= <- <-]. cbn.
    split; [done|]. eapply rules_between_mono; [| |exact Hrb]; lia. }
  rewrite <- Eo in Hn. split.
  - intros rule patch Hin. unfold rules_between in Hold. rewrite Forall_forall in Hold. destruct (Hold rule Hin) as (k & Hk & ->).
    split; (apply prune_update_same; [done|intros ? ?; eexists _, _; reflexivity|intros ? ?; eexists _, _; reflexivity|]); intros dr m Hrb a b n1 n2 [= <- _] [= <- _];
      pose proof (old_rule_absent _ _ k _ (proj2 Hk) Hrb) as Habs; rewrite patch_no_change.
    + rewrite map_no_match by done. by destruct dr.
    + rewrite filter_no_match by done. by destruct dr.
  - apply prune_update_same; [done|intros ? ?; eexists _, _; reflexivity|intros ? ?; eexists _, _; reflexivity|]. intros dr m Hrb a b n1 n2 [= <- _] [= <- _].
    rewrite blank_rule_dropped by done. by destruct dr.
Qed.

Lemma keeps_prune id u : (∀ draft n, ∃ draft' n', u draft n = (Ok draft', n') ∧ (n ≤ n')%nat) → keeps (updatePruneObjectsDraft id u).
Proof.
  intros Hu. apply update_operations_with. intros ops n Hne Hn Hm. destruct (findIndex (has_id id) ops) as [ix|] eqn:Ei.
  - apply findIndex_Some in Ei as (l1 & op & l2 & -> & _ & Hop & Hl1).
    pose proof (others_have_other_id id l1 op l2 Hn Hop Hl1) as Hl2.
    destruct (parsePrune_spec (o_value_text op) n) as (draft & n1 & E1 & Hle & _). destruct (Hu draft n1) as (draft' & n2 & E2 & Hle2).
    set (op' := set_value_text (buildPruneObjectsValueText draft') op).
    rewrite (map_act_one (has_id id) (prune_operation u) l1 op l2 n op' n2) by
      (done || unfold prune_operation, mbind, act_bind; by rewrite E1, E2).
    split; [lia|]. intros ops' [= <-]. apply Forall_app in Hm as [Hm1 Hm2]. inversion Hm2; subst. split_and!.
    + by destruct l1.
    + apply Forall_app. split; [done|]. by constructor.
    + apply submseteq_inserts_r. by rewrite !all_ids_app.
  - apply findIndex_None in Ei. rewrite (map_act_none (has_id id)) by done. split; [done|]. intros ops' [= <-].
    split_and!; [done|done|]. by apply submseteq_inserts_r.
Qed.

Lemma keeps_patchPrune id p : keeps (patchPruneObjectsDraft id p).
Proof. apply keeps_prune. intros draft n. by eexists _, n. Qed.
Lemma keeps_addPruneRule id : keeps (addPruneRule id).
Proof. apply keeps_prune. intros draft n. eexists _, (S n). split; [reflexivity|lia]. Qed.
Lemma keeps_updatePruneRule id rid p : keeps (updatePruneRule id rid p).
Proof. apply keeps_prune. intros draft n. by eexists _, n. Qed.
Lemma keeps_removePruneRule id rid : keeps (removePruneRule id rid).
Proof. apply keeps_prune. intros draft n. by eexists _, n. Qed.

(** *** Opening, switching, templates *)
Lemma makes_map {A B} (m : act nat A) ids P (f : A → B) (ids' : B → list jsstring) (P' : B → Prop) : makes m ids P →
  (∀ a, ids' (f a) = ids a) → (∀ a, P a → P' (f a)) → makes (a ← m; mret (f a)) ids' P'.
Proof.
  intros Hm Hi HP n. specialize (Hm n). unfold mbind, act_bind. destruct (m n) as [[a|e|] n']; destruct Hm as [Hle Hm]; try done.
  split; [done|]. intros b [= <-]. destruct (Hm a eq_refl) as [E Pa]. rewrite Hi. auto.
Qed.

Definition shows (ops : list ParamOverrideOperation) : Prop := Forall modes_ok ops ∧ ops ≠ [].

Lemma default_state_makes a b c e f : makes (o ← createDefaultOperation; mret (mkEditorState a b c [o] e f))
  (λ st, all_ids (es_operations st)) (λ st, shows (es_operations st)).
Proof.
  apply (makes_map _ op_ids modes_ok); [apply default_operation_makes|intros; apply all_ids_one|].
  intros o Ho. split; [by apply Forall_singleton|done].
Qed.

Lemma parseInitialState_makes s : makes (parseInitialState s) (λ st, all_ids (es_operations st)) (λ st, shows (es_operations st)).
Proof.
  unfold parseInitialState. destruct (is_empty _); [apply default_state_makes|].
  destruct (JSON_parse _) as [v|]; [|apply default_state_makes]. destruct v as [| | | | | |es]; try apply default_state_makes.
  rewrite property_look. intros n. unfold mbind at 1, act_bind at 1, lift. revert n.
  destruct (look es "operations") as [| | | | |items|]; try apply default_state_makes.
  apply (makes_map _ all_ids shows); [apply operations_of_makes|done|done].
Qed.

Lemma triple_and {A} P (X : Prop) (m : act dialog A) Q : (X → triple P m Q) → triple (λ d, P d ∧ X) m Q.
Proof. intros H d [Hd Hx]. by apply H. Qed.

(** Another setter before the operations are shown. *)
Lemma pending_then {A} ids f (m : act dialog A) Q :
  (∀ d, operations (f d) = operations d ∧ localIdSeed (f d) = localIdSeed d) →
  triple (pending ids) m Q → triple (pending ids) (modify f;; m) Q.
Proof. intros Hf Hm. eapply triple_bind; [by apply pending_modify|]. intros ?. exact Hm. Qed.

Lemma show_then {A} ops (m : act dialog A) : shows ops → keeps m →
  triple (pending (all_ids ops)) (setOperations (λ _, ops);; m) (λ _, dialog_inv).
Proof. intros [? ?] Hm. eapply triple_bind; [by apply show_operations|]. intros ?. exact Hm. Qed.

Ltac show_made :=
  repeat match goal with
  | |- triple (pending _) (setOperations _ ≫= _) _ => apply show_then; [done|]
  | |- triple (pending _) _ _ => apply pending_then; [intros []; done|]
  end; auto 20 with keeps.

Lemma keeps_open_effect open value : keeps (open_effect open value).
Proof.
  unfold open_effect. destruct open; [|apply keeps_ret]. cbn [negb].
  eapply triple_bind; [apply (makes_pending _ _ _ (parseInitialState_makes value))|]. intros st. apply triple_and. intros Hs.
  show_made.
Qed.

Lemma default_shows o : modes_ok o → shows [o].
Proof. intros Ho. split; [by apply Forall_singleton|done]. Qed.

(** A new default operation takes the place of all others. *)
Lemma keeps_default {A} (rest : ParamOverrideOperation → act dialog A) :
  (∀ o, shows [o] → triple (pending (all_ids [o])) (rest o) (λ _, dialog_inv)) →
  keeps (o ← with_ids createDefaultOperation; rest o).
Proof.
  intros Hr. eapply triple_bind; [apply (makes_pending _ _ _ default_operation_makes)|]. intros o. apply triple_and. intros Ho.
  eapply triple_pre; [|apply Hr; by apply default_shows]. intros d Hd. by rewrite all_ids_one.
Qed.

Lemma keeps_selection_effect : keeps selection_effect.
Proof.
  apply keeps_bind; [apply keeps_now|]. intros d. destruct (operations d); [apply keeps_setSelected|].
  destruct (negb _); [apply keeps_setSelected|apply keeps_ret].
Qed.

Lemma keeps_render : keeps render.
Proof.
  apply keeps_bind; [by eapply makes_keeps, default_operation_makes|]. intros _. apply keeps_bind; [apply keeps_now|].
  intros d d' Hd. unfold with_ids, pruneObjectsDraft. destruct d' as [a b c ops e f g h i j k l p n o].
  destruct Hd as (? & ? & Hi). destruct (selectedOperation d) as [s|]; [|done]. destruct (str_eqb _ _); [|done].
  unfold mbind, act_bind. destruct (parsePrune_spec (o_value_text s) n) as (dr & n' & -> & Hle & _).
  split_and!; cbn; try done. by eapply ids_ok_mono.
Qed.

Lemma keeps_resetEditorState : keeps resetEditorState.
Proof. apply keeps_default. intros o Ho. show_made. Qed.

Lemma keeps_switchToJsonMode : keeps switchToJsonMode.
Proof.
  apply keeps_bind; [apply keeps_now|]. intros d. destruct (same_edit_mode _ _); [apply keeps_ret|].
  apply keeps_bind; [|intros _; apply keeps_setEditMode].
  destruct (buildVisualJson d) as [s|e|]; [auto with keeps| |apply keeps_lift].
  apply keeps_bind; [apply keeps_emit|]. intros _. apply keeps_bind; [|auto with keeps].
  destruct (visualMode d); [|auto with keeps]. apply keeps_bind; [apply keeps_lift|auto with keeps].
Qed.

Lemma keeps_switchToVisualMode : keeps switchToVisualMode.
Proof.
  apply keeps_bind; [apply keeps_now|]. intros d. destruct (same_edit_mode _ _); [apply keeps_ret|].
  cbn zeta. destruct (is_empty _); [apply keeps_default; intros o Ho; show_made|].
  destruct (JSON_parse _) as [[| | | | | |es]|]; try apply keeps_emit. rewrite property_look.
  apply keeps_bind; [apply keeps_lift|]. intros [| | | | |items|]; try (apply keeps_default; intros o Ho; show_made).
  eapply triple_bind; [apply (makes_pending _ _ _ (operations_of_makes items))|]. intros ops. apply triple_and. intros Ho. show_made.
Qed.

Lemma keeps_show_legacy s : keeps (show_legacy s).
Proof.
  unfold show_legacy. apply keeps_bind; [apply keeps_setVisualMode|]. intros _. apply keeps_bind; [apply keeps_setLegacyValue|]. intros _.
  apply keeps_default. intros o Ho. show_made.
Qed.

Lemma preset_operations key : let preset := default operations_default (map_get key TEMPLATE_PRESET_CONFIG) in
  tp_kind preset = kind_operations → ∃ item items, property (tp_payload preset) "operations" = Ok (JArray (item :: items)).
Proof.
  assert (∀ preset, preset ∈ map snd TEMPLATE_PRESET_CONFIG → tp_kind preset = kind_operations →
    ∃ item items, property (tp_payload preset) "operations" = Ok (JArray (item :: items))) as H.
  { intros preset Hp. repeat (apply elem_of_cons in Hp as [->|Hp]; [by eauto|]). by apply elem_of_nil in Hp. }
  cbn zeta. intros Hk. apply H; [|done]. destruct (map_get key TEMPLATE_PRESET_CONFIG) as [preset|] eqn:E; [|by left].
  apply map_get_In in E. apply (list_elem_of_fmap_2 snd) in E. exact E.
Qed.

(** Operations that were just made are added to some of those shown. *)
Lemma append_then {A} ids ops0 ops' (m : act dialog A) : ops' ≠ [] → Forall modes_ok ops' → all_ids ops' ⊆+ all_ids ops0 ++ ids →
  keeps m → triple (λ d, pending ids d ∧ operations d = ops0)
    (setVisualMode visual_operations;; setOperations (λ _, ops');; m) (λ _, dialog_inv).
Proof.
  intros Hne Hm Hs Hk. eapply triple_bind with (R := λ _ d, pending ids d ∧ operations d = ops0).
  - intros d [Hd E]. split; [|by destruct d].
    assert (triple (pending ids) (setVisualMode visual_operations) (λ _, pending ids)) as H by (apply pending_modify; by intros []).
    exact (H d Hd).
  - intros []. eapply triple_bind with (R := λ _, dialog_inv); [|intros []; exact Hk].
    intros d [Hd E]. unfold setOperations, modify.
    eapply (pending_operations ids d ops'); [done|by destruct d|by destruct d|done|done|]. by rewrite E.
Qed.

Lemma keeps_append item items (d0 : dialog) : dialog_inv d0 → let existing := match visualMode d0 with
    | visual_operations => List.filter (λ o, negb (isOperationBlank o)) (operations d0) | visual_legacy => [] end in
  triple (λ d, d = d0) (appended ← with_ids (map_act normalizeOperation (item :: items));
    let nextOps := existing ++ appended in
    setVisualMode visual_operations;;
    setOperations (λ _, match nextOps with [] => appended | _ => nextOps end);;
    setSelectedOperationId (or_text (first_id nextOps) (first_id appended));;
    setLegacyValue [];; setJsonError [];; setEditMode edit_visual;; setJsonText []) (λ _, dialog_inv).
Proof.
  intros Hd0 existing. assert (sublist existing (operations d0)) as Hex.
  { unfold existing. destruct (visualMode d0); [apply filter_sublist|apply sublist_nil_l]. }
  clearbody existing. pose proof Hd0 as (_ & Hm0 & _).
  pose proof (map_act_makes normalizeOperation op_ids modes_ok (item :: items) normalizeOperation_makes) as Hmk.
  eapply triple_bind with (R := λ appended d, (pending (all_ids appended) d ∧ operations d = operations d0)
    ∧ (Forall modes_ok appended ∧ length appended = length (item :: items))).
  - intros d ->. pose proof (makes_pending _ _ _ Hmk d0 Hd0) as H. unfold with_ids in *.
    destruct d0 as [a b c ops e f g h i j k l p n o]. destruct (map_act normalizeOperation (item :: items) n) as [[x|e'|] n']; [|done..].
    destruct H as [H ?]. done.
  - intros appended. apply triple_and. intros [Hm Hl]. cbn zeta.
    assert (appended ≠ []) as Hne by (by destruct appended).
    replace (match existing ++ appended with [] => appended | _ => existing ++ appended end) with (existing ++ appended)
      by (by destruct existing, appended).
    apply append_then; [by destruct existing| | |auto 20 with keeps].
    + apply Forall_app. split; [|done]. apply Forall_forall. intros o Ho.
      rewrite Forall_forall in Hm0. apply Hm0. eapply elem_of_submseteq; [exact Ho|by apply sublist_submseteq].
    + rewrite all_ids_app. apply submseteq_app; [|done]. by apply sublist_submseteq, all_ids_sublist.
Qed.

Lemma keeps_fill item items : keeps (finalOps ← with_ids (operations_of (item :: items));
  setVisualMode visual_operations;; setOperations (λ _, finalOps);; setSelectedOperationId (first_id finalOps);;
  setJsonText (JSON_stringify2 (JObject [(js "operations", JArray (item :: items))]));; setJsonError [];; setEditMode edit_visual).
Proof.
  eapply triple_bind; [apply (makes_pending _ _ _ (operations_of_makes _))|]. intros ops. apply triple_and. intros Ho. show_made.
Qed.

Lemma keeps_fillTemplate mode : keeps (fillTemplate mode).
Proof.
  intros d Hd. unfold fillTemplate. unfold mbind at 1, act_bind at 1, now.
  pose proof (preset_operations (templatePresetKey d)) as Hp. cbn zeta in Hp.
  set (preset := default operations_default (map_get (templatePresetKey d) TEMPLATE_PRESET_CONFIG)) in *. clearbody preset.
  cbn zeta. destruct (tp_kind preset).
  - destruct (Hp eq_refl) as (item & items & E). rewrite E. unfold mbind at 1, act_bind at 1, lift.
    destruct mode; [by apply (keeps_fill item items)|by apply (keeps_append item items d Hd)].
  - destruct mode, (visualMode d); try (by apply keeps_show_legacy).
    destruct (if is_empty (trim (legacyValue d)) then _ else _); [by apply keeps_show_legacy|by apply keeps_emit].
Qed.

(** ** All handlers *)
Inductive event :=
| ev_open (value : jsstring) | ev_selection | ev_render
| ev_update (id : jsstring) (patch : OperationPatch) | ev_add | ev_duplicate (eager : bool) (id : jsstring) | ev_remove (id : jsstring)
| ev_addCondition (id : jsstring) | ev_updateCondition (id cid : jsstring) (patch : ConditionPatch) | ev_removeCondition (id cid : jsstring)
| ev_error (id : jsstring) (patch : ErrorPatch) | ev_prune (id : jsstring) (patch : PrunePatch)
| ev_addRule (id : jsstring) | ev_updateRule (id rid : jsstring) (patch : ConditionPatch) | ev_removeRule (id rid : jsstring)
| ev_dragStart (id : jsstring) | ev_dragOver (clientY top height : number) (id : jsstring) | ev_drop (data id : jsstring) | ev_dragEnd
| ev_toJson | ev_toVisual | ev_fill (mode : fill_mode) | ev_reset
| ev_jsonChange (value : jsstring) | ev_save | ev_expandAll | ev_collapseAll
| ev_search (value : jsstring) | ev_select (id : jsstring) | ev_preset (key : jsstring) | ev_legacy (value : jsstring).

Definition handle (e : event) : act dialog unit :=
  match e with
  | ev_open value => open_effect true value
  | ev_selection => selection_effect
  | ev_render => _ ← render; mret tt
  | ev_update id patch => updateOperation id patch
  | ev_add => addOperation
  | ev_duplicate eager id => duplicateOperation eager id
  | ev_remove id => removeOperation id
  | ev_addCondition id => addCondition id
  | ev_updateCondition id cid patch => updateCondition id cid patch
  | ev_removeCondition id cid => removeCondition id cid
  | ev_error id patch => updateReturnErrorDraft id patch
  | ev_prune id patch => patchPruneObjectsDraft id patch
  | ev_addRule id => addPruneRule id
  | ev_updateRule id rid patch => updatePruneRule id rid patch
  | ev_removeRule id rid => removePruneRule id rid
  | ev_dragStart id => handleDragStart id
  | ev_dragOver y top h id => handleDragOver y top h id
  | ev_drop data id => handleDrop data id
  | ev_dragEnd => resetDragState
  | ev_toJson => switchToJsonMode
  | ev_toVisual => switchToVisualMode
  | ev_fill mode => fillTemplate mode
  | ev_reset => resetEditorState
  | ev_jsonChange value => handleJsonChange value
  | ev_save => handleSave
  | ev_expandAll => expandAllConditions
  | ev_collapseAll => collapseAllConditions
  | ev_search value => setOperationSearch value
  | ev_select id => setSelectedOperationId id
  | ev_preset key => setTemplatePresetKey key
  | ev_legacy value => setLegacyValue value
  end.

(** The form offers the modes of the tables only. *)
Definition event_ok (e : event) : Prop :=
  match e with
  | ev_update _ patch => patch_ok patch
  | ev_updateCondition _ _ patch => condition_patch_ok patch
  | _ => True
  end.

Lemma keeps_setAllConditions open : keeps (setAllConditions open).
Proof. apply keeps_bind; [apply keeps_now|]. intros d. destruct (selectedOperation d); auto with keeps. Qed.

Lemma keeps_handle e : event_ok e → keeps (handle e).
Proof.
  destruct e; cbn [handle event_ok]; intros Hok;
    auto using keeps_open_effect, keeps_selection_effect, keeps_updateOperation, keeps_addOperation, keeps_duplicateOperation,
      keeps_removeOperation, keeps_addCondition, keeps_updateCondition, keeps_removeCondition, keeps_updateReturnErrorDraft,
      keeps_patchPrune, keeps_addPruneRule, keeps_updatePruneRule, keeps_removePruneRule, keeps_handleDrop, keeps_switchToJsonMode,
      keeps_switchToVisualMode, keeps_fillTemplate, keeps_resetEditorState, keeps_setOperationSearch, keeps_setSelected,
      keeps_setPreset, keeps_setLegacyValue, keeps_setAllConditions.
  - apply keeps_bind; [apply keeps_render|]. intros _. apply keeps_ret.
  - unfold handleDragStart. auto with keeps.
  - apply keeps_bind; [apply keeps_now|]. intros d. destruct (_ || _); auto with keeps.
  - unfold resetDragState. auto 10 with keeps.
  - apply keeps_bind; [apply keeps_setJsonText|]. intros _. cbn zeta. destruct (is_empty _); auto with keeps.
  - apply keeps_bind; [apply keeps_now|]. intros d. destruct (saved_text d); auto with keeps.
  - apply keeps_setAllConditions.
  - apply keeps_setAllConditions.
Qed.

(** The state of the first render. *)
Definition initial_dialog (seed : nat) : dialog :=
  let (r, seed') := createDefaultOperation seed in
  mkDialog edit_visual visual_operations [] (match r with Ok o => [o] | _ => [] end) [] [] [] [] [] [] [] before
    (js "operations_default") seed' [].

Definition perform (d : dialog) (e : event) : dialog := snd (handle e d).
Definition run_events (d : dialog) (events : list event) : dialog := fold_left perform events d.

Lemma initial_inv seed : dialog_inv (initial_dialog seed).
Proof.
  unfold initial_dialog. destruct (default_operation_ok seed) as (o & -> & Hid & Hc & Hm).
  split; [done|]. split; [by apply Forall_singleton|]. change (ids_ok (S seed) (all_ids [o] ++ [])).
  rewrite app_nil_r, all_ids_one. unfold op_ids. rewrite Hid, Hc. change (ids_ok (S seed) [local_id seed]).
  rewrite <- ids_between_one. apply ids_between_ok.
Qed.

Lemma perform_inv d e : dialog_inv d → event_ok e → dialog_inv (perform d e).
Proof.
  intros Hd He. pose proof (keeps_handle e He d Hd) as H. unfold perform. by destruct (handle e d) as [[a|err|] d'].
Qed.

Lemma run_events_inv events d : dialog_inv d → Forall event_ok events → dialog_inv (run_events d events).
Proof.
  unfold run_events. revert d. induction events as [|e events IH]; intros d Hd He; [done|]. inversion He; subst.
  cbn. apply IH; [by apply perform_inv|done].
Qed.

(** C37: In every state the editor reaches, by any sequence of its handlers,
    effects and renders, there is an operation, the identifiers of all
    operations and conditions are distinct, and all modes are modes of the
    tables; so an update by identifier reaches at most one of them, and the
    effect that follows leaves an existing operation selected. *)
Theorem editor_identifiers_distinct (seed : nat) (events : list event) :
  Forall event_ok events →
  let d := run_events (initial_dialog seed) events in
  operations d ≠ [] ∧ NoDup (all_ids (operations d)) ∧ Forall modes_ok (operations d)
  ∧ ∃ o, selectedOperation (perform d ev_selection) = Some o ∧ o ∈ operations d.
Proof.
  intros He d. pose proof (run_events_inv events _ (initial_inv seed) He) as (Hne & Hm & [Hn _]). fold d in Hne, Hm, Hn.
  rewrite app_nil_r in Hn. split_and!; try done. unfold perform, handle, selection_effect, mbind, act_bind, now.
  destruct (operations d) as [|o ops] eqn:E; [done|]. destruct (existsb (has_id (selectedOperationId d)) (o :: ops)) eqn:Ex; cbn [negb].
  - cbn [mret act_ret snd]. unfold selectedOperation. rewrite E. apply existsb_exists in Ex as (x & Hx & Hid).
    destruct (List.find (has_id (selectedOperationId d)) (o :: ops)) as [y|] eqn:Ef.
    + exists y. split; [done|]. apply find_some in Ef as [Hy _]. by apply list_elem_of_In.
    + apply (find_none _ _ Ef) in Hx. congruence.
  - exists o. split; [|left]. destruct d. cbn in *. subst. unfold selectedOperation. cbn. unfold has_id. by rewrite str_eqb_refl.
Qed.
End Editor.

(** ** Witnesses *)
Definition plain_operation (id : string) : ParamOverrideOperation :=
  mkOperation (js id) [] (js "temperature") (js "set") [] [] (js "1") false (js "OR") [].

Lemma reorder_moves_one_witness :
  NoDup (map o_id (map plain_operation ["a"; "b"; "c"]%string)) ∧
  ∃ k1 target k2 moved,
    List.filter (λ o, negb (has_id (js "a") o)) (map plain_operation ["a"; "b"; "c"]%string) = k1 ++ target :: k2
    ∧ reorderOperations (map plain_operation ["a"; "b"; "c"]%string) (js "a") (js "c") after = k1 ++ [target; moved] ++ k2.
Proof.
  assert (NoDup (map o_id (map plain_operation ["a"; "b"; "c"]%string))) as Hn by (by apply (bool_decide_unpack _)).
  split; [done|].
  destruct (reorder_moves_one (map plain_operation ["a"; "b"; "c"]%string) (js "a") (js "c") after) as [_ H].
  destruct H as (k1 & target & k2 & moved & _ & _ & _ & Hf & Hr); try done; try (by apply (bool_decide_unpack _)).
  by exists k1, target, k2, moved.
Defined.

Definition prune_document : jsstring :=
  jq "{`operations`:[{`mode`:`prune_objects`,`value`:{`type`:`x`,`conditions`:[{`path`:`role`,`value`:`user`}]}}]}".

Definition prune_dialog : dialog :=
  run_events (editor := plain_editor) (initial_dialog (editor := plain_editor) 0) [ev_open prune_document].

Lemma prune_rules_cannot_be_edited_witness : ∃ draft d' rule,
  render (editor := plain_editor) prune_dialog = (Ok (Some draft), d') ∧ pd_rules draft = [rule]
  ∧ operations (snd (removePruneRule (editor := plain_editor) (first_id (operations d')) (pr_id rule) d'))
    = operations (snd (patchPruneObjectsDraft (editor := plain_editor) (first_id (operations d')) no_change d')).
Proof.
  destruct (render (editor := plain_editor) prune_dialog) as [r d'] eqn:E.
  assert (∃ draft rule, r = Ok (Some draft) ∧ pd_rules draft = [rule]) as (draft & rule & -> & Hr).
  { vm_compute in E. injection E as <- _. by eexists _, _. }
  exists draft, d', rule. split_and!; [done|done|].
  assert (dialog_inv (editor := plain_editor) prune_dialog) as Hinv
    by (apply (run_events_inv); [apply initial_inv|by repeat constructor]).
  destruct (prune_rules_cannot_be_edited (editor := plain_editor) prune_dialog d' draft (first_id (operations d')) Hinv E)
    as [H _].
  apply (H rule (mkConditionPatch None None None None None)). rewrite Hr. left.
Defined.

Lemma editor_identifiers_distinct_witness :
  let d := run_events (editor := plain_editor) (initial_dialog (editor := plain_editor) 0)
    [ev_open prune_document; ev_add; ev_fill append; ev_render; ev_duplicate true (js "po_1700000000000_1")] in
  length (operations d) = 3%nat ∧ NoDup (all_ids (operations d)).
Proof.
  split; [vm_compute; reflexivity|].
  destruct (editor_identifiers_distinct (editor := plain_editor) 0
    [ev_open prune_document; ev_add; ev_fill append; ev_render; ev_duplicate true (js "po_1700000000000_1")]) as (_ & H & _);
    [by repeat constructor|exact H].
Defined.
