(* ===== verification/Flow.v ===== *)
(** * The flow chart of the dashboard

    Models [web/src/features/dashboard/lib/flow.ts]: usage rows become paths
    through stages (user, node, token, group, model, channel), paths are summed
    into the nodes and links of a Sankey diagram, with filters, a limit on the
    nodes of a stage, highlighting, masking of names and colours; and the data
    of the chart and of its clicks.

    Maps keep their insertion order ([JsCollections]); an object updated in a
    map is replaced at its key.  [FlowHost] is the chart library's colour
    schemes and the number format of the browser. *)
From S2P Require Import Prelude JsString JsCollections JsNumber JsValue JsJson Host.
Local Open Scope Z_scope.

(** ** Data *)
Inductive FlowNodeKind := kind_user | kind_node | kind_token | kind_group | kind_model | kind_channel.
Inductive FlowMetric := metric_quota | metric_tokens | metric_requests.
Inductive FlowOverflowMode := overflow_aggregate | overflow_hide.
Inductive FlowRole := role_user | role_admin | role_root.

#[export] Instance FlowNodeKind_eq_dec : EqDecision FlowNodeKind.
Proof. solve_decision. Defined.

Record FlowQuotaDataItem := mkRow {
  user_id : option number;
  username : option jsstring;
  node_name : option jsstring;
  use_group : option jsstring;
  token_id : option number;
  token_name : option jsstring;
  channel_id : option number;
  channel_name : option jsstring;
  model_name : option jsstring;
  token_used : option number;
  count : option number;
  quota : option number;
}.

Record FlowNodeFilter := mkFilter { nf_kind : FlowNodeKind; nf_id : jsstring }.
Record FlowLinkSelection := mkLinkSelection { ls_source : jsstring; ls_target : jsstring }.

Record FlowBuildOptions := mkOptions {
  opt_role : option FlowRole;
  opt_selectedUsers : option (list jsstring);
  opt_selectedNodes : option (list FlowNodeFilter);
  opt_activeNode : option FlowNodeFilter;
  opt_activeLink : option FlowLinkSelection;
  opt_colorPalette : option (list jsstring);
  opt_visibleStages : option (list FlowNodeKind);
  opt_topNodeLimit : option number;
  opt_overflowMode : option FlowOverflowMode;
  opt_maskSensitive : bool;
  opt_deletedTokenLabel : option (number → jsstring);
  opt_otherNodeLabel : option (FlowNodeKind → jsstring);
}.

Record FlowMetrics := mkMetrics { m_quota : number; m_tokens : number; m_requests : number }.
Record FlowPathNode := mkPathNode { fp_id : jsstring; fp_label : jsstring; fp_kind : FlowNodeKind }.
Record PreparedFlowPath := mkPrepared { pp_path : list FlowPathNode; pp_metrics : FlowMetrics }.

Record DashboardFlowNode := mkNode {
  nd_id : jsstring;
  nd_label : jsstring;
  nd_kind : FlowNodeKind;
  nd_value : number;
  nd_requests : number;
  nd_quota : number;
  nd_tokens : number;
  nd_color : jsstring;
  nd_colorKey : jsstring;
  nd_highlighted : option bool;
  nd_dimmed : option bool;
}.

Record DashboardFlowLink := mkLink {
  lk_source : jsstring;
  lk_target : jsstring;
  lk_value : number;
  lk_requests : number;
  lk_quota : number;
  lk_tokens : number;
  lk_sourceLabel : jsstring;
  lk_targetLabel : jsstring;
  lk_color : jsstring;
  lk_linkColor : jsstring;
  lk_linkAlpha : number;
  lk_hoverColor : jsstring;
  lk_colorKey : jsstring;
  lk_share : number;
  lk_highlighted : option bool;
  lk_dimmed : option bool;
}.

Record DashboardFlowGraph := mkGraph { fg_nodes : list DashboardFlowNode; fg_links : list DashboardFlowLink }.

(** ** Rows *)

(** [Number.isFinite(n) ? n : 0] for an optional number. *)
Definition numberValue (value : option number) : number :=
  match value with Some n => if isFinite n then n else num_zero | None => num_zero end.

(** [value || fallback] on an optional string *)
Definition or_default (value : option jsstring) (fallback : jsstring) : jsstring :=
  match value with Some (c :: s) => c :: s | _ => fallback end.

Definition rowMetrics (row : FlowQuotaDataItem) : FlowMetrics :=
  mkMetrics (numberValue (quota row)) (numberValue (token_used row)) (numberValue (count row)).

Definition metricValue (metrics : FlowMetrics) (metric : FlowMetric) : number :=
  match metric with
  | metric_requests => m_requests metrics
  | metric_tokens => m_tokens metrics
  | metric_quota => m_quota metrics
  end.

Definition is_positive (x : number) : bool := num_ltb num_zero x.

(** [{ deletedTokenLabel }] *)
Abbreviation FlowPathContext := (option (number → jsstring)) (only parsing).

Definition userNode (row : FlowQuotaDataItem) : FlowPathNode :=
  let userID := numberValue (user_id row) in
  mkPathNode
    (if is_positive userID then js "user:" ++ String_of_number userID else js "user:" ++ or_default (username row) (js "unknown"))
    (or_default (username row)
      (if is_positive userID then js "user-" ++ String_of_number userID else js "Unknown User"))
    kind_user.

Definition nodeNameNode (row : FlowQuotaDataItem) : FlowPathNode :=
  let nodeName := or_default (node_name row) (js "default-node") in
  mkPathNode (js "node:" ++ nodeName) nodeName kind_node.

Definition deletedTokenLabel (tokenID : number) (ctx : FlowPathContext) : jsstring :=
  if num_leb tokenID num_zero then js "Unknown Token"
  else match ctx with Some label => label tokenID | None => js "token-" ++ String_of_number tokenID end.

Definition tokenNode (row : FlowQuotaDataItem) (ctx : FlowPathContext) : FlowPathNode :=
  let tokenID := numberValue (token_id row) in
  mkPathNode
    (if is_positive tokenID then js "token:" ++ String_of_number tokenID else js "token:" ++ or_default (token_name row) (js "unknown"))
    (or_default (token_name row) (deletedTokenLabel tokenID ctx)) kind_token.

Definition groupNode (row : FlowQuotaDataItem) : FlowPathNode :=
  let useGroup := or_default (use_group row) (js "unknown") in
  mkPathNode (js "group:" ++ useGroup) useGroup kind_group.

Definition modelNode (row : FlowQuotaDataItem) : FlowPathNode :=
  mkPathNode (js "model:" ++ or_default (model_name row) (js "unknown")) (or_default (model_name row) (js "Unknown Model")) kind_model.

Definition channelNode (row : FlowQuotaDataItem) : FlowPathNode :=
  let channelID := numberValue (channel_id row) in
  mkPathNode
    (if is_positive channelID then js "channel:" ++ String_of_number channelID
     else js "channel:" ++ or_default (channel_name row) (js "unknown"))
    (or_default (channel_name row) (if is_positive channelID then js "channel-" ++ String_of_number channelID else js "Unknown"))
    kind_channel.

Definition NODE_BUILDERS (kind : FlowNodeKind) (row : FlowQuotaDataItem) (ctx : FlowPathContext) : FlowPathNode :=
  match kind with
  | kind_user => userNode row
  | kind_node => nodeNameNode row
  | kind_token => tokenNode row ctx
  | kind_group => groupNode row
  | kind_model => modelNode row
  | kind_channel => channelNode row
  end.

Definition getFlowStages (role : FlowRole) : list FlowNodeKind :=
  match role with
  | role_root => [kind_user; kind_node; kind_token; kind_group; kind_model; kind_channel]
  | role_admin => [kind_user; kind_group; kind_model; kind_channel]
  | role_user => [kind_token; kind_group; kind_model]
  end.

Definition MIN_FLOW_STAGES : nat := 2.

Definition resolveVisibleStages (role : FlowRole) (visibleStages : option (list FlowNodeKind)) : list FlowNodeKind :=
  let stages := getFlowStages role in
  match visibleStages with
  | None => stages
  | Some visible =>
      let filtered := List.filter (has (set_of visible)) stages in
      if (MIN_FLOW_STAGES <=? length filtered)%nat then filtered else stages
  end.

Definition flowPathForStages (row : FlowQuotaDataItem) (stages : list FlowNodeKind) (ctx : FlowPathContext) : list FlowPathNode :=
  map (λ stage, NODE_BUILDERS stage row ctx) stages.

(** ** Filters *)
Definition filterRows (rows : list FlowQuotaDataItem) (selectedUsers : option (list jsstring)) : list FlowQuotaDataItem :=
  let selected := set_of (default [] selectedUsers) in
  if (length selected =? 0)%nat then rows else List.filter (λ row, has selected (fp_id (userNode row))) rows.

Definition NUL : jsstring := [0].

Definition kind_name (kind : FlowNodeKind) : jsstring :=
  js (match kind with kind_user => "user" | kind_node => "node" | kind_token => "token" | kind_group => "group"
      | kind_model => "model" | kind_channel => "channel" end).

Definition nodeFilterKey (filter : FlowNodeFilter) : jsstring := kind_name (nf_kind filter) ++ NUL ++ nf_id filter.

Abbreviation kind_sets := (list (FlowNodeKind * list jsstring)) (only parsing).

(** [set.add(id)] in the set of a kind, which is made when it is not there. *)
Definition add_to_kind (sets : kind_sets) (kind : FlowNodeKind) (id : jsstring) : kind_sets :=
  map_set kind (js_add (default [] (map_get kind sets)) id) sets.

Definition normalizeSelectedNodeFilters (selectedNodes : option (list FlowNodeFilter)) (stages : list FlowNodeKind) : kind_sets :=
  let visibleKinds := set_of stages in
  fold_left (λ filters f, if has visibleKinds (nf_kind f) then add_to_kind filters (nf_kind f) (nf_id f) else filters)
    (default [] selectedNodes) [].

Definition pathMatchesNodeFilters (path : list FlowPathNode) (filters : kind_sets) : bool :=
  if (length filters =? 0)%nat then true
  else
    let pathNodesByKind := fold_left (λ m n, add_to_kind m (fp_kind n) (fp_id n)) path [] in
    forallb (λ '(kind, selectedIds),
      match map_get kind pathNodesByKind with
      | None => false
      | Some pathIds => existsb (has pathIds) selectedIds
      end) filters.

Definition filterRowsByNodes (rows : list FlowQuotaDataItem) (selectedNodes : option (list FlowNodeFilter))
    (stages : list FlowNodeKind) (ctx : FlowPathContext) : list FlowQuotaDataItem :=
  let filters := normalizeSelectedNodeFilters selectedNodes stages in
  if (length filters =? 0)%nat then rows
  else List.filter (λ row, pathMatchesNodeFilters (flowPathForStages row stages ctx) filters) rows.

Definition selectedNodeFiltersExceptKind (selectedNodes : option (list FlowNodeFilter)) (kind : FlowNodeKind)
    : option (list FlowNodeFilter) :=
  match List.filter (λ f, negb (bool_decide (nf_kind f = kind))) (default [] selectedNodes) with
  | [] => None
  | filtered => Some filtered
  end.

(** ** Summing *)
Definition new_node (pathNode : FlowPathNode) (color colorKey : jsstring) : DashboardFlowNode :=
  mkNode (fp_id pathNode) (fp_label pathNode) (fp_kind pathNode) num_zero num_zero num_zero num_zero color colorKey None None.

Definition grow_node (metrics : FlowMetrics) (metric : FlowMetric) (n : DashboardFlowNode) : DashboardFlowNode :=
  mkNode (nd_id n) (nd_label n) (nd_kind n) (num_add (nd_value n) (metricValue metrics metric))
    (num_add (nd_requests n) (m_requests metrics)) (num_add (nd_quota n) (m_quota metrics))
    (num_add (nd_tokens n) (m_tokens metrics)) (nd_color n) (nd_colorKey n) (nd_highlighted n) (nd_dimmed n).

Definition addNode (nodes : list (jsstring * DashboardFlowNode)) (pathNode : FlowPathNode) (metrics : FlowMetrics)
    (metric : FlowMetric) (color colorKey : jsstring) : list (jsstring * DashboardFlowNode) :=
  let previous := default (new_node pathNode color colorKey) (map_get (fp_id pathNode) nodes) in
  map_set (fp_id pathNode) (grow_node metrics metric previous) nodes.

Definition pathLinkKey (source target : FlowPathNode) : jsstring := fp_id source ++ NUL ++ fp_id target.
Definition linkStableKey (link : DashboardFlowLink) : jsstring := lk_source link ++ NUL ++ lk_target link.

Definition new_link (source target : FlowPathNode) (color colorKey : jsstring) : DashboardFlowLink :=
  mkLink (fp_id source) (fp_id target) num_zero num_zero num_zero num_zero (fp_label source) (fp_label target)
    color color (num_of_Z 1) color colorKey num_zero None None.

Definition grow_link (metrics : FlowMetrics) (metric : FlowMetric) (l : DashboardFlowLink) : DashboardFlowLink :=
  mkLink (lk_source l) (lk_target l) (num_add (lk_value l) (metricValue metrics metric))
    (num_add (lk_requests l) (m_requests metrics)) (num_add (lk_quota l) (m_quota metrics))
    (num_add (lk_tokens l) (m_tokens metrics)) (lk_sourceLabel l) (lk_targetLabel l) (lk_color l) (lk_linkColor l)
    (lk_linkAlpha l) (lk_hoverColor l) (lk_colorKey l) (lk_share l) (lk_highlighted l) (lk_dimmed l).

Definition addLink (links : list (jsstring * DashboardFlowLink)) (source target : FlowPathNode) (metrics : FlowMetrics)
    (metric : FlowMetric) (color colorKey : jsstring) : list (jsstring * DashboardFlowLink) :=
  let key := pathLinkKey source target in
  let previous := default (new_link source target color colorKey) (map_get key links) in
  map_set key (grow_link metrics metric previous) links.

(** The pairs of neighbours of a path. *)
Fixpoint path_links (path : list FlowPathNode) : list (FlowPathNode * FlowPathNode) :=
  match path with
  | source :: ((target :: _) as rest) => (source, target) :: path_links rest
  | _ => []
  end.

Record FlowSummary := mkSummary { fs_quota : number; fs_tokens : number; fs_requests : number }.

Definition buildSummary (rows : list FlowQuotaDataItem) : FlowSummary :=
  fold_left (λ s row, let m := rowMetrics row in
      mkSummary (num_add (fs_quota s) (m_quota m)) (num_add (fs_tokens s) (m_tokens m)) (num_add (fs_requests s) (m_requests m)))
    rows (mkSummary num_zero num_zero num_zero).

(** ** The limit on nodes *)

(** A limit that is not an integer is rounded down; [None] is [undefined]. *)
Definition normalizeTopNodeLimit (limit : option number) : option Z :=
  match limit with
  | None => None
  | Some x =>
      let parsed := Math_floor x in
      if isFinite parsed && is_positive parsed then integer_value parsed else None
  end.

Definition OTHER_FLOW_NODE_IDS (kind : FlowNodeKind) : jsstring := kind_name kind ++ js ":__other__".

Definition DEFAULT_OTHER_FLOW_NODE_LABELS (kind : FlowNodeKind) : jsstring := js "Other " ++ kind_name kind ++ js "s".

Definition otherFlowNode (kind : FlowNodeKind) (labeler : option (FlowNodeKind → jsstring)) : FlowPathNode :=
  mkPathNode (OTHER_FLOW_NODE_IDS kind)
    (match labeler with Some label => label kind | None => DEFAULT_OTHER_FLOW_NODE_LABELS kind end) kind.

Record FlowNodeRank := mkRank { rk_node : FlowPathNode; rk_value : number }.

(** The sign of a number a comparator answers: NaN counts as zero. *)
Definition sign_of (x : number) : Z := if num_ltb x num_zero then -1 else if num_ltb num_zero x then 1 else 0.

(** [a || b] on the answers of comparators *)
Definition then_by (a b : Z) : Z := if a =? 0 then b else a.

(** [totals.get(kind)] updated for one node; a kind that is not there is left out. *)
Definition add_total (value : number) (totals : list (FlowNodeKind * list (jsstring * FlowNodeRank))) (node : FlowPathNode)
    : list (FlowNodeKind * list (jsstring * FlowNodeRank)) :=
  match map_get (fp_kind node) totals with
  | None => totals
  | Some stageTotals =>
      let current := default (mkRank node num_zero) (map_get (fp_id node) stageTotals) in
      map_set (fp_kind node)
        (map_set (fp_id node) (mkRank (rk_node current) (num_add (rk_value current) value)) stageTotals) totals
  end.

(** [path.some((node) => !isTopFlowNode(node, sets))] and the like. *)
Definition isTopFlowNode (node : FlowPathNode) (topNodeSets : option kind_sets) : bool :=
  match topNodeSets ≫= map_get (fp_kind node) with None => true | Some topNodes => has topNodes (fp_id node) end.

Definition applyTopNodeLimit (path : list FlowPathNode) (topNodeSets : option kind_sets) (mode : FlowOverflowMode)
    (labeler : option (FlowNodeKind → jsstring)) : option (list FlowPathNode) :=
  match topNodeSets with
  | None => Some path
  | Some _ =>
      if negb (existsb (λ node, negb (isTopFlowNode node topNodeSets)) path) then Some path
      else match mode with
        | overflow_hide => None
        | overflow_aggregate =>
            Some (map (λ node, if isTopFlowNode node topNodeSets then node else otherFlowNode (fp_kind node) labeler) path)
        end
  end.

(** ** Highlighting *)
Definition pathContainsFlowNode (path : list FlowPathNode) (filter : FlowNodeFilter) : bool :=
  existsb (λ node, bool_decide (fp_kind node = nf_kind filter) && str_eqb (fp_id node) (nf_id filter)) path.

Definition pathContainsFlowLink (path : list FlowPathNode) (link : FlowLinkSelection) : bool :=
  existsb (λ '(s, t), str_eqb (fp_id s) (ls_source link) && str_eqb (fp_id t) (ls_target link)) (path_links path).

Record FlowHighlightSets := mkHighlights { hl_nodes : list jsstring; hl_links : list jsstring }.

Definition buildFlowHighlightSets (preparedPaths : list PreparedFlowPath) (activeNode : option FlowNodeFilter)
    (activeLink : option FlowLinkSelection) (stages : list FlowNodeKind) : option FlowHighlightSets :=
  let nodeActive := match activeNode with Some n => has stages (nf_kind n) | None => false end in
  if negb nodeActive && match activeLink with Some _ => false | None => true end then None
  else
    let matchesPath path := match activeLink with
      | Some link => pathContainsFlowLink path link
      | None => match activeNode with Some n => pathContainsFlowNode path n | None => false end
      end in
    let matching := List.filter matchesPath (map pp_path preparedPaths) in
    let nodes := set_of (concat (map (map fp_id) matching)) in
    let links := set_of (concat (map (λ path, map (λ '(s, t), pathLinkKey s t) (path_links path)) matching)) in
    if (length nodes =? 0)%nat then None else Some (mkHighlights nodes links).

Definition highlight_node (sets : FlowHighlightSets) (n : DashboardFlowNode) : DashboardFlowNode :=
  let h := has (hl_nodes sets) (nd_id n) in
  mkNode (nd_id n) (nd_label n) (nd_kind n) (nd_value n) (nd_requests n) (nd_quota n) (nd_tokens n) (nd_color n)
    (nd_colorKey n) (Some h) (Some (negb h)).

Definition highlight_link (sets : FlowHighlightSets) (l : DashboardFlowLink) : DashboardFlowLink :=
  let h := has (hl_links sets) (linkStableKey l) in
  mkLink (lk_source l) (lk_target l) (lk_value l) (lk_requests l) (lk_quota l) (lk_tokens l) (lk_sourceLabel l)
    (lk_targetLabel l) (lk_color l) (lk_linkColor l) (lk_linkAlpha l) (lk_hoverColor l) (lk_colorKey l) (lk_share l)
    (Some h) (Some (negb h)).

Definition applyFlowHighlights (nodes : list DashboardFlowNode) (links : list DashboardFlowLink)
    (highlightSets : option FlowHighlightSets) : list DashboardFlowNode * list DashboardFlowLink :=
  match highlightSets with
  | None => (nodes, links)
  | Some sets => (map (highlight_node sets) nodes, map (highlight_link sets) links)
  end.

(** ** Masking *)
Definition SENSITIVE_FLOW_KINDS : list FlowNodeKind := [kind_user; kind_node; kind_token; kind_group; kind_channel].
Definition FLOW_NODE_KINDS : list FlowNodeKind := [kind_user; kind_node; kind_token; kind_group; kind_model; kind_channel].
Definition OTHER_FLOW_NODE_ID_SET : list jsstring := map OTHER_FLOW_NODE_IDS FLOW_NODE_KINDS.
Definition FLOW_MASK_TEXT : jsstring := [8226; 8226; 8226; 8226].

Definition maskFlowLabel (label : jsstring) : jsstring := if (length label =? 0)%nat then label else FLOW_MASK_TEXT.

(** Whether the label of a node is masked. *)
Definition is_masked (n : DashboardFlowNode) : bool :=
  has SENSITIVE_FLOW_KINDS (nd_kind n) && negb (has OTHER_FLOW_NODE_ID_SET (nd_id n)).

Definition relabel_node (label : jsstring) (n : DashboardFlowNode) : DashboardFlowNode :=
  mkNode (nd_id n) label (nd_kind n) (nd_value n) (nd_requests n) (nd_quota n) (nd_tokens n) (nd_color n) (nd_colorKey n)
    (nd_highlighted n) (nd_dimmed n).

Definition relabel_link (sourceLabel targetLabel : jsstring) (l : DashboardFlowLink) : DashboardFlowLink :=
  mkLink (lk_source l) (lk_target l) (lk_value l) (lk_requests l) (lk_quota l) (lk_tokens l) sourceLabel targetLabel
    (lk_color l) (lk_linkColor l) (lk_linkAlpha l) (lk_hoverColor l) (lk_colorKey l) (lk_share l) (lk_highlighted l) (lk_dimmed l).

Definition mask_node (n : DashboardFlowNode) : DashboardFlowNode :=
  if is_masked n then relabel_node (maskFlowLabel (nd_label n)) n else n.

Definition mask_link (maskedById : list (jsstring * jsstring)) (l : DashboardFlowLink) : DashboardFlowLink :=
  relabel_link (default (lk_sourceLabel l) (map_get (lk_source l) maskedById))
    (default (lk_targetLabel l) (map_get (lk_target l) maskedById)) l.

Definition maskFlowGraphLabels (nodes : list DashboardFlowNode) (links : list DashboardFlowLink)
    : list DashboardFlowNode * list DashboardFlowLink :=
  let maskedById := fold_left (λ m n, map_set (nd_id n) (maskFlowLabel (nd_label n)) m) (List.filter is_masked nodes) [] in
  (map mask_node nodes, if (length maskedById =? 0)%nat then links else map (mask_link maskedById) links).

(** ** Colours *)

(** A colour scheme of the chart library: the greatest number of series it is
    meant for ([None] or 0 for any), and its colours; a colour that is not a
    string is [None]. *)
Record color_scheme := mkScheme { maxDomainLength : option Z; scheme_colors : list (option jsstring) }.

Class FlowHost := {
  (** The schemes of the chart library but the last, and the last. *)
  data_schemes : list color_scheme;
  last_scheme : color_scheme;
  (** [Intl.NumberFormat(undefined, { maximumFractionDigits: 0 }).format] *)
  format_number : number → jsstring;
}.

(** [x.toFixed(digits)] of a number from 0 up to 10^21: the nearest decimal, the
    greater of two. *)
Definition toFixed (digits : Z) (x : number) : jsstring :=
  let n := match x with
    | S754_finite _ m e =>
        let d := 2 ^ Z.max (- e) 0 in (2 * Zpos m * 2 ^ Z.max e 0 * 10 ^ digits + d) / (2 * d)
    | _ => 0
    end in
  let ds := string_of_nonneg n in
  let padded := zeros (digits + 1 - Z.of_nat (length ds)) ++ ds in
  let k := (length padded - Z.to_nat digits)%nat in
  take k padded ++ js "." ++ drop k padded.

Example toFixed_sample : toFixed 2 (Number_of_string (js "0.345")) = js "0.34" ∧ toFixed 2 (Number_of_string (js "0.24")) = js "0.24".
Proof. split; vm_compute; reflexivity. Qed.

Definition DEFAULT_FLOW_CHART_COLOR : jsstring := js "#1664FF".

Section Graph.
Context {host : Host} {flow_host : FlowHost}.

Definition getDashboardChartColors (domainLength : nat) : list jsstring :=
  let fits s := match maxDomainLength s with
    | None => true
    | Some n => (n =? 0) || (Z.of_nat domainLength <=? n)
    end in
  let scheme := default last_scheme (List.find fits (data_schemes ++ [last_scheme])) in
  omap id (scheme_colors scheme).

(** [palette && palette.length > 0] *)
Definition given_palette (palette : option (list jsstring)) : option (list jsstring) :=
  match palette with Some (c :: l) => Some (c :: l) | _ => None end.

Definition colorAt (index : nat) (palette : option (list jsstring)) : jsstring :=
  let colors := default (getDashboardChartColors (index + 1)) (given_palette palette) in
  if (length colors =? 0)%nat then DEFAULT_FLOW_CHART_COLOR
  else default DEFAULT_FLOW_CHART_COLOR (colors !! (index mod length colors)%nat).

Definition colorPalette (colorCount : nat) (palette : option (list jsstring)) : list jsstring :=
  match given_palette palette with
  | Some colors => colors
  | None => match getDashboardChartColors colorCount with [] => [DEFAULT_FLOW_CHART_COLOR] | colors => colors end
  end.

(** The display colour and its alpha. *)
Definition alphaColor (color : jsstring) (alpha : number) : jsstring * number :=
  let normalized := trim color in
  let hex := if starts_with normalized (js "#") then drop 1 normalized else normalized in
  if negb ((length hex =? 6)%nat && forallb is_hex hex) then (normalized, alpha)
  else
    let value := default 0 (radix_value 16 0 hex) in
    let red := Z.land (Z.shiftr value 16) 255 in
    let green := Z.land (Z.shiftr value 8) 255 in
    let blue := Z.land value 255 in
    (js "rgba(" ++ string_of_nonneg red ++ js ", " ++ string_of_nonneg green ++ js ", " ++ string_of_nonneg blue ++ js ", "
     ++ toFixed 2 alpha ++ js ")", num_of_Z 1).

Definition stableColorMap (keys : list jsstring) (palette : option (list jsstring)) : list (jsstring * jsstring) :=
  let uniqueKeys := set_of keys in
  let colors := colorPalette (length uniqueKeys) palette in
  imap (λ index key, (key, colorAt index (Some colors))) uniqueKeys.

Definition with_display_color (linkColor : jsstring) (linkAlpha : number) (l : DashboardFlowLink) : DashboardFlowLink :=
  mkLink (lk_source l) (lk_target l) (lk_value l) (lk_requests l) (lk_quota l) (lk_tokens l) (lk_sourceLabel l)
    (lk_targetLabel l) (lk_color l) linkColor linkAlpha (lk_color l) (lk_colorKey l) (lk_share l) (lk_highlighted l) (lk_dimmed l).

Definition compare_values (a b : number) : Z := sign_of (num_sub b a).

Definition by_value_then_key (a b : DashboardFlowLink) : Z :=
  then_by (compare_values (lk_value a) (lk_value b)) (localeCompare (linkStableKey a) (linkStableKey b)).

(** The colour of a link at a place among the links of its source. *)
Definition ranked_color (siblings index : nat) (l : DashboardFlowLink) : DashboardFlowLink :=
  let denominator := Nat.max (siblings - 1) 1 in
  let alpha := if (siblings =? 1)%nat then Number_of_string (js "0.34")
    else num_add (Number_of_string (js "0.24"))
      (num_mul (num_div (num_of_Z (Z.of_nat index)) (num_of_Z (Z.of_nat denominator))) (Number_of_string (js "0.2"))) in
  let '(color, a) := alphaColor (lk_color l) alpha in with_display_color color a l.

(** A link is found among the links of its source by its key, which no other
    link has. *)
Definition assignLinkDisplayColors (links : list DashboardFlowLink) : list DashboardFlowLink :=
  map (λ l,
    let sortedLinks := sort_by by_value_then_key (List.filter (λ x, str_eqb (lk_source x) (lk_source l)) links) in
    match list_find (λ x, linkStableKey x = linkStableKey l) sortedLinks with
    | Some (index, _) => ranked_color (length sortedLinks) index l
    | None => l
    end) links.

(** ** The graph *)
Definition byValueThenLabel (a b : DashboardFlowNode) : Z :=
  then_by (compare_values (nd_value a) (nd_value b)) (localeCompare (nd_label a) (nd_label b)).

Definition compare_ranks (a b : FlowNodeRank) : Z :=
  then_by (compare_values (rk_value a) (rk_value b))
    (then_by (localeCompare (fp_label (rk_node a)) (fp_label (rk_node b))) (localeCompare (fp_id (rk_node a)) (fp_id (rk_node b)))).

(** [values.slice(0, limit)] *)
Definition slice_to {A} (limit : Z) (l : list A) : list A := take (Z.to_nat (Z.min limit (Z.of_nat (length l)))) l.

Definition node_totals (rows : list FlowQuotaDataItem) (metric : FlowMetric) (stages : list FlowNodeKind) (ctx : FlowPathContext)
    : list (FlowNodeKind * list (jsstring * FlowNodeRank)) :=
  fold_left (λ totals row,
      fold_left (add_total (metricValue (rowMetrics row) metric)) (flowPathForStages row stages ctx) totals)
    rows (fold_left (λ totals stage, map_set stage [] totals) stages []).

Definition buildTopNodeSets (rows : list FlowQuotaDataItem) (metric : FlowMetric) (stages : list FlowNodeKind)
    (limit : option Z) (ctx : FlowPathContext) : option kind_sets :=
  match limit with
  | None => None
  | Some limit =>
      Some (map (λ '(kind, stageTotals),
        (kind, set_of (map (λ rank, fp_id (rk_node rank)) (slice_to limit (sort_by compare_ranks (map snd stageTotals))))))
        (node_totals rows metric stages ctx))
  end.

Record FlowGraphOptions := mkGraphOptions {
  go_topNodeLimit : option number;
  go_overflowMode : option FlowOverflowMode;
  go_otherNodeLabel : option (FlowNodeKind → jsstring);
  go_activeNode : option FlowNodeFilter;
  go_activeLink : option FlowLinkSelection;
  go_maskSensitive : bool;
}.

Definition prepare_paths (rows : list FlowQuotaDataItem) (metric : FlowMetric) (stages : list FlowNodeKind)
    (ctx : FlowPathContext) (options : FlowGraphOptions) : list PreparedFlowPath :=
  let topNodeSets := buildTopNodeSets rows metric stages (normalizeTopNodeLimit (go_topNodeLimit options)) ctx in
  let overflowMode := default overflow_aggregate (go_overflowMode options) in
  omap (λ row, option_map (λ path, mkPrepared path (rowMetrics row))
    (applyTopNodeLimit (flowPathForStages row stages ctx) topNodeSets overflowMode (go_otherNodeLabel options))) rows.

(** The identifiers of the first nodes of the paths. *)
Definition root_ids (preparedPaths : list PreparedFlowPath) : list jsstring :=
  List.filter (λ id, negb (str_eqb id [])) (omap (λ p, option_map fp_id (head (pp_path p))) preparedPaths).

Definition add_path_nodes (metric : FlowMetric) (color : FlowPathNode → jsstring)
    (nodes : list (jsstring * DashboardFlowNode)) (p : PreparedFlowPath) : list (jsstring * DashboardFlowNode) :=
  match pp_path p with
  | [] => nodes
  | root :: _ => fold_left (λ m n, addNode m n (pp_metrics p) metric (color root) (fp_id root)) (pp_path p) nodes
  end.

Definition add_path_links (metric : FlowMetric) (color : FlowPathNode → jsstring)
    (links : list (jsstring * DashboardFlowLink)) (p : PreparedFlowPath) : list (jsstring * DashboardFlowLink) :=
  match pp_path p with
  | [] => links
  | root :: _ =>
      fold_left (λ m '(s, t), addLink m s t (pp_metrics p) metric (color root) (fp_id root)) (path_links (pp_path p)) links
  end.

Definition with_share (total : number) (l : DashboardFlowLink) : DashboardFlowLink :=
  mkLink (lk_source l) (lk_target l) (lk_value l) (lk_requests l) (lk_quota l) (lk_tokens l) (lk_sourceLabel l)
    (lk_targetLabel l) (lk_color l) (lk_linkColor l) (lk_linkAlpha l) (lk_hoverColor l) (lk_colorKey l)
    (if is_positive total then num_div (lk_value l) total else num_zero) (lk_highlighted l) (lk_dimmed l).

Definition by_source_then_target (a b : DashboardFlowLink) : Z :=
  then_by (localeCompare (lk_source a) (lk_source b)) (localeCompare (lk_target a) (lk_target b)).

(** The nodes and the links before they are masked, highlighted and sorted. *)
Definition sum_paths (metric : FlowMetric) (preparedPaths : list PreparedFlowPath) (palette : option (list jsstring))
    : list DashboardFlowNode * list DashboardFlowLink :=
  let colors := stableColorMap (sort_by localeCompare (root_ids preparedPaths)) palette in
  let color root := default (colorAt 0 palette) (map_get (fp_id root) colors) in
  (map snd (fold_left (add_path_nodes metric color) preparedPaths []),
   map snd (fold_left (add_path_links metric color) preparedPaths [])).

(** From the summed nodes and links to the graph. *)
Definition finish_graph (preparedPaths : list PreparedFlowPath) (nodes : list DashboardFlowNode) (links : list DashboardFlowLink)
    : DashboardFlowGraph :=
  let flowLinks := sort_by by_source_then_target links in
  let firstStepSources := set_of (root_ids preparedPaths) in
  let total := fold_left (λ sum link, num_add sum (lk_value link))
    (List.filter (λ link, has firstStepSources (lk_source link)) flowLinks) num_zero in
  mkGraph (sort_by byValueThenLabel nodes) (assignLinkDisplayColors (map (with_share total) flowLinks)).

Definition buildFlowGraph (rows : list FlowQuotaDataItem) (metric : FlowMetric) (role : FlowRole)
    (palette : option (list jsstring)) (visibleStages : option (list FlowNodeKind)) (ctx : FlowPathContext)
    (options : FlowGraphOptions) : DashboardFlowGraph :=
  let stages := resolveVisibleStages role visibleStages in
  let preparedPaths := prepare_paths rows metric stages ctx options in
  let '(nodes, links) := sum_paths metric preparedPaths palette in
  let '(nodes, links) := if go_maskSensitive options then maskFlowGraphLabels nodes links else (nodes, links) in
  let '(nodes, links) := applyFlowHighlights nodes links
    (buildFlowHighlightSets preparedPaths (go_activeNode options) (go_activeLink options) stages) in
  finish_graph preparedPaths nodes links.

(** ** Filter options *)
Record FlowUserFilterOption := mkUserOption {
  uo_value : jsstring; uo_label : jsstring; uo_valueLabel : jsstring; uo_valueRaw : number; uo_color : jsstring }.
Record FlowNodeFilterOption := mkNodeOption {
  no_kind : FlowNodeKind; no_value : jsstring; no_label : jsstring; no_valueLabel : jsstring; no_valueRaw : number; no_color : jsstring }.
Record FlowFilterOptions := mkFilterOptions { fo_users : list FlowUserFilterOption; fo_nodes : list FlowNodeFilterOption }.

(** [Boolean(x)] of an optional number or string *)
Definition truthy_number (x : option number) : bool :=
  match x with Some n => negb (isNaN n) && negb (num_eqb n num_zero) | None => false end.
Definition truthy_text (x : option jsstring) : bool := match x with Some (_ :: _) => true | _ => false end.

Record user_total := mkUserTotal { ut_label : jsstring; ut_value : number; ut_color : jsstring }.

Definition buildUserFilterOptions (rows : list FlowQuotaDataItem) (metric : FlowMetric) (palette : option (list jsstring))
    : list FlowUserFilterOption :=
  let colors := stableColorMap (sort_by localeCompare (map (λ row, fp_id (userNode row)) rows)) palette in
  let users := fold_left (λ users row,
      let user := userNode row in
      if negb (truthy_number (user_id row)) && negb (truthy_text (username row)) then users
      else
        let value := metricValue (rowMetrics row) metric in
        let current := default (mkUserTotal (fp_label user) num_zero (default (colorAt 0 palette) (map_get (fp_id user) colors)))
          (map_get (fp_id user) users) in
        map_set (fp_id user) (mkUserTotal (ut_label current) (num_add (ut_value current) value) (ut_color current)) users)
    rows [] in
  sort_by (λ a b, then_by (compare_values (uo_valueRaw a) (uo_valueRaw b)) (localeCompare (uo_label a) (uo_label b)))
    (map (λ '(value, user), mkUserOption value (ut_label user) (format_number (ut_value user)) (ut_value user) (ut_color user)) users).

(** The totals of one stage over the rows that match the filters of the others. *)
Definition stage_totals (rows : list FlowQuotaDataItem) (metric : FlowMetric) (stages : list FlowNodeKind) (ctx : FlowPathContext)
    (selectedNodes : option (list FlowNodeFilter)) (stage : FlowNodeKind) : list (jsstring * FlowNodeRank) :=
  fold_left (λ totals row,
      let value := metricValue (rowMetrics row) metric in
      let node := NODE_BUILDERS stage row ctx in
      let key := nodeFilterKey (mkFilter (fp_kind node) (fp_id node)) in
      let current := default (mkRank node num_zero) (map_get key totals) in
      map_set key (mkRank (rk_node current) (num_add (rk_value current) value)) totals)
    (filterRowsByNodes rows (selectedNodeFiltersExceptKind selectedNodes stage) stages ctx) [].

(** [stageOrder.get(kind) ?? 0] *)
Definition stage_order (stages : list FlowNodeKind) (kind : FlowNodeKind) : Z :=
  match list_find (λ k, k = kind) stages with Some (i, _) => Z.of_nat i | None => 0 end.

Definition compare_node_options (stages : list FlowNodeKind) (a b : FlowNodeFilterOption) : Z :=
  then_by (stage_order stages (no_kind a) - stage_order stages (no_kind b))
    (then_by (compare_values (no_valueRaw a) (no_valueRaw b))
      (then_by (localeCompare (no_label a) (no_label b)) (localeCompare (no_value a) (no_value b)))).

Definition buildNodeFilterOptions (rows : list FlowQuotaDataItem) (metric : FlowMetric) (role : FlowRole)
    (visibleStages : option (list FlowNodeKind)) (palette : option (list jsstring)) (ctx : FlowPathContext)
    (selectedNodes : option (list FlowNodeFilter)) : list FlowNodeFilterOption :=
  let stages := resolveVisibleStages role visibleStages in
  let colorIds := set_of (concat (map (λ row, map fp_id (flowPathForStages row stages ctx)) rows)) in
  let colors := stableColorMap (sort_by localeCompare colorIds) palette in
  let option_of rank := mkNodeOption (fp_kind (rk_node rank)) (fp_id (rk_node rank)) (fp_label (rk_node rank))
    (format_number (rk_value rank)) (rk_value rank) (default (colorAt 0 palette) (map_get (fp_id (rk_node rank)) colors)) in
  sort_by (compare_node_options stages)
    (concat (map (λ stage, map option_of (map snd (stage_totals rows metric stages ctx selectedNodes stage))) stages)).

Definition buildFlowFilterOptions (rows : list FlowQuotaDataItem) (metric : FlowMetric) (palette : option (list jsstring))
    (role : FlowRole) (visibleStages : option (list FlowNodeKind)) (selectedNodes : option (list FlowNodeFilter)) : FlowFilterOptions :=
  mkFilterOptions (buildUserFilterOptions rows metric palette)
    (buildNodeFilterOptions rows metric role visibleStages palette None selectedNodes).

Record ProcessedFlowData := mkProcessed { pd_summary : FlowSummary; pd_flow : DashboardFlowGraph; pd_filterOptions : FlowFilterOptions }.

Definition buildDashboardFlowData (rows : list FlowQuotaDataItem) (metric : FlowMetric) (options : FlowBuildOptions)
    : ProcessedFlowData :=
  let role := default role_user (opt_role options) in
  let palette := opt_colorPalette options in
  let ctx := opt_deletedTokenLabel options in
  let stages := resolveVisibleStages role (opt_visibleStages options) in
  let userFilteredRows := filterRows rows (opt_selectedUsers options) in
  let filteredRows := filterRowsByNodes userFilteredRows (opt_selectedNodes options) stages ctx in
  mkProcessed (buildSummary filteredRows)
    (buildFlowGraph filteredRows metric role palette (opt_visibleStages options) ctx
      (mkGraphOptions (opt_topNodeLimit options) (opt_overflowMode options) (opt_otherNodeLabel options)
        (opt_activeNode options) (opt_activeLink options) (opt_maskSensitive options)))
    (mkFilterOptions (buildUserFilterOptions rows metric palette)
      (buildNodeFilterOptions userFilteredRows metric role (opt_visibleStages options) palette ctx (opt_selectedNodes options))).

(** ** The data of the chart *)

(** [Number(flag)] of an optional boolean *)
Definition flag_number (b : option bool) : number :=
  match b with Some true => num_of_Z 1 | Some false => num_zero | None => num_nan end.

Definition byLinkDrawPriority (a b : DashboardFlowLink) : Z :=
  then_by (sign_of (num_sub (flag_number (lk_dimmed a)) (flag_number (lk_dimmed b))))
    (then_by (sign_of (num_sub (flag_number (lk_highlighted b)) (flag_number (lk_highlighted a))))
      (then_by (compare_values (lk_value a) (lk_value b)) (localeCompare (linkStableKey a) (linkStableKey b)))).

Definition z_index (link : DashboardFlowLink) (index : nat) : Z :=
  if default false (lk_highlighted link) then 1000000 + Z.of_nat index
  else if default false (lk_dimmed link) then Z.of_nat index
  else 100000 + Z.of_nat index.

(** The links handed to the chart, with their drawing order. *)
Definition sankey_links (flow : DashboardFlowGraph) : list (DashboardFlowLink * Z) :=
  imap (λ index link, (link, z_index link index))
    (sort_by byLinkDrawPriority (List.filter (λ link, is_positive (lk_value link)) (fg_links flow))).
End Graph.

(** ** Clicks on the chart *)

(** [Number(v)] *)
Definition Number_of_value (v : jsval) : number :=
  match v with
  | JUndefined | JObject _ => num_nan
  | JNull => num_zero
  | JBool b => if b then num_of_Z 1 else num_zero
  | JNumber x => x
  | JString s => Number_of_string s
  | JArray _ => Number_of_string (String_of_value v)
  end.

(** [value && typeof value === 'object' ? value : undefined] *)
Definition recordValue (value : jsval) : option jsval := if is_object value then Some value else None.

(** [record[key]] for a key that is no index and no inherited name. *)
Definition field_of (record : jsval) (key : string) : jsval :=
  match record with JObject es => default JUndefined (own_property (js key) es) | _ => JUndefined end.

Definition sankeyDatumSource (datum : jsval) : jsval :=
  let nested := field_of datum "datum" in
  match nested with
  | JArray items =>
      let depth := numberValue (Some (Number_of_value (field_of datum "depth"))) in
      let at_depth := match integer_value depth with
        | Some i => if 0 <=? i then default JUndefined (items !! Z.to_nat i) else JUndefined
        | None => JUndefined
        end in
      match recordValue at_depth with
      | Some record => record
      | None => default datum (recordValue (default JUndefined (head items)))
      end
  | _ => default datum (recordValue nested)
  end.

Definition sankeyDatumValue (datum : jsval) (key : string) : jsval :=
  match field_of datum key with JUndefined => field_of (sankeyDatumSource datum) key | v => v end.

Definition flowSankeyDatumValue (datum : jsval) (key : string) : jsval :=
  match recordValue datum with Some record => sankeyDatumValue record key | None => JUndefined end.

Definition is_defined (v : jsval) : bool := match v with JUndefined => false | _ => true end.

Definition isSankeyLinkDatum (datum : jsval) : bool :=
  is_defined (sankeyDatumValue datum "source") && is_defined (sankeyDatumValue datum "target").

Definition kind_of_name (v : jsval) : option FlowNodeKind :=
  match v with JString s => List.find (λ k, str_eqb (kind_name k) s) FLOW_NODE_KINDS | _ => None end.

Definition flowNodeFilterFromSankeyDatum (datum : jsval) : option FlowNodeFilter :=
  match recordValue datum with
  | None => None
  | Some record =>
      if isSankeyLinkDatum record then None
      else
        kind ← kind_of_name (flowSankeyDatumValue record "kind");
        match flowSankeyDatumValue record "key" with
        | JString id => Some (mkFilter kind id)
        | JNumber x => Some (mkFilter kind (String_of_number x))
        | _ => None
        end
  end.
