(* ===== verification/FlowFacts.v ===== *)
(** * Correctness of the flow chart

    The paths of the rows are well formed (one node per visible stage, and an
    identifier tells its stage), the sums of nodes and links are exact while the
    total is a safe integer, and the diagram conserves the flow: what enters a
    node, what leaves it and its value agree, and every stage carries the total
    of the rows.  Then the limit on nodes, the masking of names and the filters. *)
From stdpp Require Import sets.
From S2P Require Import Prelude JsString JsCollections JsNumber JsNumberFacts JsValue JsJson Host Flow.
Local Open Scope Z_scope.

(** ** Sums of integers *)
Definition zsum {A} (f : A → Z) (l : list A) : Z := foldr (λ x s, f x + s) 0 l.

Lemma zsum_app {A} (f : A → Z) l l' : zsum f (l ++ l') = zsum f l + zsum f l'.
Proof. induction l; simpl; lia. Qed.

Lemma zsum_concat {A} (f : A → Z) ls : zsum f (concat ls) = zsum (zsum f) ls.
Proof. induction ls; simpl; [done|]. rewrite zsum_app. lia. Qed.

Lemma zsum_map {A B} (f : B → Z) (g : A → B) l : zsum f (map g l) = zsum (λ x, f (g x)) l.
Proof. induction l; simpl; [done|]. by f_equal. Qed.

Lemma zsum_ext {A} (f g : A → Z) l : (∀ x, x ∈ l → f x = g x) → zsum f l = zsum g l.
Proof. induction l as [|x l IH]; intros H; simpl; [done|]. rewrite H, IH by set_solver. done. Qed.

Lemma zsum_le {A} (f g : A → Z) l : (∀ x, x ∈ l → f x ≤ g x) → zsum f l ≤ zsum g l.
Proof. induction l as [|x l IH]; intros H; simpl; [done|]. specialize (H x ltac:(set_solver)) as H1. specialize (IH ltac:(set_solver)). lia. Qed.

Lemma zsum_zero {A} (f : A → Z) l : (∀ x, x ∈ l → f x = 0) → zsum f l = 0.
Proof. intros H. rewrite (zsum_ext f (λ _, 0)) by done. clear H. by induction l. Qed.

Lemma zsum_nonneg {A} (f : A → Z) l : (∀ x, x ∈ l → 0 ≤ f x) → 0 ≤ zsum f l.
Proof. intros H. rewrite <- (zsum_zero (λ _ : A, 0) l) by done. by apply zsum_le. Qed.

Lemma zsum_plus {A} (f g : A → Z) l : zsum (λ x, f x + g x) l = zsum f l + zsum g l.
Proof. induction l; simpl; lia. Qed.

Lemma zsum_filter {A} (f : A → Z) (p : A → bool) l : zsum f (List.filter p l) = zsum (λ x, if p x then f x else 0) l.
Proof. induction l as [|x l IH]; simpl; [done|]. destruct (p x); simpl; lia. Qed.

#[export] Instance zsum_perm {A} (f : A → Z) : Proper ((≡ₚ) ==> (=)) (zsum f).
Proof. induction 1; simpl; lia. Qed.

(** One term of a list without duplicates *)
Lemma zsum_single {K} `{EqDecision K} (a : K → Z) k ks : NoDup ks → k ∈ ks →
  zsum (λ k', if bool_decide (k' = k) then a k' else 0) ks = a k.
Proof.
  induction 1 as [|k' ks Hk Hn IH]; intros Hin; [set_solver|]. simpl. case_bool_decide as E.
  - subst. rewrite zsum_zero; [lia|]. intros x Hx. rewrite bool_decide_eq_false_2; [done|]. set_solver.
  - rewrite IH by set_solver. lia.
Qed.

(** Terms grouped by a key: the groups add up to the whole. *)
Lemma zsum_groups {C K} `{EqDecision K} (key : C → K) (a : C → Z) (p : K → bool) ks cs : NoDup ks → (∀ c, c ∈ cs → key c ∈ ks) →
  zsum (λ k, if p k then zsum (λ c, if bool_decide (key c = k) then a c else 0) cs else 0) ks
  = zsum (λ c, if p (key c) then a c else 0) cs.
Proof.
  intros Hn. induction cs as [|c cs IH]; intros Hin; simpl.
  { apply zsum_zero. intros. by destruct (p x). }
  rewrite <- IH by set_solver. rewrite <- (zsum_single (λ k, if p k then a c else 0) (key c) ks Hn) by set_solver.
  rewrite <- zsum_plus. apply zsum_ext. intros k _.
  destruct (p k); repeat case_bool_decide; try congruence; lia.
Qed.

(** ** Accumulation in a map *)

(** Folding [m.set(k, grow(m.get(k) ?? new))] over contributions, one value
    per key. *)
Section Accumulate.
Context {K C V : Type} `{EqDecision K} (key : C → K) (new : C → V) (grow : C → V → V).

Definition accumulate (m : list (K * V)) (c : C) : list (K * V) :=
  map_set (key c) (grow c (default (new c) (map_get (key c) m))) m.

Lemma accumulate_keys cs : (fold_left accumulate cs []).*1 = set_of (map key cs).
Proof.
  unfold set_of. change (@nil K) with ((@nil (K * V)).*1). generalize (@nil (K * V)).
  induction cs as [|c cs IH]; intros m; simpl; [done|]. rewrite IH. unfold accumulate. by rewrite map_set_keys.
Qed.

(** The contributions to a key *)
Definition of_key (k : K) (cs : list C) : list C := List.filter (λ c, bool_decide (key c = k)) cs.

Lemma accumulate_step cs m k : map_get k (fold_left accumulate cs m) =
  match map_get k m, of_key k cs with
  | Some v, l => Some (fold_left (λ v c, grow c v) l v)
  | None, [] => None
  | None, c :: l => Some (fold_left (λ v c, grow c v) (c :: l) (new c))
  end.
Proof.
  revert m. induction cs as [|c cs IH]; intros m; simpl; [by destruct (map_get k m)|].
  rewrite IH. unfold accumulate. rewrite map_get_set. case_decide as E.
  - rewrite bool_decide_eq_true_2 by done. subst. by destruct (map_get (key c) m).
  - by rewrite bool_decide_eq_false_2.
Qed.

Lemma accumulate_entries cs k v : (k, v) ∈ fold_left accumulate cs [] →
  ∃ c l, key c = k ∧ of_key k cs = c :: l ∧ v = fold_left (λ v c, grow c v) (c :: l) (new c).
Proof.
  intros Hv. apply In_map_get in Hv.
  2:{ rewrite accumulate_keys. apply set_of_NoDup. }
  rewrite accumulate_step in Hv. simpl in Hv. destruct (of_key k cs) as [|c l] eqn:E; [done|].
  exists c, l. assert (c ∈ of_key k cs) as Hc by (rewrite E; set_solver).
  apply elem_of_filter_b in Hc as [_ Hc%bool_decide_eq_true]. by injection Hv.
Qed.

(** A sum over the values as a sum over the keys. *)
Lemma accumulate_sum cs (f : V → Z) (g : K → Z) : (∀ k v, (k, v) ∈ fold_left accumulate cs [] → f v = g k) →
  zsum f (map snd (fold_left accumulate cs [])) = zsum g (set_of (map key cs)).
Proof.
  intros H. rewrite <- accumulate_keys. change (fmap fst) with (@map (K * V) K fst). rewrite !zsum_map.
  apply zsum_ext. intros [k v] Hin. by apply H.
Qed.

Lemma accumulate_names {L} cs (h : V → L) (g : K → L) : (∀ k v, (k, v) ∈ fold_left accumulate cs [] → h v = g k) →
  map h (map snd (fold_left accumulate cs [])) = map g (set_of (map key cs)).
Proof.
  intros H. rewrite <- accumulate_keys. change (fmap fst) with (@map (K * V) K fst). rewrite !map_map.
  apply map_ext_in. intros [k v] Hin%list_elem_of_In. by apply H.
Qed.
End Accumulate.

(** ** Exact sums *)

(** The integer a number stands for. *)
Definition amount (x : number) : Z := default 0 (integer_value x).

(** A number that counts something: a safe integer from 0 on. *)
Definition is_count (x : number) : Prop := ∃ z, 0 ≤ z ≤ max_safe_integer ∧ x = num_of_Z z.

Lemma is_count_amount x : is_count x → x = num_of_Z (amount x) ∧ 0 ≤ amount x.
Proof. intros (z & Hz & ->). unfold amount. rewrite integer_value_safe by done. simpl. split; [done|lia]. Qed.

Lemma fold_add_exact {C} (val : C → number) cs z : (∀ c, c ∈ cs → is_count (val c)) → 0 ≤ z →
  z + zsum (λ c, amount (val c)) cs ≤ max_safe_integer →
  fold_left (λ s c, num_add s (val c)) cs (num_of_Z z) = num_of_Z (z + zsum (λ c, amount (val c)) cs).
Proof.
  revert z. induction cs as [|c cs IH]; intros z Hc Hz Hb; simpl in *; [by rewrite Z.add_0_r|].
  destruct (is_count_amount (val c)) as [E Hp]; [set_solver|].
  assert (0 ≤ zsum (λ c, amount (val c)) cs). { apply zsum_nonneg. intros x Hx. apply is_count_amount. set_solver. }
  rewrite E at 1. rewrite num_add_safe by lia. rewrite IH; [f_equal; lia|set_solver|lia|lia].
Qed.

(** ** The paths *)
Section Paths.
Context (ctx : option (number → jsstring)).

(** The identifier carries the name of the stage. *)
Definition id_of_kind (kind : FlowNodeKind) (id : jsstring) : Prop := ∃ s, id = kind_name kind ++ js ":" ++ s.

Lemma id_of_kind_inj k k' id : id_of_kind k id → id_of_kind k' id → k = k'.
Proof. intros [s ->] [s' E]. by destruct k, k'. Qed.

(** One node per stage, each with an identifier of its stage. *)
Definition well_formed_path (stages : list FlowNodeKind) (path : list FlowPathNode) : Prop :=
  map fp_kind path = stages ∧ Forall (λ n, id_of_kind (fp_kind n) (fp_id n)) path.

Lemma builder_kind kind row : fp_kind (NODE_BUILDERS kind row ctx) = kind.
Proof. by destruct kind. Qed.

Lemma builder_id kind row : id_of_kind kind (fp_id (NODE_BUILDERS kind row ctx)).
Proof.
  destruct kind; cbn [NODE_BUILDERS fp_id userNode nodeNameNode tokenNode groupNode modelNode channelNode].
  all: try (destruct (is_positive _)); eexists; reflexivity.
Qed.

Lemma flowPathForStages_well_formed row stages : well_formed_path stages (flowPathForStages row stages ctx).
Proof.
  unfold flowPathForStages. split.
  - rewrite map_map. etransitivity; [|apply map_id]. apply map_ext. intros. apply builder_kind.
  - apply Forall_map, Forall_forall. intros k _. rewrite builder_kind. apply builder_id.
Qed.

Lemma other_well_formed stages path (top : FlowPathNode → bool) labeler : well_formed_path stages path →
  well_formed_path stages (map (λ n, if top n then n else otherFlowNode (fp_kind n) labeler) path).
Proof.
  intros [Hk Hi]. split.
  - rewrite map_map, <- Hk. apply map_ext. intros n. by destruct (top n).
  - apply Forall_map. eapply Forall_impl; [exact Hi|]. intros n Hn. destruct (top n); [done|]. by eexists.
Qed.

Lemma applyTopNodeLimit_well_formed stages path tops mode labeler path' : well_formed_path stages path →
  applyTopNodeLimit path tops mode labeler = Some path' → well_formed_path stages path'.
Proof.
  intros H. unfold applyTopNodeLimit. destruct tops as [t|]; [|by intros [= <-]].
  destruct (negb _); [by intros [= <-]|]. destruct mode; [|done]. intros [= <-]. by apply other_well_formed.
Qed.

Lemma well_formed_ids stages path : NoDup stages → well_formed_path stages path → NoDup (map fp_id path).
Proof.
  intros Hn [<- Hi]. induction path as [|n path IH]; [constructor|]. cbn [map] in *.
  apply NoDup_cons in Hn as [Hn Hns]. apply Forall_cons in Hi as [Hi His]. constructor; [|by apply IH].
  intros (n' & Hid & Hin)%list_elem_of_fmap. apply Hn. apply list_elem_of_fmap. exists n'. split; [|done].
  rewrite Forall_forall in His. eapply id_of_kind_inj; [exact Hi|]. rewrite Hid. by apply His.
Qed.

Lemma resolve_NoDup role visible : NoDup (resolveVisibleStages role visible).
Proof.
  assert (NoDup (getFlowStages role)) as H by (apply (bool_decide_unpack _); destruct role; done).
  unfold resolveVisibleStages. destruct visible; [|done]. destruct (_ <=? _)%nat; [|done].
  apply NoDup_ListNoDup, List.NoDup_filter. by apply NoDup_ListNoDup.
Qed.

Lemma resolve_two role visible : (2 ≤ length (resolveVisibleStages role visible))%nat.
Proof.
  assert (2 ≤ length (getFlowStages role))%nat by (destruct role; simpl; lia).
  unfold resolveVisibleStages. destruct visible; [|done]. destruct (Nat.leb_spec MIN_FLOW_STAGES
    (length (List.filter (has (set_of l)) (getFlowStages role)))); [|done]. by unfold MIN_FLOW_STAGES in *.
Qed.
End Paths.

(** ** The contributions of the paths *)
Lemma zsum_once {A K} `{EqDecision K} (f : A → K) (a : Z) k l : NoDup (map f l) →
  zsum (λ x, if bool_decide (f x = k) then a else 0) l = if bool_decide (k ∈ map f l) then a else 0.
Proof.
  induction l as [|x l IH]; cbn [map zsum foldr]; intros Hn; [done|]. apply NoDup_cons in Hn as [Hx Hn]. fold (zsum (λ x, if bool_decide (f x = k) then a else 0) l).
  rewrite IH by done. repeat case_bool_decide; subst; set_solver || lia.
Qed.

Lemma separated_inj (s s' t t' : jsstring) : 0 ∉ s → 0 ∉ s' → s ++ NUL ++ t = s' ++ NUL ++ t' → s = s' ∧ t = t'.
Proof.
  unfold NUL. revert s'. induction s as [|c s IH]; intros [|c' s'] H H' E; simpl in E.
  - by injection E.
  - injection E as <- _. set_solver.
  - injection E as -> _. set_solver.
  - injection E as <- E. destruct (IH s') as [-> ->]; [set_solver| |done|done]. set_solver.
Qed.

(** The links of a path end in its nodes but the first and start in its nodes
    but the last. *)
Lemma path_links_targets path : map (λ '(_, t), fp_id t) (path_links path) = map fp_id (tail path).
Proof. induction path as [|x [|y path] IH]; [done..|]. change (fp_id y :: map (λ '(_, t), fp_id t) (path_links (y :: path)) = map fp_id (y :: path)). by rewrite IH. Qed.

Lemma path_links_sources path : map (λ '(s, _), fp_id s) (path_links path) = map fp_id (removelast path).
Proof. induction path as [|x [|y path] IH]; [done..|]. change (fp_id x :: map (λ '(s, _), fp_id s) (path_links (y :: path)) = fp_id x :: map fp_id (removelast (y :: path))). by rewrite IH. Qed.

Lemma path_links_nodes path s t : (s, t) ∈ path_links path → s ∈ path ∧ t ∈ path.
Proof.
  induction path as [|x [|y path] IH]; [set_solver..|]. change (path_links (x :: y :: path)) with ((x, y) :: path_links (y :: path)).
  intros [[= -> ->]|Hin]%elem_of_cons; [set_solver|]. apply IH in Hin as [Hs Ht]. set_solver.
Qed.

Definition path_steps {A} (parts : list FlowPathNode → list A) (paths : list PreparedFlowPath) : list (PreparedFlowPath * A) :=
  concat (map (λ p, map (pair p) (parts (pp_path p))) paths).

Lemma elem_of_path_steps {A} (parts : list FlowPathNode → list A) paths p x :
  (p, x) ∈ path_steps parts paths ↔ p ∈ paths ∧ x ∈ parts (pp_path p).
Proof.
  unfold path_steps. rewrite list_elem_of_In, in_concat. setoid_rewrite in_map_iff. split.
  - intros (l & (q & <- & Hq) & Hx). apply in_map_iff in Hx as (y & [= -> ->] & Hy). by rewrite !list_elem_of_In.
  - rewrite !list_elem_of_In. intros [Hp Hx]. eexists. split; [by exists p|]. by apply in_map.
Qed.

Lemma path_steps_fold {A M} (parts : list FlowPathNode → list A) (f : M → PreparedFlowPath * A → M) (g : M → PreparedFlowPath → M) paths m :
  (∀ m p, g m p = fold_left f (map (pair p) (parts (pp_path p))) m) → fold_left g paths m = fold_left f (path_steps parts paths) m.
Proof.
  intros H. unfold path_steps. revert m. induction paths as [|p paths IH]; intros m; simpl; [done|].
  by rewrite fold_left_app, <- H, IH.
Qed.

(** A sum over the parts of paths where each path has the wanted part at most
    once. *)
Lemma path_steps_sum {A K} `{EqDecision K} (parts : list FlowPathNode → list A) (f : A → K) (a : PreparedFlowPath → Z) paths k :
  (∀ p, p ∈ paths → NoDup (map f (parts (pp_path p)))) →
  zsum (λ c, if bool_decide (f c.2 = k) then a c.1 else 0) (path_steps parts paths)
  = zsum (λ p, if bool_decide (k ∈ map f (parts (pp_path p))) then a p else 0) paths.
Proof.
  intros H. unfold path_steps. rewrite zsum_concat, zsum_map. apply zsum_ext. intros p Hp.
  rewrite zsum_map. simpl. by apply zsum_once, H.
Qed.

Section Sums.
Context {host : Host} {flow_host : FlowHost}.
Context (metric : FlowMetric) (color : FlowPathNode → jsstring) (stages : list FlowNodeKind) (paths : list PreparedFlowPath).

Definition path_amount (p : PreparedFlowPath) : Z := amount (metricValue (pp_metrics p) metric).

(** The amount of the paths through a node, and along a link. *)
Definition flow_through (id : jsstring) : Z :=
  zsum (λ p, if bool_decide (id ∈ map fp_id (pp_path p)) then path_amount p else 0) paths.
Definition flow_along (source target : jsstring) : Z :=
  zsum (λ p, if bool_decide ((source, target) ∈ map (λ '(s, t), (fp_id s, fp_id t)) (path_links (pp_path p))) then path_amount p else 0) paths.

Definition step_root {A} (d : FlowPathNode) (c : PreparedFlowPath * A) : FlowPathNode := default d (head (pp_path c.1)).

Definition node_new (c : PreparedFlowPath * FlowPathNode) : DashboardFlowNode :=
  new_node c.2 (color (step_root c.2 c)) (fp_id (step_root c.2 c)).
Definition node_grow (c : PreparedFlowPath * FlowPathNode) : DashboardFlowNode → DashboardFlowNode := grow_node (pp_metrics c.1) metric.
Definition link_new (c : PreparedFlowPath * (FlowPathNode * FlowPathNode)) : DashboardFlowLink :=
  let '(s, t) := c.2 in new_link s t (color (step_root s c)) (fp_id (step_root s c)).
Definition link_grow (c : PreparedFlowPath * (FlowPathNode * FlowPathNode)) : DashboardFlowLink → DashboardFlowLink :=
  grow_link (pp_metrics c.1) metric.
Definition link_key (st : FlowPathNode * FlowPathNode) : jsstring := let '(s, t) := st in pathLinkKey s t.

Definition summed_nodes : list (jsstring * DashboardFlowNode) :=
  fold_left (accumulate (λ c, fp_id c.2) node_new node_grow) (path_steps id paths) [].
Definition summed_links : list (jsstring * DashboardFlowLink) :=
  fold_left (accumulate (λ c, link_key c.2) link_new link_grow) (path_steps path_links paths) [].

Lemma sum_nodes : fold_left (add_path_nodes metric color) paths [] = summed_nodes.
Proof.
  apply path_steps_fold. intros m p. unfold add_path_nodes. destruct (pp_path p) as [|root rest] eqn:E; [done|]. unfold id. rewrite <- E at 1.
  assert (∀ l m, fold_left (λ m n, addNode m n (pp_metrics p) metric (color root) (fp_id root)) l m
    = fold_left (accumulate (λ c, fp_id c.2) node_new node_grow) (map (pair p) l) m) as H; [|by rewrite H, E].
  induction l as [|n l IH]; intros m'; simpl; [done|]. rewrite IH. do 2 f_equal. unfold accumulate, node_new, node_grow, step_root.
  simpl. by rewrite E.
Qed.

Lemma sum_links : fold_left (add_path_links metric color) paths [] = summed_links.
Proof.
  apply path_steps_fold. intros m p. unfold add_path_links. destruct (pp_path p) as [|root rest] eqn:E; [done|]. rewrite <- E at 1.
  assert (∀ l m, fold_left (λ m '(s, t), addLink m s t (pp_metrics p) metric (color root) (fp_id root)) l m
    = fold_left (accumulate (λ c, link_key c.2) link_new link_grow) (map (pair p) l) m) as H; [|by rewrite H, E].
  induction l as [|[s t] l IH]; intros m'; simpl; [done|]. rewrite IH. do 2 f_equal.
  unfold accumulate, link_new, link_grow, link_key, step_root. simpl. by rewrite E.
Qed.

(** The first contribution to a key *)
Lemma first_contribution {A} (parts : list FlowPathNode → list A) (key : A → jsstring) k c l :
  of_key (λ c, key c.2) k (path_steps parts paths) = c :: l → c.1 ∈ paths ∧ c.2 ∈ parts (pp_path c.1).
Proof.
  intros Hl. assert (c ∈ of_key (λ c, key c.2) k (path_steps parts paths)) as Hc by (rewrite Hl; set_solver).
  apply elem_of_filter_b in Hc as [Hc _]. destruct c as [p x]. by apply elem_of_path_steps.
Qed.

(** Growing keeps all but the sums. *)
Lemma grown_node cs n : let n' := fold_left (λ v c, node_grow c v) cs n in
  nd_id n' = nd_id n ∧ nd_kind n' = nd_kind n ∧ nd_label n' = nd_label n
  ∧ nd_value n' = fold_left (λ s c, num_add s (metricValue (pp_metrics c.1) metric)) cs (nd_value n).
Proof. revert n. induction cs as [|c cs IH]; intros n; simpl; [done|]. destruct (IH (node_grow c n)) as (-> & -> & -> & ->). done. Qed.

Lemma grown_link cs l : let l' := fold_left (λ v c, link_grow c v) cs l in
  lk_source l' = lk_source l ∧ lk_target l' = lk_target l
  ∧ lk_value l' = fold_left (λ s c, num_add s (metricValue (pp_metrics c.1) metric)) cs (lk_value l).
Proof. revert l. induction cs as [|c cs IH]; intros l; simpl; [done|]. destruct (IH (link_grow c l)) as (-> & -> & ->). done. Qed.

(** A summed node is a node of a path. *)
Lemma summed_node_origin k n : (k, n) ∈ summed_nodes → nd_id n = k
  ∧ ∃ p m, p ∈ paths ∧ m ∈ pp_path p ∧ fp_id m = k ∧ nd_kind n = fp_kind m ∧ nd_label n = fp_label m.
Proof.
  intros (c & l & Hk & Hl & ->)%accumulate_entries. destruct (grown_node (c :: l) (node_new c)) as (-> & -> & -> & _).
  apply first_contribution in Hl as [Hp Hm]. split; [done|]. by exists c.1, c.2.
Qed.
End Sums.

(** Paths of one list of stages, counts that add up to a safe integer, and
    identifiers without the separator of link keys. *)
Record exact_paths (metric : FlowMetric) (stages : list FlowNodeKind) (paths : list PreparedFlowPath) : Prop := {
  ep_stages : NoDup stages;
  ep_paths p : p ∈ paths → well_formed_path stages (pp_path p);
  ep_counts p : p ∈ paths → is_count (metricValue (pp_metrics p) metric);
  ep_total : zsum (path_amount metric) paths ≤ max_safe_integer;
  ep_ids p n : p ∈ paths → n ∈ pp_path p → 0 ∉ fp_id n;
}.
#[global] Arguments ep_paths {_ _ _} _ _ _.
#[global] Arguments ep_counts {_ _ _} _ _ _.
#[global] Arguments ep_ids {_ _ _} _ _ _ _ _.

Section Exact.
Context {host : Host} {flow_host : FlowHost}.
Context (metric : FlowMetric) (color : FlowPathNode → jsstring) (stages : list FlowNodeKind) (paths : list PreparedFlowPath).
Context (exact : exact_paths metric stages paths).

Let a := path_amount metric.
Let through := flow_through metric paths.
Let along := flow_along metric paths.

Lemma path_amount_nonneg p : p ∈ paths → 0 ≤ a p.
Proof. intros Hp. by apply is_count_amount, (ep_counts exact). Qed.

(** Any choice among the paths carries at most the total. *)
Lemma part_bounded (b : PreparedFlowPath → bool) : zsum (λ p, if b p then a p else 0) paths ≤ max_safe_integer.
Proof.
  etransitivity; [|exact (ep_total _ _ _ exact)]. apply zsum_le. intros p Hp. pose proof (path_amount_nonneg p Hp).
  destruct (b p); unfold a in *; lia.
Qed.

Lemma path_ids_NoDup p : p ∈ paths → NoDup (map fp_id (pp_path p)).
Proof. intros Hp. eapply well_formed_ids; [apply exact|]. by apply (ep_paths exact). Qed.

Lemma path_target_ids_NoDup p : p ∈ paths → NoDup (map (λ '(_, t), fp_id t) (path_links (pp_path p))).
Proof.
  intros Hp%path_ids_NoDup. rewrite path_links_targets. destruct (pp_path p); [done|]. simpl in *. by apply NoDup_cons in Hp as [_ ?].
Qed.

Lemma path_source_ids_NoDup p : p ∈ paths → NoDup (map (λ '(s, _), fp_id s) (path_links (pp_path p))).
Proof.
  intros Hp%path_ids_NoDup. rewrite path_links_sources. destruct (decide (pp_path p = [])) as [->|Hne]; [constructor|].
  destruct (exists_last Hne) as (l & x & E). rewrite E in *. rewrite removelast_last. rewrite map_app in Hp. by apply NoDup_app in Hp as [? _].
Qed.

Lemma path_link_ids_NoDup p : p ∈ paths → NoDup (map (λ '(s, t), (fp_id s, fp_id t)) (path_links (pp_path p))).
Proof.
  intros Hp%path_target_ids_NoDup. apply (NoDup_fmap_1 snd). change (fmap snd) with (@map (jsstring * jsstring) _ snd). rewrite map_map. erewrite map_ext; [exact Hp|].
  by intros [].
Qed.

(** A link key tells its two identifiers. *)
Lemma link_key_inj p q s t s' t' : p ∈ paths → (s, t) ∈ path_links (pp_path p) → q ∈ paths → (s', t') ∈ path_links (pp_path q) →
  (link_key (s, t) = link_key (s', t') ↔ (fp_id s, fp_id t) = (fp_id s', fp_id t')).
Proof.
  intros Hp [Hs _]%path_links_nodes Hq [Hs' _]%path_links_nodes. split.
  - intros [-> ->]%separated_inj; [done|by apply (ep_ids exact p)|by apply (ep_ids exact q)].
  - intros [= E1 E2]. simpl. unfold pathLinkKey. by rewrite E1, E2.
Qed.

(** The sum of the contributions selected by a test. *)
Lemma contributions_exact {A} (parts : list FlowPathNode → list A) (b : A → bool) (c : PreparedFlowPath * A) l z :
  List.filter (λ c, b c.2) (path_steps parts paths) = c :: l →
  zsum (λ c, if b c.2 then a c.1 else 0) (path_steps parts paths) = z → z ≤ max_safe_integer →
  fold_left (λ s c, num_add s (metricValue (pp_metrics c.1) metric)) (c :: l) num_zero = num_of_Z z.
Proof.
  intros Hl Hz Hb. rewrite <- (zsum_filter (λ c, a c.1) (λ c, b c.2)) in Hz. rewrite <- Hl.
  change num_zero with (num_of_Z 0). rewrite (fold_add_exact (λ c, metricValue (pp_metrics c.1) metric)).
  - rewrite Z.add_0_l. f_equal. exact Hz.
  - intros [p x] [[Hp _]%elem_of_path_steps _]%elem_of_filter_b. by apply (ep_counts exact).
  - done.
  - rewrite Z.add_0_l. etransitivity; [|exact Hb]. by rewrite <- Hz.
Qed.

(** Sums by node identifier and by link key *)
Lemma through_by_key k : zsum (λ c, if bool_decide (fp_id c.2 = k) then a c.1 else 0) (path_steps id paths) = through k.
Proof. rewrite (path_steps_sum id fp_id a); [done|]. apply path_ids_NoDup. Qed.

Lemma along_by_key p s t : p ∈ paths → (s, t) ∈ path_links (pp_path p) →
  zsum (λ c, if bool_decide (link_key c.2 = link_key (s, t)) then a c.1 else 0) (path_steps path_links paths) = along (fp_id s) (fp_id t).
Proof.
  intros Hp Hst. unfold along, flow_along. rewrite <- (path_steps_sum path_links (λ '(s, t), (fp_id s, fp_id t)) a).
  - apply zsum_ext. intros [q [s' t']] [Hq Hst']%elem_of_path_steps. cbn [fst snd].
    by rewrite (bool_decide_ext _ _ (link_key_inj q p s' t' s t Hq Hst' Hp Hst)).
  - apply path_link_ids_NoDup.
Qed.

Lemma summed_node k n : (k, n) ∈ summed_nodes metric color paths →
  nd_id n = k ∧ nd_value n = num_of_Z (through k)
  ∧ ∃ p m, p ∈ paths ∧ m ∈ pp_path p ∧ fp_id m = k ∧ nd_kind n = fp_kind m ∧ nd_label n = fp_label m.
Proof.
  intros Hn. destruct (summed_node_origin metric color paths k n Hn) as [Hid Ho]. split_and!; [done| |done].
  apply accumulate_entries in Hn as (c & l & _ & Hl & ->). destruct (grown_node metric (c :: l) (node_new color c)) as (_ & _ & _ & ->).
  eapply (contributions_exact id (λ m, bool_decide (fp_id m = k))); [exact Hl| |apply part_bounded]. apply through_by_key.
Qed.

Lemma summed_link k l : (k, l) ∈ summed_links metric color paths →
  k = linkStableKey l ∧ lk_value l = num_of_Z (along (lk_source l) (lk_target l))
  ∧ ∃ p s t, p ∈ paths ∧ (s, t) ∈ path_links (pp_path p) ∧ lk_source l = fp_id s ∧ lk_target l = fp_id t.
Proof.
  intros (c & cs & Hk & Hl & ->)%accumulate_entries. unfold linkStableKey. destruct (grown_link metric (c :: cs) (link_new color c)) as (-> & -> & ->).
  destruct (first_contribution paths path_links link_key k c cs Hl) as [Hp Hst]. destruct c as [p [s t]]. cbn [fst snd] in *. split; [done|]. split; [|by exists p, s, t].
  eapply (contributions_exact path_links (λ st, bool_decide (link_key st = k))); [exact Hl| |apply part_bounded].
  rewrite <- Hk. by apply (along_by_key p).
Qed.

Lemma amount_through k : amount (num_of_Z (through k)) = through k.
Proof.
  unfold amount. rewrite integer_value_safe; [done|]. split; [|apply part_bounded]. apply zsum_nonneg. intros p Hp.
  pose proof (path_amount_nonneg p Hp). case_bool_decide; unfold a in *; lia.
Qed.

Lemma amount_along s t : amount (num_of_Z (along s t)) = along s t.
Proof.
  unfold amount. rewrite integer_value_safe; [done|]. split; [|apply part_bounded]. apply zsum_nonneg. intros p Hp.
  pose proof (path_amount_nonneg p Hp). case_bool_decide; unfold a in *; lia.
Qed.

(** The values with one label, when the key of a contribution tells its label
    and a path has the label at most once. *)
Lemma labelled_sum {A V L} `{EqDecision L} (parts : list FlowPathNode → list A) (key : A → jsstring) new grow
    (lab : A → L) (label : V → L) (w : V → Z) (x : L) :
  let cs := path_steps parts paths in
  let m := fold_left (accumulate (λ c, key c.2) new grow) cs [] in
  (∀ k v, (k, v) ∈ m → w v = zsum (λ c, if bool_decide (key c.2 = k) then a c.1 else 0) cs
    ∧ ∃ c, c ∈ cs ∧ key c.2 = k ∧ label v = lab c.2) →
  (∀ c c', c ∈ cs → c' ∈ cs → key c.2 = key c'.2 → lab c.2 = lab c'.2) →
  (∀ p, p ∈ paths → NoDup (map lab (parts (pp_path p)))) →
  zsum (λ v, if bool_decide (label v = x) then w v else 0) (map snd m)
  = zsum (λ p, if bool_decide (x ∈ map lab (parts (pp_path p))) then a p else 0) paths.
Proof.
  intros cs m Hv Hk Hn. rewrite <- (path_steps_sum parts lab a) by done. fold cs.
  set (P k := existsb (λ c, bool_decide (key c.2 = k) && bool_decide (lab c.2 = x)) cs).
  assert (∀ c, c ∈ cs → P (key c.2) = bool_decide (lab c.2 = x)) as HP.
  { intros c Hc. apply eq_true_iff_eq. unfold P. rewrite existsb_exists, bool_decide_eq_true. split.
    - intros (c' & Hc'%list_elem_of_In & [Hk' Hl]%andb_prop). apply bool_decide_eq_true in Hk', Hl. rewrite <- Hl. by apply Hk.
    - intros Hl. exists c. rewrite <- list_elem_of_In. split; [done|]. by rewrite !bool_decide_eq_true_2. }
  unfold m. rewrite (accumulate_sum _ _ _ cs _ (λ k, if P k then zsum (λ c, if bool_decide (key c.2 = k) then a c.1 else 0) cs else 0)).
  - rewrite (zsum_groups (λ c, key c.2) (λ c, a c.1) P); [|apply set_of_NoDup|].
    + apply zsum_ext. intros c Hc. by rewrite HP.
    + intros c Hc. apply elem_of_set_of. by apply (list_elem_of_fmap_2 (λ c, key c.2)).
  - intros k v Hkv. destruct (Hv k v Hkv) as (-> & c & Hc & <- & ->). by rewrite HP.
Qed.

(** What enters and what leaves a node. *)
Definition inflow (links : list DashboardFlowLink) (id : jsstring) : Z :=
  zsum (λ l, if bool_decide (lk_target l = id) then amount (lk_value l) else 0) links.
Definition outflow (links : list DashboardFlowLink) (id : jsstring) : Z :=
  zsum (λ l, if bool_decide (lk_source l = id) then amount (lk_value l) else 0) links.

Lemma links_sum (e : jsstring * jsstring → jsstring) id :
  (∀ p, p ∈ paths → NoDup (map (λ '(s, t), e (fp_id s, fp_id t)) (path_links (pp_path p)))) →
  zsum (λ l, if bool_decide (e (lk_source l, lk_target l) = id) then amount (lk_value l) else 0) (map snd (summed_links metric color paths))
  = zsum (λ p, if bool_decide (id ∈ map (λ '(s, t), e (fp_id s, fp_id t)) (path_links (pp_path p))) then a p else 0) paths.
Proof.
  intros Hn. apply (labelled_sum path_links link_key _ _ (λ '(s, t), e (fp_id s, fp_id t)) (λ l, e (lk_source l, lk_target l))); [| |done].
  - intros k l Hl. destruct (summed_link k l Hl) as (-> & -> & p & s & t & Hp & Hst & Es & Et). rewrite amount_along.
    unfold linkStableKey. rewrite Es, Et. split.
    + symmetry. by apply (along_by_key p).
    + exists (p, (s, t)). by rewrite elem_of_path_steps.
  - intros [p [s t]] [q [s' t']] [Hp Hst]%elem_of_path_steps [Hq Hst']%elem_of_path_steps Hk. simpl.
    apply (link_key_inj p q) in Hk; [by rewrite Hk|done..].
Qed.

Lemma inflow_sum id : inflow (map snd (summed_links metric color paths)) id
  = zsum (λ p, if bool_decide (id ∈ map fp_id (tail (pp_path p))) then a p else 0) paths.
Proof.
  unfold inflow. etransitivity; [apply (links_sum snd id)|].
  - apply path_target_ids_NoDup.
  - apply zsum_ext. intros p _. by rewrite <- path_links_targets.
Qed.

Lemma outflow_sum id : outflow (map snd (summed_links metric color paths)) id
  = zsum (λ p, if bool_decide (id ∈ map fp_id (removelast (pp_path p))) then a p else 0) paths.
Proof.
  unfold outflow. etransitivity; [apply (links_sum fst id)|].
  - apply path_source_ids_NoDup.
  - apply zsum_ext. intros p _. by rewrite <- path_links_sources.
Qed.

(** The nodes of a stage carry all the paths. *)
Definition stage_total (nodes : list DashboardFlowNode) (stage : FlowNodeKind) : Z :=
  zsum (λ n, if bool_decide (nd_kind n = stage) then amount (nd_value n) else 0) nodes.

Lemma stage_total_sum stage : stage ∈ stages →
  stage_total (map snd (summed_nodes metric color paths)) stage = zsum a paths.
Proof.
  intros Hs. unfold stage_total. etransitivity; [apply (labelled_sum id fp_id _ _ fp_kind nd_kind)|].
  - intros k n Hn. destruct (summed_node k n Hn) as (<- & -> & p & m & Hp & Hm & Hid & Hk & _). rewrite amount_through, through_by_key.
    split; [done|]. exists (p, m). by rewrite elem_of_path_steps.
  - intros [p m] [q m'] [Hp Hm]%elem_of_path_steps [Hq Hm']%elem_of_path_steps. simpl. intros Hid.
    apply (ep_paths exact) in Hp as [_ Hp]. apply (ep_paths exact) in Hq as [_ Hq]. rewrite Forall_forall in Hp, Hq.
    apply (id_of_kind_inj _ _ (fp_id m)); [by apply Hp|]. rewrite Hid. by apply Hq.
  - intros p Hp. unfold id. destruct (ep_paths exact p Hp) as [-> _]. apply exact.
  - apply zsum_ext. intros p Hp. unfold id. destruct (ep_paths exact p Hp) as [-> _]. by rewrite bool_decide_eq_true_2.
Qed.
End Exact.

(** ** The graph *)
Section Graph.
Context {host : Host} {flow_host : FlowHost}.

Definition node_core (n : DashboardFlowNode) : jsstring * FlowNodeKind * number := (nd_id n, nd_kind n, nd_value n).
Definition link_core (l : DashboardFlowLink) : jsstring * jsstring * number := (lk_source l, lk_target l, lk_value l).

Lemma map_same {A B} (f : A → B) (g : A → A) l : (∀ x, f (g x) = f x) → map f (map g l) = map f l.
Proof. intros H. rewrite map_map. by apply map_ext. Qed.

Lemma mask_cores nodes links : let '(nodes', links') := maskFlowGraphLabels nodes links in
  map node_core nodes' = map node_core nodes ∧ map link_core links' = map link_core links.
Proof.
  unfold maskFlowGraphLabels. split; [|destruct (_ =? _)%nat; [done|]]; apply map_same; [|done].
  intros n. unfold mask_node. by destruct (is_masked n).
Qed.

Lemma highlight_cores nodes links sets : let '(nodes', links') := applyFlowHighlights nodes links sets in
  map node_core nodes' = map node_core nodes ∧ map link_core links' = map link_core links.
Proof. destruct sets as [sets|]; simpl; [|done]. split; by apply map_same. Qed.

Lemma display_core f links : (∀ l, link_core (f l) = link_core l) →
  map link_core (assignLinkDisplayColors (map f links)) = map link_core links.
Proof.
  intros Hf. unfold assignLinkDisplayColors. rewrite map_same, (map_same _ f); [done..|]. intros l.
  destruct (list_find _ _) as [[i x]|]; [|done]. unfold ranked_color. by destruct (alphaColor _ _).
Qed.

Lemma finish_cores paths nodes links : let g := finish_graph paths nodes links in
  map node_core (fg_nodes g) ≡ₚ map node_core nodes ∧ map link_core (fg_links g) ≡ₚ map link_core links.
Proof.
  simpl. split; [apply Permutation_map, sort_by_perm|].
  rewrite display_core by done. apply Permutation_map, sort_by_perm.
Qed.

Lemma sum_paths_summed metric paths palette : ∃ color,
  sum_paths metric paths palette = (map snd (summed_nodes metric color paths), map snd (summed_links metric color paths)).
Proof. eexists. unfold sum_paths. by rewrite sum_nodes, sum_links. Qed.

(** Masking, highlights, shares, colours and order leave what the nodes and
    links are. *)
Lemma graph_cores rows metric role palette visible ctx options :
  let stages := resolveVisibleStages role visible in
  let paths := prepare_paths rows metric stages ctx options in
  let g := buildFlowGraph rows metric role palette visible ctx options in
  ∃ color, map node_core (fg_nodes g) ≡ₚ map node_core (map snd (summed_nodes metric color paths))
    ∧ map link_core (fg_links g) ≡ₚ map link_core (map snd (summed_links metric color paths)).
Proof.
  intros stages paths. unfold buildFlowGraph. fold stages. fold paths.
  destruct (sum_paths_summed metric paths palette) as [color ->]. exists color.
  set (ns := map snd _). set (ls := map snd _).
  destruct (if go_maskSensitive options then maskFlowGraphLabels ns ls else (ns, ls)) as [ns1 ls1] eqn:E1.
  assert (map node_core ns1 = map node_core ns ∧ map link_core ls1 = map link_core ls) as [<- <-].
  { destruct (go_maskSensitive options); [|by injection E1 as <- <-]. pose proof (mask_cores ns ls) as H. by rewrite E1 in H. }
  set (sets := buildFlowHighlightSets _ _ _ _). pose proof (highlight_cores ns1 ls1 sets) as H.
  destruct (applyFlowHighlights ns1 ls1 sets) as [ns2 ls2]. destruct H as [<- <-]. apply finish_cores.
Qed.

Lemma inflow_core links id : inflow links id = zsum (λ '(s, t, v), if bool_decide (t = id) then amount v else 0) (map link_core links).
Proof. by rewrite zsum_map. Qed.

Lemma outflow_core links id : outflow links id = zsum (λ '(s, t, v), if bool_decide (s = id) then amount v else 0) (map link_core links).
Proof. by rewrite zsum_map. Qed.

Lemma stage_total_core nodes stage : stage_total nodes stage = zsum (λ '(i, k, v), if bool_decide (k = stage) then amount v else 0) (map node_core nodes).
Proof. by rewrite zsum_map. Qed.

(** Rows that count, with a safe total and no separator in their names. *)
Record exact_rows (metric : FlowMetric) (stages : list FlowNodeKind) (ctx : option (number → jsstring))
    (rows : list FlowQuotaDataItem) : Prop := {
  er_counts row : row ∈ rows → is_count (metricValue (rowMetrics row) metric);
  er_total : zsum (λ row, amount (metricValue (rowMetrics row) metric)) rows ≤ max_safe_integer;
  er_ids row kind : row ∈ rows → kind ∈ stages → 0 ∉ fp_id (NODE_BUILDERS kind row ctx);
}.

Lemma elem_of_prepared rows metric stages ctx options p : p ∈ prepare_paths rows metric stages ctx options ↔
  ∃ row, row ∈ rows ∧ pp_metrics p = rowMetrics row ∧
    applyTopNodeLimit (flowPathForStages row stages ctx) (buildTopNodeSets rows metric stages (normalizeTopNodeLimit (go_topNodeLimit options)) ctx)
      (default overflow_aggregate (go_overflowMode options)) (go_otherNodeLabel options) = Some (pp_path p).
Proof.
  unfold prepare_paths. rewrite list_elem_of_omap. split.
  - intros (row & Hrow & E). exists row. destruct (applyTopNodeLimit _ _ _ _); [|done]. by injection E as <-.
  - intros (row & Hrow & Hm & E). exists row. split; [done|]. rewrite E. simpl. rewrite <- Hm. by destruct p.
Qed.

Lemma other_node_ids path path' tops mode labeler n : applyTopNodeLimit path tops mode labeler = Some path' → n ∈ path' →
  n ∈ path ∨ ∃ m, m ∈ path ∧ n = otherFlowNode (fp_kind m) labeler.
Proof.
  unfold applyTopNodeLimit. destruct tops; [|intros [= <-]; auto]. destruct (negb _); [intros [= <-]; auto|].
  destruct mode; [|done]. intros [= <-] (m & -> & Hm)%list_elem_of_fmap. destruct (isTopFlowNode m _); [auto|right; eauto].
Qed.

Lemma omap_sum_le {A B} (f : A → option B) (g : A → Z) (h : B → Z) l : (∀ x, x ∈ l → 0 ≤ g x) →
  (∀ x y, f x = Some y → h y = g x) → zsum h (omap f l) ≤ zsum g l.
Proof.
  intros Hg Hf. induction l as [|x l IH]; simpl; [done|]. specialize (IH ltac:(set_solver)). specialize (Hg x ltac:(set_solver)).
  unfold omap in IH. destruct (f x) eqn:E; simpl; [rewrite (Hf _ _ E)|]; lia.
Qed.

Lemma omap_sum_all {A B} (f : A → option B) (g : A → Z) (h : B → Z) l :
  (∀ x, x ∈ l → ∃ y, f x = Some y ∧ h y = g x) → zsum h (omap f l) = zsum g l.
Proof.
  induction l as [|x l IH]; intros H; simpl; [done|]. destruct (H x ltac:(set_solver)) as (y & -> & E). simpl.
  specialize (IH ltac:(set_solver)). unfold omap in IH. rewrite IH. by rewrite E.
Qed.

Lemma prepared_exact rows metric role visible ctx options :
  let stages := resolveVisibleStages role visible in
  exact_rows metric stages ctx rows → exact_paths metric stages (prepare_paths rows metric stages ctx options).
Proof.
  intros stages [Hc Ht Hi]. split.
  - apply resolve_NoDup.
  - intros p (row & _ & _ & E)%elem_of_prepared. eapply applyTopNodeLimit_well_formed; [|exact E]. apply flowPathForStages_well_formed.
  - intros p (row & Hrow & -> & _)%elem_of_prepared. by apply Hc.
  - etransitivity; [|exact Ht]. apply omap_sum_le.
    + intros row Hrow. by apply is_count_amount, Hc.
    + intros row p. destruct (applyTopNodeLimit _ _ _ _); [|done]. by intros [= <-].
  - intros p n (row & Hrow & _ & E)%elem_of_prepared Hn. destruct (other_node_ids _ _ _ _ _ _ E Hn) as [Hp|(m & _ & ->)].
    + apply list_elem_of_fmap in Hp as (k & -> & Hk). by apply Hi.
    + apply (bool_decide_unpack _). by destruct (fp_kind m).
Qed.

(** Grouping keeps every row; hiding drops some. *)
Lemma prepared_total rows metric stages ctx options : go_overflowMode options ≠ Some overflow_hide →
  zsum (path_amount metric) (prepare_paths rows metric stages ctx options) = zsum (λ row, amount (metricValue (rowMetrics row) metric)) rows.
Proof.
  intros Hm. apply omap_sum_all. intros row _.
  assert (default overflow_aggregate (go_overflowMode options) = overflow_aggregate) as -> by (by destruct (go_overflowMode options) as [[]|]).
  unfold applyTopNodeLimit. destruct (buildTopNodeSets _ _ _ _ _); [destruct (negb _)|]; eexists; done.
Qed.

(** A node of another stage than the first one is after the first node of each
    path through it; likewise for the last. *)
Lemma not_first stages path kind id : well_formed_path stages path → id_of_kind kind id → head stages ≠ Some kind →
  id ∈ map fp_id (tail path) ↔ id ∈ map fp_id path.
Proof.
  intros [<- Hi] Hk Hh. destruct path as [|x path]; [done|]. cbn [tail map]. rewrite elem_of_cons. split; [auto|]. intros [->|]; [|done].
  apply Forall_cons in Hi as [Hi _]. destruct Hh. simpl. f_equal. by eapply id_of_kind_inj.
Qed.

Lemma not_last stages path kind id : well_formed_path stages path → id_of_kind kind id → last stages ≠ Some kind →
  id ∈ map fp_id (removelast path) ↔ id ∈ map fp_id path.
Proof.
  intros [<- Hi] Hk Hh. destruct (decide (path = [])) as [->|Hne]; [done|]. destruct (exists_last Hne) as (l & x & ->).
  rewrite removelast_last, map_app, elem_of_app in *. cbn [map]. rewrite list_elem_of_singleton. split; [auto|]. intros [H| ->]; [done|].
  apply Forall_app in Hi as [_ Hi]. rewrite Forall_singleton in Hi. destruct Hh. cbn [map]. rewrite last_snoc. f_equal.
  by apply (id_of_kind_inj _ _ (fp_id x)).
Qed.

Section Statements.
Context (rows : list FlowQuotaDataItem) (metric : FlowMetric) (role : FlowRole) (palette : option (list jsstring))
  (visible : option (list FlowNodeKind)) (ctx : option (number → jsstring)) (options : FlowGraphOptions).

Let stages := resolveVisibleStages role visible.
Let paths := prepare_paths rows metric stages ctx options.
Let graph := buildFlowGraph rows metric role palette visible ctx options.

Lemma graph_node : exact_rows metric stages ctx rows → ∀ n, n ∈ fg_nodes graph →
  nd_value n = num_of_Z (flow_through metric paths (nd_id n)) ∧ id_of_kind (nd_kind n) (nd_id n)
  ∧ ∃ p, p ∈ paths ∧ nd_id n ∈ map fp_id (pp_path p).
Proof.
  intros He%(prepared_exact _ _ _ _ _ options) n Hn. destruct (graph_cores rows metric role palette visible ctx options) as (color & Hp & _).
  fold stages paths graph in Hp. assert (node_core n ∈ map node_core (fg_nodes graph)) as Hc by (by apply list_elem_of_fmap_2).
  rewrite Hp in Hc. apply list_elem_of_fmap in Hc as (n' & [= -> -> ->] & ([k v] & -> & Hkv)%list_elem_of_fmap). simpl.
  apply (summed_node _ _ _ _ He) in Hkv as (<- & Hv & p & m & Hpp & Hm & Hid & Hk & _). split; [done|].
  rewrite Hk, <- Hid. split.
  - apply (ep_paths He) in Hpp as [_ Hf]. rewrite Forall_forall in Hf. by apply Hf.
  - exists p. split; [done|]. by apply list_elem_of_fmap_2.
Qed.

Lemma graph_link : exact_rows metric stages ctx rows → ∀ l, l ∈ fg_links graph →
  lk_value l = num_of_Z (flow_along metric paths (lk_source l) (lk_target l))
  ∧ ∃ p s t, p ∈ paths ∧ (s, t) ∈ path_links (pp_path p) ∧ lk_source l = fp_id s ∧ lk_target l = fp_id t.
Proof.
  intros He%(prepared_exact _ _ _ _ _ options) l Hl. destruct (graph_cores rows metric role palette visible ctx options) as (color & _ & Hp).
  fold stages paths graph in Hp. assert (link_core l ∈ map link_core (fg_links graph)) as Hc by (by apply list_elem_of_fmap_2).
  rewrite Hp in Hc. apply list_elem_of_fmap in Hc as (l' & [= -> -> ->] & ([k v] & -> & Hkv)%list_elem_of_fmap). simpl.
  by apply (summed_link _ _ _ _ He) in Hkv as (_ & ? & ?).
Qed.

(** The identifiers of the nodes are those of the paths, each once. *)
Lemma graph_ids : map nd_id (fg_nodes graph) ≡ₚ set_of (concat (map (λ p, map fp_id (pp_path p)) paths)).
Proof.
  destruct (graph_cores rows metric role palette visible ctx options) as (color & Hp & _). fold stages paths graph in Hp.
  apply (Permutation_map (λ c, c.1.1)) in Hp. rewrite !(map_map node_core) in Hp. etransitivity; [exact Hp|].
  change (map (λ n, (node_core n).1.1)) with (map nd_id). unfold summed_nodes. rewrite (accumulate_names _ _ _ _ _ id), map_id.
  - unfold path_steps. rewrite concat_map, !map_map. erewrite (map_ext _ (λ p, map fp_id (pp_path p))); [done|]. intros p. by rewrite map_map.
  - intros k v (c & l & <- & _ & ->)%accumulate_entries. by destruct (grown_node metric (c :: l) (node_new color c)) as [-> _].
Qed.

(** C30: While the values of the rows are non-negative integers whose total is a
    safe integer, and no identifier holds the NUL that separates the ends of a
    link, the sums of the chart are exact: each node and each link carries the
    amount of the paths through it, identifiers and links are listed once, and
    they are those of the paths. *)
Theorem flow_sums_are_exact : exact_rows metric stages ctx rows →
  (∀ n, n ∈ fg_nodes graph → nd_value n = num_of_Z (flow_through metric paths (nd_id n)))
  ∧ (∀ l, l ∈ fg_links graph → lk_value l = num_of_Z (flow_along metric paths (lk_source l) (lk_target l)))
  ∧ NoDup (map nd_id (fg_nodes graph))
  ∧ (∀ id, id ∈ map nd_id (fg_nodes graph) ↔ ∃ p, p ∈ paths ∧ id ∈ map fp_id (pp_path p))
  ∧ (∀ l, l ∈ fg_links graph → lk_source l ∈ map nd_id (fg_nodes graph) ∧ lk_target l ∈ map nd_id (fg_nodes graph)).
Proof.
  intros He.
  assert (∀ id, id ∈ map nd_id (fg_nodes graph) ↔ ∃ p, p ∈ paths ∧ id ∈ map fp_id (pp_path p)) as Hids.
  { intros id. rewrite graph_ids, elem_of_set_of, list_elem_of_In, in_concat. setoid_rewrite in_map_iff. setoid_rewrite list_elem_of_In. naive_solver. }
  split_and!; [intros; by apply graph_node|intros; by apply graph_link| |done|].
  - rewrite graph_ids. apply set_of_NoDup.
  - intros l Hl. destruct (graph_link He l Hl) as (_ & p & s & t & Hp & [Hs Ht]%path_links_nodes & -> & ->).
    rewrite !Hids. split; exists p; split; (done || by apply list_elem_of_fmap_2).
Qed.

(** C29: While the values of the rows are non-negative integers whose total is a
    safe integer, and no identifier holds the NUL that separates the ends of a
    link, the chart conserves the flow: what enters a node of a later stage and
    what leaves a node of an earlier stage is its value, and each visible stage
    carries the total of the paths, which is that of the rows unless nodes are
    hidden. *)
Theorem flow_is_conserved : exact_rows metric stages ctx rows →
  (∀ n, n ∈ fg_nodes graph →
    (head stages ≠ Some (nd_kind n) → inflow (fg_links graph) (nd_id n) = amount (nd_value n))
    ∧ (last stages ≠ Some (nd_kind n) → outflow (fg_links graph) (nd_id n) = amount (nd_value n)))
  ∧ (∀ stage, stage ∈ stages → stage_total (fg_nodes graph) stage = zsum (path_amount metric) paths)
  ∧ (go_overflowMode options ≠ Some overflow_hide →
      zsum (path_amount metric) paths = zsum (λ row, amount (metricValue (rowMetrics row) metric)) rows).
Proof.
  intros Hr. pose proof (prepared_exact _ _ _ _ _ options Hr) as He. fold stages paths in He.
  destruct (graph_cores rows metric role palette visible ctx options) as (color & Hn & Hl). fold stages paths graph in Hn, Hl.
  split_and!.
  - intros n Hin. destruct (graph_node Hr n Hin) as (-> & Hk & _). rewrite (amount_through metric stages paths He). split; intros Hne.
    + rewrite inflow_core, Hl, <- inflow_core, (inflow_sum _ _ _ _ He). apply zsum_ext. intros p Hp.
      by rewrite (bool_decide_ext _ _ (not_first _ _ _ _ (ep_paths He p Hp) Hk Hne)).
    + rewrite outflow_core, Hl, <- outflow_core, (outflow_sum _ _ _ _ He). apply zsum_ext. intros p Hp.
      by rewrite (bool_decide_ext _ _ (not_last _ _ _ _ (ep_paths He p Hp) Hk Hne)).
  - intros stage Hs. rewrite stage_total_core, Hn, <- stage_total_core. by apply (stage_total_sum metric color stages paths He).
  - apply prepared_total.
Qed.
End Statements.
End Graph.

(** ** A chart *)
Definition sample_flow_host : FlowHost :=
  {| data_schemes := []; last_scheme := mkScheme None [Some (js "#1664FF"); Some (js "#1AC6FF")]; format_number := String_of_number |}.

Definition sample_row (user token group model : string) (requests : Z) : FlowQuotaDataItem :=
  mkRow None (Some (js user)) None (Some (js group)) None (Some (js token)) None None (Some (js model)) None (Some (num_of_Z requests)) None.

Definition sample_rows : list FlowQuotaDataItem :=
  [sample_row "ann" "t1" "vip" "m1" 3; sample_row "bob" "t2" "vip" "m2" 7; sample_row "ann" "t1" "free" "m2" 5].

Definition sample_options (limit : option Z) (mode : option FlowOverflowMode) (mask : bool) : FlowGraphOptions :=
  mkGraphOptions (option_map num_of_Z limit) mode None None None mask.

Lemma sample_exact role : exact_rows metric_requests (resolveVisibleStages role None) None sample_rows.
Proof.
  split.
  - intros row Hrow. unfold sample_rows in Hrow. rewrite !elem_of_cons in Hrow.
    destruct Hrow as [->|[->|[->|[]%not_elem_of_nil]]]; eexists; (split; [|reflexivity]); unfold max_safe_integer; lia.
  - by vm_compute.
  - intros row kind Hrow _. apply (bool_decide_unpack _). unfold sample_rows in Hrow. rewrite !elem_of_cons in Hrow.
    destruct Hrow as [->|[->|[->|[]%not_elem_of_nil]]]; destruct kind; vm_compute; reflexivity.
Qed.

Definition sample_graph (options : FlowGraphOptions) : DashboardFlowGraph :=
  buildFlowGraph (host := plain_host) (flow_host := sample_flow_host) sample_rows metric_requests role_admin None None None options.

Lemma flow_sums_are_exact_witness : exact_rows metric_requests (resolveVisibleStages role_admin None) None sample_rows
  ∧ NoDup (map nd_id (fg_nodes (sample_graph (sample_options None None false))))
  ∧ map (λ n, (nd_id n, nd_value n)) (fg_nodes (sample_graph (sample_options None None false)))
    = [(js "channel:unknown", num_of_Z 15); (js "model:m2", num_of_Z 12); (js "group:vip", num_of_Z 10); (js "user:ann", num_of_Z 8);
       (js "user:bob", num_of_Z 7); (js "group:free", num_of_Z 5); (js "model:m1", num_of_Z 3)].
Proof.
  split_and!; [apply sample_exact| |vm_compute; reflexivity].
  apply (flow_sums_are_exact (host := plain_host) (flow_host := sample_flow_host) sample_rows metric_requests role_admin None None None).
  apply sample_exact.
Defined.

Lemma flow_is_conserved_witness : exact_rows metric_requests (resolveVisibleStages role_admin None) None sample_rows
  ∧ stage_total (fg_nodes (sample_graph (sample_options (Some 1) None false))) kind_group = 15.
Proof.
  destruct (flow_is_conserved (host := plain_host) (flow_host := sample_flow_host) sample_rows metric_requests role_admin None None None
    (sample_options (Some 1) None false) (sample_exact _)) as (_ & Hs & He).
  split; [apply sample_exact|]. unfold sample_graph. rewrite Hs, He; [vm_compute; reflexivity|done|by apply (bool_decide_unpack _)].
Defined.
