(* ===== verification/FlowRankFacts.v ===== *)
(** * The limit on the nodes of the flow chart

    A limit keeps in every stage at most that many nodes, and those it keeps
    carry at least as much as those it leaves out. *)
From stdpp Require Import sets sorting.
From S2P Require Import Prelude JsString JsCollections JsNumber JsNumberFacts JsValue JsJson Host Flow FlowFacts.
Local Open Scope Z_scope.

(** ** The limit on nodes *)
Lemma slice_to_length {A} limit (l : list A) : (length (slice_to limit l) ≤ Z.to_nat limit)%nat.
Proof. unfold slice_to. rewrite length_take. lia. Qed.

Lemma NoDup_length_le {A} (l l' : list A) : NoDup l → (∀ x, x ∈ l → x ∈ l') → (length l ≤ length l')%nat.
Proof. intros Hn Hi. by apply submseteq_length, NoDup_submseteq. Qed.

Lemma set_of_length {A} `{EqDecision A} (l : list A) : (length (set_of l) ≤ length l)%nat.
Proof. apply NoDup_length_le; [apply set_of_NoDup|]. intros x. by rewrite elem_of_set_of. Qed.

Lemma map_get_values {K V W} `{EqDecision K} (f : V → W) (m : list (K * V)) k :
  map_get k (map (λ '(k, v), (k, f v)) m) = option_map f (map_get k m).
Proof. induction m as [|[k' v] m IH]; simpl; [done|]. by case_decide. Qed.

Lemma NoDup_map_filter {A B} (f : A → B) (p : A → bool) l : NoDup (map f l) → NoDup (map f (List.filter p l)).
Proof.
  induction l as [|x l IH]; cbn [map List.filter]; [done|]. intros [Hx Hl]%NoDup_cons. destruct (p x); [|auto]. cbn [map]. constructor; [|auto].
  contradict Hx. apply list_elem_of_fmap in Hx as (y & -> & [Hy _]%elem_of_filter_b). by apply list_elem_of_fmap_2.
Qed.

Section Limit.
Context {host : Host} {flow_host : FlowHost}.

Lemma add_total_keys value totals node : (add_total value totals node).*1 = totals.*1.
Proof.
  unfold add_total. destruct (map_get (fp_kind node) totals) as [st|] eqn:E; [|done]. rewrite map_set_keys. apply js_add_present, has_true.
  apply map_get_In in E. by apply (list_elem_of_fmap_2 fst _ (fp_kind node, st)).
Qed.

Lemma node_totals_keys rows metric stages ctx : (node_totals rows metric stages ctx).*1 = set_of stages.
Proof.
  unfold node_totals. assert (∀ ss m, (fold_left (λ totals stage, map_set stage [] totals) ss m).*1
    = fold_left js_add ss (@fmap _ list_fmap (FlowNodeKind * list (jsstring * FlowNodeRank)) _ fst m)) as Hs.
  { induction ss as [|k ss IH]; intros m; simpl; [done|]. by rewrite IH, map_set_keys. }
  change (set_of stages) with (fold_left js_add stages ((@nil (FlowNodeKind * list (jsstring * FlowNodeRank))).*1)).
  rewrite <- Hs. generalize (fold_left (λ totals stage, map_set stage [] totals) stages (@nil (FlowNodeKind * list (jsstring * FlowNodeRank)))).
  induction rows as [|row rows IH]; intros m; cbn [fold_left]; [done|]. rewrite IH.
  generalize (flowPathForStages row stages ctx). intros path. revert m. induction path as [|n path IHp]; intros m; cbn [fold_left]; [done|].
  by rewrite IHp, add_total_keys.
Qed.

(** Every stage has a set of top nodes within the limit. *)
Lemma top_set rows metric stages limit ctx stage : stage ∈ stages → ∃ sets tops,
  buildTopNodeSets rows metric stages (Some limit) ctx = Some sets ∧ map_get stage sets = Some tops
  ∧ (length tops ≤ Z.to_nat limit)%nat.
Proof.
  intros Hs. eexists. destruct (map_get stage (node_totals rows metric stages ctx)) as [st|] eqn:E.
  2:{ apply map_get_None in E. rewrite node_totals_keys, elem_of_set_of in E. done. }
  eexists. split; [done|]. rewrite map_get_values, E. split; [done|].
  rewrite set_of_length, length_map. apply slice_to_length.
Qed.

(** *** Ranks *)

(** Comparators combined, and through a function *)
#[export] Instance then_by_comparator {A} (c d : A → A → Z) P : Comparator c P → Comparator d P →
  Comparator (λ a b, then_by (c a b) (d a b)) P.
Proof.
  intros Hc Hd. split; unfold then_by.
  - intros x y Hx Hy. pose proof (cmp_flip c x y Hx Hy). pose proof (cmp_flip d x y Hx Hy).
    destruct (Z.eqb_spec (c x y) 0), (Z.eqb_spec (c y x) 0); lia.
  - intros x y z Hx Hy Hz. pose proof (cmp_flip c x y Hx Hy). pose proof (cmp_flip c y z Hy Hz). pose proof (cmp_flip c x z Hx Hz).
    pose proof (cmp_le_trans c x y z Hx Hy Hz). pose proof (cmp_le_trans d x y z Hx Hy Hz).
    pose proof (cmp_le_trans c y z x Hy Hz Hx). pose proof (cmp_le_trans c z x y Hz Hx Hy).
    destruct (Z.eqb_spec (c y x) 0), (Z.eqb_spec (c z y) 0), (Z.eqb_spec (c z x) 0); lia.
Qed.

#[export] Instance image_comparator {A B} (f : A → B) (c : B → B → Z) P : Comparator c (λ _, True) → Comparator (λ a b, c (f a) (f b)) P.
Proof. intros Hc. split; [intros x y _ _; by apply (@cmp_flip _ c _ Hc)|]. intros x y z _ _ _. by apply (@cmp_le_trans _ c _ Hc). Qed.

(** On counts the difference of values has the sign of the difference. *)
Lemma compare_counts x y : is_count x → is_count y → compare_values x y = Z.sgn (amount y - amount x).
Proof.
  intros (a & Ha & ->) (b & Hb & ->). unfold compare_values, sign_of, amount. rewrite !integer_value_safe by done. simpl.
  destruct (num_sub_sign b a Hb Ha) as [-> ->]. destruct (Z.ltb_spec b a), (Z.ltb_spec a b); lia.
Qed.

#[export] Instance rank_value_comparator : Comparator (λ a b, compare_values (rk_value a) (rk_value b)) (λ r, is_count (rk_value r)).
Proof.
  split.
  - intros x y Hx Hy. rewrite !compare_counts by done. lia.
  - intros x y z Hx Hy Hz. rewrite !compare_counts by done. lia.
Qed.

#[export] Instance compare_ranks_comparator : Comparator localeCompare (λ _, True) → Comparator compare_ranks (λ r, is_count (rk_value r)).
Proof.
  intros Hc. apply (then_by_comparator _ _ _ _). apply then_by_comparator; apply (image_comparator _ localeCompare _ Hc).
Qed.

Section Ranks.
Context (rows : list FlowQuotaDataItem) (metric : FlowMetric) (stages : list FlowNodeKind) (ctx : option (number → jsstring)).

Definition row_amount (row : FlowQuotaDataItem) : Z := amount (metricValue (rowMetrics row) metric).

(** The amount of the rows through a node of a stage. *)
Definition node_amount (stage : FlowNodeKind) (id : jsstring) : Z :=
  zsum (λ row, if bool_decide (fp_id (NODE_BUILDERS stage row ctx) = id) then row_amount row else 0) rows.

Definition rank_new (stage : FlowNodeKind) (row : FlowQuotaDataItem) : FlowNodeRank := mkRank (NODE_BUILDERS stage row ctx) num_zero.
Definition rank_grow (row : FlowQuotaDataItem) (rank : FlowNodeRank) : FlowNodeRank :=
  mkRank (rk_node rank) (num_add (rk_value rank) (metricValue (rowMetrics row) metric)).
Definition rank_step (stage : FlowNodeKind) : list (jsstring * FlowNodeRank) → FlowQuotaDataItem → list (jsstring * FlowNodeRank) :=
  accumulate (λ row, fp_id (NODE_BUILDERS stage row ctx)) (rank_new stage) rank_grow.

(** A path adds to the totals of each of its stages once. *)
Lemma add_path_total row stage ss totals st : NoDup ss → map_get stage totals = Some st →
  map_get stage (fold_left (add_total (metricValue (rowMetrics row) metric)) (flowPathForStages row ss ctx) totals)
  = Some (if decide (stage ∈ ss) then rank_step stage st row else st).
Proof.
  intros Hn. revert totals st. induction Hn as [|k ss Hk Hn IH]; intros totals st E; [done|].
  cbn [flowPathForStages map fold_left]. fold (flowPathForStages row ss ctx). destruct (decide (k = stage)) as [->|Hne].
  - rewrite (IH _ (rank_step stage st row)).
    + rewrite decide_False by done. by rewrite decide_True by set_solver.
    + unfold add_total. rewrite builder_kind, E. by rewrite map_get_set_eq.
  - rewrite (IH _ st); [by destruct (decide (stage ∈ ss)), (decide (stage ∈ k :: ss)); set_solver|].
    unfold add_total. rewrite builder_kind. destruct (map_get k totals); [|done]. by rewrite map_get_set_ne.
Qed.

Lemma empty_totals stage ss (m : list (FlowNodeKind * list (jsstring * FlowNodeRank))) : stage ∈ ss ∨ map_get stage m = Some [] →
  map_get stage (fold_left (λ totals k, map_set k [] totals) ss m) = Some [].
Proof.
  revert m. induction ss as [|k ss IH]; intros m H; cbn [fold_left]; [destruct H; [set_solver|done]|]. apply IH.
  rewrite map_get_set. case_decide; [by right|]. destruct H as [H|H]; [left; set_solver|by right].
Qed.

Lemma node_totals_get stage : NoDup stages → stage ∈ stages →
  map_get stage (node_totals rows metric stages ctx) = Some (fold_left (rank_step stage) rows []).
Proof.
  intros Hn Hs. unfold node_totals. set (start := fold_left _ stages []).
  assert (map_get stage start = Some []) as H0 by (apply empty_totals; by left).
  revert H0. generalize start. generalize (@nil (jsstring * FlowNodeRank)). clear start.
  induction rows as [|row rs IH]; intros st totals E; [done|]. cbn [fold_left]. apply IH.
  rewrite (add_path_total row stage stages totals st Hn E). by rewrite decide_True.
Qed.

(** The rank of a node is the exact amount of the rows through it. *)
Lemma rank_exact stage k rank : (∀ row, row ∈ rows → is_count (metricValue (rowMetrics row) metric)) →
  zsum row_amount rows ≤ max_safe_integer → (k, rank) ∈ fold_left (rank_step stage) rows [] →
  fp_id (rk_node rank) = k ∧ rk_value rank = num_of_Z (node_amount stage k).
Proof.
  intros Hc Ht (row & l & Hk & Hl & ->)%accumulate_entries.
  assert (∀ rs r, let r' := fold_left (λ v c, rank_grow c v) rs r in
    rk_node r' = rk_node r ∧ rk_value r' = fold_left (λ s c, num_add s (metricValue (rowMetrics c) metric)) rs (rk_value r)) as Hg.
  { induction rs as [|c rs IH]; intros r; simpl; [done|]. destruct (IH (rank_grow c r)) as [-> ->]. done. }
  destruct (Hg (row :: l) (rank_new stage row)) as [-> ->]. split; [done|]. cbn [rank_new rk_value]. rewrite <- Hl.
  assert (zsum (λ c, amount (metricValue (rowMetrics c) metric)) (of_key (λ row, fp_id (NODE_BUILDERS stage row ctx)) k rows) = node_amount stage k)
    as E by (by apply (zsum_filter row_amount)).
  assert (0 ≤ node_amount stage k ≤ max_safe_integer) as Hb.
  { split; [apply zsum_nonneg|etransitivity; [|exact Ht]; apply zsum_le]; intros r Hr;
      destruct (is_count_amount _ (Hc r Hr)) as [_ ?]; unfold row_amount; case_bool_decide; lia. }
  change num_zero with (num_of_Z 0). rewrite (fold_add_exact (λ c, metricValue (rowMetrics c) metric)).
  - by rewrite Z.add_0_l, E.
  - intros c [Hin _]%elem_of_filter_b. by apply Hc.
  - done.
  - rewrite E. lia.
Qed.

(** What the cut of the sorted ranks keeps is no less than what it drops. *)
Lemma cut_greatest stage limit kept dropped : Comparator localeCompare (λ _, True) →
  (∀ row, row ∈ rows → is_count (metricValue (rowMetrics row) metric)) → zsum row_amount rows ≤ max_safe_integer →
  let ranks := map snd (fold_left (rank_step stage) rows []) in
  kept ∈ slice_to limit (sort_by compare_ranks ranks) → dropped ∈ ranks → dropped ∉ slice_to limit (sort_by compare_ranks ranks) →
  node_amount stage (fp_id (rk_node dropped)) ≤ node_amount stage (fp_id (rk_node kept)).
Proof.
  intros Hcmp Hc Ht ranks Hk Hd Hnd.
  assert (∀ r, r ∈ ranks → rk_value r = num_of_Z (node_amount stage (fp_id (rk_node r))) ∧ 0 ≤ node_amount stage (fp_id (rk_node r)) ≤ max_safe_integer) as Hr.
  { intros r ([k r'] & -> & Hin)%list_elem_of_fmap. destruct (rank_exact stage k r' Hc Ht Hin) as [<- E]. split; [done|].
    split; [apply zsum_nonneg|etransitivity; [|exact Ht]; apply zsum_le]; intros row Hrow;
      destruct (is_count_amount _ (Hc row Hrow)) as [_ ?]; unfold row_amount; case_bool_decide; lia. }
  assert (Forall (λ r, is_count (rk_value r)) ranks) as Hf.
  { apply Forall_forall. intros r Hin. destruct (Hr r Hin) as [-> ?]. by eexists. }
  pose proof (sort_by_sorted compare_ranks ranks Hf) as Hs.
  assert (dropped ∈ sort_by compare_ranks ranks) as Hds by (by rewrite sort_by_perm). unfold slice_to in *.
  set (sorted := sort_by compare_ranks ranks) in *. set (n := Z.to_nat _) in *.
  rewrite <- (take_drop n sorted) in Hs, Hds. apply elem_of_app in Hds as [Hds|Hds]; [done|].
  assert (kept ∈ ranks) as Hkr.
  { rewrite <- (sort_by_perm compare_ranks). fold sorted. rewrite <- (take_drop n sorted). apply elem_of_app. by left. }
  pose proof (StronglySorted_app_1_elem_of _ _ _ _ _ Hs Hk Hds) as Hb. unfold sorted_before, compare_ranks, then_by in Hb.
  destruct (Hr kept Hkr) as [Ek Bk], (Hr dropped Hd) as [Ed Bd]. rewrite Ek, Ed, compare_counts in Hb by (eexists; split; [|reflexivity]; done).
  unfold amount in Hb. rewrite !integer_value_safe in Hb by done. simpl in Hb.
  destruct (Z.eqb_spec (Z.sgn (node_amount stage (fp_id (rk_node kept)) - node_amount stage (fp_id (rk_node dropped)))) 0); lia.
Qed.

Lemma tops_of stage limit : NoDup stages → stage ∈ stages → ∃ sets, buildTopNodeSets rows metric stages (Some limit) ctx = Some sets
  ∧ map_get stage sets = Some (set_of (map (λ rank, fp_id (rk_node rank))
      (slice_to limit (sort_by compare_ranks (map snd (fold_left (rank_step stage) rows [])))))).
Proof. intros Hn Hs. eexists. split; [done|]. by rewrite map_get_values, node_totals_get. Qed.

Lemma tops_greatest stage limit row row' : Comparator localeCompare (λ _, True) →
  (∀ row, row ∈ rows → is_count (metricValue (rowMetrics row) metric)) → zsum row_amount rows ≤ max_safe_integer →
  NoDup stages → stage ∈ stages → row' ∈ rows →
  let sets := buildTopNodeSets rows metric stages (Some limit) ctx in
  isTopFlowNode (NODE_BUILDERS stage row ctx) sets = true → isTopFlowNode (NODE_BUILDERS stage row' ctx) sets = false →
  node_amount stage (fp_id (NODE_BUILDERS stage row' ctx)) ≤ node_amount stage (fp_id (NODE_BUILDERS stage row ctx)).
Proof.
  intros Hcmp Hc Ht Hn Hs Hrow. destruct (tops_of stage limit Hn Hs) as (sets & -> & E). unfold isTopFlowNode. simpl.
  rewrite !builder_kind, E, has_true, has_false, !elem_of_set_of, !list_elem_of_fmap. intros (kept & -> & Hk) Hd.
  assert (fp_id (NODE_BUILDERS stage row' ctx) ∈ (fold_left (rank_step stage) rows []).*1) as Hin.
  { unfold rank_step. rewrite accumulate_keys, elem_of_set_of. by apply (list_elem_of_fmap_2 (λ row, fp_id (NODE_BUILDERS stage row ctx))). }
  apply list_elem_of_fmap in Hin as ([k dropped] & Ek & Hin). simpl in Ek. subst k.
  destruct (rank_exact stage _ dropped Hc Ht Hin) as [Eid _]. rewrite <- Eid.
  apply (cut_greatest stage limit); [done..| |].
  - apply list_elem_of_fmap. by exists (fp_id (NODE_BUILDERS stage row' ctx), dropped).
  - intros Hcut. apply Hd. by exists dropped.
Qed.
End Ranks.

Lemma limited_node path sets mode labeler path' n : applyTopNodeLimit path (Some sets) mode labeler = Some path' → n ∈ path' →
  isTopFlowNode n (Some sets) = true ∨ mode = overflow_aggregate ∧ fp_id n = OTHER_FLOW_NODE_IDS (fp_kind n).
Proof.
  unfold applyTopNodeLimit. destruct (existsb _ path) eqn:E; simpl.
  - destruct mode; [|done]. intros [= <-] (m & -> & Hm)%list_elem_of_fmap. destruct (isTopFlowNode m _) eqn:Et; [by left|by right].
  - intros [= <-] Hn. left. destruct (isTopFlowNode n (Some sets)) eqn:Et; [done|]. exfalso. apply not_true_iff_false in E. apply E.
    apply existsb_exists. exists n. by rewrite <- list_elem_of_In, Et.
Qed.

Section Nodes.
Context (rows : list FlowQuotaDataItem) (metric : FlowMetric) (role : FlowRole) (palette : option (list jsstring))
  (visible : option (list FlowNodeKind)) (ctx : option (number → jsstring)) (options : FlowGraphOptions).

Let stages := resolveVisibleStages role visible.
Let paths := prepare_paths rows metric stages ctx options.
Let graph := buildFlowGraph rows metric role palette visible ctx options.

(** A node of the graph is a node of a path. *)
Lemma graph_node_origin n : n ∈ fg_nodes graph →
  ∃ p m, p ∈ paths ∧ m ∈ pp_path p ∧ nd_id n = fp_id m ∧ nd_kind n = fp_kind m.
Proof.
  intros Hn. destruct (graph_cores rows metric role palette visible ctx options) as (color & Hp & _). fold stages paths graph in Hp.
  assert (node_core n ∈ map node_core (fg_nodes graph)) as Hc by (by apply list_elem_of_fmap_2).
  rewrite Hp in Hc. apply list_elem_of_fmap in Hc as (n' & [= -> -> _] & ([k v] & -> & Hkv)%list_elem_of_fmap). simpl.
  destruct (summed_node_origin _ _ _ _ _ Hkv) as (Hid & p & m & Hpp & Hm & Hfm & Hk & _). exists p, m. by rewrite Hid, Hfm.
Qed.

Lemma shown_nodes_limited limit : normalizeTopNodeLimit (go_topNodeLimit options) = Some limit → ∀ stage,
  (length (List.filter (λ n, bool_decide (nd_kind n = stage)) (fg_nodes graph)) ≤
    Z.to_nat limit + match go_overflowMode options with Some overflow_hide => 0 | _ => 1 end)%nat.
Proof.
  intros Hlim stage. set (shown := List.filter _ _). rewrite <- (length_map nd_id shown).
  assert (NoDup (map nd_id shown)) as Hn.
  { apply NoDup_map_filter. unfold graph. rewrite graph_ids. apply set_of_NoDup. }
  destruct (decide (stage ∈ stages)) as [Hs|Hs].
  - destruct (top_set rows metric stages limit ctx stage Hs) as (sets & tops & Hsets & Htops & Hlen).
    set (others := match go_overflowMode options with Some overflow_hide => [] | _ => [OTHER_FLOW_NODE_IDS stage] end).
    transitivity (length (tops ++ others)).
    2:{ rewrite length_app. unfold others. destruct (go_overflowMode options) as [[]|]; simpl; lia. }
    apply NoDup_length_le; [done|]. intros id (n & -> & [Hng Hk%bool_decide_eq_true]%elem_of_filter_b)%list_elem_of_fmap.
    destruct (graph_node_origin n Hng) as (p & m & Hp & Hm & -> & Hkm). apply elem_of_prepared in Hp as (row & _ & _ & E).
    rewrite Hlim, Hsets in E. rewrite elem_of_app. destruct (limited_node _ _ _ _ _ _ E Hm) as [Ht|[Hmode Ho]].
    + left. unfold isTopFlowNode in Ht. simpl in Ht. rewrite <- Hkm, Hk, Htops in Ht. by apply has_true.
    + right. rewrite Ho, <- Hkm, Hk. unfold others. destruct (go_overflowMode options) as [[]|]; (done || set_solver).
  - destruct shown as [|n l] eqn:E; [simpl; lia|]. exfalso. apply Hs.
    assert (n ∈ shown) as [Hng Hk%bool_decide_eq_true]%elem_of_filter_b by (rewrite E; set_solver).
    destruct (graph_node_origin n Hng) as (p & m & Hp & Hm & _ & Hkm). rewrite <- Hk, Hkm.
    apply elem_of_prepared in Hp as (row & _ & _ & Ea).
    destruct (applyTopNodeLimit_well_formed _ _ _ _ _ _ (flowPathForStages_well_formed ctx row stages) Ea) as [<- _].
    by apply list_elem_of_fmap_2.
Qed.

(** C31: With a limit, a stage of the chart shows at most that many nodes, and
    one more for the others when they are grouped; and no node that the limit
    leaves out carries more than one that it keeps, given that the comparison
    of labels is consistent and the sums are exact. *)
Theorem top_nodes_limited limit : normalizeTopNodeLimit (go_topNodeLimit options) = Some limit →
  (∀ stage, (length (List.filter (λ n, bool_decide (nd_kind n = stage)) (fg_nodes graph)) ≤
    Z.to_nat limit + match go_overflowMode options with Some overflow_hide => 0 | _ => 1 end)%nat)
  ∧ (Comparator localeCompare (λ _, True) → exact_rows metric stages ctx rows → ∀ stage row row',
      stage ∈ stages → row ∈ rows → row' ∈ rows →
      let sets := buildTopNodeSets rows metric stages (Some limit) ctx in
      isTopFlowNode (NODE_BUILDERS stage row ctx) sets = true → isTopFlowNode (NODE_BUILDERS stage row' ctx) sets = false →
      node_amount rows metric ctx stage (fp_id (NODE_BUILDERS stage row' ctx))
      ≤ node_amount rows metric ctx stage (fp_id (NODE_BUILDERS stage row ctx))).
Proof.
  intros Hlim. split; [by apply shown_nodes_limited|]. intros Hcmp [Hc Ht _] stage row row' Hs _ Hrow' sets Hk Hd.
  by apply (tops_greatest rows metric stages ctx stage limit row row' Hcmp Hc Ht (resolve_NoDup role visible) Hs Hrow').
Qed.
End Nodes.
End Limit.

(** ** A chart *)
#[export] Instance plain_locale_comparator : Comparator (@localeCompare plain_host) (λ _, True).
Proof.
  assert (∀ s t, str_ltb s t = true → str_ltb t s = false) as Ha.
  { intros s t H. destruct (str_ltb t s) eqn:E; [|done]. pose proof (str_ltb_trans _ _ _ H E) as Hs. by rewrite str_ltb_irrefl in Hs. }
  split; unfold localeCompare; simpl.
  - intros x y _ _. destruct (str_ltb x y) eqn:E; [by rewrite (Ha x y E)|]. by destruct (str_ltb y x).
  - intros x y z _ _ _. destruct (str_ltb y x) eqn:E1; [lia|]. destruct (str_ltb z y) eqn:E2; [lia|]. intros _ _.
    destruct (str_ltb z x) eqn:E3; [|by destruct (str_ltb x z)]. exfalso. destruct (decide (y = x)) as [->|Hyx]; [congruence|].
    destruct (str_ltb_total y x Hyx) as [H|H]; [congruence|]. by rewrite (str_ltb_trans _ _ _ E3 H) in E2.
Qed.

Lemma top_nodes_limited_witness :
  normalizeTopNodeLimit (go_topNodeLimit (sample_options (Some 1) None false)) = Some 1
  ∧ exact_rows metric_requests (resolveVisibleStages role_admin None) None sample_rows
  ∧ (length (List.filter (λ n, bool_decide (nd_kind n = kind_user)) (fg_nodes (sample_graph (sample_options (Some 1%Z) None false)))) ≤ 2)%nat
  ∧ node_amount sample_rows metric_requests None kind_user (js "user:bob") ≤ node_amount sample_rows metric_requests None kind_user (js "user:ann").
Proof.
  assert (normalizeTopNodeLimit (go_topNodeLimit (sample_options (Some 1) None false)) = Some 1) as Hl by (vm_compute; reflexivity).
  destruct (top_nodes_limited (host := plain_host) (flow_host := sample_flow_host) sample_rows metric_requests role_admin None None None
    (sample_options (Some 1) None false) 1 Hl) as [H1 H2].
  split_and!; [done|apply sample_exact|apply H1|].
  apply (H2 plain_locale_comparator (sample_exact _) kind_user (sample_row "ann" "t1" "vip" "m1" 3) (sample_row "bob" "t2" "vip" "m2" 7));
    [by apply (bool_decide_unpack _)|unfold sample_rows; constructor|unfold sample_rows; do 2 constructor|vm_compute; reflexivity|vm_compute; reflexivity].
Defined.
