(* ===== verification/FlowViewFacts.v ===== *)
(** * Views of the flow chart

    The masking of names, and the filters with the options they offer. *)
From stdpp Require Import sets.
From S2P Require Import Prelude JsString JsCollections JsNumber JsNumberFacts JsValue JsJson Host Flow FlowFacts.
Local Open Scope Z_scope.

(** ** Masking *)
Lemma fold_left_map {A B C} (f : C → B → C) (g : A → B) l c : fold_left f (map g l) c = fold_left (λ c x, f c (g x)) l c.
Proof. revert c. by induction l; simpl. Qed.

Section Masking.
Context {host : Host} {flow_host : FlowHost}.





















Section Statement.
Context (rows : list FlowQuotaDataItem) (metric : FlowMetric) (role : FlowRole) (palette : option (list jsstring))
  (visible : option (list FlowNodeKind)) (ctx : option (number → jsstring)).


End Statement.
End Masking.


(** ** Filters *)
Section Filters.
Context {host : Host} {flow_host : FlowHost}.
Context (stages : list FlowNodeKind) (ctx : option (number → jsstring)).

(** The filters of one stage *)
Definition filters_of (kind : FlowNodeKind) (selected : list FlowNodeFilter) : list FlowNodeFilter :=
  List.filter (λ f, bool_decide (nf_kind f = kind)) selected.

(** What a selection asks of a row: in every visible stage with filters, the
    node of the row is one of them. *)
Definition row_selected (selected : list FlowNodeFilter) (row : FlowQuotaDataItem) : bool :=
  forallb (λ kind, match filters_of kind selected with
    | [] => true
    | mine => existsb (λ f, str_eqb (nf_id f) (fp_id (NODE_BUILDERS kind row ctx))) mine
    end) stages.

Lemma row_selected_spec selected row : row_selected selected row = true ↔
  ∀ kind, kind ∈ stages → filters_of kind selected ≠ [] → mkFilter kind (fp_id (NODE_BUILDERS kind row ctx)) ∈ selected.
Proof.
  unfold row_selected. rewrite forallb_forall. setoid_rewrite <- list_elem_of_In.
  assert (∀ kind, existsb (λ f, str_eqb (nf_id f) (fp_id (NODE_BUILDERS kind row ctx))) (filters_of kind selected) = true
    ↔ mkFilter kind (fp_id (NODE_BUILDERS kind row ctx)) ∈ selected) as He.
  { intros kind. rewrite existsb_exists. setoid_rewrite <- list_elem_of_In. unfold filters_of. setoid_rewrite elem_of_filter_b. split.
    - intros ([k id] & [Hin Hk%bool_decide_eq_true] & Hid%str_eqb_eq). simpl in *. by subst.
    - intros Hin. eexists. split; [split; [exact Hin|by apply bool_decide_eq_true]|]. by apply str_eqb_eq. }
  split; intros H kind Hk; specialize (H kind Hk); rewrite <- He in *; destruct (filters_of kind selected); naive_solver.
Qed.

(** Sets by kind, filled one element at a time *)
Lemma kind_sets_get {A} (kind_of : A → FlowNodeKind) (id_of : A → jsstring) l kind :
  map_get kind (fold_left (λ m x, add_to_kind m (kind_of x) (id_of x)) l []) =
  match List.filter (λ x, bool_decide (kind_of x = kind)) l with [] => None | mine => Some (set_of (map id_of mine)) end.
Proof.
  pose proof (accumulate_step kind_of (λ _, []) (λ x v, js_add v (id_of x)) l [] kind) as H. etransitivity; [exact H|].
  change (of_key kind_of kind l) with (List.filter (λ x, bool_decide (kind_of x = kind)) l). simpl.
  destruct (List.filter _ l) as [|x mine]; [done|]. f_equal. symmetry. apply (fold_left_map js_add id_of (x :: mine)).
Qed.

Lemma fold_left_filter {A B} (f : B → A → B) (p : A → bool) l b :
  fold_left (λ b x, if p x then f b x else b) l b = fold_left f (List.filter p l) b.
Proof. revert b. induction l as [|x l IH]; intros b; simpl; [done|]. by destruct (p x); simpl. Qed.

Lemma filter_filter_b {A} (p q : A → bool) (b : bool) l : (∀ x, p x = true → q x = b) →
  List.filter p (List.filter q l) = if b then List.filter p l else [].
Proof.
  intros H. induction l as [|x l IH]; simpl; [by destruct b|]. specialize (H x).
  destruct (q x) eqn:Eq, (p x) eqn:Ep; simpl; rewrite ?Ep, ?IH; try (rewrite <- H by done); done.
Qed.

Lemma normalized_get selected kind : map_get kind (normalizeSelectedNodeFilters (Some selected) stages) =
  if has stages kind then match filters_of kind selected with [] => None | mine => Some (set_of (map nf_id mine)) end else None.
Proof.
  unfold normalizeSelectedNodeFilters. cbn [default from_option id].
  rewrite (fold_left_filter (λ m f, add_to_kind m (nf_kind f) (nf_id f))), kind_sets_get.
  rewrite (filter_filter_b _ _ (has stages kind)).
  - unfold filters_of. by destruct (has stages kind).
  - intros f <-%bool_decide_eq_true. apply eq_true_iff_eq. by rewrite !has_true, elem_of_set_of.
Qed.

Lemma path_ids_get row kind : kind ∈ stages → ∃ ids,
  map_get kind (fold_left (λ m n, add_to_kind m (fp_kind n) (fp_id n)) (flowPathForStages row stages ctx) []) = Some ids
  ∧ ∀ id, id ∈ ids ↔ id = fp_id (NODE_BUILDERS kind row ctx).
Proof.
  intros Hk. rewrite kind_sets_get. set (mine := List.filter _ _).
  assert (∀ n, n ∈ mine ↔ n = NODE_BUILDERS kind row ctx) as Hm.
  { intros n. unfold mine, flowPathForStages. rewrite elem_of_filter_b, bool_decide_eq_true, list_elem_of_fmap. split.
    - intros [(k & -> & _) <-]. by rewrite builder_kind.
    - intros ->. rewrite builder_kind. eauto. }
  clearbody mine. destruct mine as [|n rest]; [exfalso; eapply not_elem_of_nil; by apply Hm|]. eexists. split; [done|].
  intros id. rewrite elem_of_set_of, list_elem_of_fmap. setoid_rewrite Hm. naive_solver.
Qed.

Lemma matches_selected selected row :
  pathMatchesNodeFilters (flowPathForStages row stages ctx) (normalizeSelectedNodeFilters (Some selected) stages) = row_selected selected row.
Proof.
  set (filters := normalizeSelectedNodeFilters _ _).
  assert (NoDup filters.*1) as Hnd.
  { unfold filters, normalizeSelectedNodeFilters. rewrite (fold_left_filter (λ m f, add_to_kind m (nf_kind f) (nf_id f))).
    assert (∀ l m, NoDup m.*1 → NoDup (fold_left (λ m f, add_to_kind m (nf_kind f) (nf_id f)) l m).*1) as H; [|apply H; constructor].
    induction l as [|f l IH]; intros m Hn; simpl; [done|]. apply IH. by apply map_set_NoDup. }
  assert (∀ kind ids, (kind, ids) ∈ filters ↔ map_get kind filters = Some ids) as Hget.
  { intros kind ids. split; [by apply In_map_get|apply map_get_In]. }
  apply eq_true_iff_eq. rewrite row_selected_spec. unfold pathMatchesNodeFilters.
  transitivity (∀ kind ids, (kind, ids) ∈ filters → ∃ id, id ∈ ids ∧ kind ∈ stages ∧ id = fp_id (NODE_BUILDERS kind row ctx)).
  - destruct (length filters =? 0)%nat eqn:E.
    { apply Nat.eqb_eq, nil_length_inv in E. rewrite E. split; [set_solver|done]. }
    rewrite forallb_forall. split.
    + intros H kind ids Hin. assert (kind ∈ stages) as Hk.
      { apply Hget in Hin. unfold filters in Hin. rewrite normalized_get in Hin. destruct (has stages kind) eqn:Eh; [by apply has_true|done]. }
      apply list_elem_of_In, H in Hin. destruct (path_ids_get row kind Hk) as (pids & Ep & Hids). rewrite Ep in Hin.
      apply existsb_exists in Hin as (id & Hid%list_elem_of_In & Hp%has_true). exists id. by rewrite <- Hids.
    + intros H [kind ids] Hin%list_elem_of_In. destruct (H _ _ Hin) as (id & Hid & Hk & ->).
      destruct (path_ids_get row kind Hk) as (pids & -> & Hids). apply existsb_exists. eexists. rewrite <- list_elem_of_In, has_true, Hids. done.
  - setoid_rewrite Hget. unfold filters. setoid_rewrite normalized_get. split.
    + intros H kind Hk Hne. specialize (H kind). rewrite (proj2 (has_true _ _) Hk) in H.
      destruct (filters_of kind selected) as [|f mine] eqn:E; [done|]. destruct (H _ eq_refl) as (id & Hid & _ & ->).
      rewrite <- E, elem_of_set_of, list_elem_of_fmap in Hid. destruct Hid as ([k id] & Hid & [Hin Hb%bool_decide_eq_true]%elem_of_filter_b).
      simpl in *. by subst.
    + intros H kind ids. destruct (has stages kind) eqn:Eh; [|done]. apply has_true in Eh. specialize (H kind Eh).
      destruct (filters_of kind selected) as [|f mine] eqn:E; [done|]. intros Hids. specialize (H ltac:(done)).
      assert (ids = set_of (map nf_id (filters_of kind selected))) as -> by (rewrite E; congruence).
      eexists. split; [|done]. rewrite elem_of_set_of, list_elem_of_fmap. eexists. split; [|apply elem_of_filter_b; split; [exact H|]]; [done|].
      by apply bool_decide_eq_true.
Qed.

Lemma filterRowsByNodes_selects rows selectedNodes :
  filterRowsByNodes rows selectedNodes stages ctx = List.filter (row_selected (default [] selectedNodes)) rows.
Proof.
  assert (normalizeSelectedNodeFilters selectedNodes stages = normalizeSelectedNodeFilters (Some (default [] selectedNodes)) stages) as E
    by (by destruct selectedNodes).
  unfold filterRowsByNodes. rewrite E. destruct (_ =? _)%nat eqn:El.
  - symmetry. apply filter_all. intros row _. rewrite <- matches_selected. unfold pathMatchesNodeFilters. by rewrite El.
  - apply filter_ext. apply matches_selected.
Qed.
End Filters.

(** ** Filter options *)
Section Options.
Context {host : Host} {flow_host : FlowHost}.
Context (rows : list FlowQuotaDataItem) (metric : FlowMetric) (role : FlowRole) (visible : option (list FlowNodeKind))
  (palette : option (list jsstring)) (ctx : option (number → jsstring)) (selectedNodes : option (list FlowNodeFilter)).

Let stages := resolveVisibleStages role visible.
Let selected := default [] selectedNodes.

(** The rows that match the filters of the stages other than one *)
Definition matches_others (kind : FlowNodeKind) (row : FlowQuotaDataItem) : bool :=
  row_selected stages ctx (List.filter (λ f, negb (bool_decide (nf_kind f = kind))) selected) row.

Lemma except_kind_rows kind :
  filterRowsByNodes rows (selectedNodeFiltersExceptKind selectedNodes kind) stages ctx = List.filter (matches_others kind) rows.
Proof.
  rewrite filterRowsByNodes_selects. apply filter_ext. intros row. unfold matches_others, selectedNodeFiltersExceptKind.
  fold selected. by destruct (List.filter _ selected).
Qed.

Definition stage_key (kind : FlowNodeKind) (row : FlowQuotaDataItem) : jsstring :=
  nodeFilterKey (mkFilter kind (fp_id (NODE_BUILDERS kind row ctx))).

Lemma stage_key_inj kind row row' : stage_key kind row = stage_key kind row' →
  fp_id (NODE_BUILDERS kind row ctx) = fp_id (NODE_BUILDERS kind row' ctx).
Proof. unfold stage_key, nodeFilterKey. simpl. by intros [=]%app_inv_head. Qed.

Lemma stage_totals_accumulate kind : stage_totals rows metric stages ctx selectedNodes kind =
  fold_left (accumulate (stage_key kind) (λ row, mkRank (NODE_BUILDERS kind row ctx) num_zero)
    (λ row rank, mkRank (rk_node rank) (num_add (rk_value rank) (metricValue (rowMetrics row) metric))))
  (List.filter (matches_others kind) rows) [].
Proof.
  unfold stage_totals. rewrite except_kind_rows. generalize (@nil (jsstring * FlowNodeRank)).
  induction (List.filter (matches_others kind) rows) as [|row l IH]; intros m; simpl; [done|].
  rewrite IH. unfold accumulate, stage_key. by rewrite builder_kind.
Qed.

Lemma stage_rank kind k rank : (k, rank) ∈ stage_totals rows metric stages ctx selectedNodes kind → ∃ row,
  row ∈ rows ∧ matches_others kind row = true ∧ k = stage_key kind row ∧ rk_node rank = NODE_BUILDERS kind row ctx.
Proof.
  rewrite stage_totals_accumulate. intros (row & l & <- & Hl & ->)%accumulate_entries.
  assert (row ∈ of_key (stage_key kind) (stage_key kind row) (List.filter (matches_others kind) rows)) as Hin by (rewrite Hl; set_solver).
  apply elem_of_filter_b in Hin as [[Hr Hs]%elem_of_filter_b _]. exists row. split_and!; [done..|].
  generalize (row :: l). intros rs. change (NODE_BUILDERS kind row ctx) with (rk_node (mkRank (NODE_BUILDERS kind row ctx) num_zero)) at 2.
  generalize (mkRank (NODE_BUILDERS kind row ctx) num_zero). induction rs as [|r rs IH]; intros v; simpl; [done|]. by rewrite IH.
Qed.

(** The nodes a stage offers are those of the rows that match the others. *)
Lemma stage_totals_nodes kind id : (∃ rank, rank ∈ map snd (stage_totals rows metric stages ctx selectedNodes kind)
    ∧ fp_id (rk_node rank) = id)
  ↔ ∃ row, row ∈ rows ∧ matches_others kind row = true ∧ id = fp_id (NODE_BUILDERS kind row ctx).
Proof.
  split.
  - intros (rank & ([k r] & -> & Hin)%list_elem_of_fmap & <-). destruct (stage_rank kind k r Hin) as (row & Hr & Hs & _ & E).
    exists row. simpl. by rewrite E.
  - intros (row & Hr & Hs & ->). assert (stage_key kind row ∈ (stage_totals rows metric stages ctx selectedNodes kind).*1) as Hk.
    { rewrite stage_totals_accumulate, accumulate_keys, elem_of_set_of. by apply list_elem_of_fmap_2, elem_of_filter_b. }
    apply list_elem_of_fmap in Hk as ([k rank] & Ek & Hin). simpl in Ek. destruct (stage_rank kind k rank Hin) as (row' & _ & _ & Ek' & E).
    exists rank. split; [apply list_elem_of_fmap; by exists (k, rank)|]. rewrite E. apply stage_key_inj. congruence.
Qed.

(** A row that matches the other filters also matches with its own node added. *)
Lemma own_node_selected kind row : kind ∈ stages → matches_others kind row = true →
  row_selected stages ctx (selected ++ [mkFilter kind (fp_id (NODE_BUILDERS kind row ctx))]) row = true.
Proof.
  unfold matches_others. rewrite !row_selected_spec. intros Hk Ho k Hks Hne. rewrite elem_of_app.
  destruct (decide (k = kind)) as [->|Hkk]; [right; set_solver|]. left.
  assert (filters_of k (List.filter (λ f, negb (bool_decide (nf_kind f = kind))) selected) = filters_of k selected) as E.
  { unfold filters_of. rewrite (filter_filter_b _ _ true); [done|]. intros f <-%bool_decide_eq_true. by rewrite bool_decide_eq_false_2. }
  specialize (Ho k Hks). rewrite E in Ho. apply elem_of_filter_b in Ho as [Ho _]; [done|]. intros Hnil. apply Hne.
  unfold filters_of in *. rewrite List.filter_app, Hnil. simpl. by rewrite bool_decide_eq_false_2.
Qed.

(** The node filters keep exactly the rows that pass, in every visible stage
    with filters, through a selected node; the options of a stage are the
    nodes of the rows that match the filters of the other stages; so adding an
    offered node to the selection never leaves the chart empty. *)
Theorem offered_nodes_select :
  let offered kind id := ∃ o, o ∈ buildNodeFilterOptions rows metric role visible palette ctx selectedNodes ∧ no_kind o = kind ∧ no_value o = id in
  filterRowsByNodes rows selectedNodes stages ctx = List.filter (row_selected stages ctx selected) rows
  ∧ (∀ kind id, offered kind id ↔ kind ∈ stages ∧ ∃ row, row ∈ rows ∧ matches_others kind row = true ∧ id = fp_id (NODE_BUILDERS kind row ctx))
  ∧ (∀ kind id, offered kind id → filterRowsByNodes rows (Some (selected ++ [mkFilter kind id])) stages ctx ≠ []).
Proof.
  intros offered. split; [apply filterRowsByNodes_selects|].
  assert (∀ kind id, offered kind id ↔ kind ∈ stages ∧ ∃ row, row ∈ rows ∧ matches_others kind row = true ∧ id = fp_id (NODE_BUILDERS kind row ctx)) as Ho.
  { intros kind id. rewrite <- stage_totals_nodes. unfold offered, buildNodeFilterOptions. fold stages. setoid_rewrite sort_by_perm.
    setoid_rewrite list_elem_of_In. setoid_rewrite in_concat. setoid_rewrite in_map_iff. split.
    - intros (o & (l & (stage & <- & Hs) & (rank & <- & Hr)%in_map_iff) & <- & <-). simpl.
      assert (fp_kind (rk_node rank) = stage) as ->; [|apply in_map_iff in Hr; eauto].
      apply list_elem_of_In, list_elem_of_fmap in Hr as ([k r] & -> & Hin). destruct (stage_rank _ _ _ Hin) as (row & _ & _ & _ & E).
      simpl. by rewrite E, builder_kind.
    - intros (Hs & rank & Hr%in_map_iff & <-). eexists. split; [eexists; split; [by exists kind|by apply in_map]|]. simpl. split; [|done].
      apply list_elem_of_In, list_elem_of_fmap in Hr as ([k r] & -> & Hin). destruct (stage_rank _ _ _ Hin) as (row & _ & _ & _ & E).
      simpl. by rewrite E, builder_kind. }
  split; [done|]. intros kind id [Hk (row & Hr & Hs & ->)]%Ho. rewrite filterRowsByNodes_selects. intros Hnil.
  eapply not_elem_of_nil. rewrite <- Hnil. apply elem_of_filter_b. split; [exact Hr|]. by apply own_node_selected.
Qed.
End Options.

(** ** Charts *)
(** Two nodes of the same value are listed by their labels: once masked, the
    labels are the same, and the nodes come in the order of the rows. *)
Example masking_may_reorder :
  let rows := [sample_row "bob" "t2" "vip" "m1" 5; sample_row "ann" "t1" "vip" "m1" 5] in
  let users mask := map nd_id (List.filter (λ n, bool_decide (nd_kind n = kind_user))
    (fg_nodes (buildFlowGraph (host := plain_host) (flow_host := sample_flow_host) rows metric_requests role_admin None None None
      (sample_options None None mask)))) in
  users false = [js "user:ann"; js "user:bob"] ∧ users true = [js "user:bob"; js "user:ann"].
Proof. split; vm_compute; reflexivity. Qed.

(** Options offered while a group is selected: the other groups stay on offer,
    the users are those of the group. *)
Example options_of_a_selection :
  map (λ o, (no_kind o, no_value o)) (buildNodeFilterOptions (host := plain_host) (flow_host := sample_flow_host) sample_rows metric_requests
    role_admin (Some [kind_user; kind_group]) None None (Some [mkFilter kind_group (js "group:free")]))
  = [(kind_user, js "user:ann"); (kind_group, js "group:vip"); (kind_group, js "group:free")].
Proof. vm_compute. reflexivity. Qed.
