(* ===== verification/AuthSession.v ===== *)
(** * Login sessions of the web client

    Models [web/src/lib/auth-session.ts] with the store it updates
    ([web/src/stores/auth-store.ts]), the session hint
    ([web/src/lib/session-hint.ts]) and the listener of other tabs' events
    ([web/src/routes/__root.tsx]).

    The client is single threaded: between two awaits a piece of code runs
    alone.  [World] is what the pieces share: the store, the module variables
    [authEpoch] and [refreshPromise], the messages broadcast to other tabs and
    the refresh requests sent.  [refreshPromise] is the phase of the one refresh
    that may be under way.  An [event] is one piece: a call of an exported
    function, or the resumption of the refresh with what it awaited.  [step]
    runs it, and answers [None] when it cannot happen in that world. *)
From S2P Require Import Prelude JsString JsNumber JsValue.
Local Open Scope Z_scope.

(** ** The store *)
Inductive AuthBootstrapState := bs_idle | bs_checking | bs_complete.

Record LoginSession := mkSession {
  s_sid : jsstring;
  s_current : bool;
  s_login_method : jsstring;
  s_ip : jsstring;
  s_user_agent : jsstring;
  s_created_at : number;
  s_last_active_at : number;
  s_expires_at : number;
}.

(** A user: the checked fields, and the object they came in for the others. *)
Record AuthUser := mkUser { u_id : number; u_username : jsstring; u_role : number; u_object : jsval }.

Record AuthBundle := mkBundle {
  b_access_token : jsstring;
  b_token_type : jsstring;
  b_access_expires_at : number;
  b_user : AuthUser;
  b_session : LoginSession;
}.

(** [pendingLoginVerification] is kept as it is given. *)
Record AuthStore := mkStore {
  user : option AuthUser;
  accessToken : option jsstring;
  accessExpiresAt : option number;
  session : option LoginSession;
  pendingLoginVerification : option jsval;
  bootstrapState : AuthBootstrapState;
}.

Definition initial_store : AuthStore := mkStore None None None None None bs_idle.

Definition setBundle (bundle : AuthBundle) (_ : AuthStore) : AuthStore :=
  mkStore (Some (b_user bundle)) (Some (b_access_token bundle)) (Some (b_access_expires_at bundle))
    (Some (b_session bundle)) None bs_complete.

(** [a?.id === b?.id] *)
Definition same_id (a b : option AuthUser) : bool :=
  match a, b with
  | Some x, Some y => num_eqb (u_id x) (u_id y)
  | None, None => true
  | _, _ => false
  end.

Definition setUser (u : option AuthUser) (s : AuthStore) : AuthStore :=
  mkStore u (accessToken s) (accessExpiresAt s) (session s)
    (if same_id (user s) u then pendingLoginVerification s else None) (bootstrapState s).

Definition setPendingLoginVerification (p : option jsval) (s : AuthStore) : AuthStore :=
  mkStore (user s) (accessToken s) (accessExpiresAt s) (session s) p (bootstrapState s).

Definition setBootstrapState (b : AuthBootstrapState) (s : AuthStore) : AuthStore :=
  mkStore (user s) (accessToken s) (accessExpiresAt s) (session s) (pendingLoginVerification s) b.

Definition reset (b : AuthBootstrapState) (_ : AuthStore) : AuthStore := mkStore None None None None None b.

(** [auth.session?.sid] *)
Definition session_sid (s : AuthStore) : option jsstring := option_map s_sid (session s).

(** ** Checking what the server sent *)

(** [value.key] of a record; other values have none of the fields read here. *)
Definition property (v : jsval) (key : string) : jsval :=
  match v with JObject entries => default JUndefined (own_property (js key) entries) | _ => JUndefined end.

Definition isRecord (v : jsval) : bool := is_object v.

Definition is_string (v : jsval) : bool := match v with JString _ => true | _ => false end.
Definition is_nonempty_string (v : jsval) : bool := match v with JString (_ :: _) => true | _ => false end.
Definition is_boolean (v : jsval) : bool := match v with JBool _ => true | _ => false end.
Definition is_number (v : jsval) : bool := match v with JNumber _ => true | _ => false end.

Definition string_field (v : jsval) : jsstring := match v with JString s => s | _ => [] end.
Definition number_field (v : jsval) : number := match v with JNumber x => x | _ => num_nan end.
Definition boolean_field (v : jsval) : bool := match v with JBool b => b | _ => false end.

Definition isAuthUser (v : jsval) : bool :=
  isRecord v
  && match property v "id" with JNumber x => isInteger x && num_ltb num_zero x | _ => false end
  && is_string (property v "username") && is_number (property v "role").

Definition isLoginSession (v : jsval) : bool :=
  isRecord v && is_nonempty_string (property v "sid") && is_boolean (property v "current")
  && is_string (property v "login_method") && is_string (property v "ip") && is_string (property v "user_agent")
  && is_number (property v "created_at") && is_number (property v "last_active_at")
  && is_number (property v "expires_at").

Definition hasValidTokenFields (v : jsval) : bool :=
  is_nonempty_string (property v "access_token") && is_nonempty_string (property v "token_type")
  && match property v "access_expires_at" with JNumber x => isFinite x && num_ltb num_zero x | _ => false end.

Definition isAuthBundle (v : jsval) : bool :=
  isRecord v && hasValidTokenFields v && isAuthUser (property v "user") && isLoginSession (property v "session").

Definition to_session (v : jsval) : LoginSession :=
  mkSession (string_field (property v "sid")) (boolean_field (property v "current"))
    (string_field (property v "login_method")) (string_field (property v "ip")) (string_field (property v "user_agent"))
    (number_field (property v "created_at")) (number_field (property v "last_active_at"))
    (number_field (property v "expires_at")).

Definition to_user (v : jsval) : AuthUser :=
  mkUser (number_field (property v "id")) (string_field (property v "username")) (number_field (property v "role")) v.

(** A checked value read as an [AuthBundle]. *)
Definition to_bundle (v : jsval) : AuthBundle :=
  mkBundle (string_field (property v "access_token")) (string_field (property v "token_type"))
    (number_field (property v "access_expires_at")) (to_user (property v "user")) (to_session (property v "session")).

Definition parseBundle (v : jsval) : option AuthBundle := if isAuthBundle v then Some (to_bundle v) else None.

Definition isAuthTokenRotation (v : jsval) : bool :=
  isRecord v && hasValidTokenFields v && str_eqb (string_field (property v "token_type")) (js "Bearer")
  && isLoginSession (property v "session") && s_current (to_session (property v "session")).

(** ** The shared world *)
Inductive SyncEvent := authenticated_event (sid : jsstring) | signed_out_event (sid : jsstring).

Inductive RefreshError := superseded_error | response_error (error : jsval).

Inductive RefreshOutcome :=
| authenticated (bundle : AuthBundle)
| anonymous
| transient_error (error : RefreshError)
| out_of_sync (code : jsstring).

(** [status] is 0 when there was no answer. *)
Record AuthRefreshHTTPResponse := mkResponse { r_status : Z; r_data : jsval; r_error : jsval }.

(** Where the refresh under way is: before the browser lock, awaiting the answer
    to a request, awaiting a delay, or done but not yet forgotten.  A lock request
    that the browser refuses, which the [catch] of [performRefreshWithBrowserLock]
    and its callers see, is not among them: the lock is always granted. *)
Inductive RunPhase :=
| ph_lock
| ph_request (raceAttempt : nat) (allowMismatchRetry : bool)
| ph_wait (delay : Z) (raceAttempt : nat) (allowMismatchRetry : bool)
| ph_settled (outcome : RefreshOutcome).

Record RefreshRun := mkRun { run_epoch : Z; run_phase : RunPhase }.

Record World := mkWorld {
  auth : AuthStore;
  authEpoch : Z;
  refreshPromise : option RefreshRun;
  published : list SyncEvent;
  sent : list (option jsstring);
}.

Definition initial_world : World := mkWorld initial_store 0 None [] [].

Definition set_auth (f : AuthStore → AuthStore) (w : World) : World :=
  mkWorld (f (auth w)) (authEpoch w) (refreshPromise w) (published w) (sent w).
Definition bump_epoch (w : World) : World :=
  mkWorld (auth w) (authEpoch w + 1) (refreshPromise w) (published w) (sent w).
Definition set_promise (p : option RefreshRun) (w : World) : World :=
  mkWorld (auth w) (authEpoch w) p (published w) (sent w).
Definition publish (e : SyncEvent) (w : World) : World :=
  mkWorld (auth w) (authEpoch w) (refreshPromise w) (published w ++ [e]) (sent w).
Definition send_request (expectedSID : option jsstring) (w : World) : World :=
  mkWorld (auth w) (authEpoch w) (refreshPromise w) (published w) (sent w ++ [expectedSID]).

(** [publishAuthSessionEvent]: nothing for an empty [sid]. *)
Definition publishAuthSessionEvent (kind : jsstring → SyncEvent) (sid : jsstring) (w : World) : World :=
  if str_eqb sid [] then w else publish (kind sid) w.

Definition applyAuthBundle (bundle : AuthBundle) (synchronizeTabs : bool) (w : World) : World :=
  let sid := s_sid (b_session bundle) in
  let changed := match session_sid (auth w) with Some previous => negb (str_eqb previous sid) | None => true end in
  let w := set_auth (setBundle bundle) (bump_epoch w) in
  if synchronizeTabs && changed then publishAuthSessionEvent authenticated_event sid w else w.

Definition clearAuthentication (synchronizeTabs : bool) (b : AuthBootstrapState) (w : World) : World :=
  let sid := session_sid (auth w) in
  let w := set_auth (reset b) (bump_epoch w) in
  match sid with
  | Some sid => if synchronizeTabs then publishAuthSessionEvent signed_out_event sid w else w
  | None => w
  end.

(** [applyAuthRotation]; the error is the message of the [AuthRotationError]. *)
Definition applyAuthRotation (v : jsval) (w : World) : outcome jsstring World :=
  if negb (isAuthTokenRotation v) then Throw (js "Invalid authentication rotation response")
  else
    match user (auth w), session (auth w) with
    | Some u, Some s =>
        let rotated := to_session (property v "session") in
        if negb (str_eqb (s_sid rotated) (s_sid s)) then Throw (js "Authentication rotation session mismatch")
        else Ok (applyAuthBundle
                   (mkBundle (string_field (property v "access_token")) (string_field (property v "token_type"))
                      (number_field (property v "access_expires_at")) u rotated) false w)
    | _, _ => Throw (js "Authentication rotation has no active session")
    end.

(** ** The refresh *)
Definition refreshRaceDelays : list Z := [80; 200; 500].

(** [runtime.clear] of [runRefresh]: an absent state is [complete]. *)
Definition runtime_clear (synchronizeTabs : bool) (b : option AuthBootstrapState) (w : World) : World :=
  match synchronizeTabs, b with
  | false, Some bs_idle => set_auth (reset bs_idle) w
  | _, _ => clearAuthentication synchronizeTabs (default bs_complete b) w
  end.

(** [run(raceAttempt, allowMismatchRetry)] up to its first await. *)
Definition run_begin (epoch : Z) (raceAttempt : nat) (allow : bool) (w : World) : RunPhase * World :=
  if negb (authEpoch w =? epoch) then (ph_settled (transient_error superseded_error), w)
  else (ph_request raceAttempt allow, send_request (session_sid (auth w)) w).

(** The rest of [run], from the answer on. *)
Definition run_response (epoch : Z) (raceAttempt : nat) (allow : bool) (r : AuthRefreshHTTPResponse) (w : World)
    : RunPhase * World :=
  if negb (authEpoch w =? epoch) then (ph_settled (transient_error superseded_error), w)
  else
    let responseData := if isRecord (r_data r) then r_data r else JUndefined in
    let code := match property responseData "code" with JString s => Some s | _ => None end in
    let is_code c := match code with Some s => str_eqb s (js c) | None => false end in
    let success := match property responseData "success" with JBool b => b | _ => false end in
    match parseBundle (property responseData "data"), success with
    | Some bundle, true => (ph_settled (authenticated bundle), applyAuthBundle bundle false w)
    | _, _ =>
        if (r_status r =? 409) && is_code "AUTH_REFRESH_RACE" then
          match nth_error refreshRaceDelays raceAttempt with
          | Some delay => (ph_wait delay (S raceAttempt) allow, w)
          | None => (ph_settled (out_of_sync (default [] code)), runtime_clear false None w)
          end
        else if (r_status r =? 409) && is_code "AUTH_SESSION_MISMATCH" then
          if allow then run_begin epoch 0 false (runtime_clear false (Some bs_idle) w)
          else (ph_settled (out_of_sync (default [] code)), runtime_clear false None w)
        else if r_status r =? 401 then (ph_settled anonymous, runtime_clear true None w)
        else if (r_status r =? 0) || (500 <=? r_status r) || (r_status r =? 429) then
          (ph_settled (transient_error (response_error (if is_nullish (r_error r) then r_data r else r_error r))),
           set_auth (setBootstrapState bs_idle) w)
        else (ph_settled (out_of_sync (default (js "AUTH_INVALID_REFRESH_RESPONSE") code)), runtime_clear false None w)
    end.

(** [refreshAuthentication]: joins the refresh under way or starts one; without
    [navigator.locks] its first piece runs at once. *)
Definition refreshAuthentication (has_locks : bool) (w : World) : World :=
  match refreshPromise w with
  | Some _ => w
  | None =>
      let epoch := authEpoch w in
      if has_locks then set_promise (Some (mkRun epoch ph_lock)) w
      else let '(phase, w) := run_begin epoch 0 true w in set_promise (Some (mkRun epoch phase)) w
  end.

(** ** Answers from memory *)

(** [auth.accessExpiresAt <= Math.floor(Date.now() / 1000)], the clock in
    milliseconds. *)
Definition seconds (now : Z) : number := num_of_Z (now / 1000).

(** [Boolean(token)] *)
Definition truthy_string (s : option jsstring) : bool := match s with Some (_ :: _) => true | _ => false end.
(** [Boolean(x)] *)
Definition truthy_number (x : option number) : bool :=
  match x with Some x => negb (isNaN x) && negb (num_eqb x num_zero) | None => false end.

Definition currentValidAuthBundle (now : Z) (s : AuthStore) : option AuthBundle :=
  match user s, accessToken s, accessExpiresAt s, session s with
  | Some u, Some token, Some expires, Some ses =>
      if truthy_string (Some token) && truthy_number (Some expires) && negb (num_leb expires (seconds now))
      then Some (mkBundle token (js "Bearer") expires u ses) else None
  | _, _, _, _ => None
  end.

(** A promise: already decided, or the one of the refresh under way. *)
Inductive Answer := decided (outcome : RefreshOutcome) | awaits_refresh.

Definition resolveAuthentication (has_locks : bool) (now : Z) (w : World) : Answer * World :=
  match currentValidAuthBundle now (auth w) with
  | Some bundle => (decided (authenticated bundle), set_auth (setBootstrapState bs_complete) w)
  | None =>
      let stale := match user (auth w), session (auth w) with Some _, Some _ => true | _, _ => false end in
      match bootstrapState (auth w), stale with
      | bs_complete, false => (decided anonymous, w)
      | _, _ => (awaits_refresh, refreshAuthentication has_locks (set_auth (setBootstrapState bs_checking) w))
      end
  end.

(** [part.indexOf('=')], [None] for -1. *)
Fixpoint index_of (c : jschar) (s : jsstring) : option nat :=
  match s with
  | [] => None
  | d :: s' => if d =? c then Some O else option_map S (index_of c s')
  end.

(** [readCookie] over the parts of the cookie string. *)
Fixpoint cookie_in (parts : list jsstring) (name : jsstring) : option jsstring :=
  match parts with
  | [] => None
  | part :: rest =>
      match index_of 61 part with
      | None => cookie_in rest name
      | Some separator =>
          if str_eqb (trim (take separator part)) name then Some (trim (drop (S separator) part))
          else cookie_in rest name
      end
  end.

Definition readCookie (cookieHeader name : jsstring) : option jsstring := cookie_in (split_char 59 cookieHeader) name.

(** [cookie] is [None] when there is no [document]. *)
Definition hasSessionHint (cookie : option jsstring) : bool :=
  match cookie with
  | None => true
  | Some header => match readCookie header (js "new_api_has_session") with Some _ => true | None => false end
  end.

Definition bootstrapAuthentication (has_locks : bool) (cookie : option jsstring) (now : Z) (w : World)
    : Answer * World :=
  match currentValidAuthBundle now (auth w), hasSessionHint cookie, user (auth w), session (auth w) with
  | None, false, None, None => (decided anonymous, w)
  | _, _, _, _ => resolveAuthentication has_locks now w
  end.

(** ** Headers *)

(** The [Authorization] header of [getCommonHeaders]. *)
Definition authorization (s : AuthStore) : option jsstring :=
  match accessToken s with
  | Some ((_ :: _) as token) => Some (js "Bearer " ++ token)
  | _ => None
  end.

(** [auth.accessToken && auth.accessExpiresAt && auth.accessExpiresAt > limit] *)
Definition fresh_until (limit : number) (s : AuthStore) : bool :=
  truthy_string (accessToken s) && truthy_number (accessExpiresAt s)
  && match accessExpiresAt s with Some expires => num_ltb limit expires | None => false end.

Inductive HeaderAnswer := headers (authorization : option jsstring) | headers_await_refresh | headers_error (message : string).

(** [getFreshAuthHeaders] up to its await, and after it. *)
Definition getFreshAuthHeaders (has_locks : bool) (now : Z) (w : World) : HeaderAnswer * World :=
  if fresh_until (num_of_Z (now / 1000 + 60)) (auth w) then (headers (authorization (auth w)), w)
  else (headers_await_refresh, refreshAuthentication has_locks w).

Definition freshHeadersAfterRefresh (now : Z) (outcome : RefreshOutcome) (w : World) : HeaderAnswer :=
  match outcome with
  | authenticated _ => headers (authorization (auth w))
  | _ =>
      if fresh_until (seconds now) (auth w) then headers (authorization (auth w))
      else match outcome with
           | transient_error _ => headers_error "Request failed"
           | _ => headers_error "Session expired!"
           end
  end.

(** ** Other tabs *)

(** The listener of [RootComponent]; the flag tells a reload. *)
Definition on_sync_event (e : SyncEvent) (w : World) : World * bool :=
  let current := session_sid (auth w) in
  match e with
  | authenticated_event sid =>
      match current with
      | Some c => if str_eqb sid c then (w, false)
                  else (if str_eqb c [] then w else clearAuthentication false bs_complete w, true)
      | None => (w, true)
      end
  | signed_out_event sid =>
      match current with
      | Some c => if negb (str_eqb c []) && str_eqb sid c then (clearAuthentication false bs_complete w, false) else (w, false)
      | None => (w, false)
      end
  end.

(** ** Pieces of execution *)
Inductive event :=
| ev_login (value : jsval) (synchronizeTabs : bool)
| ev_rotation (value : jsval)
| ev_clear (synchronizeTabs : bool)
| ev_set_user (u : option AuthUser)
| ev_set_pending (p : option jsval)
| ev_sync (e : SyncEvent)
| ev_refresh (has_locks : bool)
| ev_resolve (has_locks : bool) (now : Z)
| ev_bootstrap (has_locks : bool) (cookie : option jsstring) (now : Z)
| ev_headers (has_locks : bool) (now : Z)
| ev_lock
| ev_response (r : AuthRefreshHTTPResponse)
| ev_timer
| ev_finally.

(** Resume the refresh under way. *)
Definition resume (f : Z → RunPhase → option (RunPhase * World)) (w : World) : option World :=
  match refreshPromise w with
  | Some (mkRun epoch phase) =>
      match f epoch phase with
      | Some (phase', w') => Some (set_promise (Some (mkRun epoch phase')) w')
      | None => None
      end
  | None => None
  end.

(** The callers of [applyAuthBundle] check the value with [isAuthBundle]; a
    rotation that throws changes nothing. *)
Definition step (e : event) (w : World) : option World :=
  match e with
  | ev_login v sync => if isAuthBundle v then Some (applyAuthBundle (to_bundle v) sync w) else None
  | ev_rotation v => Some (match applyAuthRotation v w with Ok w' => w' | _ => w end)
  | ev_clear sync => Some (clearAuthentication sync bs_complete w)
  | ev_set_user u => Some (set_auth (setUser u) w)
  | ev_set_pending p => Some (set_auth (setPendingLoginVerification p) w)
  | ev_sync e => Some (fst (on_sync_event e w))
  | ev_refresh locks => Some (refreshAuthentication locks w)
  | ev_resolve locks now => Some (snd (resolveAuthentication locks now w))
  | ev_bootstrap locks cookie now => Some (snd (bootstrapAuthentication locks cookie now w))
  | ev_headers locks now => Some (snd (getFreshAuthHeaders locks now w))
  | ev_lock => resume (λ epoch phase, match phase with ph_lock => Some (run_begin epoch 0 true w) | _ => None end) w
  | ev_response r =>
      resume (λ epoch phase, match phase with
        | ph_request attempt allow => Some (run_response epoch attempt allow r w)
        | _ => None end) w
  | ev_timer =>
      resume (λ epoch phase, match phase with
        | ph_wait _ attempt allow => Some (run_begin epoch attempt allow w)
        | _ => None end) w
  | ev_finally =>
      match refreshPromise w with
      | Some (mkRun _ (ph_settled _)) => Some (set_promise None w)
      | _ => None
      end
  end.

Fixpoint execute (es : list event) (w : World) : option World :=
  match es with
  | [] => Some w
  | e :: es' => match step e w with Some w' => execute es' w' | None => None end
  end.

Inductive reachable : World → Prop :=
| reachable_initial : reachable initial_world
| reachable_step w e w' : reachable w → step e w = Some w' → reachable w'.
