(* ===== verification/AuthSessionFacts.v ===== *)
(** * Login sessions: what every interleaving keeps

    An invariant of all reachable worlds, by induction on the pieces executed;
    a refresh that was overtaken by a login or a sign-out changes nothing any
    more; a retry after a session mismatch never repeats the stale session; and
    a refresh ends after at most eight requests, whatever the server answers and
    whatever else runs in between. *)
From S2P Require Import Prelude JsString JsNumber JsValue AuthSession.
Local Open Scope Z_scope.

(** ** The invariant *)

(** The token, its expiry and the session come and go together, and what is kept
    passed the checks on the server's answer. *)
Definition store_ok (s : AuthStore) : Prop :=
  match accessToken s, accessExpiresAt s, session s with
  | Some token, Some expires, Some ses =>
      token ≠ [] ∧ isFinite expires = true ∧ num_ltb num_zero expires = true ∧ s_sid ses ≠ []
  | None, None, None => True
  | _, _, _ => False
  end.

(** While no login or sign-out has overtaken the retry after a session mismatch,
    nobody is signed in. *)
Definition retry_signed_out (w : World) : Prop :=
  match refreshPromise w with
  | Some (mkRun epoch (ph_request _ false)) | Some (mkRun epoch (ph_wait _ _ false)) =>
      epoch = authEpoch w → session (auth w) = None
  | _ => True
  end.

Record good_world (w : World) : Prop := {
  good_store : store_ok (auth w);
  good_epoch : match refreshPromise w with Some run => run_epoch run ≤ authEpoch w | None => True end;
  good_attempt : match refreshPromise w with
                 | Some (mkRun _ (ph_request n _)) | Some (mkRun _ (ph_wait _ n _)) => (n ≤ 3)%nat
                 | _ => True end;
  good_retry : retry_signed_out w;
}.

Lemma nonempty_string v : is_nonempty_string v = true → string_field v ≠ [].
Proof. destruct v as [| | | |[|c s]| |]; done. Qed.

Lemma session_sid_ok v : isLoginSession v = true → s_sid (to_session v) ≠ [].
Proof. unfold isLoginSession. intros H. bool_hyps. by apply nonempty_string. Qed.

Lemma token_fields_ok v : hasValidTokenFields v = true →
  string_field (property v "access_token") ≠ [] ∧ isFinite (number_field (property v "access_expires_at")) = true
  ∧ num_ltb num_zero (number_field (property v "access_expires_at")) = true.
Proof.
  unfold hasValidTokenFields. intros H. bool_hyps.
  destruct (property v "access_expires_at"); try done. bool_hyps. split_and!; try done. by apply nonempty_string.
Qed.

(** A bundle that passed the checks. *)
Definition bundle_ok (b : AuthBundle) : Prop :=
  b_access_token b ≠ [] ∧ isFinite (b_access_expires_at b) = true ∧ num_ltb num_zero (b_access_expires_at b) = true
  ∧ s_sid (b_session b) ≠ [].

Lemma checked_bundle_ok v : isAuthBundle v = true → bundle_ok (to_bundle v).
Proof.
  unfold isAuthBundle. intros H. bool_hyps. unfold bundle_ok. simpl.
  destruct (token_fields_ok v) as (? & ? & ?); [done|]. split_and!; try done. by apply session_sid_ok.
Qed.

Lemma parseBundle_ok v b : parseBundle v = Some b → bundle_ok b.
Proof. unfold parseBundle. destruct (isAuthBundle v) eqn:E; [|done]. intros [= <-]. by apply checked_bundle_ok. Qed.

(** ** What the operations do to the world *)
Lemma apply_fields b sync w :
  auth (applyAuthBundle b sync w) = setBundle b (auth w) ∧ authEpoch (applyAuthBundle b sync w) = authEpoch w + 1
  ∧ refreshPromise (applyAuthBundle b sync w) = refreshPromise w ∧ sent (applyAuthBundle b sync w) = sent w.
Proof. unfold applyAuthBundle, publishAuthSessionEvent. by repeat case_match. Qed.

Lemma clear_fields sync b w :
  auth (clearAuthentication sync b w) = reset b (auth w) ∧ authEpoch (clearAuthentication sync b w) = authEpoch w + 1
  ∧ refreshPromise (clearAuthentication sync b w) = refreshPromise w ∧ sent (clearAuthentication sync b w) = sent w.
Proof. unfold clearAuthentication, publishAuthSessionEvent. by repeat case_match. Qed.

Lemma setBundle_ok b s : bundle_ok b → store_ok (setBundle b s).
Proof. intros (? & ? & ? & ?). done. Qed.

(** An operation that installs a new store under a new epoch. *)
Lemma renew_good w w' : good_world w → store_ok (auth w') → authEpoch w' = authEpoch w + 1 →
  refreshPromise w' = refreshPromise w → good_world w'.
Proof.
  intros [H1 H2 H3 H4] Hs He Hp. split; rewrite ?Hp; [done| |done|].
  - destruct (refreshPromise w); [lia|done].
  - unfold retry_signed_out. rewrite Hp, He. destruct (refreshPromise w) as [[ep ph]|]; [|done].
    simpl in H2. destruct ph as [|n []|d n []|]; try done; intros; lia.
Qed.

(** An operation that keeps the token, the session and the epoch. *)
Lemma keep_good w w' : good_world w → authEpoch w' = authEpoch w → refreshPromise w' = refreshPromise w →
  accessToken (auth w') = accessToken (auth w) → accessExpiresAt (auth w') = accessExpiresAt (auth w) →
  session (auth w') = session (auth w) → good_world w'.
Proof.
  intros [H1 H2 H3 H4] He Hp Ht Hx Hs. split; rewrite ?Hp, ?He; try done.
  - unfold store_ok. by rewrite Ht, Hx, Hs.
  - unfold retry_signed_out. by rewrite Hp, He, Hs.
Qed.

Lemma apply_good b sync w : bundle_ok b → good_world w → good_world (applyAuthBundle b sync w).
Proof.
  intros Hb H. destruct (apply_fields b sync w) as (Ha & He & Hp & _). eapply renew_good; [done| |done|done].
  rewrite Ha. by apply setBundle_ok.
Qed.

Lemma clear_good sync b w : good_world w → good_world (clearAuthentication sync b w).
Proof.
  intros H. destruct (clear_fields sync b w) as (Ha & He & Hp & _). eapply renew_good; [done| |done|done]. by rewrite Ha.
Qed.

Lemma rotation_good v w w' : good_world w → applyAuthRotation v w = Ok w' → good_world w'.
Proof.
  unfold applyAuthRotation. intros Hg. destruct (negb (isAuthTokenRotation v)) eqn:E; [done|].
  apply negb_false_iff in E. unfold isAuthTokenRotation in E. bool_hyps.
  destruct (user (auth w)) as [u|], (session (auth w)) as [s|]; try done.
  destruct (negb _); [done|]. intros [= <-]. apply apply_good; [|done].
  destruct (token_fields_ok v) as (? & ? & ?); [done|]. unfold bundle_ok; simpl. split_and!; try done. by apply session_sid_ok.
Qed.

(** Installing the phase of the refresh under way. *)
Lemma promise_good w epoch phase : store_ok (auth w) → epoch ≤ authEpoch w →
  match phase with ph_request n _ | ph_wait _ n _ => (n ≤ 3)%nat | _ => True end →
  match phase with
  | ph_request _ false | ph_wait _ _ false => epoch = authEpoch w → session (auth w) = None
  | _ => True
  end → good_world (set_promise (Some (mkRun epoch phase)) w).
Proof. intros H1 H2 H3 H4. by split. Qed.

Lemma settled_good w epoch o : store_ok (auth w) → epoch ≤ authEpoch w →
  good_world (set_promise (Some (mkRun epoch (ph_settled o))) w).
Proof. intros. by apply promise_good. Qed.

Lemma begin_good epoch n allow w : store_ok (auth w) → epoch ≤ authEpoch w → (n ≤ 3)%nat →
  (allow = false → epoch = authEpoch w → session (auth w) = None) →
  good_world (let '(phase, w') := run_begin epoch n allow w in set_promise (Some (mkRun epoch phase)) w').
Proof.
  intros Hs He Hn Hr. unfold run_begin. destruct (Z.eqb_spec (authEpoch w) epoch) as [E|E]; simpl.
  - apply promise_good; simpl; try done. destruct allow; auto.
  - by apply settled_good.
Qed.

Lemma start_good locks w : good_world w → good_world (refreshAuthentication locks w).
Proof.
  intros H. pose proof H as [H1 H2 H3 H4]. unfold refreshAuthentication. destruct (refreshPromise w) as [r|]; [done|].
  destruct locks.
  - apply promise_good; simpl; [done|lia|done|done].
  - pose proof (begin_good (authEpoch w) 0 true w H1) as Hb. apply Hb; [lia|lia|done].
Qed.

Lemma response_good epoch n allow r w : good_world w → refreshPromise w = Some (mkRun epoch (ph_request n allow)) →
  good_world (let '(phase, w') := run_response epoch n allow r w in set_promise (Some (mkRun epoch phase)) w').
Proof.
  intros [H1 H2 H3 H4] Hp. rewrite Hp in *. simpl in H2. unfold retry_signed_out in H4. rewrite Hp in H4.
  assert (∀ sync b o, good_world (set_promise (Some (mkRun epoch (ph_settled o))) (clearAuthentication sync b w))) as Hclear.
  { intros sync b o. destruct (clear_fields sync b w) as (Ha & He & _). apply settled_good; [by rewrite Ha|]. rewrite He. lia. }
  unfold run_response. destruct (Z.eqb_spec (authEpoch w) epoch) as [E|E]; cbn [negb]; [|by apply settled_good].
  set (data := property _ "data"). set (success := match property _ "success" with JBool b => b | _ => false end).
  set (code := match property _ "code" with JString s => Some s | _ => None end). clearbody success code.
  destruct (parseBundle data) as [b|] eqn:Eb; [destruct success|].
  { destruct (apply_fields b false w) as (Ha & He & _). apply settled_good; [|rewrite He; lia].
    rewrite Ha. apply setBundle_ok. by eapply parseBundle_ok. }
  all: destruct (_ && _); [destruct (nth_error refreshRaceDelays n) as [delay|] eqn:En; [|apply Hclear]|].
  1, 3: assert (n < 3)%nat by (change 3%nat with (length refreshRaceDelays); apply nth_error_Some; by rewrite En);
    apply promise_good; [done|lia|lia|by destruct allow].
  all: destruct (_ && _); [destruct allow; [|apply Hclear]|].
  1, 3: apply (begin_good epoch 0 false (runtime_clear false (Some bs_idle) w)); simpl; (done || lia).
  all: destruct (_ =? 401); [apply Hclear|].
  all: destruct (_ || _ || _); [apply settled_good; simpl; [exact H1|lia]|apply Hclear].
Qed.

Lemma resolve_good locks now w : good_world w → good_world (snd (resolveAuthentication locks now w)).
Proof.
  intros H. unfold resolveAuthentication. assert (∀ b, good_world (set_auth (setBootstrapState b) w)) as Hb
    by (intros b; by eapply keep_good).
  by repeat case_match; simpl; try apply start_good.
Qed.

Lemma sync_good e w : good_world w → good_world (fst (on_sync_event e w)).
Proof. intros H. unfold on_sync_event. repeat case_match; simpl; auto using clear_good. Qed.

Lemma step_good e w w' : good_world w → step e w = Some w' → good_world w'.
Proof.
  intros Hg. destruct e; simpl.
  - destruct (isAuthBundle value) eqn:E; [|done]. intros [= <-]. apply apply_good; [by apply checked_bundle_ok|done].
  - intros [= <-]. destruct (applyAuthRotation value w) eqn:E; try done. by eapply rotation_good.
  - intros [= <-]. by apply clear_good.
  - intros [= <-]. by eapply keep_good.
  - intros [= <-]. by eapply keep_good.
  - intros [= <-]. by apply sync_good.
  - intros [= <-]. by apply start_good.
  - intros [= <-]. by apply resolve_good.
  - intros [= <-]. unfold bootstrapAuthentication. repeat case_match; simpl; auto using resolve_good.
  - intros [= <-]. unfold getFreshAuthHeaders. case_match; simpl; auto using start_good.
  - unfold resume. pose proof Hg as [H1 H2 H3 H4]. destruct (refreshPromise w) as [[ep ph]|] eqn:Ep; [|done].
    destruct ph; try done. pose proof (begin_good ep 0 true w H1 H2 ltac:(lia) ltac:(done)) as Hb.
    destruct (run_begin ep 0 true w) as [ph' w1]. by intros [= <-].
  - unfold resume. destruct (refreshPromise w) as [[ep ph]|] eqn:Ep; [|done]. destruct ph; try done.
    pose proof (response_good _ _ _ r _ Hg Ep) as Hb. destruct (run_response _ _ _ _ _) as [ph' w1]. by intros [= <-].
  - unfold resume. pose proof Hg as [H1 H2 H3 H4]. destruct (refreshPromise w) as [[ep ph]|] eqn:Ep; [|done].
    destruct ph; try done. unfold retry_signed_out in H4. rewrite Ep in H4.
    pose proof (begin_good ep raceAttempt allowMismatchRetry w H1 H2 H3) as Hb.
    destruct (run_begin _ _ _ _) as [ph' w1]. intros [= <-]. apply Hb. intros ->. done.
  - pose proof Hg as [H1 H2 H3 H4]. destruct (refreshPromise w) as [[ep []]|]; try done. intros [= <-]. by split.
Qed.

Lemma reachable_good w : reachable w → good_world w.
Proof. induction 1 as [|w e w' _ IH H]; [by split|]. by eapply step_good. Qed.

(** ** Resumptions *)

(** The pieces of the refresh under way. *)
Definition resumption (e : event) : bool :=
  match e with ev_lock | ev_response _ | ev_timer => true | _ => false end.

Definition phase_of (w : World) : RunPhase :=
  match refreshPromise w with Some run => run_phase run | None => ph_settled anonymous end.

(** What the awaited thing brings, given the answer of the server. *)
Definition awaited (r : AuthRefreshHTTPResponse) (phase : RunPhase) : event :=
  match phase with
  | ph_lock => ev_lock
  | ph_request _ _ => ev_response r
  | ph_wait _ _ _ => ev_timer
  | ph_settled _ => ev_finally
  end.

Lemma awaited_enabled r w run : refreshPromise w = Some run → is_Some (step (awaited r (run_phase run)) w).
Proof.
  intros E. destruct run as [ep ph]. destruct ph; simpl; unfold resume; rewrite E; simpl; try done.
  - by destruct (run_begin _ _ _ _).
  - by destruct (run_response _ _ _ _ _).
  - by destruct (run_begin _ _ _ _).
Qed.

Lemma refresh_joins locks w run : refreshPromise w = Some run → refreshAuthentication locks w = w.
Proof. intros E. unfold refreshAuthentication. by rewrite E. Qed.

(** A piece that is not part of the refresh leaves it as it is and sends
    nothing. *)
Lemma other_keeps_run e w w' run : refreshPromise w = Some run → resumption e = false → e ≠ ev_finally →
  step e w = Some w' → refreshPromise w' = Some run ∧ authEpoch w ≤ authEpoch w' ∧ sent w' = sent w.
Proof.
  intros Hp Hr Hf.
  assert (∀ f locks, refreshAuthentication locks (set_auth f w) = set_auth f w) as Hj by (intros; by eapply refresh_joins).
  assert (∀ locks now, let w' := snd (resolveAuthentication locks now w) in
    refreshPromise w' = Some run ∧ authEpoch w ≤ authEpoch w' ∧ sent w' = sent w) as Hres.
  { intros locks now. unfold resolveAuthentication. repeat case_match; simpl; rewrite ?Hj; simpl; split_and!; auto; lia. }
  assert (∀ b sync, let w' := applyAuthBundle b sync w in
    refreshPromise w' = Some run ∧ authEpoch w ≤ authEpoch w' ∧ sent w' = sent w) as Happ.
  { intros b sync. destruct (apply_fields b sync w) as (_ & He & Hq & Hs). simpl. rewrite Hq, He, Hs. split_and!; auto; lia. }
  assert (∀ sync b, let w' := clearAuthentication sync b w in
    refreshPromise w' = Some run ∧ authEpoch w ≤ authEpoch w' ∧ sent w' = sent w) as Hcl.
  { intros sync b. destruct (clear_fields sync b w) as (_ & He & Hq & Hs). simpl. rewrite Hq, He, Hs. split_and!; auto; lia. }
  assert (refreshPromise w = Some run ∧ authEpoch w ≤ authEpoch w ∧ sent w = sent w) as Hid by (split_and!; auto; lia).
  destruct e; simpl in *; try done.
  - destruct (isAuthBundle value); [|done]. intros [= <-]. apply Happ.
  - intros [= <-]. unfold applyAuthRotation. repeat case_match; simplify_eq; auto; apply Happ.
  - intros [= <-]. apply Hcl.
  - by intros [= <-].
  - by intros [= <-].
  - intros [= <-]. unfold on_sync_event. repeat case_match; simpl; auto; apply Hcl.
  - intros [= <-]. by erewrite refresh_joins.
  - intros [= <-]. apply Hres.
  - intros [= <-]. unfold bootstrapAuthentication. repeat case_match; simpl; auto; apply Hres.
  - intros [= <-]. unfold getFreshAuthHeaders. case_match; simpl; auto. by erewrite refresh_joins.
Qed.

(** A resumption keeps the epoch the refresh was started with. *)
Lemma resumption_keeps_epoch e w w' run : refreshPromise w = Some run → resumption e = true →
  step e w = Some w' → ∃ phase, refreshPromise w' = Some (mkRun (run_epoch run) phase).
Proof.
  intros Hp Hr. destruct run as [ep ph]. destruct e; try done; simpl; unfold resume; rewrite Hp; destruct ph; try done.
  - destruct (run_begin _ _ _ _). intros [= <-]. by eexists.
  - destruct (run_response _ _ _ _ _). intros [= <-]. by eexists.
  - destruct (run_begin _ _ _ _). intros [= <-]. by eexists.
Qed.

(** ** Overtaken refreshes *)
Definition overtaken (w : World) : Prop :=
  ∃ run, refreshPromise w = Some run ∧ run_epoch run < authEpoch w.

(** What a resumption of an overtaken refresh leaves: only its own phase has
    changed, to the error that tells it was superseded. *)
Definition inert_resumption (w w' : World) : Prop :=
  ∃ epoch, w' = set_promise (Some (mkRun epoch (ph_settled (transient_error superseded_error)))) w.

Lemma overtaken_inert e w w' : overtaken w → resumption e = true → step e w = Some w' → inert_resumption w w'.
Proof.
  intros ([ep ph] & Hp & He) Hr. simpl in He.
  assert (negb (authEpoch w =? ep) = true) as Hn by (apply negb_true_iff, Z.eqb_neq; lia).
  destruct e; try done; simpl; unfold resume; rewrite Hp; destruct ph; try done;
    unfold run_begin, run_response; rewrite Hn; intros [= <-]; by eexists.
Qed.

Lemma overtaken_lasts e w w' : overtaken w → step e w = Some w' → e ≠ ev_finally → overtaken w'.
Proof.
  intros Ho H Hf. destruct (resumption e) eqn:Er.
  - destruct (overtaken_inert _ _ _ Ho Er H) as (ep' & ->). destruct Ho as (run & Hp & He).
    destruct (resumption_keeps_epoch _ _ _ _ Hp Er H) as (ph & E). simpl in E. injection E as ->.
    eexists; split; [done|]. done.
  - destruct Ho as (run & Hp & He). destruct (other_keeps_run _ _ _ _ Hp Er Hf H) as (Hp' & Hle & _).
    exists run. split; [done|lia].
Qed.

Lemma overtaken_trace es : ∀ w w', overtaken w → execute es w = Some w' → ev_finally ∉ es → overtaken w'.
Proof.
  induction es as [|e es IH]; simpl; intros w w' Ho; [by intros [= <-]|].
  destruct (step e w) as [w1|] eqn:E; [|done]. intros H [Hf Hin]%not_elem_of_cons.
  eapply IH; [|done|done]. eapply overtaken_lasts; [done|done|]. congruence.
Qed.

(** A login or a sign-out. *)
Definition renews (e : event) : bool := match e with ev_login _ _ | ev_clear _ => true | _ => false end.

Lemma renewing_overtakes e w w' run : good_world w → renews e = true → refreshPromise w = Some run →
  step e w = Some w' → overtaken w'.
Proof.
  intros [_ H2 _ _] Hr Hp H. rewrite Hp in H2. destruct e; try done; simpl in H.
  - destruct (isAuthBundle value); [|done]. injection H as <-.
    destruct (apply_fields (to_bundle value) synchronizeTabs w) as (_ & He & Hq & _).
    exists run. rewrite Hq, He. split; [done|lia].
  - injection H as <-. destruct (clear_fields synchronizeTabs bs_complete w) as (_ & He & Hq & _).
    exists run. rewrite Hq, He. split; [done|lia].
Qed.

(** ** Requests and resumptions of one refresh *)
Definition requests_left (phase : RunPhase) : nat :=
  match phase with
  | ph_lock => 8
  | ph_request n true => 3 - n + 4
  | ph_request n false => 3 - n
  | ph_wait _ n true => 4 - n + 4
  | ph_wait _ n false => 4 - n
  | ph_settled _ => 0
  end.

Definition resumptions_left (phase : RunPhase) : nat :=
  match phase with
  | ph_lock => 15
  | ph_request n true => 8 + 2 * (3 - n)
  | ph_request n false => 1 + 2 * (3 - n)
  | ph_wait _ n true => 9 + 2 * (3 - n)
  | ph_wait _ n false => 2 + 2 * (3 - n)
  | ph_settled _ => 0
  end.

Lemma begin_budget epoch n allow w phase w' : (n ≤ 3)%nat → run_begin epoch n allow w = (phase, w') →
  (length (sent w') + requests_left phase ≤ length (sent w) + S (requests_left (ph_request n allow)))%nat
  ∧ (resumptions_left phase ≤ resumptions_left (ph_request n allow))%nat.
Proof.
  intros Hn. unfold run_begin. destruct (negb _); intros [= <- <-]; simpl; [destruct allow; lia|].
  rewrite length_app. simpl. destruct allow; lia.
Qed.

Lemma response_budget epoch n allow r w phase w' : (n ≤ 3)%nat → run_response epoch n allow r w = (phase, w') →
  (length (sent w') + requests_left phase ≤ length (sent w) + requests_left (ph_request n allow))%nat
  ∧ (resumptions_left phase < resumptions_left (ph_request n allow))%nat.
Proof.
  intros Hn. assert (∀ o w0, sent w0 = sent w → (ph_settled o, w0) = (phase, w') →
    (length (sent w') + requests_left phase ≤ length (sent w) + requests_left (ph_request n allow))%nat
    ∧ (resumptions_left phase < resumptions_left (ph_request n allow))%nat) as Hset.
  { intros o w0 Hs [= <- <-]. rewrite Hs. simpl. destruct allow; lia. }
  assert (∀ sync b, sent (clearAuthentication sync b w) = sent w) as Hc by (intros sync b; by destruct (clear_fields sync b w) as (_ & _ & _ & ?)).
  unfold run_response. destruct (negb _); [by apply Hset|].
  set (data := property _ "data"). set (success := match property _ "success" with JBool b => b | _ => false end).
  set (code := match property _ "code" with JString s => Some s | _ => None end). clearbody success code.
  assert (∀ b, sent (applyAuthBundle b false w) = sent w) as Ha by (intros b; by destruct (apply_fields b false w) as (_ & _ & _ & ?)).
  destruct (parseBundle data) as [b|]; [destruct success; [apply Hset, Ha|]|].
  all: destruct (_ && _); [destruct (nth_error refreshRaceDelays n) as [delay|] eqn:En; [|apply Hset, Hc]|].
  1, 3: assert (n < 3)%nat by (change 3%nat with (length refreshRaceDelays); apply nth_error_Some; by rewrite En);
    intros [= <- <-]; simpl; destruct allow; lia.
  all: destruct (_ && _); [destruct allow; [|apply Hset, Hc]|].
  1, 3: intros [H1 H2]%begin_budget; [|lia]; simpl in *; lia.
  all: destruct (_ =? 401); [apply Hset, Hc|].
  all: destruct (_ || _ || _); [by apply Hset|apply Hset, Hc].
Qed.

Lemma step_budget e w w' run : good_world w → refreshPromise w = Some run → step e w = Some w' → e ≠ ev_finally →
  ∃ run', refreshPromise w' = Some run'
    ∧ (length (sent w') + requests_left (run_phase run') ≤ length (sent w) + requests_left (run_phase run))%nat
    ∧ (resumptions_left (run_phase run') + (if resumption e then 1 else 0) ≤ resumptions_left (run_phase run))%nat.
Proof.
  intros Hg Hp H Hf. destruct (resumption e) eqn:Er.
  - destruct Hg as [_ _ H3 _]. rewrite Hp in H3. destruct run as [ep ph].
    destruct e; try done; simpl in H; unfold resume in H; rewrite Hp in H; destruct ph; try done.
    + destruct (run_begin _ _ _ _) as [ph' w1] eqn:E. injection H as <-. apply begin_budget in E; [|lia].
      eexists; split; [done|]. simpl in *. lia.
    + destruct (run_response _ _ _ _ _) as [ph' w1] eqn:E. injection H as <-. apply response_budget in E; [|done].
      eexists; split; [done|]. simpl in *. lia.
    + destruct (run_begin _ _ _ _) as [ph' w1] eqn:E. injection H as <-. apply begin_budget in E; [|done].
      eexists; split; [done|]. simpl in *. destruct allowMismatchRetry; lia.
  - destruct (other_keeps_run _ _ _ _ Hp Er Hf H) as (Hp' & _ & Hs). exists run. rewrite Hs. split; [done|lia].
Qed.

Definition resumptions (es : list event) : nat := length (List.filter resumption es).

Lemma trace_budget es : ∀ w w' run, good_world w → refreshPromise w = Some run → execute es w = Some w' → ev_finally ∉ es →
  ∃ run', refreshPromise w' = Some run'
    ∧ (length (sent w') + requests_left (run_phase run') ≤ length (sent w) + requests_left (run_phase run))%nat
    ∧ (resumptions_left (run_phase run') + resumptions es ≤ resumptions_left (run_phase run))%nat.
Proof.
  induction es as [|e es IH]; intros w w' run Hg Hp H Hin.
  - injection H as <-. exists run. unfold resumptions. simpl. split; [done|lia].
  - simpl in H. destruct (step e w) as [w1|] eqn:E; [|done]. apply not_elem_of_cons in Hin as [Hne Hin].
    destruct (step_budget e w w1 run Hg Hp E) as (run1 & Hp1 & Hs1 & Hr1); [congruence|].
    destruct (IH w1 w' run1) as (run2 & Hp2 & Hs2 & Hr2); [by eapply step_good|done|done|done|].
    exists run2. unfold resumptions in *. simpl. destruct (resumption e); simpl; split_and!; try done; lia.
Qed.

(** A request names the session of the store it was sent from. *)
Definition sends_current (w w' : World) : Prop :=
  ∃ n allow, refreshPromise w' = Some (mkRun (authEpoch w') (ph_request n allow))
    ∧ sent w' = sent w ++ [session_sid (auth w')].

Lemma begin_sends epoch n allow w : let '(phase, w') := run_begin epoch n allow w in
  let w' := set_promise (Some (mkRun epoch phase)) w' in sent w' = sent w ∨ sends_current w w'.
Proof.
  unfold run_begin. destruct (Z.eqb_spec (authEpoch w) epoch) as [<-|]; simpl; [|by left].
  right. by exists n, allow.
Qed.

Lemma response_sends epoch n allow r w : let '(phase, w') := run_response epoch n allow r w in
  let w' := set_promise (Some (mkRun epoch phase)) w' in sent w' = sent w ∨ sends_current w w'.
Proof.
  assert (∀ sync b, sent (clearAuthentication sync b w) = sent w) as Hc by (intros sync b; by destruct (clear_fields sync b w) as (_ & _ & _ & ?)).
  assert (∀ b, sent (applyAuthBundle b false w) = sent w) as Ha by (intros b; by destruct (apply_fields b false w) as (_ & _ & _ & ?)).
  unfold run_response. destruct (negb _); [by left|].
  set (data := property _ "data"). set (success := match property _ "success" with JBool b => b | _ => false end).
  set (code := match property _ "code" with JString s => Some s | _ => None end). clearbody success code.
  destruct (parseBundle data) as [b|]; [destruct success; [left; apply Ha|]|].
  all: destruct (_ && _); [destruct (nth_error refreshRaceDelays n) as [delay|]; left; [done|apply Hc]|].
  all: destruct (_ && _); [destruct allow; [|left; apply Hc]|].
  1, 3: exact (begin_sends epoch 0 false (set_auth (reset bs_idle) w)).
  all: destruct (_ =? 401); [left; apply Hc|].
  all: destruct (_ || _ || _); left; [done|apply Hc].
Qed.

Lemma start_sends locks w : sent (refreshAuthentication locks w) = sent w ∨ sends_current w (refreshAuthentication locks w).
Proof.
  unfold refreshAuthentication. destruct (refreshPromise w); [by left|]. destruct locks; [by left|].
  pose proof (begin_sends (authEpoch w) 0 true w) as H. by destruct (run_begin _ _ _ _).
Qed.

Lemma resolve_sends locks now w :
  sent (snd (resolveAuthentication locks now w)) = sent w ∨ sends_current w (snd (resolveAuthentication locks now w)).
Proof.
  unfold resolveAuthentication. pose proof (start_sends locks (set_auth (setBootstrapState bs_checking) w)) as H.
  repeat case_match; simpl; auto.
Qed.

Lemma step_sends e w w' : step e w = Some w' → sent w' = sent w ∨ sends_current w w'.
Proof.
  assert (∀ sync b, sent (clearAuthentication sync b w) = sent w) as Hc by (intros sync b; by destruct (clear_fields sync b w) as (_ & _ & _ & ?)).
  assert (∀ b sync, sent (applyAuthBundle b sync w) = sent w) as Ha by (intros b sync; by destruct (apply_fields b sync w) as (_ & _ & _ & ?)).
  destruct e; simpl.
  - destruct (isAuthBundle value); [|done]. intros [= <-]. left. apply Ha.
  - intros [= <-]. left. unfold applyAuthRotation. repeat case_match; simplify_eq; auto; apply Ha.
  - intros [= <-]. left. apply Hc.
  - intros [= <-]. by left.
  - intros [= <-]. by left.
  - intros [= <-]. left. unfold on_sync_event. repeat case_match; simpl; auto; apply Hc.
  - intros [= <-]. apply start_sends.
  - intros [= <-]. apply resolve_sends.
  - intros [= <-]. unfold bootstrapAuthentication. repeat case_match; simpl; auto; apply resolve_sends.
  - intros [= <-]. unfold getFreshAuthHeaders. case_match; simpl; auto. apply start_sends.
  - unfold resume. destruct (refreshPromise w) as [[ep []]|]; try done.
    pose proof (begin_sends ep 0 true w). destruct (run_begin _ _ _ _). by intros [= <-].
  - unfold resume. destruct (refreshPromise w) as [[ep []]|]; try done.
    pose proof (response_sends ep raceAttempt allowMismatchRetry r w). destruct (run_response _ _ _ _ _). by intros [= <-].
  - unfold resume. destruct (refreshPromise w) as [[ep []]|]; try done.
    pose proof (begin_sends ep raceAttempt allowMismatchRetry w). destruct (run_begin _ _ _ _). by intros [= <-].
  - destruct (refreshPromise w) as [[ep []]|]; try done. intros [= <-]. by left.
Qed.

(** Starting a refresh: at most one request has gone out. *)
Lemma start_budget e w w' run : refreshPromise w = None → step e w = Some w' → refreshPromise w' = Some run →
  (length (sent w') + requests_left (run_phase run) ≤ length (sent w) + 8)%nat.
Proof.
  intros Hp H Hp'.
  assert (∀ f locks, refreshPromise (refreshAuthentication locks (set_auth f w)) = Some run →
    (length (sent (refreshAuthentication locks (set_auth f w))) + requests_left (run_phase run) ≤ length (sent w) + 8)%nat) as Hs.
  { intros f locks. unfold refreshAuthentication. simpl. rewrite Hp. destruct locks; simpl; [intros [= <-]; simpl; lia|].
    unfold run_begin. simpl. rewrite Z.eqb_refl. simpl. intros [= <-]. simpl. rewrite length_app. simpl. lia. }
  assert (∀ locks, refreshAuthentication locks w = refreshAuthentication locks (set_auth (λ s, s) w)) as Hid by (by intros; destruct w).
  assert (∀ locks now, refreshPromise (snd (resolveAuthentication locks now w)) = Some run →
    (length (sent (snd (resolveAuthentication locks now w))) + requests_left (run_phase run) ≤ length (sent w) + 8)%nat) as Hres.
  { intros locks now. unfold resolveAuthentication. repeat case_match; simpl; auto; congruence. }
  assert (∀ sync b, refreshPromise (clearAuthentication sync b w) = None) as Hc
    by (intros sync b; destruct (clear_fields sync b w) as (_ & _ & -> & _); done).
  assert (∀ b sync, refreshPromise (applyAuthBundle b sync w) = None) as Ha
    by (intros b sync; destruct (apply_fields b sync w) as (_ & _ & -> & _); done).
  destruct e; simpl in H; unfold resume in H; rewrite ?Hp in H; try done.
  - destruct (isAuthBundle value); [|done]. injection H as <-. by rewrite Ha in Hp'.
  - injection H as <-. exfalso. unfold applyAuthRotation in Hp'. repeat case_match; simplify_eq; rewrite ?Ha in Hp'; congruence.
  - injection H as <-. by rewrite Hc in Hp'.
  - injection H as <-. simpl in Hp'. congruence.
  - injection H as <-. simpl in Hp'. congruence.
  - injection H as <-. exfalso. unfold on_sync_event in Hp'. repeat case_match; simpl in Hp'; rewrite ?Hc in Hp'; congruence.
  - injection H as <-. rewrite Hid in *. by apply Hs.
  - injection H as <-. by apply Hres.
  - injection H as <-. revert Hp'. unfold bootstrapAuthentication. repeat case_match; simpl; auto; congruence.
  - injection H as <-. revert Hp'. unfold getFreshAuthHeaders. case_match; simpl; [congruence|]. rewrite Hid. apply Hs.
Qed.

(** ** Properties *)

(** C21: in every reachable world the token, its expiry and the session are
    present or absent together, a token is not empty, its expiry is a finite
    positive time and the session has an id. *)
Theorem session_store_consistent w : reachable w → store_ok (auth w).
Proof. intros H. by apply reachable_good in H as []. Qed.

(** A request sent by the retry after a session mismatch never names a
    session: the stale id is not repeated. *)
Theorem retry_forgets_session w e w' epoch attempt : reachable w → step e w = Some w' →
  refreshPromise w' = Some (mkRun epoch (ph_request attempt false)) → sent w' ≠ sent w → sent w' = sent w ++ [None].
Proof.
  intros Hr H Hp Hs. pose proof (step_good _ _ _ (reachable_good _ Hr) H) as [_ _ _ Hretry].
  destruct (step_sends _ _ _ H) as [|(n & allow & Hp' & ->)]; [done|].
  unfold retry_signed_out in Hretry. rewrite Hp in Hretry, Hp'. injection Hp' as -> _ _.
  unfold session_sid. by rewrite Hretry.
Qed.

(** C18: a login or a sign-out wins over a refresh that was under way: from then
    on, whatever else runs in between, a resumption of that refresh changes
    neither the store nor the epoch, broadcasts and sends nothing, and ends it
    with the error that tells it was superseded. *)
Theorem newer_session_wins w run e w1 es w2 e' w3 : reachable w → refreshPromise w = Some run →
  renews e = true → step e w = Some w1 →
  execute es w1 = Some w2 → ev_finally ∉ es →
  resumption e' = true → step e' w2 = Some w3 →
  inert_resumption w2 w3.
Proof.
  intros Hr Hp He H1 Hes Hf He' H3. eapply overtaken_inert; [|done|done].
  eapply overtaken_trace; [|done|done]. eapply renewing_overtakes; [by apply reachable_good|done|done|done].
Qed.

(** C20: one refresh sends at most eight requests, whatever the server answers
    and whatever runs in between. *)
Theorem refresh_requests_bounded w e w1 run es w2 : reachable w → refreshPromise w = None →
  step e w = Some w1 → refreshPromise w1 = Some run → execute es w1 = Some w2 → ev_finally ∉ es →
  (length (sent w2) ≤ length (sent w) + 8)%nat.
Proof.
  intros Hr Hp H1 Hp1 Hes Hf. pose proof (start_budget _ _ _ _ Hp H1 Hp1) as Hb.
  destruct (trace_budget es w1 w2 run) as (run' & _ & Hs & _); [|done|done|done|lia].
  eapply step_good; [by apply reachable_good|done].
Qed.

(** C19: a refresh completes: what it awaits can always happen, for every answer
    of the server; and in any interleaving, as soon as it was resumed fifteen
    times it is settled and can be forgotten. *)
Theorem refresh_completes w run : reachable w → refreshPromise w = Some run →
  (∀ r, is_Some (step (awaited r (run_phase run)) w))
  ∧ (∀ es w', execute es w = Some w' → ev_finally ∉ es → (15 ≤ resumptions es)%nat →
     ∃ epoch outcome, refreshPromise w' = Some (mkRun epoch (ph_settled outcome))
       ∧ step ev_finally w' = Some (set_promise None w')).
Proof.
  intros Hr Hp. pose proof (reachable_good _ Hr) as Hg. split; [by intros r; apply awaited_enabled|].
  intros es w' Hes Hf Hn. destruct (trace_budget es w w' run Hg Hp Hes Hf) as (run' & Hp' & _ & Hb).
  assert (resumptions_left (run_phase run) ≤ 15)%nat as Hle.
  { unfold resumptions_left. repeat case_match; lia. }
  destruct run' as [ep ph].
  assert (resumptions_left ph = 0)%nat as Hz by (simpl in Hb; lia).
  assert (∃ o, ph = ph_settled o) as [o ->] by (destruct ph as [|n []|d n []|o]; simpl in Hz; try lia; by eexists).
  exists ep, o. split; [done|]. simpl. by rewrite Hp'.
Qed.

(** a token rotation is accepted only for the session the client holds: it
    then replaces token, expiry and session under a new epoch, keeps the user
    and the session id and tells no other tab; otherwise it throws, when the
    response is malformed, nobody is signed in, or the session is another one. *)
Theorem rotation_keeps_session v w :
  match applyAuthRotation v w with
  | Ok w' => ∃ u s, isAuthTokenRotation v = true ∧ user (auth w) = Some u ∧ session (auth w) = Some s
      ∧ user (auth w') = Some u ∧ session_sid (auth w') = Some (s_sid s)
      ∧ accessToken (auth w') = Some (string_field (property v "access_token"))
      ∧ authEpoch w' = authEpoch w + 1 ∧ published w' = published w ∧ refreshPromise w' = refreshPromise w
  | Throw _ => isAuthTokenRotation v = false ∨ user (auth w) = None ∨ session (auth w) = None
      ∨ session_sid (auth w) ≠ Some (s_sid (to_session (property v "session")))
  | NoFuel => False
  end.
Proof.
  unfold applyAuthRotation. destruct (isAuthTokenRotation v) eqn:E; simpl; [|by left].
  destruct (user (auth w)) as [u|] eqn:Eu, (session (auth w)) as [s|] eqn:Es; auto.
  destruct (str_eqb _ _) eqn:Ei; simpl.
  - str_hyps. exists u, s. unfold session_sid. simpl. rewrite Ei. by split_and!.
  - right. right. right. unfold session_sid. rewrite Es. simpl. intros [= H]. rewrite H in Ei. by rewrite str_eqb_refl in Ei.
Qed.

(** ** Witnesses *)
Definition sample_session (sid : string) : jsval := JObject
  [(js "sid", JString (js sid)); (js "current", JBool true); (js "login_method", JString (js "password"));
   (js "ip", JString (js "127.0.0.1")); (js "user_agent", JString (js "test"));
   (js "created_at", JNumber (num_of_Z 100)); (js "last_active_at", JNumber (num_of_Z 100));
   (js "expires_at", JNumber (num_of_Z 1000))].

Definition sample_bundle (sid : string) : jsval := JObject
  [(js "access_token", JString (js "access-token")); (js "token_type", JString (js "Bearer"));
   (js "access_expires_at", JNumber (num_of_Z 600));
   (js "user", JObject [(js "id", JNumber (num_of_Z 42)); (js "username", JString (js "test-user"));
                        (js "role", JNumber (num_of_Z 1))]);
   (js "session", sample_session sid)].

Definition conflict (code : string) : event :=
  ev_response (mkResponse 409 (JObject [(js "code", JString (js code))]) JUndefined).
Definition race := conflict "AUTH_REFRESH_RACE".
Definition mismatch := conflict "AUTH_SESSION_MISMATCH".

Lemma reachable_execute es w w' : reachable w → execute es w = Some w' → reachable w'.
Proof.
  revert w. induction es as [|e es IH]; simpl; intros w Hr; [by intros [= <-]|].
  destruct (step e w) eqn:E; [|done]. apply IH. by eapply reachable_step.
Qed.

(** The world after some pieces. *)
Definition after (es : list event) : World := default initial_world (execute es initial_world).

Lemma reachable_after es : is_Some (execute es initial_world) → reachable (after es).
Proof. intros [w E]. unfold after. rewrite E. eapply reachable_execute; [apply reachable_initial|done]. Qed.

Lemma session_store_consistent_witness :
  session_sid (auth (after [ev_login (sample_bundle "a") true])) = Some (js "a")
  ∧ store_ok (auth (after [ev_login (sample_bundle "a") true])).
Proof.
  split; [vm_compute; reflexivity|]. apply (session_store_consistent (after [ev_login (sample_bundle "a") true])).
  apply reachable_after. vm_compute. eexists. reflexivity.
Defined.

Lemma no_finally es : forallb (λ e, match e with ev_finally => false | _ => true end) es = true → ev_finally ∉ es.
Proof. intros H Hin. rewrite forallb_forall in H. apply list_elem_of_In in Hin. by specialize (H _ Hin). Qed.

Lemma retry_forgets_session_witness :
  sent (after [ev_login (sample_bundle "a") true; ev_refresh false; mismatch])
  = sent (after [ev_login (sample_bundle "a") true; ev_refresh false]) ++ [None].
Proof.
  apply (retry_forgets_session (after [ev_login (sample_bundle "a") true; ev_refresh false]) mismatch
    (after [ev_login (sample_bundle "a") true; ev_refresh false; mismatch]) 1 0).
  - apply reachable_after. vm_compute. eexists. reflexivity.
  - vm_compute. reflexivity.
  - vm_compute. reflexivity.
  - vm_compute. discriminate.
Defined.

Lemma newer_session_wins_witness :
  let w2 := after [ev_login (sample_bundle "a") true; ev_refresh false; race; ev_login (sample_bundle "b") true] in
  let w3 := after [ev_login (sample_bundle "a") true; ev_refresh false; race; ev_login (sample_bundle "b") true; ev_timer] in
  inert_resumption w2 w3 ∧ session_sid (auth w3) = Some (js "b").
Proof.
  intros w2 w3. split; [|vm_compute; reflexivity].
  apply (newer_session_wins (after [ev_login (sample_bundle "a") true; ev_refresh false; race]) (mkRun 1 (ph_wait 80 1 true))
    (ev_login (sample_bundle "b") true) w2 [] w2 ev_timer w3).
  - apply reachable_after. vm_compute. eexists. reflexivity.
  - vm_compute. reflexivity.
  - reflexivity.
  - vm_compute. reflexivity.
  - reflexivity.
  - by apply no_finally.
  - reflexivity.
  - vm_compute. reflexivity.
Defined.

(** The longest refresh: it reaches the bound. *)
Definition longest_refresh : list event :=
  [ev_lock; race; ev_timer; race; ev_timer; race; ev_timer; mismatch; race; ev_timer; race; ev_timer; race; ev_timer; race].

Lemma refresh_requests_bounded_witness :
  length (sent (after (ev_refresh true :: longest_refresh))) = 8%nat
  ∧ (length (sent (after (ev_refresh true :: longest_refresh))) ≤ length (sent initial_world) + 8)%nat.
Proof.
  split; [vm_compute; reflexivity|].
  apply (refresh_requests_bounded initial_world (ev_refresh true) (after [ev_refresh true]) (mkRun 0 ph_lock) longest_refresh).
  - apply reachable_initial.
  - reflexivity.
  - vm_compute. reflexivity.
  - vm_compute. reflexivity.
  - vm_compute. reflexivity.
  - by apply no_finally.
Defined.

Lemma refresh_completes_witness :
  ∃ epoch outcome, refreshPromise (after (ev_refresh true :: longest_refresh)) = Some (mkRun epoch (ph_settled outcome)).
Proof.
  destruct (refresh_completes (after [ev_refresh true]) (mkRun 0 ph_lock)) as [_ H].
  - apply reachable_after. vm_compute. eexists. reflexivity.
  - vm_compute. reflexivity.
  - destruct (H longest_refresh (after (ev_refresh true :: longest_refresh))) as (ep & o & E & _).
    + vm_compute. reflexivity.
    + by apply no_finally.
    + vm_compute. lia.
    + exists ep, o. exact E.
Defined.
