(* ===== verification/HttpClient.v ===== *)
(** * The HTTP client of the web console

    Models [web/src/lib/http-client.ts] on top of the login session: the
    interceptors that put the access token on requests and react to a 401, and
    the sharing of equal GET requests.

    A call of [api.request] runs through the request interceptor, the network and
    the response interceptor, and may go round once more; between these it awaits
    the network or the refresh of the session.  The package axios appears as the
    order of these stations and as the answers of the network.  All calls that
    await a refresh await the one under way, and learn its outcome when its
    promise settles. *)
From S2P Require Import Prelude JsString JsNumber JsValue AuthSession.
Local Open Scope Z_scope.

(** ** Calls *)

(** [ApiRequestConfig], with the headers the client reads or writes. *)
Record ApiRequestConfig := mkConfig {
  skipErrorHandler : bool;
  skipAuthRefresh : bool;
  authRetry : bool;
  acceptAuthRotation : bool;
  singleUseAuthorization : bool;
  proofHeader : bool;
  authorizationHeader : option jsstring;
}.

Definition set_skipAuthRefresh (c : ApiRequestConfig) : ApiRequestConfig :=
  mkConfig (skipErrorHandler c) true (authRetry c) (acceptAuthRotation c) (singleUseAuthorization c) (proofHeader c) (authorizationHeader c).
Definition set_authRetry (c : ApiRequestConfig) : ApiRequestConfig :=
  mkConfig (skipErrorHandler c) (skipAuthRefresh c) true (acceptAuthRotation c) (singleUseAuthorization c) (proofHeader c) (authorizationHeader c).

(** [config.headers.Authorization = value], when there is one *)
Definition set_authorization (value : option jsstring) (c : ApiRequestConfig) : ApiRequestConfig :=
  match value with
  | Some _ => mkConfig (skipErrorHandler c) (skipAuthRefresh c) (authRetry c) (acceptAuthRotation c) (singleUseAuthorization c) (proofHeader c) value
  | None => c
  end.

(** A request whose authorization may be spent only once. *)
Definition spends_proof (c : ApiRequestConfig) : bool := singleUseAuthorization c || proofHeader c.

(** Where a call is: before the request interceptor, awaiting a refresh in it,
    on the network, awaiting a refresh in the response interceptor, or settled;
    the outcome of an awaited refresh arrives with its promise. *)
Inductive CallPhase :=
| cp_start
| cp_headers (outcome : option RefreshOutcome)
| cp_network
| cp_refresh (outcome : option RefreshOutcome)
| cp_settled (ok : bool).

Record Call := mkCall { call_config : ApiRequestConfig; call_phase : CallPhase }.

(** What the user sees and what leaves the page. *)
Inductive notice := session_expired_shown | redirected_to_sign_in.

Record Client := mkClient {
  world : World;
  calls : list Call;
  network : list (nat * option jsstring);
  notices : list notice;
  inFlightGet : list (jsstring * nat);
}.

Definition initial_client : Client := mkClient initial_world [] [] [] [].

Definition set_world (w : World) (s : Client) : Client := mkClient w (calls s) (network s) (notices s) (inFlightGet s).
Definition set_call (i : nat) (c : Call) (s : Client) : Client :=
  mkClient (world s) (<[i := c]> (calls s)) (network s) (notices s) (inFlightGet s).
Definition notify (l : list notice) (s : Client) : Client :=
  mkClient (world s) (calls s) (network s) (notices s ++ l) (inFlightGet s).

(** The request has its headers and leaves; of these only [Authorization] is
    kept. *)
Definition dispatch (i : nat) (c : ApiRequestConfig) (s : Client) : Client :=
  let s := set_call i (mkCall c cp_network) s in
  mkClient (world s) (calls s) (network s ++ [(i, authorizationHeader c)]) (notices s) (inFlightGet s).

(** ** The request interceptor *)
Definition request_interceptor (has_locks : bool) (now : Z) (i : nat) (c : ApiRequestConfig) (s : Client) : Client :=
  if spends_proof c then
    let c := set_skipAuthRefresh c in
    match getFreshAuthHeaders has_locks now (world s) with
    | (headers value, w) => dispatch i (set_authorization value c) (set_world w s)
    | (_, w) => set_call i (mkCall c (cp_headers None)) (set_world w s)
    end
  else dispatch i (set_authorization (authorization (auth (world s))) c) s.

(** ... after the refresh it awaited; an error passes the response interceptor
    without a status. *)
Definition headers_ready (now : Z) (i : nat) (c : ApiRequestConfig) (outcome : RefreshOutcome) (s : Client) : Client :=
  match freshHeadersAfterRefresh now outcome (world s) with
  | headers value => dispatch i (set_authorization value c) s
  | _ => set_call i (mkCall c (cp_settled false)) s
  end.

(** ** The response interceptor *)
Definition redirectToSignIn (on_sign_in : bool) : list notice := if on_sign_in then [] else [redirected_to_sign_in].
Definition show_expired (c : ApiRequestConfig) : list notice := if skipErrorHandler c then [] else [session_expired_shown].

Definition response_success (i : nat) (c : ApiRequestConfig) (data : jsval) (s : Client) : Client :=
  if acceptAuthRotation c && strict_equals (property data "success") (JBool true) then
    match applyAuthRotation (property data "data") (world s) with
    | Ok w => set_call i (mkCall c (cp_settled true)) (set_world w s)
    | _ => set_call i (mkCall c (cp_settled false)) s
    end
  else set_call i (mkCall c (cp_settled true)) s.

(** [status] is [None] when there was no answer. *)
Definition response_failure (has_locks on_sign_in : bool) (i : nat) (c : ApiRequestConfig) (status : option Z) (s : Client) : Client :=
  if bool_decide (status = Some 401) then
    if negb (skipAuthRefresh c) && negb (authRetry c) then
      set_call i (mkCall (set_authRetry c) (cp_refresh None)) (set_world (refreshAuthentication has_locks (world s)) s)
    else if authRetry c then
      set_call i (mkCall c (cp_settled false))
        (notify (show_expired c ++ redirectToSignIn on_sign_in) (set_world (clearAuthentication false bs_complete (world s)) s))
    else set_call i (mkCall c (cp_settled false)) (notify (show_expired c) s)
  else set_call i (mkCall c (cp_settled false)) s.

(** ... after the refresh it awaited: [api.request(config)] starts over. *)
Definition refresh_ready (on_sign_in : bool) (i : nat) (c : ApiRequestConfig) (outcome : RefreshOutcome) (s : Client) : Client :=
  match outcome with
  | authenticated _ => set_call i (mkCall (set_authorization (authorization (auth (world s))) c) cp_start) s
  | anonymous | out_of_sync _ =>
      set_call i (mkCall c (cp_settled false)) (notify (show_expired c ++ redirectToSignIn on_sign_in) s)
  | transient_error _ => set_call i (mkCall c (cp_settled false)) s
  end.

(** ** Shared GET requests *)
Definition api_request (c : ApiRequestConfig) (s : Client) : nat * Client :=
  (length (calls s), mkClient (world s) (calls s ++ [mkCall c cp_start]) (network s) (notices s) (inFlightGet s)).

Definition get_key (s : Client) (url : jsstring) (params : option jsstring) : jsstring :=
  match session_sid (auth (world s)) with Some ((_ :: _) as sid) => sid | _ => js "anonymous" end
  ++ js ":" ++ url ++ js "?" ++ default (js "{}") params.

(** [params] is their JSON text; the answer is the call whose promise is
    returned. *)
Definition api_get (disableDuplicate : bool) (url : jsstring) (params : option jsstring) (c : ApiRequestConfig) (s : Client) : nat * Client :=
  if disableDuplicate then api_request c s
  else
    let key := get_key s url params in
    match find (λ '(k, _), str_eqb k key) (inFlightGet s) with
    | Some (_, i) => (i, s)
    | None =>
        let '(i, s) := api_request c s in
        (i, mkClient (world s) (calls s) (network s) (notices s) (inFlightGet s ++ [(key, i)]))
    end.

(** [.finally(() => inFlightGet.delete(key))] of a settled call *)
Definition get_finally (i : nat) (s : Client) : Client :=
  mkClient (world s) (calls s) (network s) (notices s) (List.filter (λ '(_, j), negb (Nat.eqb i j)) (inFlightGet s)).

(** ** Pieces of execution *)
Inductive client_event :=
| hv_session (e : event)
| hv_request (c : ApiRequestConfig)
| hv_get (disableDuplicate : bool) (url : jsstring) (params : option jsstring) (c : ApiRequestConfig)
| hv_start (i : nat) (has_locks : bool) (now : Z)
| hv_success (i : nat) (data : jsval)
| hv_failure (i : nat) (status : option Z) (has_locks on_sign_in : bool)
| hv_resume (i : nat) (now : Z) (on_sign_in : bool)
| hv_get_finally (i : nat).

(** The promise of the refresh settles for all that await it. *)
Definition deliver_outcome (outcome : RefreshOutcome) (c : Call) : Call :=
  match call_phase c with
  | cp_headers None => mkCall (call_config c) (cp_headers (Some outcome))
  | cp_refresh None => mkCall (call_config c) (cp_refresh (Some outcome))
  | _ => c
  end.

Definition client_step (e : client_event) (s : Client) : option Client :=
  match e with
  | hv_session e =>
      match step e (world s) with
      | None => None
      | Some w =>
          let delivered :=
            match e, refreshPromise (world s) with
            | ev_finally, Some (mkRun _ (ph_settled outcome)) => map (deliver_outcome outcome) (calls s)
            | _, _ => calls s
            end in
          Some (mkClient w delivered (network s) (notices s) (inFlightGet s))
      end
  | hv_request c => Some (snd (api_request c s))
  | hv_get disable url params c => Some (snd (api_get disable url params c s))
  | hv_start i locks now =>
      match calls s !! i with
      | Some (mkCall c cp_start) => Some (request_interceptor locks now i c s)
      | _ => None
      end
  | hv_success i data =>
      match calls s !! i with
      | Some (mkCall c cp_network) => Some (response_success i c data s)
      | _ => None
      end
  | hv_failure i status locks on_sign_in =>
      match calls s !! i with
      | Some (mkCall c cp_network) => Some (response_failure locks on_sign_in i c status s)
      | _ => None
      end
  | hv_resume i now on_sign_in =>
      match calls s !! i with
      | Some (mkCall c (cp_headers (Some outcome))) => Some (headers_ready now i c outcome s)
      | Some (mkCall c (cp_refresh (Some outcome))) => Some (refresh_ready on_sign_in i c outcome s)
      | _ => None
      end
  | hv_get_finally i =>
      match calls s !! i with
      | Some (mkCall _ (cp_settled _)) => Some (get_finally i s)
      | _ => None
      end
  end.

Inductive client_reachable : Client → Prop :=
| client_initial : client_reachable initial_client
| client_next s e s' : client_reachable s → client_step e s = Some s' → client_reachable s'.
