(* ===== verification/HttpClientFacts.v ===== *)
(** * The HTTP client of the web console: theorems

    What the client does to the session are steps of the session; a request is
    sent at most twice, one that spends an authorization at most once; and no
    call awaits a refresh that is not under way. *)
From S2P Require Import Prelude JsString JsNumber JsValue AuthSession AuthSessionFacts HttpClient.
Local Open Scope Z_scope.

(** ** The session *)
Lemma refresh_promise locks w : is_Some (refreshPromise (refreshAuthentication locks w)).
Proof.
  unfold refreshAuthentication. destruct (refreshPromise w) eqn:E; [by rewrite E|]. destruct locks; [by eexists|].
  destruct (run_begin _ _ _ _). by eexists.
Qed.

(** Only the end of the refresh forgets it. *)
Lemma step_promise e w w' : step e w = Some w' → e ≠ ev_finally → is_Some (refreshPromise w) → is_Some (refreshPromise w').
Proof.
  intros H He [run Hp]. destruct (resumption e) eqn:E.
  - destruct (resumption_keeps_epoch e w w' run Hp E H) as [phase ->]. by eexists.
  - destruct (other_keeps_run e w w' run Hp E He H) as [-> _]. by eexists.
Qed.

Lemma fresh_headers_promise locks now w :
  match fst (getFreshAuthHeaders locks now w) with headers_await_refresh => is_Some (refreshPromise (snd (getFreshAuthHeaders locks now w))) | _ => True end.
Proof. unfold getFreshAuthHeaders. destruct (fresh_until _ _); [done|]. apply refresh_promise. Qed.

(** ** Calls *)
Definition sends (i : nat) (s : Client) : nat := length (List.filter (λ '(j, _), Nat.eqb i j) (network s)).

(** What a call has sent, by where it is. *)
Definition call_ok (c : ApiRequestConfig) (phase : CallPhase) (n : nat) : Prop :=
  match phase with
  | cp_start => (n ≤ if authRetry c then 1 else 0)%nat ∧ (spends_proof c = true → n = 0%nat)
  | cp_headers _ => spends_proof c = true ∧ skipAuthRefresh c = true ∧ n = 0%nat
  | cp_network => (n ≤ if authRetry c then 2 else 1)%nat ∧ (spends_proof c = true → n = 1%nat ∧ skipAuthRefresh c = true)
  | cp_refresh _ => spends_proof c = false ∧ authRetry c = true ∧ (n ≤ 1)%nat
  | cp_settled _ => (n ≤ 2)%nat ∧ (spends_proof c = true → (n ≤ 1)%nat)
  end.

Definition awaits (phase : CallPhase) : bool := match phase with cp_headers None | cp_refresh None => true | _ => false end.

Record client_ok (s : Client) : Prop := {
  co_world : reachable (world s);
  co_calls : ∀ i c phase, calls s !! i = Some (mkCall c phase) → call_ok c phase (sends i s);
  co_awaits : ∀ i c phase, calls s !! i = Some (mkCall c phase) → awaits phase = true → is_Some (refreshPromise (world s));
  co_network : ∀ i a, (i, a) ∈ network s → (i < length (calls s))%nat;
}.

Lemma sends_new s : client_ok s → sends (length (calls s)) s = 0%nat.
Proof.
  intros [_ _ _ Hn]. unfold sends. assert (∀ l, (∀ i a, (i, a) ∈ l → (i < length (calls s))%nat) →
    List.filter (λ '(j, _), Nat.eqb (length (calls s)) j) l = ([] : list (nat * option jsstring))) as E; [|by rewrite E].
  induction l as [|[j a] l IH]; intros Hl; [done|]. cbn. assert (j < length (calls s))%nat by (apply (Hl j a); left).
  rewrite (proj2 (Nat.eqb_neq _ _)) by lia. apply IH. intros i b Hi. apply (Hl i b). by right.
Qed.

(** A call moves on without a request. *)
Lemma quiet_ok i c phase w ns s : client_ok s → is_Some (calls s !! i) → reachable w →
  call_ok c phase (sends i s) → (awaits phase = true → is_Some (refreshPromise w)) →
  (is_Some (refreshPromise (world s)) → is_Some (refreshPromise w)) →
  client_ok (mkClient w (<[i := mkCall c phase]> (calls s)) (network s) ns (inFlightGet s)).
Proof.
  intros [C1 C2 C3 C4] Hi Hw Hc Ha Hp. split; cbn [world calls network]; try done.
  - intros j c' p'. unfold sends. cbn [network]. destruct (decide (i = j)) as [<-|Hne].
    + rewrite list_lookup_insert_eq by (by apply lookup_lt_is_Some). by intros [= <- <-].
    + rewrite list_lookup_insert_ne by done. apply C2.
  - intros j c' p'. destruct (decide (i = j)) as [<-|Hne].
    + rewrite list_lookup_insert_eq by (by apply lookup_lt_is_Some). by intros [= <- <-].
    + rewrite list_lookup_insert_ne by done. intros H1 H2. by eapply Hp, C3.
  - intros j a Hj. rewrite length_insert. by eapply C4.
Qed.

(** A call sends its request. *)
Lemma dispatch_ok i c c' phase w s : client_ok s → calls s !! i = Some (mkCall c' phase) → reachable w →
  (is_Some (refreshPromise (world s)) → is_Some (refreshPromise w)) →
  call_ok c cp_network (S (sends i s)) → client_ok (dispatch i c (set_world w s)).
Proof.
  intros [C1 C2 C3 C4] Hi Hw Hp Hc. assert (i < length (calls s))%nat as Hlt by (by eapply lookup_lt_Some).
  split; cbn [dispatch set_call set_world world calls network]; try done.
  - intros j c1 p1. unfold sends, dispatch. cbn [network set_call set_world]. rewrite List.filter_app, length_app. cbn [List.filter]. destruct (decide (i = j)) as [<-|Hne].
    + rewrite list_lookup_insert_eq by done. intros [= <- <-]. rewrite Nat.eqb_refl. cbn [length]. by rewrite Nat.add_1_r.
    + rewrite list_lookup_insert_ne by done. rewrite (proj2 (Nat.eqb_neq j i)) by done. cbn [length]. rewrite Nat.add_0_r. apply C2.
  - intros j c1 p1. destruct (decide (i = j)) as [<-|Hne].
    + rewrite list_lookup_insert_eq by done. by intros [= <- <-].
    + rewrite list_lookup_insert_ne by done. intros H1 H2. by eapply Hp, C3.
  - intros j a [H|H%list_elem_of_singleton]%elem_of_app; rewrite length_insert; [by eapply C4|]. by injection H as -> ->.
Qed.

Lemma dispatch_same_ok i c c' phase s : client_ok s → calls s !! i = Some (mkCall c' phase) →
  call_ok c cp_network (S (sends i s)) → client_ok (dispatch i c s).
Proof.
  intros Hok Hi Hc. assert (dispatch i c s = dispatch i c (set_world (world s) s)) as -> by (by destruct s).
  eapply dispatch_ok; try done. apply Hok.
Qed.

Lemma request_ok c s : client_ok s → call_ok c cp_start 0 → client_ok (snd (api_request c s)).
Proof.
  intros Hok Hc. pose proof Hok as [C1 C2 C3 C4]. pose proof (sends_new s Hok) as Hn. split; cbn [api_request snd world calls network]; try done.
  - intros i c' p' [H|[Hi H]]%lookup_app_Some; [exact (C2 i c' p' H)|]. apply list_lookup_singleton_Some in H as [Hi' [= <- <-]].
    assert (i = length (calls s)) as -> by lia. unfold sends in *. cbn [network]. by rewrite Hn.
  - intros i c' p' [H|[Hi H]]%lookup_app_Some Ha; [by eapply C3|]. apply list_lookup_singleton_Some in H as [_ [= <- <-]]. done.
  - intros i a H. rewrite length_app. cbn. apply C4 in H. lia.
Qed.

Lemma start_call_ok c : call_ok c cp_start 0.
Proof. split; [by destruct (authRetry c); lia|done]. Qed.

Lemma set_authorization_same v c : spends_proof (set_authorization v c) = spends_proof c ∧ authRetry (set_authorization v c) = authRetry c
  ∧ skipAuthRefresh (set_authorization v c) = skipAuthRefresh c.
Proof. by destruct v. Qed.

Lemma interceptor_ok locks now i c s : client_ok s → calls s !! i = Some (mkCall c cp_start) →
  client_ok (request_interceptor locks now i c s).
Proof.
  intros Hok Hi. pose proof Hok as [C1 C2 C3 C4]. destruct (C2 i c cp_start Hi) as [Hn Hs]. unfold request_interceptor.
  destruct (spends_proof c) eqn:Ep.
  - pose proof (fresh_headers_promise locks now (world s)) as Hf.
    assert (reachable (snd (getFreshAuthHeaders locks now (world s)))) as Hr by (by eapply reachable_step with (e := ev_headers locks now)).
    assert (is_Some (refreshPromise (world s)) → is_Some (refreshPromise (snd (getFreshAuthHeaders locks now (world s))))) as Hp
      by (by apply (step_promise (ev_headers locks now))).
    specialize (Hs eq_refl). destruct (getFreshAuthHeaders locks now (world s)) as [[v| |m] w] eqn:E; cbn [fst snd] in *.
    + eapply dispatch_ok; try done. destruct (set_authorization_same v (set_skipAuthRefresh c)) as (E1 & E2 & E3).
      unfold call_ok. rewrite E1, E2, E3, Hs. split; [cbn; by destruct (authRetry c); lia|done].
    + by apply quiet_ok.
    + unfold getFreshAuthHeaders in E. by destruct (fresh_until _ _).
  - eapply dispatch_same_ok; try done.
    destruct (set_authorization_same (authorization (auth (world s))) c) as (E1 & E2 & E3). unfold call_ok. rewrite E1, E2, E3, Ep.
    split; [|done]. destruct (authRetry c); lia.
Qed.

Lemma headers_ready_ok now i c outcome s : client_ok s → calls s !! i = Some (mkCall c (cp_headers (Some outcome))) →
  client_ok (headers_ready now i c outcome s).
Proof.
  intros Hok Hi. pose proof Hok as [C1 C2 C3 C4]. destruct (C2 i c _ Hi) as (Hs & Hk & Hn). unfold headers_ready.
  destruct (freshHeadersAfterRefresh now outcome (world s)) as [v| |m].
  - eapply dispatch_same_ok; try done.
    destruct (set_authorization_same v c) as (E1 & E2 & E3). unfold call_ok. rewrite E1, E2, E3.
    rewrite Hn. split; [by destruct (authRetry c); lia|done].
  - apply quiet_ok; try done. cbn. rewrite Hn. split; [lia|lia].
  - apply quiet_ok; try done. cbn. rewrite Hn. split; [lia|lia].
Qed.

Lemma network_settled c b n : call_ok c cp_network n → call_ok c (cp_settled b) n.
Proof. intros [H1 H2]. split; [destruct (authRetry c); lia|]. intros H. destruct (H2 H). lia. Qed.

Lemma success_ok i c data s : client_ok s → calls s !! i = Some (mkCall c cp_network) → client_ok (response_success i c data s).
Proof.
  intros Hok Hi. pose proof Hok as [C1 C2 C3 C4]. pose proof (C2 i c _ Hi) as Hc. unfold response_success.
  assert (∀ b, client_ok (set_call i (mkCall c (cp_settled b)) s)) as Hq by (intros b; apply quiet_ok; try done; by apply network_settled).
  destruct (acceptAuthRotation c && _); [|done].
  destruct (applyAuthRotation (property data "data") (world s)) as [w|m|] eqn:E; [|done|done].
  assert (step (ev_rotation (property data "data")) (world s) = Some w) as Hst by (cbn; by rewrite E).
  apply (quiet_ok i c (cp_settled true) w (notices s) s); try done;
    [by eapply reachable_step|by apply network_settled|by apply (step_promise (ev_rotation (property data "data")))].
Qed.

Lemma failure_ok locks on_sign_in i c status s : client_ok s → calls s !! i = Some (mkCall c cp_network) →
  client_ok (response_failure locks on_sign_in i c status s).
Proof.
  intros Hok Hi. pose proof Hok as [C1 C2 C3 C4]. pose proof (C2 i c _ Hi) as Hc. unfold response_failure.
  assert (∀ b ns, client_ok (mkClient (world s) (<[i := mkCall c (cp_settled b)]> (calls s)) (network s) ns (inFlightGet s))) as Hq
    by (intros b ns; apply quiet_ok; try done; by apply network_settled).
  destruct (bool_decide (status = Some 401)); [|apply Hq].
  destruct (skipAuthRefresh c) eqn:Ek; cbn [negb andb].
  - destruct (authRetry c); [|apply Hq].
    apply (quiet_ok i c (cp_settled false) _ _ s); try done;
      [by eapply reachable_step with (e := ev_clear false)|by apply network_settled|by apply (step_promise (ev_clear false))].
  - destruct (authRetry c) eqn:Er; cbn [negb].
    + apply (quiet_ok i c (cp_settled false) _ _ s); try done;
      [by eapply reachable_step with (e := ev_clear false)|by apply network_settled|by apply (step_promise (ev_clear false))].
    + destruct Hc as [Hn Hs]. rewrite Er in Hn. apply (quiet_ok i _ (cp_refresh None) _ _ s); try done.
      * by eapply reachable_step with (e := ev_refresh locks).
      * unfold call_ok. change (spends_proof (set_authRetry c)) with (spends_proof c). split_and!; [|done|exact Hn].
        destruct (spends_proof c); [|done]. destruct (Hs eq_refl). congruence.
      * intros _. apply refresh_promise.
      * intros _. apply refresh_promise.
Qed.

Lemma refresh_ready_ok on_sign_in i c outcome s : client_ok s → calls s !! i = Some (mkCall c (cp_refresh (Some outcome))) →
  client_ok (refresh_ready on_sign_in i c outcome s).
Proof.
  intros Hok Hi. pose proof Hok as [C1 C2 C3 C4]. destruct (C2 i c _ Hi) as (Hs & Hr & Hn). unfold refresh_ready.
  assert (∀ b ns, client_ok (mkClient (world s) (<[i := mkCall c (cp_settled b)]> (calls s)) (network s) ns (inFlightGet s))) as Hq.
  { intros b ns. apply quiet_ok; try done. split; [lia|by rewrite Hs]. }
  destruct outcome; try apply Hq. apply quiet_ok; try done.
  destruct (set_authorization_same (authorization (auth (world s))) c) as (E1 & E2 & _). unfold call_ok. by rewrite E1, E2, Hs, Hr.
Qed.

Lemma delivered_phase outcome c phase : ∃ phase', deliver_outcome outcome (mkCall c phase) = mkCall c phase' ∧ awaits phase' = false
  ∧ ∀ n, call_ok c phase n → call_ok c phase' n.
Proof. destruct phase as [|[o|]| |[o|]|b]; by eexists. Qed.

Lemma session_ok e s s' : client_ok s → client_step (hv_session e) s = Some s' → client_ok s'.
Proof.
  intros Hok H. pose proof Hok as [C1 C2 C3 C4]. cbn [client_step] in H. destruct (step e (world s)) as [w|] eqn:Est; [|done].
  assert (reachable w) as Hr by (by eapply reachable_step).
  assert (e ≠ ev_finally → client_ok (mkClient w (calls s) (network s) (notices s) (inFlightGet s))) as Hother.
  { intros He. split; cbn; try done. intros i c phase Hi Ha. by eapply step_promise, C3. }
  injection H as <-. destruct e; try (by apply Hother).
  cbn [step] in Est. destruct (refreshPromise (world s)) as [[ep [| | |outcome]]|]; try done. split; cbn [world calls network]; try done.
  - intros i c phase (x & Hi & Hx)%list_lookup_fmap_Some. destruct x as [c0 p0]. destruct (delivered_phase outcome c0 p0) as (p1 & E & _ & Hc).
    rewrite E in Hi. injection Hi as -> ->. apply Hc. exact (C2 i _ _ Hx).
  - intros i c phase (x & Hi & Hx)%list_lookup_fmap_Some. destruct x as [c0 p0]. destruct (delivered_phase outcome c0 p0) as (p1 & E & Ha & _).
    rewrite E in Hi. injection Hi as -> ->. by rewrite Ha.
  - intros i a H. rewrite length_map. by eapply C4.
Qed.

Lemma same_calls_ok s l : client_ok s → client_ok (mkClient (world s) (calls s) (network s) (notices s) l).
Proof. by intros [C1 C2 C3 C4]; split. Qed.

Lemma client_step_ok e s s' : client_ok s → client_step e s = Some s' → client_ok s'.
Proof.
  intros Hok H. destruct e as [e|c|disable url params c|i locks now|i data|i status locks on_sign_in|i now on_sign_in|i].
  - by eapply session_ok.
  - injection H as <-. apply request_ok; [done|apply start_call_ok].
  - injection H as <-. unfold api_get. destruct disable; [apply request_ok; [done|apply start_call_ok]|].
    destruct (find _ _) as [[k i]|]; [done|]. apply (same_calls_ok (snd (api_request c s))), request_ok; [done|apply start_call_ok].
  - cbn in H. destruct (calls s !! i) as [[c []]|] eqn:Ei; try done. injection H as <-. by apply interceptor_ok.
  - cbn in H. destruct (calls s !! i) as [[c []]|] eqn:Ei; try done. injection H as <-. by apply success_ok.
  - cbn in H. destruct (calls s !! i) as [[c []]|] eqn:Ei; try done. injection H as <-. by apply failure_ok.
  - cbn in H. destruct (calls s !! i) as [[c [|[o|]| |[o|]|]]|] eqn:Ei; try done; injection H as <-; [by apply headers_ready_ok|by apply refresh_ready_ok].
  - cbn in H. destruct (calls s !! i) as [[c []]|] eqn:Ei; try done. injection H as <-. by apply same_calls_ok.
Qed.

Lemma client_reachable_ok s : client_reachable s → client_ok s.
Proof.
  induction 1 as [|s e s' _ IH H]; [|by eapply client_step_ok]. split; cbn; try done.
  - constructor.
  - by intros i a Hi%not_elem_of_nil.
Qed.

(** ** The token a request carries *)
Definition carries_token (s s' : Client) : Prop :=
  ∀ i a, network s' = network s ++ [(i, a)] → is_Some (authorization (auth (world s'))) → a = authorization (auth (world s')).

Lemma silent_carries s s' : network s' = network s → carries_token s s'.
Proof. intros E i a H. rewrite E in H. apply (f_equal length) in H. rewrite length_app in H. cbn in H. lia. Qed.

Lemma dispatch_carries i c s0 s : network s0 = network s →
  carries_token s (dispatch i (set_authorization (authorization (auth (world s0))) c) s0).
Proof.
  intros E j a. unfold dispatch. cbn [network set_call world]. rewrite E. intros [_ H]%app_inj_tail [t Ht]. injection H as <- <-.
  by rewrite Ht.
Qed.

Lemma client_step_carries e s s' : client_step e s = Some s' → carries_token s s'.
Proof.
  intros H. destruct e as [e|c|disable url params c|i locks now|i data|i status locks on_sign_in|i now on_sign_in|i]; cbn [client_step] in H.
  - destruct (step e (world s)); [|done]. injection H as <-. by apply silent_carries.
  - injection H as <-. by apply silent_carries.
  - injection H as <-. apply silent_carries. unfold api_get. destruct disable; [done|]. by destruct (find _ _) as [[]|].
  - destruct (calls s !! i) as [[c []]|]; try done. injection H as <-. unfold request_interceptor. destruct (spends_proof c); [|by apply dispatch_carries].
    unfold getFreshAuthHeaders. destruct (fresh_until _ _); [|by apply silent_carries]. by apply (dispatch_carries i _ (set_world (world s) s)).
  - destruct (calls s !! i) as [[c []]|]; try done. injection H as <-. apply silent_carries. unfold response_success.
    destruct (acceptAuthRotation c && _); [|done]. by destruct (applyAuthRotation _ _).
  - destruct (calls s !! i) as [[c []]|]; try done. injection H as <-. apply silent_carries. unfold response_failure.
    destruct (bool_decide _); [|done]. destruct (negb _ && _); [done|]. by destruct (authRetry c).
  - destruct (calls s !! i) as [[c [|[o|]| |[o|]|]]|]; try done; injection H as <-.
    + unfold headers_ready, freshHeadersAfterRefresh.
      destruct o; [by apply dispatch_carries|..]; (destruct (fresh_until _ _); [by apply dispatch_carries|by apply silent_carries]).
    + apply silent_carries. by destruct o.
  - destruct (calls s !! i) as [[c []]|]; try done. injection H as <-. by apply silent_carries.
Qed.

(** C22: Requests are repeated at most once, and one that spends an authorization
    never.  In every state the client reaches, whatever the network and the
    session do in between, each call has sent at most two requests, and at most
    one if it carries a security proof or a single-use authorization; every call
    that awaits a refresh awaits one that is under way; the session is in a
    state the session's own functions reach; and headers that are put on a
    request carry the access token of that moment, if there is one. *)
Theorem proofs_never_replayed s : client_reachable s →
  reachable (world s) ∧ (∀ e s', client_step e s = Some s' → carries_token s s')
  ∧ ∀ i c, calls s !! i = Some c → (sends i s ≤ 2)%nat ∧ (spends_proof (call_config c) = true → (sends i s ≤ 1)%nat)
      ∧ (awaits (call_phase c) = true → is_Some (refreshPromise (world s))).
Proof.
  intros [C1 C2 C3 _]%client_reachable_ok. split; [done|]. split; [intros e s'; apply client_step_carries|]. intros i [c phase] Hi. pose proof (C2 i c phase Hi) as Hc. cbn [call_config call_phase].
  split_and!; [..|by eapply C3].
  - destruct phase; cbn in Hc; destruct Hc as [H1 H2]; try lia; destruct (authRetry c); lia.
  - intros Hp. destruct phase; cbn in Hc; destruct Hc as [H1 H2]; try (specialize (H2 Hp)); try lia.
Qed.

(** ** A concrete run: a 401, a refresh, and the second attempt. *)
Fixpoint client_run (es : list client_event) (s : Client) : option Client :=
  match es with
  | [] => Some s
  | e :: es' => match client_step e s with Some s' => client_run es' s' | None => None end
  end.

Lemma client_run_reachable es : ∀ s s', client_reachable s → client_run es s = Some s' → client_reachable s'.
Proof.
  induction es as [|e es IH]; intros s s' Hs; cbn [client_run]; [by intros [= <-]|].
  destruct (client_step e s) as [s1|] eqn:E; [|done]. apply IH. by eapply client_next.
Qed.

Definition plain_config : ApiRequestConfig := mkConfig false false false false false false None.
Definition refreshed : AuthRefreshHTTPResponse :=
  mkResponse 200 (JObject [(js "success", JBool true); (js "data", sample_bundle "a")]) JUndefined.
Definition retried_run : list client_event :=
  [hv_session (ev_login (sample_bundle "a") true); hv_request plain_config; hv_start 0 false 0; hv_failure 0 (Some 401) false false;
   hv_session (ev_response refreshed); hv_session ev_finally; hv_resume 0 0 false; hv_start 0 false 0].
Definition retried_client : Client := default initial_client (client_run retried_run initial_client).

Lemma proofs_never_replayed_witness : sends 0 retried_client = 2%nat ∧ (sends 0 retried_client ≤ 2)%nat.
Proof.
  split; [vm_compute; reflexivity|]. assert (client_reachable retried_client) as Hr.
  { eapply (client_run_reachable retried_run initial_client); [constructor|vm_compute; reflexivity]. }
  destruct (proofs_never_replayed retried_client Hr) as (_ & _ & H).
  apply (H 0%nat (mkCall (set_authRetry (set_authorization (Some (js "Bearer access-token")) plain_config)) cp_network)). vm_compute. reflexivity.
Defined.

(** The answer to a repeated request signs out whoever is logged in when it
    arrives: a login in the meantime is lost, which the refresh guards against
    with its epoch. *)
Example late_401_clears_new_session :
  let before := default initial_client (client_run (retried_run ++ [hv_session (ev_login (sample_bundle "b") true)]) initial_client) in
  let after := default initial_client (client_step (hv_failure 0 (Some 401) false false) before) in
  session_sid (auth (world before)) = Some (js "b") ∧ network before = network retried_client
  ∧ session_sid (auth (world after)) = None ∧ notices after = [session_expired_shown; redirected_to_sign_in].
Proof. vm_compute. tauto. Qed.
