(* ===== verification/Playground.v ===== *)
(** * Playground conversations

    Models the messages of the playground
    ([web/src/features/playground/lib/message]: [message-utils.ts],
    [message-reasoning-utils.ts], [message-timing-utils.ts],
    [message-streaming-utils.ts], [message-update-utils.ts],
    [conversation-message-utils.ts]) and the handler of streamed replies
    ([web/src/features/playground/hooks/use-chat-handler.ts]).

    Every request has a generation.  Chunks are collected and flushed by a
    timer; a flush hands React an updater of the messages, which runs later:
    [Chat] keeps the updaters not yet run.  Times are milliseconds; a piece of
    code reads the clock once, as the argument [now].  Fresh identifiers
    ([nanoid]) are arguments. *)
From S2P Require Import Prelude JsString JsValue.
Local Open Scope Z_scope.

(** ** Messages *)
Inductive MessageRole := role_user | role_assistant | role_system.
Inductive MessageStatus := status_loading | status_streaming | status_complete | status_error.

#[export] Instance MessageRole_eq_dec : EqDecision MessageRole.
Proof. solve_decision. Defined.
#[export] Instance MessageStatus_eq_dec : EqDecision MessageStatus.
Proof. solve_decision. Defined.

Record MessageVersion := mkVersion { mv_id : jsstring; mv_content : jsstring }.

Record Reasoning := mkReasoning {
  re_content : jsstring;
  re_duration : Z;
  re_startedAt : option Z;
  re_completedAt : option Z;
  re_durationMs : option Z;
}.

Record Message := mkMessage {
  msg_key : jsstring;
  msg_from : MessageRole;
  msg_versions : list MessageVersion;
  msg_createdAt : option Z;
  msg_startedAt : option Z;
  msg_completedAt : option Z;
  msg_durationMs : option Z;
  msg_sources : option (list (jsstring * jsstring));
  msg_reasoning : option Reasoning;
  msg_isReasoningStreaming : option bool;
  msg_isReasoningComplete : option bool;
  msg_isContentComplete : option bool;
  msg_status : option MessageStatus;
  msg_errorCode : jsval;
}.

(** [{ ...message, field: value }] *)
Definition with_versions (v : list MessageVersion) (m : Message) : Message :=
  mkMessage (msg_key m) (msg_from m) v (msg_createdAt m) (msg_startedAt m) (msg_completedAt m) (msg_durationMs m)
    (msg_sources m) (msg_reasoning m) (msg_isReasoningStreaming m) (msg_isReasoningComplete m)
    (msg_isContentComplete m) (msg_status m) (msg_errorCode m).
Definition with_reasoning (r : option Reasoning) (streaming : bool) (m : Message) : Message :=
  mkMessage (msg_key m) (msg_from m) (msg_versions m) (msg_createdAt m) (msg_startedAt m) (msg_completedAt m)
    (msg_durationMs m) (msg_sources m) r (Some streaming) (msg_isReasoningComplete m)
    (msg_isContentComplete m) (msg_status m) (msg_errorCode m).
Definition with_status (s : MessageStatus) (m : Message) : Message :=
  mkMessage (msg_key m) (msg_from m) (msg_versions m) (msg_createdAt m) (msg_startedAt m) (msg_completedAt m)
    (msg_durationMs m) (msg_sources m) (msg_reasoning m) (msg_isReasoningStreaming m) (msg_isReasoningComplete m)
    (msg_isContentComplete m) (Some s) (msg_errorCode m).
Definition with_error (code : jsval) (m : Message) : Message :=
  mkMessage (msg_key m) (msg_from m) (msg_versions m) (msg_createdAt m) (msg_startedAt m) (msg_completedAt m)
    (msg_durationMs m) (msg_sources m) (msg_reasoning m) (Some false) (msg_isReasoningComplete m)
    (msg_isContentComplete m) (Some status_error) code.
Definition with_times (created started completed duration : option Z) (m : Message) : Message :=
  mkMessage (msg_key m) (msg_from m) (msg_versions m) created started completed duration
    (msg_sources m) (msg_reasoning m) (msg_isReasoningStreaming m) (msg_isReasoningComplete m)
    (msg_isContentComplete m) (msg_status m) (msg_errorCode m).

Definition getCurrentVersion (m : Message) : MessageVersion :=
  match msg_versions m with v :: _ => v | [] => mkVersion (js "default") [] end.
Definition getMessageContent (m : Message) : jsstring := mv_content (getCurrentVersion m).
Definition hasMessageContent (m : Message) : bool := negb (str_eqb (trim (getMessageContent m)) []).
Definition updateCurrentVersionContent (m : Message) (content : jsstring) : Message :=
  with_versions [mkVersion (mv_id (getCurrentVersion m)) content] m.

Definition createUserMessage (key id content : jsstring) (createdAt : Z) : Message :=
  mkMessage key role_user [mkVersion id content] (Some createdAt) None None None None None None None None None JUndefined.

Definition createLoadingAssistantMessage (key id : jsstring) (startedAt : Z) : Message :=
  mkMessage key role_assistant [mkVersion id []] (Some startedAt) (Some startedAt) None None None None
    (Some false) (Some false) (Some false) (Some status_loading) JUndefined.

(** ** Thinking and visible text *)

(** [s.indexOf(p)], [None] for -1. *)
Fixpoint index_of_text (p s : jsstring) : option nat :=
  if starts_with s p then Some O
  else match s with [] => None | _ :: s' => option_map S (index_of_text p s') end.
Definition includes (s p : jsstring) : bool := match index_of_text p s with Some _ => true | None => false end.

Definition open_tag : jsstring := js "<think>".
Definition close_tag : jsstring := js "</think>".

Record ParsedThinkTags := mkThink { tt_visibleContent : jsstring; tt_reasoning : jsstring; tt_hasUnclosedTag : bool }.

(** The loop; [rest] is [content.slice(currentPos)].  A turn consumes a tag. *)
Fixpoint think_loop (fuel : nat) (rest : jsstring) (visibleParts reasoningParts : list jsstring)
    : outcome unit (list jsstring * list jsstring * bool) :=
  match fuel with
  | O => NoFuel
  | S fuel' =>
      match index_of_text open_tag rest with
      | None => Ok (match rest with [] => visibleParts | _ => visibleParts ++ [rest] end, reasoningParts, false)
      | Some openPos =>
          let visibleParts := match openPos with O => visibleParts | _ => visibleParts ++ [take openPos rest] end in
          let after := drop (openPos + 7) rest in
          match index_of_text close_tag after with
          | None => Ok (visibleParts, reasoningParts ++ [after], true)
          | Some closePos =>
              think_loop fuel' (drop (closePos + 8) after) visibleParts (reasoningParts ++ [take closePos after])
          end
      end
  end.

Definition parseThinkTags (content : jsstring) : outcome unit ParsedThinkTags :=
  if negb (includes content open_tag) then Ok (mkThink content [] false)
  else
    '(visible, reasoning, unclosed) ← think_loop (S (length content)) content [] [];
    Ok (mkThink (trim (concat visible)) (trim (join [10; 10] reasoning)) unclosed).

(** [parseThinkTags] always answers ([parse_think_total]). *)
Definition think_tags (content : jsstring) : ParsedThinkTags :=
  match parseThinkTags content with Ok t => t | _ => mkThink content [] false end.

(** ** Timing *)
Definition completeAssistantTiming (completedAt : Z) (m : Message) : Message :=
  if bool_decide (msg_from m ≠ role_assistant) then m
  else
    let startedAt := default (default completedAt (msg_createdAt m)) (msg_startedAt m) in
    with_times (msg_createdAt m) (Some startedAt) (Some completedAt) (Some (Z.max 0 (completedAt - startedAt))) m.

Definition startReasoningTiming (startedAt : Z) (m : Message) : Reasoning :=
  match msg_reasoning m with
  | Some r => mkReasoning (re_content r) (re_duration r) (Some (default startedAt (re_startedAt r)))
                (re_completedAt r) (re_durationMs r)
  | None => mkReasoning [] 0 (Some startedAt) None None
  end.

(** [Math.ceil(durationMs / 1000)] *)
Definition ceil_seconds (ms : Z) : Z := (ms + 999) / 1000.

Definition keep_streaming_flag (r : option Reasoning) (m : Message) : Message :=
  mkMessage (msg_key m) (msg_from m) (msg_versions m) (msg_createdAt m) (msg_startedAt m) (msg_completedAt m)
    (msg_durationMs m) (msg_sources m) r (msg_isReasoningStreaming m) (msg_isReasoningComplete m)
    (msg_isContentComplete m) (msg_status m) (msg_errorCode m).

Definition completeReasoningTiming (completedAt : Z) (m : Message) : Message :=
  match msg_reasoning m with
  | Some r =>
      match re_durationMs r with
      | Some _ => m
      | None =>
          let startedAt := default (default completedAt (msg_startedAt m)) (re_startedAt r) in
          let durationMs := Z.max 0 (completedAt - startedAt) in
          keep_streaming_flag (Some (mkReasoning (re_content r) (ceil_seconds durationMs) (Some startedAt)
                                       (Some completedAt) (Some durationMs))) m
      end
  | None => m
  end.

Definition set_content (content : jsstring) (r : Reasoning) : Reasoning :=
  mkReasoning content (re_duration r) (re_startedAt r) (re_completedAt r) (re_durationMs r).

(** ** Streaming *)
Definition processStreamingContent (now : Z) (m : Message) (contentChunk : jsstring) : Message :=
  let fullContent := getMessageContent m ++ contentChunk in
  match msg_reasoning m, includes fullContent open_tag with
  | None, false => with_reasoning None false (updateCurrentVersionContent m fullContent)
  | _, _ =>
      let parsed := think_tags fullContent in
      let finalReasoning :=
        match tt_reasoning parsed with
        | [] => msg_reasoning m
        | text => Some (set_content text (startReasoningTiming now m))
        end in
      with_reasoning finalReasoning (tt_hasUnclosedTag parsed) (updateCurrentVersionContent m fullContent)
  end.

Definition getAppendableChunk (currentContent chunk : jsstring) : jsstring :=
  match currentContent with
  | [] => chunk
  | _ => if starts_with chunk currentContent then drop (length currentContent) chunk else chunk
  end.

Inductive StreamChunkType := chunk_reasoning | chunk_content.

Definition applyStreamingChunk (now : Z) (m : Message) (type : StreamChunkType) (chunk : jsstring) : Message :=
  if bool_decide (msg_status m = Some status_error) then m
  else match type with
  | chunk_reasoning =>
      let reasoning := startReasoningTiming now m in
      let appendable := getAppendableChunk (re_content reasoning) chunk in
      with_status status_streaming
        (with_reasoning (Some (set_content (re_content reasoning ++ appendable) reasoning)) true m)
  | chunk_content =>
      let contentMessage := processStreamingContent now m (getAppendableChunk (getMessageContent m) chunk) in
      with_status status_streaming
        (if default false (msg_isReasoningStreaming contentMessage) then contentMessage
         else completeReasoningTiming now contentMessage)
  end.

(** [a || b] on strings. *)
Definition or_string (a b : jsstring) : jsstring := match a with [] => b | _ => a end.

Definition finalizeMessage (now : Z) (m : Message) (apiReasoningContent : jsstring) : Message :=
  let content := getMessageContent m in
  let parsed := if includes content open_tag then Some (think_tags content) else None in
  let visibleContent := match parsed with Some p => tt_visibleContent p | None => content end in
  let finalReasoning :=
    or_string apiReasoningContent
      (or_string (match msg_reasoning m with Some r => re_content r | None => [] end)
         (match parsed with Some p => tt_reasoning p | None => [] end)) in
  let reasoning := match finalReasoning with
                   | [] => None
                   | _ => Some (set_content finalReasoning (startReasoningTiming now m))
                   end in
  completeReasoningTiming now (with_reasoning reasoning false (updateCurrentVersionContent m visibleContent)).

Definition completeAssistantMessage (now : Z) (m : Message) : Message :=
  completeAssistantTiming now (with_status status_complete (finalizeMessage now m [])).

Definition isAssistantMessageFinal (m : Message) : bool :=
  bool_decide (msg_status m = Some status_complete) || bool_decide (msg_status m = Some status_error).
Definition isAssistantMessagePending (m : Message) : bool :=
  bool_decide (msg_status m = Some status_loading) || bool_decide (msg_status m = Some status_streaming).
Definition isPendingAssistantMessage (m : Message) : bool :=
  bool_decide (msg_from m = role_assistant) && isAssistantMessagePending m.

(** A choice of a completion: its content and its reasoning, empty when absent. *)
Definition applyChatCompletionChoice (now : Z) (m : Message) (content reasoning : jsstring) : Message :=
  completeAssistantTiming now
    (with_status status_complete (finalizeMessage now (updateCurrentVersionContent m content) reasoning)).

(** [sanitizeMessagesOnLoad]: the interrupted text is given by the translator. *)
Definition sanitize_message (now : Z) (interrupted : jsstring) (m : Message) : Message :=
  let finalized := finalizeMessage now m [] in
  let hasReasoning := match msg_reasoning finalized with
                      | Some r => negb (str_eqb (trim (re_content r)) []) | None => false end in
  completeAssistantTiming now
    (if hasMessageContent finalized || hasReasoning
     then with_reasoning (msg_reasoning finalized) false (with_status status_complete finalized)
     else let failed := updateCurrentVersionContent finalized interrupted in
          with_reasoning (msg_reasoning failed) false (with_status status_error failed)).

(** The last pending reply, searched from the end; the list is given reversed. *)
Fixpoint sanitize_rev (now : Z) (interrupted : jsstring) (l : list Message) : list Message :=
  match l with
  | [] => []
  | m :: l' => if isPendingAssistantMessage m then sanitize_message now interrupted m :: l'
               else m :: sanitize_rev now interrupted l'
  end.
Definition sanitizeMessagesOnLoad (now : Z) (interrupted : jsstring) (messages : list Message) : list Message :=
  rev (sanitize_rev now interrupted (rev messages)).

(** ** The conversation *)
Definition updateLastAssistantMessage (messages : list Message) (updater : Message → Message) : list Message :=
  match rev messages with
  | last :: before => if bool_decide (msg_from last = role_assistant) then rev before ++ [updater last] else messages
  | [] => messages
  end.

Definition updateAssistantMessageWithError (now : Z) (messages : list Message) (errorMessage : jsstring)
    (errorCode : jsval) (title : jsstring) : list Message :=
  updateLastAssistantMessage messages (λ m,
    completeAssistantTiming now
      (with_error (or_else errorCode JNull)
         (updateCurrentVersionContent m (title ++ js ": " ++ errorMessage)))).

Definition appendUserMessagePair (messages : list Message) (user_key user_id key id content : jsstring) (now : Z)
    : list Message :=
  messages ++ [createUserMessage user_key user_id content now; createLoadingAssistantMessage key id now].

Definition find_key (messages : list Message) (key : jsstring) : option (nat * Message) :=
  list_find (λ m, str_eqb (msg_key m) key = true) messages.

Definition createRegeneratedMessages (messages : list Message) (messageKey key id : jsstring) (now : Z)
    : option (list Message) :=
  match find_key messages messageKey with
  | None => None
  | Some (i, m) =>
      let kept := if bool_decide (msg_from m = role_user) then S i else i in
      Some (take kept messages ++ [createLoadingAssistantMessage key id now])
  end.

Definition removeMessageByKey (messages : list Message) (key : jsstring) : list Message :=
  List.filter (λ m, negb (str_eqb (msg_key m) key)) messages.

(** The last user message before an index; the list is given reversed. *)
Fixpoint last_user (l : list Message) : option Message :=
  match l with
  | [] => None
  | m :: l' => if bool_decide (msg_from m = role_user) then Some m else last_user l'
  end.
(** [beforeIndex] is at most the number of messages. *)
Definition getPreviousUserMessage (messages : list Message) (beforeIndex : nat) : option Message :=
  last_user (rev (take beforeIndex messages)).

Record ApplyMessageEditResult := mkEdit { ed_messages : list Message; ed_shouldSend : bool }.

(** Every message with the key is updated; the first one decides. *)
Definition applyMessageEdit (messages : list Message) (messageKey content : jsstring) (shouldSubmit : bool)
    (key id : jsstring) (submittedAt : Z) : option ApplyMessageEditResult :=
  match find_key messages messageKey with
  | None => None
  | Some (i, m) =>
      let updated := map (λ m,
        if str_eqb (msg_key m) messageKey then
          let m' := updateCurrentVersionContent m content in
          with_times (if shouldSubmit then Some submittedAt else msg_createdAt m) (msg_startedAt m') (msg_completedAt m')
            (msg_durationMs m') m'
        else m) messages in
      Some (if negb shouldSubmit || bool_decide (msg_from m ≠ role_user) then mkEdit updated false
            else mkEdit (take (S i) updated ++ [createLoadingAssistantMessage key id submittedAt]) true)
  end.

(** ** Requests *)
Inductive ContentPart := part_text (text : jsstring) | part_image (url : jsstring).
Inductive MessageBody := body_text (text : jsstring) | body_parts (parts : list ContentPart).

Definition buildMessageContent (text : jsstring) (imageUrls : list jsstring) : MessageBody :=
  match List.filter (λ url, negb (str_eqb (trim url) [])) imageUrls with
  | [] => body_text text
  | valid => body_parts (part_text text :: map (λ url, part_image (trim url)) valid)
  end.

Definition getTextContent (content : MessageBody) : jsstring :=
  match content with
  | body_text text => text
  | body_parts parts =>
      match find (λ p, match p with part_text _ => true | _ => false end) parts with
      | Some (part_text text) => text
      | _ => []
      end
  end.

Definition formatMessageForAPI (m : Message) : MessageRole * MessageBody := (msg_from m, body_text (getMessageContent m)).

Definition isValidMessage (m : Message) : bool :=
  match msg_versions m with
  | [] => false
  | _ => negb (bool_decide (msg_from m = role_assistant) && negb (hasMessageContent m))
  end.

(** The messages of [buildChatCompletionPayload]. *)
Definition payload_messages (messages : list Message) : list (MessageRole * MessageBody) :=
  map formatMessageForAPI (List.filter isValidMessage messages).

(** ** Streamed replies *)
Record PendingStreamChunks := mkPending { pe_generation : Z; pe_content : jsstring; pe_reasoning : jsstring }.

Definition mergePendingStreamChunk (currentChunk nextChunk : jsstring) : jsstring :=
  match currentChunk with
  | [] => nextChunk
  | _ => if starts_with nextChunk currentChunk then nextChunk else currentChunk ++ nextChunk
  end.

(** The updaters handed to React. *)
Inductive update :=
| up_set (messages : list Message)
| up_remove (key : jsstring)
| up_chunks (generation : Z) (pending : PendingStreamChunks)
| up_complete (generation : Z)
| up_error (generation : Z) (message : jsstring) (code : jsval) (title : jsstring)
| up_choice (generation : Z) (content reasoning : jsstring)
| up_stopped (generation : Z).

Record Chat := mkChat {
  ch_messages : list Message;
  ch_updates : list update;
  ch_generation : Z;
  ch_pending : PendingStreamChunks;
  ch_timer : option Z;
  ch_requesting : bool;
}.

Definition initial_chat : Chat := mkChat [] [] 0 (mkPending 0 [] []) None false.

(** The updater of [flushStreamUpdates] on the last reply. *)
Definition apply_pending (now : Z) (pending : PendingStreamChunks) (m : Message) : Message :=
  let m := match pe_reasoning pending with [] => m | text => applyStreamingChunk now m chunk_reasoning text end in
  match pe_content pending with [] => m | text => applyStreamingChunk now m chunk_content text end.

(** Running an updater; [current] is the generation at that time. *)
Definition run_update (now : Z) (current : Z) (u : update) (prev : list Message) : list Message :=
  let guard generation next := if generation =? current then next else prev in
  match u with
  | up_set messages => messages
  | up_remove key => removeMessageByKey prev key
  | up_chunks generation pending => guard generation (updateLastAssistantMessage prev (apply_pending now pending))
  | up_complete generation =>
      guard generation (updateLastAssistantMessage prev (λ m,
        if isAssistantMessageFinal m then m else completeAssistantMessage now m))
  | up_error generation message code title =>
      guard generation (updateAssistantMessageWithError now prev message code title)
  | up_choice generation content reasoning =>
      guard generation (updateLastAssistantMessage prev (λ m, applyChatCompletionChoice now m content reasoning))
  | up_stopped generation =>
      guard generation (updateLastAssistantMessage prev (λ m,
        if isAssistantMessagePending m then completeAssistantMessage now m else m))
  end.

Definition enqueue (u : update) (s : Chat) : Chat :=
  mkChat (ch_messages s) (ch_updates s ++ [u]) (ch_generation s) (ch_pending s) (ch_timer s) (ch_requesting s).
Definition set_requesting (b : bool) (s : Chat) : Chat :=
  mkChat (ch_messages s) (ch_updates s) (ch_generation s) (ch_pending s) (ch_timer s) b.
Definition set_generation (g : Z) (s : Chat) : Chat :=
  mkChat (ch_messages s) (ch_updates s) g (ch_pending s) (ch_timer s) (ch_requesting s).
Definition set_pending (p : PendingStreamChunks) (s : Chat) : Chat :=
  mkChat (ch_messages s) (ch_updates s) (ch_generation s) p (ch_timer s) (ch_requesting s).
Definition set_timer (t : option Z) (s : Chat) : Chat :=
  mkChat (ch_messages s) (ch_updates s) (ch_generation s) (ch_pending s) t (ch_requesting s).

Definition discardPendingStreamUpdates (generation : Z) (s : Chat) : Chat :=
  set_pending (mkPending generation [] []) (set_timer None s).

Definition is_empty (s : jsstring) : bool := match s with [] => true | _ => false end.

Definition flushStreamUpdates (generation : Z) (s : Chat) : Chat :=
  if negb (generation =? ch_generation s) then s
  else
    let s := set_timer None s in
    let pending := ch_pending s in
    if negb (pe_generation pending =? generation) then s
    else if is_empty (pe_reasoning pending) && is_empty (pe_content pending) then s
    else enqueue (up_chunks generation pending) (set_pending (mkPending generation [] []) s).

Definition scheduleStreamFlush (generation : Z) (s : Chat) : Chat :=
  if negb (generation =? ch_generation s) then s
  else match ch_timer s with Some _ => s | None => set_timer (Some generation) s end.

Definition handleStreamUpdate (generation : Z) (type : StreamChunkType) (chunk : jsstring) (s : Chat) : Chat :=
  if negb (generation =? ch_generation s) then s
  else
    let pending := ch_pending s in
    if negb (pe_generation pending =? generation) then s
    else
      let pending := match type with
        | chunk_content =>
            mkPending (pe_generation pending) (mergePendingStreamChunk (pe_content pending) chunk) (pe_reasoning pending)
        | chunk_reasoning =>
            mkPending (pe_generation pending) (pe_content pending) (mergePendingStreamChunk (pe_reasoning pending) chunk)
        end in
      scheduleStreamFlush generation (set_pending pending s).

Definition handleStreamComplete (generation : Z) (s : Chat) : Chat :=
  if negb (generation =? ch_generation s) then s
  else enqueue (up_complete generation) (set_requesting false (flushStreamUpdates generation s)).

Definition handleStreamError (generation : Z) (displayError : jsstring) (code : jsval) (title : jsstring) (s : Chat) : Chat :=
  if negb (generation =? ch_generation s) then s
  else enqueue (up_error generation displayError code title) (set_requesting false (flushStreamUpdates generation s)).

(** [sendStreamingChat], and [sendNonStreamingChat] up to its await. *)
Definition sendChat (s : Chat) : Chat :=
  let generation := ch_generation s + 1 in
  set_requesting true (discardPendingStreamUpdates generation (set_generation generation s)).

(** The answer of a request that was not streamed; [None]: no choice in it.
    Its signal is aborted only together with a new generation, so the test of
    the generation covers the test of the signal. *)
Definition handleResponse (generation : Z) (choice : option (jsstring * jsstring)) (title : jsstring) (s : Chat) : Chat :=
  if negb (generation =? ch_generation s) then s
  else
    let s := match choice with
             | Some (content, reasoning) => enqueue (up_choice generation content reasoning) s
             | None => handleStreamError generation title JUndefined title s
             end in
    set_requesting false s.

Definition stopGeneration (s : Chat) : Chat :=
  let stopped := ch_generation s in
  let s := flushStreamUpdates stopped s in
  let idle := stopped + 1 in
  let s := discardPendingStreamUpdates idle (set_generation idle s) in
  enqueue (up_stopped idle) (set_requesting false s).

Inductive chat_event :=
| ce_send (messages : list Message)
| ce_set (messages : list Message)
| ce_remove (key : jsstring)
| ce_chunk (generation : Z) (type : StreamChunkType) (chunk : jsstring)
| ce_timer
| ce_done (generation : Z)
| ce_error (generation : Z) (displayError : jsstring) (code : jsval) (title : jsstring)
| ce_response (generation : Z) (choice : option (jsstring * jsstring)) (title : jsstring)
| ce_stop
| ce_run (now : Z).

Definition run_next (now : Z) (s : Chat) : Chat :=
  match ch_updates s with
  | [] => s
  | u :: rest => mkChat (run_update now (ch_generation s) u (ch_messages s)) rest (ch_generation s) (ch_pending s)
                   (ch_timer s) (ch_requesting s)
  end.

Definition chat_step (e : chat_event) (s : Chat) : Chat :=
  match e with
  | ce_send messages => sendChat (enqueue (up_set messages) s)
  | ce_set messages => enqueue (up_set messages) s
  | ce_remove key => enqueue (up_remove key) s
  | ce_chunk generation type chunk => handleStreamUpdate generation type chunk s
  | ce_timer => match ch_timer s with Some generation => flushStreamUpdates generation s | None => s end
  | ce_done generation => handleStreamComplete generation s
  | ce_error generation message code title => handleStreamError generation message code title s
  | ce_response generation choice title => handleResponse generation choice title s
  | ce_stop => stopGeneration s
  | ce_run now => run_next now s
  end.

Definition chat_run (es : list chat_event) (s : Chat) : Chat := fold_left (λ s e, chat_step e s) es s.
