(* ===== verification/PlaygroundFacts.v ===== *)
(** * Playground conversations: nothing is lost

    How a reply is split into visible text and thinking; that text waiting to be
    shown always has a flush scheduled and callbacks of an earlier request do
    nothing; and that a streamed reply ends up as its chunks in order, whenever
    the timer fires and whenever React runs the updaters. *)
From S2P Require Import Prelude JsString Playground.
Local Open Scope Z_scope.

(** ** Searching *)
Lemma index_of_text_spec p s i : index_of_text p s = Some i →
  s = take i s ++ p ++ drop (i + length p) s ∧ index_of_text p (take i s) = None ∨ p = [].
Proof.
  destruct p as [|a p]; [by right|]. left. revert i H. induction s as [|c s IH]; intros i H; simpl in H; [done|].
  destruct ((a =? c) && starts_with s p) eqn:E.
  - injection H as <-. split; [|done]. simpl. apply (starts_with_inv (c :: s) (a :: p)) in E. exact E.
  - destruct (index_of_text (a :: p) s) as [j|] eqn:Ej; [|done]. simpl in H. injection H as <-.
    destruct (IH j eq_refl) as [Hs Hn]. split; [by simpl; f_equal|]. simpl. rewrite Hn. simpl.
    destruct ((a =? c) && starts_with (take j s) p) eqn:E'; [|done]. exfalso.
    apply andb_prop in E' as [Ea E']. apply (starts_with_prefix _ (drop j s)) in E'. rewrite take_drop in E'.
    by rewrite Ea, E' in E.
Qed.

(** ** Thinking *)

(** A closed piece: visible text, then thinking. *)
Definition closed_piece (p : jsstring * jsstring) : jsstring := fst p ++ open_tag ++ snd p ++ close_tag.

Definition piece_ok (p : jsstring * jsstring) : Prop :=
  index_of_text open_tag (fst p) = None ∧ index_of_text close_tag (snd p) = None.

(** The text after the closed pieces: visible, then perhaps open thinking. *)
Definition open_piece (v : jsstring) (t : option jsstring) : jsstring :=
  v ++ match t with Some r => open_tag ++ r | None => [] end.

Lemma think_loop_spec fuel : ∀ rest visible reasoning, (length rest < fuel)%nat →
  ∃ pieces v t, rest = concat (map closed_piece pieces) ++ open_piece v t
    ∧ Forall piece_ok pieces ∧ index_of_text open_tag v = None
    ∧ (∀ r, t = Some r → index_of_text close_tag r = None)
    ∧ ∃ visible', think_loop fuel rest visible reasoning
        = Ok (visible', reasoning ++ map snd pieces ++ match t with Some r => [r] | None => [] end, bool_decide (is_Some t))
      ∧ concat visible' = concat visible ++ concat (map fst pieces) ++ v.
Proof.
  induction fuel as [|fuel IH]; intros rest visible reasoning Hf; [lia|]. cbn [think_loop].
  destruct (index_of_text open_tag rest) as [o|] eqn:Eo.
  2: { exists [], rest, None. unfold open_piece. rewrite !app_nil_r. split_and!; try done. eexists; split; [done|].
       destruct rest; [by rewrite !app_nil_r|]. rewrite concat_app. simpl. by rewrite !app_nil_r. }
  apply index_of_text_spec in Eo as [[Hs Hn]|]; [|done]. change (length open_tag) with 7%nat in Hs.
  set (visible1 := match o with O => visible | _ => visible ++ [take o rest] end).
  assert (concat visible1 = concat visible ++ take o rest) as Hv1.
  { subst visible1. destruct o; [by rewrite app_nil_r|]. rewrite concat_app. simpl. by rewrite app_nil_r. }
  set (after := drop (o + 7) rest) in *. destruct (index_of_text close_tag after) as [k|] eqn:Ek.
  - apply index_of_text_spec in Ek as [[Hs' Hn']|]; [|done]. change (length close_tag) with 8%nat in Hs'.
    assert (length (drop (k + 8) after) < fuel)%nat as Hlen.
    { apply (f_equal length) in Hs. rewrite !length_app in Hs. rewrite length_drop. change (length open_tag) with 7%nat in Hs. lia. }
    destruct (IH (drop (k + 8) after) visible1 (reasoning ++ [take k after]) Hlen)
      as (pieces & v & t & Hrest & Hok & Hv & Ht & visible' & Hl & Hc).
    exists ((take o rest, take k after) :: pieces), v, t. split_and!.
    + cbn [map concat]. rewrite <- app_assoc, <- Hrest. unfold closed_piece. cbn [fst snd].
      rewrite <- !app_assoc, <- Hs'. exact Hs.
    + constructor; [by split|done].
    + done.
    + done.
    + exists visible'. rewrite Hl. split; [by rewrite <- !app_assoc|]. rewrite Hc, Hv1. cbn [map concat fst]. by rewrite <- !app_assoc.
  - exists [], (take o rest), (Some after). split_and!; try done; [by intros r [= <-]|].
    eexists; split; [reflexivity|]. by rewrite Hv1.
Qed.

Lemma parse_think_total content : ∃ t, parseThinkTags content = Ok t.
Proof.
  unfold parseThinkTags. destruct (negb _); [by eexists|].
  destruct (think_loop_spec (S (length content)) content [] []) as (ps & v & t & _ & _ & _ & _ & vis & -> & _); [lia|].
  by eexists.
Qed.

(** ** Generations *)
Record good_chat (s : Chat) : Prop := {
  good_pending : pe_generation (ch_pending s) = ch_generation s;
  good_timer : ∀ g, ch_timer s = Some g → g = ch_generation s;
  good_scheduled : is_empty (pe_content (ch_pending s)) && is_empty (pe_reasoning (ch_pending s)) = false → is_Some (ch_timer s);
}.

(** The callbacks of another generation. *)
Definition foreign (s : Chat) (e : chat_event) : Prop :=
  match e with
  | ce_chunk g _ _ | ce_done g | ce_error g _ _ _ | ce_response g _ _ => g ≠ ch_generation s
  | _ => False
  end.

Lemma flush_good g s : good_chat s → good_chat (flushStreamUpdates g s).
Proof.
  intros [H1 H2 H3]. unfold flushStreamUpdates. destruct (Z.eqb_spec g (ch_generation s)) as [->|]; simpl; [|done].
  rewrite H1, Z.eqb_refl. simpl. 
  destruct (is_empty (pe_reasoning (ch_pending s)) && is_empty (pe_content (ch_pending s))) eqn:E; split; simpl; try done.
  by rewrite andb_comm, E.
Qed.

Lemma chat_step_good e s : good_chat s → good_chat (chat_step e s).
Proof.
  intros Hg. pose proof Hg as [H1 H2 H3]. destruct e; simpl.
  - by split.
  - by split.
  - by split.
  - unfold handleStreamUpdate. destruct (Z.eqb_spec generation (ch_generation s)) as [->|]; simpl; [|done].
    rewrite H1, Z.eqb_refl. simpl. unfold scheduleStreamFlush. destruct type; simpl; rewrite Z.eqb_refl; simpl;
      destruct (ch_timer s) eqn:Et; split; simpl; try done; rewrite ?Et; try done; by intros g [= <-].
  - destruct (ch_timer s); [by apply flush_good|done].
  - unfold handleStreamComplete. destruct (Z.eqb_spec generation (ch_generation s)) as [->|]; simpl; [|done].
    destruct (flush_good (ch_generation s) s Hg) as [G1 G2 G3]. by split.
  - unfold handleStreamError. destruct (Z.eqb_spec generation (ch_generation s)) as [->|]; simpl; [|done].
    destruct (flush_good (ch_generation s) s Hg) as [G1 G2 G3]. by split.
  - unfold handleResponse. destruct (Z.eqb_spec generation (ch_generation s)) as [->|]; simpl; [|done].
    destruct choice as [[c r]|]; [by split|]. unfold handleStreamError. rewrite Z.eqb_refl. simpl.
    destruct (flush_good (ch_generation s) s Hg) as [G1 G2 G3]. by split.
  - by split.
  - unfold run_next. destruct (ch_updates s); [done|]. by split.
Qed.

Lemma run_good es s : good_chat s → good_chat (chat_run es s).
Proof. revert s. induction es as [|e es IH]; intros s H; [done|]. apply IH. by apply chat_step_good. Qed.

(** ** Chunks *)
(** No chunk begins with all the text of some chunks directly before it, and no
    chunks in a row begin with all the text before them. *)
Definition no_restart (chunks : list jsstring) : Prop :=
  Forall (λ c, c ≠ []) chunks ∧
  ∀ before text next rest, chunks = before ++ text ++ next ++ rest → text ≠ [] → next ≠ [] →
    before = [] ∨ length next = 1%nat → starts_with (concat next) (concat text) = false.

Lemma no_restart_prefix l1 l2 : no_restart (l1 ++ l2) → no_restart l1.
Proof.
  intros [[Hne _]%Forall_app H]. split; [done|]. intros before text next rest ->.
  apply (H before text next (rest ++ l2)). by rewrite <- !app_assoc.
Qed.

Lemma no_restart_nonempty l1 l2 l3 : no_restart (l1 ++ l2 ++ l3) → Forall (λ c, c ≠ []) l2.
Proof. by intros [(_ & [? _]%Forall_app)%Forall_app _]. Qed.

(** All the ways to cut a list in two. *)
Definition cuts {A} (l : list A) : list (list A * list A) :=
  map (λ i, (take i l, drop i l)) (seq 0 (S (length l))).

Lemma cuts_In {A} (l1 l2 : list A) : In (l1, l2) (cuts (l1 ++ l2)).
Proof.
  apply in_map_iff. exists (length l1). rewrite take_app_length, drop_app_length. split; [done|].
  apply in_seq. rewrite length_app. lia.
Qed.

(** A check of [no_restart]. *)
Definition check_restart (chunks : list jsstring) : bool :=
  forallb (λ c, negb (is_empty c)) chunks &&
  forallb (λ '(before, r1), forallb (λ '(text, r2), forallb (λ '(next, _),
    (length text =? 0)%nat || (length next =? 0)%nat
    || negb ((length before =? 0)%nat || (length next =? 1)%nat)
    || negb (starts_with (concat next) (concat text))) (cuts r2)) (cuts r1)) (cuts chunks).

Lemma check_restart_sound chunks : check_restart chunks = true → no_restart chunks.
Proof.
  intros [Hne Hc]%andb_prop. split.
  { apply Forall_forall. intros c Hin. rewrite forallb_forall in Hne. apply list_elem_of_In in Hin.
    specialize (Hne c Hin). by destruct c. }
  intros before text next rest -> Ht Hn Hor.
  rewrite forallb_forall in Hc. specialize (Hc _ (cuts_In before (text ++ next ++ rest))). cbn beta iota in Hc.
  rewrite forallb_forall in Hc. specialize (Hc _ (cuts_In text (next ++ rest))). cbn beta iota in Hc.
  rewrite forallb_forall in Hc. specialize (Hc _ (cuts_In next rest)). cbn beta iota in Hc.
  destruct (starts_with (concat next) (concat text)); [|done].
  destruct text; [done|]. destruct next; [done|]. destruct Hor as [-> | Hl]; [done|].
  destruct before; [done|]. by rewrite Hl in Hc.
Qed.

Lemma appendable_chunks G1 G2 rest : no_restart (G1 ++ G2 ++ rest) → G2 ≠ [] →
  getAppendableChunk (concat G1) (concat G2) = concat G2.
Proof.
  intros [_ H] Hne. unfold getAppendableChunk. destruct (concat G1) as [|c t] eqn:E; [done|]. rewrite <- E.
  rewrite (H [] G1 G2 rest); [done|done| |done|by left]. by intros ->.
Qed.

Lemma merge_chunks before G c rest : no_restart (before ++ G ++ [c] ++ rest) →
  mergePendingStreamChunk (concat G) c = concat G ++ c.
Proof.
  intros [_ H]. unfold mergePendingStreamChunk. destruct (concat G) as [|x t] eqn:E; [done|]. rewrite <- E.
  specialize (H before G [c] rest eq_refl). simpl in H. rewrite app_nil_r in H.
  rewrite H; [done| |done|by right]. by intros ->.
Qed.

(** ** The streamed reply *)
Definition reply_open (m : Message) : Prop := msg_from m = role_assistant ∧ isAssistantMessageFinal m = false.

Lemma open_not_error m : reply_open m → bool_decide (msg_status m = Some status_error) = false.
Proof. intros [_ H]. unfold isAssistantMessageFinal in H. by apply orb_false_iff in H as []. Qed.

Lemma streaming_content now m c : msg_from (processStreamingContent now m c) = msg_from m
  ∧ getMessageContent (processStreamingContent now m c) = getMessageContent m ++ c.
Proof. unfold processStreamingContent. by repeat case_match. Qed.

Lemma complete_reasoning_fields now m : msg_from (completeReasoningTiming now m) = msg_from m
  ∧ getMessageContent (completeReasoningTiming now m) = getMessageContent m
  ∧ msg_status (completeReasoningTiming now m) = msg_status m.
Proof. unfold completeReasoningTiming. by repeat case_match. Qed.

(** Applying a chunk of content to an open reply. *)
Lemma content_chunk_applied now m text : reply_open m →
  let m' := applyStreamingChunk now m chunk_content text in
  reply_open m' ∧ getMessageContent m' = getMessageContent m ++ getAppendableChunk (getMessageContent m) text.
Proof.
  intros Hm. pose proof Hm as [Hf _]. simpl. unfold applyStreamingChunk. rewrite open_not_error by done.
  set (c := getAppendableChunk _ _). destruct (streaming_content now m c) as [H1 H2].
  destruct (complete_reasoning_fields now (processStreamingContent now m c)) as (G1 & G2 & _).
  destruct (default false _); (split; [split; [|done]|]); unfold getMessageContent, getCurrentVersion in *; simpl; congruence.
Qed.

Lemma reasoning_chunk_applied now m text : reply_open m →
  let m' := applyStreamingChunk now m chunk_reasoning text in
  reply_open m' ∧ getMessageContent m' = getMessageContent m.
Proof. intros Hm. pose proof Hm as [Hf _]. simpl. unfold applyStreamingChunk. by rewrite open_not_error. Qed.

(** Applying a flush whose content is the text of some chunks. *)
Lemma pending_applied now m p G0 G1 rest : reply_open m → getMessageContent m = concat G0 → pe_content p = concat G1 →
  no_restart (G0 ++ G1 ++ rest) →
  reply_open (apply_pending now p m) ∧ getMessageContent (apply_pending now p m) = concat (G0 ++ G1).
Proof.
  intros Hm H0 H1 Hr. unfold apply_pending.
  set (m1 := match pe_reasoning p with [] => m | text => applyStreamingChunk now m chunk_reasoning text end).
  assert (reply_open m1 ∧ getMessageContent m1 = concat G0) as [Hm1 Hc1].
  { subst m1. destruct (pe_reasoning p); [done|]. rewrite <- H0. by apply reasoning_chunk_applied. }
  clearbody m1. rewrite concat_app. destruct (pe_content p) as [|c t] eqn:E.
  - rewrite <- H1, app_nil_r. done.
  - destruct (content_chunk_applied now m1 (c :: t) Hm1) as [H2 H3]. split; [done|]. rewrite H3, Hc1, H1.
    rewrite (appendable_chunks _ _ rest); [done|done|]. by intros ->.
Qed.

Lemma update_last before m f : msg_from m = role_assistant →
  updateLastAssistantMessage (before ++ [m]) f = before ++ [f m].
Proof.
  intros H. unfold updateLastAssistantMessage. rewrite rev_app_distr. simpl.
  rewrite bool_decide_eq_true_2 by done. by rewrite rev_involutive.
Qed.

(** The events of one stream: chunks, the timer, and React running updaters. *)
Definition stream_event (g : Z) (e : chat_event) : bool :=
  match e with
  | ce_chunk g' _ c => (g' =? g) && negb (is_empty c)
  | ce_timer | ce_run _ => true
  | _ => false
  end.

Definition content_chunk (e : chat_event) : list jsstring :=
  match e with ce_chunk _ chunk_content c => [c] | _ => [] end.
Definition content_chunks (es : list chat_event) : list jsstring := concat (map content_chunk es).

(** What the reader sees of a finished reply. *)
Definition visible_text (text : jsstring) : jsstring :=
  if includes text open_tag then tt_visibleContent (think_tags text) else text.

(** A request has just been sent: its reply is open and empty at the end. *)
Definition fresh_reply (g : Z) (before : list Message) (m : Message) (s : Chat) : Prop :=
  ch_messages s = before ++ [m] ∧ reply_open m ∧ getMessageContent m = [] ∧ ch_updates s = []
  ∧ ch_generation s = g ∧ ch_pending s = mkPending g [] [] ∧ ch_timer s = None.

(** The chunks received so far: shown, handed to React, and waiting. *)
Record streaming (g : Z) (before : list Message) (s : Chat) (shown : list jsstring) (queued : list (list jsstring))
    (waiting : list jsstring) : Prop := {
  str_message : ∃ m, ch_messages s = before ++ [m] ∧ reply_open m ∧ getMessageContent m = concat shown;
  str_updates : ∃ ps, ch_updates s = map (up_chunks g) ps ∧ map pe_content ps = map (@concat Z) queued;
  str_waiting : pe_content (ch_pending s) = concat waiting;
  str_generation : ch_generation s = g;
  str_good : good_chat s;
}.

Lemma flush_streaming g before s shown queued waiting : streaming g before s shown queued waiting →
  Forall (λ c, c ≠ []) waiting →
  ∃ queued', streaming g before (flushStreamUpdates g s) shown queued' [] ∧ concat queued' = concat queued ++ waiting.
Proof.
  intros [Hm (ps & Hu & Hq) Hw Hg Hgood] Hne. pose proof (flush_good g s Hgood) as Hgood'. pose proof Hgood as [H1 H2 H3].
  unfold flushStreamUpdates in *. rewrite Hg, Z.eqb_refl in *. cbn [negb] in *.
  change (ch_pending (set_timer None s)) with (ch_pending s) in *. rewrite H1, Z.eqb_refl in *. cbn [negb] in *.
  destruct (is_empty (pe_reasoning (ch_pending s)) && is_empty (pe_content (ch_pending s))) eqn:E.
  - apply andb_prop in E as [_ E]. rewrite Hw in E.
    assert (waiting = []) as -> by (destruct Hne as [|c l Hc]; [done|]; by destruct c).
    exists queued. rewrite app_nil_r. split; [|done]. split; try done. by exists ps.
  - exists (queued ++ [waiting]). split; [|rewrite concat_app; simpl; by rewrite app_nil_r].
    split; try done. exists (ps ++ [ch_pending s]). simpl. rewrite Hu, !map_app. split; [done|]. rewrite Hq. simpl. by rewrite Hw.
Qed.

(** What an event of the stream adds to the chunks. *)
Lemma run_streaming now g before s shown queued waiting : streaming g before s shown queued waiting →
  no_restart (shown ++ concat queued ++ waiting) →
  ∃ shown' queued', streaming g before (run_next now s) shown' queued' waiting
    ∧ shown' ++ concat queued' = shown ++ concat queued ∧ length (ch_updates (run_next now s)) = pred (length (ch_updates s)).
Proof.
  intros Hstr Hd. pose proof Hstr as [(m & Hm & Ho & Hc) (ps & Hu & Hq) Hw Hg Hgood].
  unfold run_next. rewrite Hu. destruct ps as [|p ps]; simpl.
  { exists shown, queued. split_and!; try done. by rewrite Hu. }
  destruct queued as [|G queued]; [done|]. simpl in Hq. injection Hq as Hp Hq.
  exists (shown ++ G), queued. rewrite <- app_assoc. split_and!; try done.
  assert (shown ++ concat (G :: queued) ++ waiting = shown ++ G ++ concat queued ++ waiting) as E
    by (simpl; by rewrite <- app_assoc).
  rewrite E in Hd. destruct (pending_applied now m p shown G _ Ho Hc Hp Hd) as [H1 H2].
  split; simpl; try done.
  - exists (apply_pending now p m). rewrite Hg, Z.eqb_refl, Hm, update_last by apply Ho. done.
  - by exists ps.
  - destruct Hgood as [G1 G2 G3]. by split.
Qed.

Lemma chunk_received g type c s : good_chat s → ch_generation s = g →
  ∃ timer, handleStreamUpdate g type c s = set_timer timer (set_pending
    (match type with
     | chunk_content => mkPending g (mergePendingStreamChunk (pe_content (ch_pending s)) c) (pe_reasoning (ch_pending s))
     | chunk_reasoning => mkPending g (pe_content (ch_pending s)) (mergePendingStreamChunk (pe_reasoning (ch_pending s)) c)
     end) s).
Proof.
  intros [G1 _ _] <-. unfold handleStreamUpdate, scheduleStreamFlush. rewrite G1, Z.eqb_refl. cbn [negb].
  destruct type; simpl; rewrite Z.eqb_refl; simpl; destruct s as [ms us g p [t|] r]; by eexists.
Qed.

Lemma stream_step g before e s shown queued waiting : streaming g before s shown queued waiting → stream_event g e = true →
  no_restart (shown ++ concat queued ++ waiting ++ content_chunk e) →
  ∃ shown' queued' waiting', streaming g before (chat_step e s) shown' queued' waiting'
    ∧ shown' ++ concat queued' ++ waiting' = shown ++ concat queued ++ waiting ++ content_chunk e.
Proof.
  intros Hstr He Hd. pose proof Hstr as [Hm Hu Hw Hg Hgood]. destruct e; try done; simpl in *.
  - apply andb_prop in He as [->%Z.eqb_eq Hne]. pose proof (chat_step_good (ce_chunk g type chunk) s Hgood) as Hgood'.
    simpl in Hgood'. destruct (chunk_received g type chunk s Hgood Hg) as [timer E]. rewrite E in *.
    destruct type.
    + exists shown, queued, waiting. rewrite app_nil_r. by split.
    + exists shown, queued, (waiting ++ [chunk]). split; [|done]. split; try done. simpl.
      rewrite Hw, (merge_chunks (shown ++ concat queued) _ _ []), concat_app; [simpl; by rewrite app_nil_r|].
      by rewrite <- app_assoc.
  - rewrite app_nil_r in *. destruct (ch_timer s) as [g'|] eqn:Et; [|by exists shown, queued, waiting].
    assert (g' = g) as -> by (destruct Hgood as [_ G2 _]; rewrite (G2 _ Et); done).
    destruct (flush_streaming _ _ _ _ _ _ Hstr) as (queued' & H1 & H2).
    { rewrite app_assoc, <- (app_nil_r waiting) in Hd. by apply no_restart_nonempty in Hd. }
    exists shown, queued', []. by rewrite H2, app_nil_r.
  - rewrite app_nil_r in *. destruct (run_streaming now _ _ _ _ _ _ Hstr Hd) as (shown' & queued' & H1 & H2 & _).
    exists shown', queued', waiting. split; [done|]. by rewrite !app_assoc, H2.
Qed.

Lemma stream_run g before es : ∀ s shown queued waiting, streaming g before s shown queued waiting →
  forallb (stream_event g) es = true → no_restart (shown ++ concat queued ++ waiting ++ content_chunks es) →
  ∃ shown' queued' waiting', streaming g before (chat_run es s) shown' queued' waiting'
    ∧ shown' ++ concat queued' ++ waiting' = shown ++ concat queued ++ waiting ++ content_chunks es.
Proof.
  induction es as [|e es IH]; intros s shown queued waiting Hs He Hd.
  - exists shown, queued, waiting. split; [done|]. unfold content_chunks. simpl. by rewrite app_nil_r.
  - simpl in He. apply andb_prop in He as [He Hes]. unfold content_chunks in *. cbn [map concat] in *.
    assert (no_restart ((shown ++ concat queued ++ waiting ++ content_chunk e) ++ concat (map content_chunk es))) as Hd'
      by (by rewrite <- !app_assoc).
    pose proof (no_restart_prefix _ _ Hd') as Hd1.
    destruct (stream_step _ _ _ _ _ _ _ Hs He Hd1) as (s1 & q1 & w1 & H1 & E1).
    destruct (IH (chat_step e s) s1 q1 w1 H1 Hes) as (s2 & q2 & w2 & H2 & E2).
    + assert (s1 ++ concat q1 ++ w1 ++ concat (map content_chunk es)
        = (s1 ++ concat q1 ++ w1) ++ concat (map content_chunk es)) as -> by (by rewrite <- !app_assoc).
      by rewrite E1.
    + exists s2, q2, w2. split; [done|]. rewrite E2.
      assert (s1 ++ concat q1 ++ w1 ++ concat (map content_chunk es)
        = (s1 ++ concat q1 ++ w1) ++ concat (map content_chunk es)) as -> by (by rewrite <- !app_assoc).
      rewrite E1. by rewrite <- !app_assoc.
Qed.

(** React runs the updaters it holds. *)
Fixpoint run_updates (n : nat) (now : Z) (s : Chat) : Chat :=
  match n with O => s | S n' => run_updates n' now (run_next now s) end.
Definition drain (now : Z) (s : Chat) : Chat := run_updates (length (ch_updates s)) now s.

(** Running the flushes held, then the completion. *)
Lemma drain_reply now g before ps : ∀ s m shown queued,
  ch_messages s = before ++ [m] → reply_open m → getMessageContent m = concat shown →
  ch_updates s = map (up_chunks g) ps ++ [up_complete g] → map pe_content ps = map (@concat Z) queued → ch_generation s = g →
  no_restart (shown ++ concat queued) →
  ∃ m', reply_open m' ∧ getMessageContent m' = concat (shown ++ concat queued)
    ∧ ch_messages (drain now s) = before ++ [completeAssistantMessage now m'] ∧ ch_updates (drain now s) = [].
Proof.
  unfold drain. induction ps as [|p ps IH]; intros s m shown queued Hm Ho Hc Hu Hq Hg Hd.
  - destruct queued; [|done]. rewrite app_nil_r. exists m. split_and!; try done; rewrite Hu; simpl; unfold run_next; rewrite Hu; simpl.
    + rewrite Hg, Z.eqb_refl, Hm, update_last by apply Ho. destruct Ho as [_ ->]. done.
    + done.
  - destruct queued as [|G queued]; [done|]. simpl in Hq. injection Hq as Hp Hq. simpl concat in Hd |- *.
    destruct (pending_applied now m p shown G _ Ho Hc Hp Hd) as [H1 H2].
    rewrite Hu. simpl. rewrite app_assoc.
    set (s1 := run_next now s). assert (ch_messages s1 = before ++ [apply_pending now p m]) as Hm1.
    { subst s1. unfold run_next. rewrite Hu. simpl. by rewrite Hg, Z.eqb_refl, Hm, update_last by apply Ho. }
    assert (ch_updates s1 = map (up_chunks g) ps ++ [up_complete g]) as Hu1 by (subst s1; unfold run_next; by rewrite Hu).
    assert (ch_generation s1 = g) as Hg1 by (subst s1; unfold run_next; by rewrite Hu).
    rewrite <- Hu1. eapply IH; try done. by rewrite <- app_assoc.
Qed.

Lemma complete_message_fields now m :
  msg_status (completeAssistantMessage now m) = Some status_complete
  ∧ getMessageContent (completeAssistantMessage now m) = visible_text (getMessageContent m).
Proof.
  unfold completeAssistantMessage.
  assert (∀ now m, msg_status (completeAssistantTiming now m) = msg_status m
    ∧ getMessageContent (completeAssistantTiming now m) = getMessageContent m) as Ht
    by (intros n0 m0; unfold completeAssistantTiming; by case_match).
  destruct (Ht now (with_status status_complete (finalizeMessage now m []))) as [-> ->]. split; [done|].
  change (getMessageContent (with_status status_complete (finalizeMessage now m []))) with (getMessageContent (finalizeMessage now m [])).
  unfold finalizeMessage. set (final := with_reasoning _ _ _).
  destruct (complete_reasoning_fields now final) as (_ & -> & _). subst final.
  unfold visible_text. by destruct (includes (getMessageContent m) open_tag).
Qed.

(** ** Properties *)

(** A reply is taken apart into visible text and thinking without loss: it
    is a sequence of visible text without an opening tag, an opening tag,
    thinking without a closing tag and a closing tag, followed by visible text
    and possibly thinking still open; the parser always answers with the
    visible parts joined, the thoughts joined by blank lines, both trimmed, and
    whether a tag is still open. *)
Theorem think_tags_decompose content : includes content open_tag = true →
  ∃ pieces v t, content = concat (map closed_piece pieces) ++ open_piece v t
    ∧ Forall piece_ok pieces ∧ index_of_text open_tag v = None ∧ (∀ r, t = Some r → index_of_text close_tag r = None)
    ∧ parseThinkTags content = Ok (mkThink (trim (concat (map fst pieces) ++ v))
        (trim (join [10; 10] (map snd pieces ++ match t with Some r => [r] | None => [] end)))
        (bool_decide (is_Some t))).
Proof.
  intros Hi. unfold parseThinkTags. rewrite Hi. cbn [negb].
  destruct (think_loop_spec (S (length content)) content [] [] ltac:(lia))
    as (pieces & v & t & H1 & H2 & H3 & H4 & visible & H5 & H6).
  exists pieces, v, t. split_and!; try done. rewrite H5. simpl. by rewrite H6.
Qed.

(** In every state of the playground the collected chunks belong to the
    current request, text that waits has a flush scheduled for it, and the
    callbacks of another request change nothing. *)
Theorem waiting_text_is_scheduled es : let s := chat_run es initial_chat in
  good_chat s ∧ ∀ e, foreign s e → chat_step e s = s.
Proof.
  split; [by apply run_good; split|]. set (s := chat_run es initial_chat). clearbody s.
  intros e H. destruct e; simpl in *; try done;
    unfold handleStreamUpdate, handleStreamComplete, handleStreamError, handleResponse;
    rewrite (proj2 (Z.eqb_neq _ _)) by done; done.
Qed.

(** A streamed reply is shown in full: for chunks that do not begin with the
    text directly before them, whatever the order in which chunks arrive, the timer fires and
    React runs the updaters, when the stream is done and React has run what it
    holds, the reply is complete and its text is the visible part of the chunks
    in the order received; the messages before it are untouched. *)
Theorem streamed_reply_is_complete g before m s es now : fresh_reply g before m s →
  forallb (stream_event g) es = true → no_restart (content_chunks es) →
  ∃ m', ch_messages (drain now (chat_step (ce_done g) (chat_run es s))) = before ++ [m']
    ∧ msg_status m' = Some status_complete ∧ getMessageContent m' = visible_text (concat (content_chunks es)).
Proof.
  intros (Hm & Ho & Hc & Hu & Hg & Hp & Ht) He Hd.
  assert (streaming g before s [] [] []) as Hs.
  { split; [by exists m|by exists []; rewrite Hu|by rewrite Hp|done|]. split; rewrite ?Hp, ?Ht; done. }
  destruct (stream_run g before es s [] [] [] Hs He Hd) as (shown & queued & waiting & Hs1 & E). simpl in E.
  assert (Forall (λ c, c ≠ []) waiting) as Hw.
  { rewrite <- E in Hd. rewrite app_assoc, <- (app_nil_r waiting) in Hd. by apply no_restart_nonempty in Hd. }
  pose proof Hs1 as [_ _ _ Hg1 _].
  destruct (flush_streaming _ _ _ _ _ _ Hs1 Hw) as (queued' & [(m1 & Hm1 & Ho1 & Hc1) (ps & Hu1 & Hq1) _ Hg2 _] & Hq').
  simpl. unfold handleStreamComplete. rewrite Hg1, Z.eqb_refl. cbn [negb].
  destruct (drain_reply now g before ps (enqueue (up_complete g) (set_requesting false (flushStreamUpdates g (chat_run es s))))
    m1 shown queued' Hm1 Ho1 Hc1) as (m2 & _ & Hc2 & Hms & _); simpl.
  - by rewrite Hu1.
  - done.
  - done.
  - by rewrite Hq', E.
  - exists (completeAssistantMessage now m2). destruct (complete_message_fields now m2) as [Hst Hct].
    split_and!; [done|done|]. by rewrite Hct, Hc2, Hq', E.
Qed.

(** A chunk that begins with all the text so far is taken for a repetition
    of it, so the text is lost: the chunks 1 and 11 show 11 instead of 111. *)
Theorem repeated_beginning_is_lost :
  let reply := createLoadingAssistantMessage (js "k") (js "v") 0 in
  let stream := [ce_chunk 1 chunk_content (js "1"); ce_timer; ce_run 0; ce_chunk 1 chunk_content (js "11")] in
  let s := drain 0 (chat_step (ce_done 1) (chat_run stream (drain 0 (chat_step (ce_send [reply]) initial_chat)))) in
  map getMessageContent (ch_messages s) = [js "11"] ∧ concat (content_chunks stream) = js "111".
Proof. by vm_compute. Qed.

Lemma think_tags_decompose_witness :
  ∃ pieces v t, js "a<think>b</think>c<think>d" = concat (map closed_piece pieces) ++ open_piece v t
    ∧ parseThinkTags (js "a<think>b</think>c<think>d") = Ok (mkThink (trim (concat (map fst pieces) ++ v))
        (trim (join [10; 10] (map snd pieces ++ match t with Some r => [r] | None => [] end)))
        (bool_decide (is_Some t))).
Proof.
  destruct (think_tags_decompose (js "a<think>b</think>c<think>d")) as (pieces & v & t & H1 & _ & _ & _ & H2).
  - vm_compute. reflexivity.
  - exists pieces, v, t. split; [exact H1|exact H2].
Defined.

Definition sample_reply : Message := createLoadingAssistantMessage (js "k") (js "v") 0.
Definition sample_stream : list chat_event :=
  [ce_chunk 1 chunk_content (js "Hel"); ce_timer; ce_chunk 1 chunk_content (js "lo <think>"); ce_run 7;
   ce_chunk 1 chunk_content (js "hm</think>"); ce_timer; ce_chunk 1 chunk_content (js "world")].

Lemma streamed_reply_is_complete_witness :
  ∃ m', ch_messages (drain 9 (chat_step (ce_done 1)
      (chat_run sample_stream (drain 0 (chat_step (ce_send [sample_reply]) initial_chat))))) = [] ++ [m']
    ∧ msg_status m' = Some status_complete
    ∧ getMessageContent m' = visible_text (concat (content_chunks sample_stream)).
Proof.
  apply (streamed_reply_is_complete 1 [] sample_reply (drain 0 (chat_step (ce_send [sample_reply]) initial_chat)) sample_stream 9).
  - vm_compute. tauto.
  - vm_compute. reflexivity.
  - apply check_restart_sound. vm_compute. reflexivity.
Defined.
