(* ===== verification/StreamRequest.v ===== *)
(** * Streaming requests of the playground

    Models [web/src/features/playground/lib/streaming/stream-utils.ts] and the
    controller of [web/src/features/playground/hooks/use-stream-request.ts].  The
    controller holds at most one event source; requests, stops and the events of
    old and new sources interleave, and each may find that it is out of date.

    An [input] is one piece of execution: a call of [send] up to its await, its
    resumption with the headers, an event of a source, [stop] or [dispose].  The
    source is an object of a package (sse.js); it may dispatch events while one
    of its methods runs, so an event carries those the source dispatches when
    the listener closes it, and so on. *)
From S2P Require Import Prelude JsString JsNumber JsValue JsDynamic JsJson Playground.
Local Open Scope Z_scope.

(** ** Messages of a stream *)
Definition API_REQUEST_ERROR : jsstring := js "Request error occurred".
Definition NETWORK_ERROR : jsstring := js "Network connection failed or server not responding".
Definition PARSE_ERROR : jsstring := js "Error parsing response data".
Definition STREAM_START_ERROR : jsstring := js "Error establishing connection".
Definition CONNECTION_CLOSED : jsstring := js "Connection closed".
Definition INTERRUPTED : jsstring := js "Generation was interrupted".

Definition STREAM_DONE_MESSAGE : jsstring := js "[DONE]".
Definition STREAM_CLOSED_READY_STATE : Z := 2.

Record StreamMessageUpdate := mkUpdate { su_type : StreamChunkType; su_chunk : jsval }.

Record StreamErrorDetails := mkDetails { sd_errorCode : jsval; sd_errorMessage : jsval }.

(** The exception of [JSON.parse]; its message is only logged. *)
Definition syntax_error : thrown := Err (js "SyntaxError").

Definition JSON_parse_or_throw (text : jsstring) : run jsval :=
  match JSON_parse text with Some v => Ok v | None => Throw syntax_error end.

(** [v?.key] *)
Definition optional_property (v : jsval) (key : string) : run jsval :=
  if is_nullish v then Ok JUndefined else property v key.

(** [v?.[0]] *)
Definition first_of (v : jsval) : jsval :=
  match v with
  | JArray (x :: _) => x
  | JString (c :: _) => JString [c]
  | JObject es => default JUndefined (own_property (js "0") es)
  | _ => JUndefined
  end.

Definition read_error_details (fallbackMessage data : jsstring) : run StreamErrorDetails :=
  parsed ← JSON_parse_or_throw data;
  error ← optional_property parsed "error";
  if negb (truthy error) then Ok (mkDetails JUndefined (JString fallbackMessage))
  else
    code ← property error "code";
    message ← property error "message";
    Ok (mkDetails (or_else code JUndefined) (or_else message (JString fallbackMessage))).

Definition parseStreamErrorDetails (data : option jsstring) : StreamErrorDetails :=
  match data with
  | None | Some [] => mkDetails JUndefined (JString API_REQUEST_ERROR)
  | Some text =>
      match read_error_details text text with
      | Ok details => details
      | _ => mkDetails JUndefined (JString text)
      end
  end.

Definition parseStreamMessageUpdates (data : jsstring) : run (list StreamMessageUpdate) :=
  chunk ← JSON_parse_or_throw data;
  choices ← property chunk "choices";
  delta ← optional_property (first_of choices) "delta";
  if negb (truthy delta) then Ok []
  else
    reasoning ← property delta "reasoning_content";
    content ← property delta "content";
    Ok ((if truthy reasoning then [mkUpdate chunk_reasoning reasoning] else [])
        ++ (if truthy content then [mkUpdate chunk_content content] else [])).

(** The error of a request that was not streamed. *)
Definition parseRequestErrorDetails (error : jsval) : run StreamErrorDetails :=
  response ← optional_property error "response";
  data ← optional_property response "data";
  reported ← optional_property data "error";
  code ← optional_property reported "code";
  dataMessage ← optional_property data "message";
  message ← optional_property error "message";
  Ok (mkDetails (or_else code JUndefined) (or_else (or_else dataMessage message) (JString API_REQUEST_ERROR))).

Definition isStreamDoneMessage (data : jsstring) : bool := str_eqb data STREAM_DONE_MESSAGE.

Definition isStreamClosedReadyState (readyState : option Z) : bool :=
  match readyState with Some x => x =? STREAM_CLOSED_READY_STATE | None => false end.

Definition getStreamReadyStateError (eventReadyState status : option Z) : option jsstring :=
  match eventReadyState, status with
  | Some state, Some code =>
      if (STREAM_CLOSED_READY_STATE <=? state) && negb (code =? 200)
      then Some (js "HTTP " ++ String_of_number (num_of_Z code) ++ js ": " ++ CONNECTION_CLOSED) else None
  | _, _ => None
  end.

(** ** The controller *)

(** What an event of a source shows its listener: the data of a message, the
    data of an error with the state of the source, the new state with the
    status of the source. *)
Inductive signal :=
| sig_message (data : option jsstring)
| sig_error (data : option jsstring) (readyState : option Z)
| sig_readystate (eventReadyState status : option Z).

(** An event, with the events the source dispatches from within [close] should
    the listener close it. *)
Inductive source_event := Signal (what : signal) (echo : list source_event).

(** The callbacks of a request, which its owner tells apart by a key; they run
    on the owner's state and may throw. *)
Class StreamRequestCallbacks (K St : Type) := {
  onUpdate : K → StreamChunkType → jsval → act St unit;
  onComplete : K → act St unit;
  onError : K → jsval → jsval → act St unit;
}.

(** An event source with the variables its listeners share. *)
Record Source (K Req Head : Type) := mkSource {
  so_generation : Z;
  so_key : K;
  so_payload : Req;
  so_headers : Head;
  so_completed : bool;
  so_closed : bool;
  so_streamed : bool;
}.
Arguments mkSource {K Req Head} _ _ _ _ _ _ _.
Arguments so_generation {K Req Head} _.
Arguments so_key {K Req Head} _.
Arguments so_payload {K Req Head} _.
Arguments so_headers {K Req Head} _.
Arguments so_completed {K Req Head} _.
Arguments so_closed {K Req Head} _.
Arguments so_streamed {K Req Head} _.

(** [source] is an index into the sources made so far; [waiting] are the calls
    of [send] that await headers. *)
Record Controller (K Req Head St : Type) := mkController {
  generation : Z;
  source : option nat;
  sources : list (Source K Req Head);
  waiting : list (Z * (Req * K));
  streaming : bool;
  client : St;
}.
Arguments mkController {K Req Head St} _ _ _ _ _ _.
Arguments generation {K Req Head St} _.
Arguments source {K Req Head St} _.
Arguments sources {K Req Head St} _.
Arguments waiting {K Req Head St} _.
Arguments streaming {K Req Head St} _.
Arguments client {K Req Head St} _.

Section Controller.
Context {K Req Head St : Type} {callbacks : StreamRequestCallbacks K St}.
Let controller := Controller K Req Head St.

Definition current_state : act controller controller := λ s, (Ok s, s).
Definition change (f : controller → controller) : act controller unit := λ s, (Ok tt, f s).

Definition setGeneration (g : Z) : act controller unit :=
  change (λ s, mkController g (source s) (sources s) (waiting s) (streaming s) (client s)).
Definition setSource (x : option nat) : act controller unit :=
  change (λ s, mkController (generation s) x (sources s) (waiting s) (streaming s) (client s)).
Definition setSources (l : list (Source K Req Head)) : act controller unit :=
  change (λ s, mkController (generation s) (source s) l (waiting s) (streaming s) (client s)).
Definition setWaiting (l : list (Z * (Req * K))) : act controller unit :=
  change (λ s, mkController (generation s) (source s) (sources s) l (streaming s) (client s)).
Definition setStreaming (b : bool) : act controller unit :=
  change (λ s, mkController (generation s) (source s) (sources s) (waiting s) b (client s)).

(** A callback, run on the state of the owner. *)
Definition call {A} (m : act St A) : act controller A := λ s,
  let '(r, c) := m (client s) in
  (r, mkController (generation s) (source s) (sources s) (waiting s) (streaming s) c).

Definition update_source (id : nat) (f : Source K Req Head → Source K Req Head) : act controller unit :=
  s ← current_state; setSources (alter f id (sources s)).

Definition mark_completed : Source K Req Head → Source K Req Head :=
  λ o, mkSource (so_generation o) (so_key o) (so_payload o) (so_headers o) true (so_closed o) (so_streamed o).
Definition mark_closed : Source K Req Head → Source K Req Head :=
  λ o, mkSource (so_generation o) (so_key o) (so_payload o) (so_headers o) (so_completed o) true (so_streamed o).
Definition mark_streamed : Source K Req Head → Source K Req Head :=
  λ o, mkSource (so_generation o) (so_key o) (so_payload o) (so_headers o) (so_completed o) (so_closed o) true.

(** [isCurrent()] *)
Definition isCurrent (id : nat) (o : Source K Req Head) (s : controller) : bool :=
  (generation s =? so_generation o) && bool_decide (source s = Some id).

(** [close] is [target.close()] with the events dispatched from within it. *)
Definition closeActiveSource (close : act controller unit) (id : nat) : act controller unit :=
  close;;
  s ← current_state;
  if bool_decide (source s = Some id) then setSource None;; setStreaming false else mret tt.

(** [if (!isCurrent() || completed) return], then [k] with the source. *)
Definition guarded (id : nat) (k : Source K Req Head → act controller unit) : act controller unit :=
  s ← current_state;
  match sources s !! id with
  | Some o => if negb (isCurrent id o s) || so_completed o then mret tt else k o
  | None => mret tt
  end.

Definition handleError (close : act controller unit) (id : nat) (errorMessage errorCode : jsval) : act controller unit :=
  guarded id (λ o,
    update_source id mark_completed;;
    call (onError (so_key o) errorMessage errorCode);;
    closeActiveSource close id).

(** [for (const update of updates) callbacks.onUpdate(update.type, update.chunk)] *)
Fixpoint call_updates (key : K) (updates : list StreamMessageUpdate) : act controller unit :=
  match updates with
  | [] => mret tt
  | u :: rest => call (onUpdate key (su_type u) (su_chunk u));; call_updates key rest
  end.

(** [try { m } catch { handler }] *)
Definition catch (m handler : act controller unit) : act controller unit := λ s,
  match m s with
  | (Throw _, s') => handler s'
  | r => r
  end.

Definition listener (close : act controller unit) (id : nat) (what : signal) : act controller unit :=
  guarded id (λ o,
    match what with
    | sig_message data =>
        let data := default [] data in
        if isStreamDoneMessage data then
          update_source id mark_completed;;
          closeActiveSource close id;;
          call (onComplete (so_key o))
        else
          catch (updates ← lift (parseStreamMessageUpdates data); call_updates (so_key o) updates)
            (handleError close id (JString PARSE_ERROR) JUndefined)
    | sig_error data readyState =>
        if isStreamClosedReadyState readyState then mret tt
        else let details := parseStreamErrorDetails data in
          handleError close id (sd_errorMessage details) (sd_errorCode details)
    | sig_readystate eventReadyState status =>
        match getStreamReadyStateError eventReadyState status with
        | Some message => handleError close id (JString message) JUndefined
        | None => mret tt
        end
    end).

(** An event reaches its listener; the events of its echo reach theirs when the
    source is closed. *)
Fixpoint deliver (id : nat) (e : source_event) {struct e} : act controller unit :=
  match e with
  | Signal what echo =>
      let close := update_source id mark_closed;;
        (fix deliver_each (es : list source_event) : act controller unit :=
           match es with [] => mret tt | e :: es' => deliver id e;; deliver_each es' end) echo in
      listener close id what
  end.

Definition deliver_all (id : nat) : list source_event → act controller unit :=
  fix deliver_each (es : list source_event) : act controller unit :=
    match es with [] => mret tt | e :: es' => deliver id e;; deliver_each es' end.

(** [target.close()] *)
Definition close_source (id : nat) (echo : list source_event) : act controller unit :=
  update_source id mark_closed;; deliver_all id echo.

(** [previousSource?.close()] *)
Definition close_previous (previous : option nat) (echo : list source_event) : act controller unit :=
  match previous with Some id => close_source id echo | None => mret tt end.

(** [send] up to [await runtime.getHeaders()] *)
Definition send (echo : list source_event) (payload : Req) (key : K) : act controller unit :=
  s ← current_state;
  let requestGeneration := generation s + 1 in
  setGeneration requestGeneration;;
  let previousSource := source s in
  setSource None;;
  close_previous previousSource echo;;
  setStreaming false;;
  s ← current_state;
  setWaiting (waiting s ++ [(requestGeneration, (payload, key))]).

(** What [nextSource.stream()] does before it returns or throws: the events it
    dispatches, and the echo of the close that follows a failure. *)
Record stream_start := mkStart { ss_events : list source_event; ss_throws : bool; ss_echo : list source_event }.

(** The rest of [send] for the [i]th call that waits; [answer] is what
    [getHeaders] gave or the message of the error it threw, [None] for a value
    that is no [Error].  Nothing runs between the creation of the source and
    the check before [stream], which therefore holds; what [stream] throws is
    not read. *)
Definition send_resume (i : nat) (answer : outcome (option jsstring) Head) (start : stream_start) : act controller unit :=
  s ← current_state;
  match waiting s !! i with
  | None => mret tt
  | Some (requestGeneration, (payload, key)) =>
      setWaiting (delete i (waiting s));;
      if negb (generation s =? requestGeneration) then mret tt
      else match answer with
      | Ok headers =>
          let id := length (sources s) in
          setSources (sources s ++ [mkSource requestGeneration key payload headers false false false]);;
          setSource (Some id);;
          setStreaming true;;
          catch (update_source id mark_streamed;; deliver_all id (ss_events start);;
                 if ss_throws start then lift (Throw TypeErr) else mret tt)
            (handleError (close_source id (ss_echo start)) id (JString STREAM_START_ERROR) JUndefined)
      | Throw error => call (onError key (JString (default STREAM_START_ERROR error)) JUndefined)
      | NoFuel => mret tt
      end
  end.

Definition cancel (echo : list source_event) (notify : bool) : act controller unit :=
  s ← current_state;
  setGeneration (generation s + 1);;
  let activeSource := source s in
  setSource None;;
  close_previous activeSource echo;;
  if notify then setStreaming false else mret tt.

Definition stop (echo : list source_event) : act controller unit := cancel echo true.
Definition dispose (echo : list source_event) : act controller unit := cancel echo false.

(** ** Pieces of execution *)
Inductive input :=
| in_send (echo : list source_event) (payload : Req) (key : K)
| in_headers (i : nat) (answer : outcome (option jsstring) Head) (start : stream_start)
| in_event (id : nat) (e : source_event)
| in_stop (echo : list source_event)
| in_dispose (echo : list source_event).

(** An exception of a listener or of [send] ends the piece; nothing awaits it. *)
Definition perform (x : input) (s : controller) : controller :=
  snd (match x with
    | in_send echo payload key => send echo payload key s
    | in_headers i answer start => send_resume i answer start s
    | in_event id e => deliver id e s
    | in_stop echo => stop echo s
    | in_dispose echo => dispose echo s
    end).

Definition perform_all (xs : list input) (s : controller) : controller := fold_left (λ s x, perform x s) xs s.

Definition initial_controller (c : St) : controller := mkController 0 None [] [] false c.
End Controller.
