(* ===== verification/StreamRequestFacts.v ===== *)
(** * Streaming requests of the playground: theorems

    Of all event sources at most one is open, the one of the latest request;
    each request gets at most one final callback, nothing after it, and nothing
    once another request or a stop has superseded it. *)
From stdpp Require Import relations.
From S2P Require Import Prelude JsString JsNumber JsValue JsDynamic JsJson Playground StreamRequest.
Local Open Scope Z_scope.

Lemma sublist_map {A B} (f : A → B) l1 l2 : sublist l1 l2 → sublist (map f l1) (map f l2).
Proof. induction 1; cbn [map]; by constructor. Qed.

Section Facts.
Context {K Req Head St : Type} {callbacks : StreamRequestCallbacks K St}.
Notation controller := (Controller K Req Head St).
Implicit Types (s : controller) (o : Source K Req Head).

(** ** Events that find their source out of date *)
Definition deaf (id : nat) s : Prop :=
  ∀ o, sources s !! id = Some o → isCurrent id o s = false ∨ so_completed o = true.

Lemma guarded_deaf id k s : deaf id s → guarded id k s = (Ok tt, s).
Proof.
  intros H. unfold guarded, mbind, act_bind, current_state. destruct (sources s !! id) as [o|] eqn:E; [|done].
  destruct (H o E) as [-> | ->]; [done|by rewrite orb_true_r].
Qed.

Lemma guarded_live id k s o : sources s !! id = Some o → isCurrent id o s = true → so_completed o = false →
  guarded id k s = k o s.
Proof. intros E H1 H2. unfold guarded, mbind, act_bind, current_state. by rewrite E, H1, H2. Qed.

Lemma deaf_or_live id s : deaf id s ∨ ∃ o, sources s !! id = Some o ∧ isCurrent id o s = true ∧ so_completed o = false.
Proof.
  destruct (sources s !! id) as [o|] eqn:E; [|left; by intros o H; rewrite E in H].
  destruct (isCurrent id o s) eqn:Hc; [|left; intros o' H; rewrite E in H; injection H as <-; by left].
  destruct (so_completed o) eqn:Hd; [left; intros o' H; rewrite E in H; injection H as <-; by right|]. right. by exists o.
Qed.

Lemma deliver_unfold id what echo s : deliver id (Signal what echo) s = listener (close_source id echo) id what s.
Proof. reflexivity. Qed.

Lemma deliver_deaf id e s : deaf id s → deliver id e s = (Ok tt, s).
Proof. intros H. destruct e as [what echo]. rewrite deliver_unfold. by apply guarded_deaf. Qed.

Lemma deliver_all_deaf id es s : deaf id s → deliver_all id es s = (Ok tt, s).
Proof.
  intros H. induction es as [|e es IH]; [done|]. change (deliver_all id (e :: es) s) with ((deliver id e;; deliver_all id es) s).
  unfold mbind, act_bind. by rewrite deliver_deaf.
Qed.

(** The state with another list of sources. *)
Definition with_sources (l : list (Source K Req Head)) s : controller :=
  mkController (generation s) (source s) l (waiting s) (streaming s) (client s).

Lemma update_source_eq id f s : update_source id f s = (Ok tt, with_sources (alter f id (sources s)) s).
Proof. reflexivity. Qed.

Lemma deaf_closed id s : deaf id s → deaf id (with_sources (alter mark_closed id (sources s)) s).
Proof.
  intros H o. cbn [with_sources sources]. rewrite list_lookup_alter_eq. intros (o' & E & ->)%fmap_Some. exact (H o' E).
Qed.

Lemma close_deaf id echo s : deaf id s → close_source id echo s = (Ok tt, with_sources (alter mark_closed id (sources s)) s).
Proof. intros H. unfold close_source, mbind, act_bind. rewrite update_source_eq. by apply deliver_all_deaf, deaf_closed. Qed.

(** ** Events that reach the current source *)
Definition live (id : nat) o s : Prop :=
  sources s !! id = Some o ∧ generation s = so_generation o ∧ source s = Some id ∧ so_completed o = false.

Lemma live_spec id o s : live id o s ↔ sources s !! id = Some o ∧ isCurrent id o s = true ∧ so_completed o = false.
Proof. unfold live, isCurrent. rewrite andb_true_iff, Z.eqb_eq, bool_decide_eq_true. naive_solver. Qed.

Definition with_client (c : St) s : controller :=
  mkController (generation s) (source s) (sources s) (waiting s) (streaming s) c.

(** The source is done and its listeners know: closed and let go, or, when the
    callback threw, only marked. *)
Definition ended (id : nat) (c : St) s : controller :=
  mkController (generation s) None (alter mark_closed id (alter mark_completed id (sources s))) (waiting s) false c.
Definition stuck (id : nat) (c : St) s : controller := with_client c (with_sources (alter mark_completed id (sources s)) s).

Lemma completed_deaf id l s : deaf id (with_sources (alter mark_completed id l) s).
Proof. intros o. cbn [with_sources sources]. rewrite list_lookup_alter_eq. intros (o' & _ & ->)%fmap_Some. by right. Qed.

Lemma completed_deaf_client id l c s : deaf id (with_client c (with_sources (alter mark_completed id l) s)).
Proof. intros o H. by apply (completed_deaf id l s). Qed.

Lemma closeActive_deaf id echo s : deaf id s → source s = Some id →
  closeActiveSource (close_source id echo) id s
  = (Ok tt, mkController (generation s) None (alter mark_closed id (sources s)) (waiting s) false (client s)).
Proof.
  intros Hd Hs. unfold closeActiveSource, mbind, act_bind. rewrite close_deaf by done. unfold current_state.
  cbn [with_sources source]. by rewrite bool_decide_eq_true_2.
Qed.

Definition error_result (id : nat) (key : K) (message code : jsval) s : run unit * controller :=
  match onError key message code (client s) with
  | (Ok _, c) => (Ok tt, ended id c s)
  | (Throw e, c) => (Throw e, stuck id c s)
  | (NoFuel, c) => (NoFuel, stuck id c s)
  end.

Lemma handleError_live id o echo message code s : live id o s →
  handleError (close_source id echo) id message code s = error_result id (so_key o) message code s.
Proof.
  intros Hl. pose proof Hl as (Eo & _ & Hs & _). apply live_spec in Hl as (_ & Hc & Hd). unfold handleError, error_result.
  rewrite (guarded_live id _ s o) by done. unfold mbind, act_bind. rewrite update_source_eq. unfold call. cbn [with_sources client].
  destruct (onError (so_key o) message code (client s)) as [[u|e|] c]; [|done|done].
  rewrite closeActive_deaf; [done|apply completed_deaf_client|done].
Qed.

(** The updates, run on the state of the owner. *)
Fixpoint run_updates (key : K) (updates : list StreamMessageUpdate) : act St unit :=
  match updates with
  | [] => mret tt
  | u :: rest => onUpdate key (su_type u) (su_chunk u);; run_updates key rest
  end.

Lemma call_updates_eq key us s :
  call_updates key us s = let '(r, c) := run_updates key us (client s) in (r, with_client c s).
Proof.
  revert s. induction us as [|u us IH]; intros s; [by destruct s|]. cbn [call_updates run_updates]. unfold mbind, act_bind, call.
  destruct (onUpdate key (su_type u) (su_chunk u) (client s)) as [[[]|e|] c]; [|done|done].
  rewrite IH. cbn [client]. by destruct (run_updates key us c) as [r c'].
Qed.

Lemma live_client id o c s : live id o s → live id o (with_client c s).
Proof. done. Qed.

(** What an event does to the current source. *)
Definition event_result (id : nat) (key : K) (what : signal) s : run unit * controller :=
  match what with
  | sig_message data =>
      if isStreamDoneMessage (default [] data) then let '(r, c) := onComplete key (client s) in (r, ended id c s)
      else match parseStreamMessageUpdates (default [] data) with
      | Ok us =>
          match run_updates key us (client s) with
          | (Throw _, c) => error_result id key (JString PARSE_ERROR) JUndefined (with_client c s)
          | (r, c) => (r, with_client c s)
          end
      | Throw _ => error_result id key (JString PARSE_ERROR) JUndefined s
      | NoFuel => (NoFuel, s)
      end
  | sig_error data readyState =>
      if isStreamClosedReadyState readyState then (Ok tt, s)
      else error_result id key (sd_errorMessage (parseStreamErrorDetails data)) (sd_errorCode (parseStreamErrorDetails data)) s
  | sig_readystate state status =>
      match getStreamReadyStateError state status with
      | Some message => error_result id key (JString message) JUndefined s
      | None => (Ok tt, s)
      end
  end.

Lemma deliver_live id o what echo s : live id o s → deliver id (Signal what echo) s = event_result id (so_key o) what s.
Proof.
  intros Hl. pose proof Hl as (_ & _ & Hs & _). pose proof Hl as (Eo & Hc & Hd)%live_spec.
  rewrite deliver_unfold. unfold listener. rewrite (guarded_live id _ s o) by done. destruct what; cbn [event_result].
  - destruct (isStreamDoneMessage _).
    + unfold mbind, act_bind. rewrite update_source_eq, closeActive_deaf by (done || apply completed_deaf).
      unfold call. cbn [client with_sources]. by destruct (onComplete (so_key o) (client s)) as [[] ?].
    + unfold catch, mbind, act_bind, lift. destruct (parseStreamMessageUpdates _) as [us|e|]; [|by apply handleError_live|done].
      rewrite call_updates_eq. destruct (run_updates (so_key o) us (client s)) as [[u|e|] c]; [done| |done].
      by apply handleError_live, live_client.
  - destruct (isStreamClosedReadyState _); [done|]. by apply handleError_live.
  - destruct (getStreamReadyStateError _ _); [|done]. by apply handleError_live.
Qed.

(** Every effect of an event: the owner's state, or the end of the source. *)
Inductive moved (id : nat) s : controller → Prop :=
| moved_client c : moved id s (with_client c s)
| moved_ended o c : live id o s → moved id s (ended id c s)
| moved_stuck o c : live id o s → moved id s (stuck id c s).

Lemma moved_refl id s : moved id s s.
Proof. destruct s as [g x l w b c]. exact (moved_client id (mkController g x l w b c) c). Qed.

Lemma moved_after_client id c s s' : moved id (with_client c s) s' → moved id s s'.
Proof.
  intros H. inversion H; subst.
  - apply (moved_client id s).
  - by apply (moved_ended id s o).
  - by apply (moved_stuck id s o).
Qed.

Lemma error_moved id o message code s : live id o s → moved id s (snd (error_result id (so_key o) message code s)).
Proof.
  intros Hl. unfold error_result. destruct (onError _ _ _ _) as [[u|e|] c]; cbn [snd].
  - by apply (moved_ended id s o).
  - by apply (moved_stuck id s o).
  - by apply (moved_stuck id s o).
Qed.

Lemma deliver_moved id e s : moved id s (snd (deliver id e s)).
Proof.
  destruct (deaf_or_live id s) as [Hd|(o & Hl)]; [rewrite deliver_deaf by done; apply moved_refl|]. apply live_spec in Hl.
  destruct e as [what echo]. rewrite (deliver_live id o) by done. destruct what; cbn [event_result].
  - destruct (isStreamDoneMessage _); [destruct (onComplete _ _) as [r c]; by apply (moved_ended id s o)|].
    destruct (parseStreamMessageUpdates _) as [us|e|]; [|by apply error_moved|apply moved_refl].
    destruct (run_updates _ _ _) as [[u|e|] c]; [apply moved_client| |apply moved_client].
    by apply (moved_after_client id c), error_moved, live_client.
  - destruct (isStreamClosedReadyState _); [apply moved_refl|]. by apply error_moved.
  - destruct (getStreamReadyStateError _ _); [by apply error_moved|apply moved_refl].
Qed.

Lemma handleError_moved id echo message code s : moved id s (snd (handleError (close_source id echo) id message code s)).
Proof.
  destruct (deaf_or_live id s) as [Hd|(o & Hl)].
  - unfold handleError. rewrite guarded_deaf by done. apply moved_refl.
  - apply live_spec in Hl. rewrite (handleError_live id o) by done. by apply error_moved.
Qed.

(** What the callbacks keep of the owner's state, events keep. *)
Section Kept.
Context (P : St → Prop).
Context (P_update : ∀ k t v c, P c → P (snd (onUpdate k t v c))).
Context (P_complete : ∀ k c, P c → P (snd (onComplete k c))).
Context (P_error : ∀ k m v c, P c → P (snd (onError k m v c))).

Lemma error_kept id k message code s : P (client s) → P (client (snd (error_result id k message code s))).
Proof. intros H. unfold error_result. pose proof (P_error k message code _ H) as H1. by destruct (onError _ _ _ _) as [[u|e|] c]. Qed.

Lemma updates_kept k us c : P c → P (snd (run_updates k us c)).
Proof.
  revert c. induction us as [|u us IH]; intros c H; [done|]. cbn [run_updates]. unfold mbind, act_bind.
  pose proof (P_update k (su_type u) (su_chunk u) c H) as H1. destruct (onUpdate _ _ _ _) as [[v|e|] c']; [by apply IH|done|done].
Qed.

Lemma deliver_kept id e s : P (client s) → P (client (snd (deliver id e s))).
Proof.
  intros H. destruct (deaf_or_live id s) as [Hd|(o & Hl)]; [by rewrite deliver_deaf|]. apply live_spec in Hl.
  destruct e as [what echo]. rewrite (deliver_live id o) by done. destruct what; cbn [event_result].
  - destruct (isStreamDoneMessage _); [pose proof (P_complete (so_key o) _ H) as H1; by destruct (onComplete _ _)|].
    destruct (parseStreamMessageUpdates _) as [us|e|]; [|by apply error_kept|done].
    pose proof (updates_kept (so_key o) us _ H) as H1. destruct (run_updates _ _ _) as [[u|e|] c]; [done|by apply error_kept|done].
  - destruct (isStreamClosedReadyState _); [done|]. by apply error_kept.
  - destruct (getStreamReadyStateError _ _); [by apply error_kept|done].
Qed.

Lemma handleError_kept id echo message code s : P (client s) →
  P (client (snd (handleError (close_source id echo) id message code s))).
Proof.
  intros H. destruct (deaf_or_live id s) as [Hd|(o & Hl)].
  - unfold handleError. by rewrite guarded_deaf.
  - apply live_spec in Hl. rewrite (handleError_live id o) by done. by apply error_kept.
Qed.
End Kept.

(** ** The pieces of execution *)
Definition close_in (x : option nat) (l : list (Source K Req Head)) : list (Source K Req Head) :=
  match x with Some id => alter mark_closed id l | None => l end.

Lemma idle_deaf id s : source s = None → deaf id s.
Proof. intros E o _. left. unfold isCurrent. rewrite E. by rewrite andb_false_r. Qed.

Lemma close_previous_idle x echo s : source s = None → close_previous x echo s = (Ok tt, with_sources (close_in x (sources s)) s).
Proof. intros E. destruct x as [id|]; [by apply close_deaf, idle_deaf|by destruct s]. Qed.

Lemma send_eq echo payload key s : snd (send echo payload key s)
  = mkController (generation s + 1) None (close_in (source s) (sources s))
      (waiting s ++ [(generation s + 1, (payload, key))]) false (client s).
Proof.
  unfold send, mbind, act_bind, current_state, setGeneration, setSource, setStreaming, setWaiting, change.
  by rewrite close_previous_idle.
Qed.

Lemma cancel_run echo notify s : cancel echo notify s
  = (Ok tt, mkController (generation s + 1) None (close_in (source s) (sources s)) (waiting s)
      (if notify then false else streaming s) (client s)).
Proof.
  unfold cancel, mbind, act_bind, current_state, setGeneration, setSource, setStreaming, change.
  rewrite close_previous_idle by done. by destruct notify.
Qed.

Lemma cancel_eq echo notify s : snd (cancel echo notify s)
  = mkController (generation s + 1) None (close_in (source s) (sources s)) (waiting s)
      (if notify then false else streaming s) (client s).
Proof. by rewrite cancel_run. Qed.

(** The source that [send] makes when its headers arrive in time. *)
Definition started (i : nat) (g : Z) (payload : Req) (key : K) (headers : Head) s : controller :=
  mkController (generation s) (Some (length (sources s)))
    (sources s ++ [mkSource g key payload headers false false true]) (delete i (waiting s)) true (client s).

(** Any relation that each event and each failure keep to is kept to, in
    steps, by a source that starts. *)
Section Steps.
Context (R : nat → controller → controller → Prop).
Context (R_deliver : ∀ id e s, R id s (snd (deliver id e s))).
Context (R_error : ∀ id echo message code s, R id s (snd (handleError (close_source id echo) id message code s))).

Lemma deliver_all_steps id es s : rtc (R id) s (snd (deliver_all id es s)).
Proof.
  revert s. induction es as [|e es IH]; intros s; [done|].
  change (deliver_all id (e :: es) s) with ((deliver id e;; deliver_all id es) s). unfold mbind, act_bind.
  pose proof (R_deliver id e s) as Hm. destruct (deliver id e s) as [[u|t|] s']; cbn [snd] in *; by eapply rtc_l.
Qed.

Lemma resume_steps i g payload key headers start s : waiting s !! i = Some (g, (payload, key)) → g = generation s →
  rtc (R (length (sources s))) (started i g payload key headers s) (snd (send_resume i (Ok headers) start s)).
Proof.
  intros Hi Hg. unfold send_resume, mbind, act_bind, current_state. rewrite Hi. unfold setWaiting, setSources, setSource, setStreaming, change.
  rewrite (proj2 (Z.eqb_eq _ _)) by done. cbn [negb]. unfold catch. rewrite update_source_eq. cbn [with_sources sources].
  assert (∀ o, alter mark_streamed (length (sources s)) (sources s ++ [o]) = sources s ++ [mark_streamed o]) as Ha.
  { intros o. rewrite alter_app_r_alt by done. by rewrite Nat.sub_diag. }
  rewrite Ha. fold (started i g payload key headers s).
  match goal with |- context [deliver_all ?a ?b ?c] => change c with (started i g payload key headers s) end.
  pose proof (deliver_all_steps (length (sources s)) (ss_events start) (started i g payload key headers s)) as Hm.
  destruct (deliver_all _ _ _) as [[u|t|] s1]; cbn [snd] in Hm.
  - destruct (ss_throws start); [|done]. cbn [lift]. by eapply rtc_r.
  - by eapply rtc_r.
  - done.
Qed.
End Steps.

Lemma resume_started i g payload key headers start s : waiting s !! i = Some (g, (payload, key)) → g = generation s →
  rtc (moved (length (sources s))) (started i g payload key headers s) (snd (send_resume i (Ok headers) start s)).
Proof. apply (resume_steps moved); [apply deliver_moved|intros; apply handleError_moved]. Qed.

(** The other ways a call of [send] resumes: too late, or without headers. *)
Lemma resume_other i answer start s :
  (∃ g payload key headers, waiting s !! i = Some (g, (payload, key)) ∧ g = generation s ∧ answer = Ok headers) ∨
  (∃ w c, snd (send_resume i answer start s) = mkController (generation s) (source s) (sources s) w (streaming s) c
     ∧ sublist w (waiting s)
     ∧ (c = client s ∨ ∃ payload key error, waiting s !! i = Some (generation s, (payload, key)) ∧ answer = Throw error
          ∧ w = delete i (waiting s) ∧ c = snd (onError key (JString (default STREAM_START_ERROR error)) JUndefined (client s)))).
Proof.
  unfold send_resume, mbind, act_bind, current_state. destruct (waiting s !! i) as [[g [payload key]]|] eqn:Hi.
  2: { right. exists (waiting s), (client s). split; [by destruct s|]. auto. }
  unfold setWaiting, change. destruct (Z.eqb_spec (generation s) g) as [<-|Hne]; cbn [negb].
  2: { right. exists (delete i (waiting s)), (client s). auto using sublist_delete. }
  destruct answer as [headers|error|]; [left; by exists (generation s), payload, key, headers|right|right].
  - unfold call. cbn [client]. destruct (onError _ _ _ _) as [r c] eqn:E. exists (delete i (waiting s)), c.
    split; [done|]. split; [apply sublist_delete|]. right. exists payload, key, error. by rewrite E.
  - exists (delete i (waiting s)), (client s). auto using sublist_delete.
Qed.

(** ** One open connection *)
Record ctl_ok s : Prop := {
  ok_open : ∀ j o, sources s !! j = Some o → so_closed o = false → source s = Some j;
  ok_source : ∀ j, source s = Some j → ∃ o, sources s !! j = Some o ∧ so_generation o = generation s ∧ so_closed o = false;
  ok_generations : ∀ j o, sources s !! j = Some o → so_generation o ≤ generation s;
  ok_waiting : ∀ w, w ∈ waiting s → fst w ≤ generation s ∧ (fst w = generation s → source s = None);
  ok_once : NoDup (map fst (waiting s));
}.

Lemma lookup_alter_inv f id (l : list (Source K Req Head)) j o : alter f id l !! j = Some o →
  (id = j ∧ ∃ o', l !! j = Some o' ∧ o = f o') ∨ (id ≠ j ∧ l !! j = Some o).
Proof.
  rewrite list_lookup_alter. case_decide as E; [subst; intros (o' & ? & ?)%fmap_Some; left; eauto|by right].
Qed.

Lemma ended_ok id o c s : live id o s → ctl_ok s → ctl_ok (ended id c s).
Proof.
  intros (Eo & Hg & Hs & _) [H1 H2 H3 H4 H5]. split; cbn [ended sources source generation waiting]; try done.
  - intros j o' [[-> (o1 & _ & ->)]|[Hne H]]%lookup_alter_inv Hc; [done|]. apply lookup_alter_inv in H as [[-> _]|[_ H]]; [done|].
    pose proof (H1 j o' H Hc) as E. rewrite Hs in E. by injection E as ->.
  - intros j o' [[-> (o1 & H & ->)]|[Hne H]]%lookup_alter_inv;
      apply lookup_alter_inv in H as [[? (o2 & H & ->)]|[_ H]]; exact (H3 _ _ H).
  - intros w Hw. split; [by apply H4|done].
Qed.

Lemma stuck_ok id o c s : live id o s → ctl_ok s → ctl_ok (stuck id c s).
Proof.
  intros (Eo & Hg & Hs & _) [H1 H2 H3 H4 H5]. split; cbn [stuck with_client with_sources sources source generation waiting]; try done.
  - intros j o' [[-> (o1 & _ & ->)]|[Hne H]]%lookup_alter_inv Hc; [done|exact (H1 j o' H Hc)].
  - intros j Hj. destruct (H2 j Hj) as (o' & E' & Hg' & Hc'). rewrite Hs in Hj. injection Hj as ->.
    exists (mark_completed o'). rewrite list_lookup_alter_eq, E'. done.
  - intros j o' [[-> (o1 & H & ->)]|[Hne H]]%lookup_alter_inv; exact (H3 _ _ H).
Qed.

Lemma moved_ok id s s' : moved id s s' → ctl_ok s → ctl_ok s'.
Proof. intros [c|o c Hl|o c Hl] H; [by destruct H; split|by eapply ended_ok|by eapply stuck_ok]. Qed.

Lemma moves_ok id s s' : rtc (moved id) s s' → ctl_ok s → ctl_ok s'.
Proof. induction 1; eauto using moved_ok. Qed.

(** What a new request, a stop and an unmount share: nothing stays open. *)
Lemma close_in_closed s j o : ctl_ok s → close_in (source s) (sources s) !! j = Some o →
  so_closed o = true ∧ so_generation o ≤ generation s ∧ ∃ o', sources s !! j = Some o' ∧ so_key o = so_key o' ∧ so_generation o = so_generation o' ∧ so_completed o = so_completed o'.
Proof.
  intros [H1 H2 H3 _ _] H. destruct (source s) as [id|] eqn:Es; cbn [close_in] in H.
  - apply lookup_alter_inv in H as [[-> (o' & H & ->)]|[Hne H]]; [split; [done|]; split; [exact (H3 _ _ H)|eauto]|].
    split; [|split; [exact (H3 _ _ H)|eauto]]. destruct (so_closed o) eqn:E; [done|]. pose proof (H1 j o H E) as Ej.
    by injection Ej as ->.
  - split; [|split; [exact (H3 _ _ H)|eauto]]. destruct (so_closed o) eqn:E; [done|]. by pose proof (H1 j o H E).
Qed.

Lemma started_ok i payload key headers s : ctl_ok s → waiting s !! i = Some (generation s, (payload, key)) →
  ctl_ok (started i (generation s) payload key headers s).
Proof.
  intros [H1 H2 H3 H4 H5] Hi. pose proof (list_elem_of_lookup_2 _ _ _ Hi) as Hin. destruct (H4 _ Hin) as [_ Hn]. specialize (Hn eq_refl).
  split; cbn [started sources source generation waiting].
  - intros j o [H|[Hj Ho]]%lookup_app_Some Hc; [by pose proof (H1 j o H Hc) as E; rewrite Hn in E|].
    apply list_lookup_singleton_Some in Ho as [Hj' <-]. f_equal. lia.
  - intros j [= <-]. eexists. rewrite lookup_app_r, Nat.sub_diag by lia. done.
  - intros j o [H|[Hj Ho]]%lookup_app_Some; [exact (H3 _ _ H)|]. by apply list_lookup_singleton_Some in Ho as [_ <-].
  - intros w Hw. rewrite delete_take_drop in Hw. rewrite <- (take_drop_middle _ _ _ Hi) in H5. rewrite map_app in H5. cbn [map] in H5.
    apply NoDup_app in H5 as (_ & Hd & [Hn2 _]%NoDup_cons).
    assert (fst w ≠ generation s) as Hne.
    { intros E. apply elem_of_app in Hw as [Hw|Hw]; [apply (Hd (fst w)); [by apply list_elem_of_fmap_2|rewrite E; left]|].
      apply Hn2. cbn [fst]. rewrite <- E. by apply list_elem_of_fmap_2. }
    split; [|done]. apply H4. rewrite <- (take_drop_middle _ _ _ Hi). apply elem_of_app. apply elem_of_app in Hw as [Hw|Hw]; [by left|].
    right. by right.
  - rewrite delete_take_drop, map_app. rewrite <- (take_drop_middle _ _ _ Hi), map_app in H5. cbn [map] in H5.
    apply NoDup_app in H5 as (Ha & Hd & [Hn2 Hb]%NoDup_cons). apply NoDup_app. split_and!; [done| |done].
    intros x Hx1 Hx2. apply (Hd x Hx1). by right.
Qed.

Lemma fewer_waiting s w b c : ctl_ok s → sublist w (waiting s) →
  ctl_ok (mkController (generation s) (source s) (sources s) w b c).
Proof.
  intros [H1 H2 H3 H4 H5] Hsub.
  split; cbn [sources source generation waiting]; try done.
  - intros x Hx. apply H4. by eapply sublist_subseteq.
  - eapply sublist_NoDup; [exact H5|]. by apply sublist_map.
Qed.

Lemma superseded_ok s w b : ctl_ok s → (∀ x, x ∈ w → fst x ≤ generation s ∨ x ∈ w ∧ fst x = generation s + 1) → NoDup (map fst w) →
  ctl_ok (mkController (generation s + 1) None (close_in (source s) (sources s)) w b (client s)).
Proof.
  intros Hok Hw Hn. split; cbn [sources source generation waiting]; try done.
  - intros j o H Hc. apply (close_in_closed s) in H as (E & _); [congruence|done].
  - intros j o H. apply (close_in_closed s) in H as (_ & E & _); [lia|done].
  - intros x Hx. split; [|done]. destruct (Hw x Hx) as [?|[_ ?]]; lia.
Qed.

Lemma perform_ok x s : ctl_ok s → ctl_ok (perform x s).
Proof.
  intros Hok. pose proof Hok as [H1 H2 H3 H4 H5]. destruct x as [echo payload key|i answer start|id e|echo|echo]; unfold perform.
  - rewrite send_eq. apply superseded_ok; [done| |].
    + intros x [Hx|Hx%list_elem_of_singleton]%elem_of_app; [left; by apply H4|]. subst. right. split; [apply elem_of_app; right; by left|done].
    + rewrite map_app. apply NoDup_app. split_and!; [done| |apply NoDup_singleton].
      intros g (w & -> & Hw)%list_elem_of_fmap Hg%list_elem_of_singleton. cbn [fst] in Hg. pose proof (proj1 (H4 w Hw)). lia.
  - destruct (resume_other i answer start s) as [(g & payload & key & headers & Hi & -> & ->)|(w & c & -> & Hw & _)].
    + eapply moves_ok; [by eapply resume_started|by apply started_ok].
    + by apply fewer_waiting.
  - eapply moved_ok; [apply deliver_moved|done].
  - unfold stop. rewrite cancel_eq. apply superseded_ok; [done| |done]. intros x Hx. left. by apply H4.
  - unfold dispose. rewrite cancel_eq. apply superseded_ok; [done| |done]. intros x Hx. left. by apply H4.
Qed.

Lemma perform_all_ok xs s : ctl_ok s → ctl_ok (perform_all xs s).
Proof. revert s. induction xs as [|x xs IH]; intros s H; [done|]. apply IH. by apply perform_ok. Qed.

Lemma initial_ok c : ctl_ok (initial_controller c).
Proof.
  split; cbn [initial_controller sources source generation waiting map].
  - intros j o H. by rewrite lookup_nil in H.
  - done.
  - intros j o H. by rewrite lookup_nil in H.
  - by intros w Hw%not_elem_of_nil.
  - constructor.
Qed.

(** [isStreaming] until the unmount. *)
Definition shown_right s : Prop := streaming s = bool_decide (is_Some (source s)).

Lemma shown_none s : streaming s = false → source s = None → shown_right s.
Proof. unfold shown_right. by intros -> ->. Qed.

Lemma shown_some j s : streaming s = true → source s = Some j → shown_right s.
Proof. unfold shown_right. intros -> ->. by rewrite bool_decide_eq_true_2 by (by eexists). Qed.

Lemma moves_shown id s s' : rtc (moved id) s s' → shown_right s → shown_right s'.
Proof.
  induction 1 as [|s1 s2 s3 H _ IH]; [done|]. intros Hs. apply IH. destruct H as [c|o c Hl|o c Hl]; [exact Hs| |exact Hs].
  by apply shown_none.
Qed.

Definition is_dispose (x : input (K := K) (Req := Req) (Head := Head)) : bool := match x with in_dispose _ => true | _ => false end.

Lemma perform_shown x s : is_dispose x = false → shown_right s → shown_right (perform x s).
Proof.
  intros Hx Hs. destruct x as [echo payload key|i answer start|id e|echo|echo]; unfold perform.
  - rewrite send_eq. by apply shown_none.
  - destruct (resume_other i answer start s) as [(g & payload & key & headers & Hi & -> & ->)|(w & c & -> & _)]; [|exact Hs].
    eapply moves_shown; [by eapply resume_started|]. by eapply shown_some.
  - eapply moves_shown; [apply rtc_once, deliver_moved|done].
  - unfold stop. rewrite cancel_eq. by apply shown_none.
  - done.
Qed.

Lemma perform_all_shown xs s : forallb (λ x, negb (is_dispose x)) xs = true → shown_right s → shown_right (perform_all xs s).
Proof.
  revert s. induction xs as [|x xs IH]; intros s Hx H; [done|]. cbn in Hx. apply andb_prop in Hx as [Hx Hxs].
  apply IH; [done|]. apply perform_shown; [by destruct (is_dispose x)|done].
Qed.

(** C27: The playground never leaks a connection.  In every state the stream
    controller reaches, whatever its callbacks do and whatever events the sources
    dispatch, also from within [close] and [stream], every open source is the
    current one and belongs to the latest request; a new request and a stop leave
    no source open, none current and [isStreaming] off, and an unmount leaves no
    source open and none current; and as long as the component has not been
    unmounted, [isStreaming] is on exactly when there is a current source and
    it is open. *)
Theorem one_open_connection (c : St) (xs : list (input (K := K) (Req := Req) (Head := Head))) :
  let s := perform_all xs (initial_controller c) in
  (∀ j o, sources s !! j = Some o → so_closed o = false → source s = Some j ∧ so_generation o = generation s)
  ∧ (∀ echo payload key, let s' := perform (in_send echo payload key) s in
       (∀ j o, sources s' !! j = Some o → so_closed o = true) ∧ source s' = None ∧ streaming s' = false)
  ∧ (∀ echo, let s' := perform (in_stop echo) s in
       (∀ j o, sources s' !! j = Some o → so_closed o = true) ∧ source s' = None ∧ streaming s' = false)
  ∧ (∀ echo, let s' := perform (in_dispose echo) s in
       (∀ j o, sources s' !! j = Some o → so_closed o = true) ∧ source s' = None)
  ∧ (forallb (λ x, negb (is_dispose x)) xs = true →
     (streaming s = true ↔ ∃ j o, source s = Some j ∧ sources s !! j = Some o ∧ so_closed o = false)).
Proof.
  intros s. pose proof (perform_all_ok xs _ (initial_ok c)) as Hok. fold s in Hok. split_and!.
  - intros j o Ho Hc. pose proof (ok_open _ Hok j o Ho Hc) as Hj. split; [done|]. destruct (ok_source _ Hok j Hj) as (o' & Ho' & Hg & _). congruence.
  - intros echo payload key. unfold perform. rewrite send_eq. split; [|done]. intros j o. apply (close_in_closed s j o Hok).
  - intros echo. unfold perform, stop. rewrite cancel_eq. split; [|done]. intros j o. apply (close_in_closed s j o Hok).
  - intros echo. unfold perform, dispose. rewrite cancel_eq. split; [|done]. intros j o. apply (close_in_closed s j o Hok).
  - intros Hx. pose proof (perform_all_shown xs (initial_controller c) Hx eq_refl) as Hs. fold s in Hs. unfold shown_right in Hs.
    rewrite Hs, bool_decide_eq_true. split.
    + intros [j Hj]. destruct (ok_source _ Hok j Hj) as (o & Ho & _ & Hc). by exists j, o.
    + intros (j & o & Hj & _). by exists j.
Qed.
End Facts.

(** ** A concrete run *)

(** A client that counts the calls it gets. *)
Definition counting_callbacks : StreamRequestCallbacks nat nat := {|
  onUpdate := λ _ _ _ n, (Ok tt, S n);
  onComplete := λ _ n, (Ok tt, S n);
  onError := λ _ _ _ n, (Ok tt, S n);
|}.

(** A request whose stream is open, superseded by another whose stream opens. *)
Definition two_requests : list (input (K := nat) (Req := unit) (Head := unit)) :=
  [in_send [] tt 1%nat; in_headers 0 (Ok tt) (mkStart [] false []); in_send [] tt 2%nat;
   in_headers 0 (Ok tt) (mkStart [] false [])].

Lemma one_open_connection_witness :
  let s := perform_all (callbacks := counting_callbacks) two_requests (initial_controller O) in
  map so_closed (sources s) = [true; false] ∧ streaming s = true ∧
  (∃ j o, source s = Some j ∧ sources s !! j = Some o ∧ so_closed o = false) ∧
  streaming (perform (callbacks := counting_callbacks) (in_stop []) s) = false.
Proof.
  split; [vm_compute; reflexivity|]. split; [vm_compute; reflexivity|]. split.
  - apply (one_open_connection (callbacks := counting_callbacks) O two_requests); vm_compute; reflexivity.
  - apply (one_open_connection (callbacks := counting_callbacks) O two_requests).
Defined.
