(* ===== verification/StreamCallFacts.v ===== *)
(** * Streaming requests of the playground: the callbacks of a request

    The calls the controller makes are recorded in a log.  A request gets
    updates and then at most one final call, and none once it is superseded. *)
From stdpp Require Import relations.
From S2P Require Import Prelude JsString JsNumber JsValue JsDynamic JsJson Playground StreamRequest StreamRequestFacts.
Local Open Scope Z_scope.

Inductive call_made (K : Type) :=
| made_update (key : K) (type : StreamChunkType) (chunk : jsval)
| made_complete (key : K)
| made_error (key : K) (message code : jsval).
Arguments made_update {K} _ _ _.
Arguments made_complete {K} _.
Arguments made_error {K} _ _ _.

Definition call_key {K} (c : call_made K) : K :=
  match c with made_update k _ _ | made_complete k | made_error k _ _ => k end.
Definition is_update {K} (c : call_made K) : bool := match c with made_update _ _ _ => true | _ => false end.

(** An owner that records its callbacks; which of them throw is arbitrary. *)
Definition record_call {K} (throws : list (call_made K) → call_made K → bool) (c : call_made K) : act (list (call_made K)) unit :=
  λ log, (if throws log c then Throw TypeErr else Ok tt, log ++ [c]).

Definition recorder {K} (throws : list (call_made K) → call_made K → bool) : StreamRequestCallbacks K (list (call_made K)) := {|
  onUpdate key type chunk := record_call throws (made_update key type chunk);
  onComplete key := record_call throws (made_complete key);
  onError key message code := record_call throws (made_error key message code);
|}.

Section Calls.
Context {K Req Head : Type} `{EqDecision K} (throws : list (call_made K) → call_made K → bool).
Local Instance recording : StreamRequestCallbacks K (list (call_made K)) := recorder throws.
Notation controller := (Controller K Req Head (list (call_made K))).
Implicit Types (s : controller) (o : Source K Req Head) (log : list (call_made K)).

(** The calls of one request. *)
Definition calls (k : K) log : list (call_made K) := List.filter (λ c, bool_decide (call_key c = k)) log.

Lemma calls_app k l1 l2 : calls k (l1 ++ l2) = calls k l1 ++ calls k l2.
Proof. apply List.filter_app. Qed.

Lemma calls_other k l : Forall (λ c, call_key c ≠ k) l → calls k l = [].
Proof. induction 1 as [|c l H _ IH]; [done|]. unfold calls in *. cbn [List.filter]. by rewrite bool_decide_eq_false_2. Qed.

Lemma calls_own k l : Forall (λ c, call_key c = k) l → calls k l = l.
Proof. induction 1 as [|c l H _ IH]; [done|]. unfold calls in *. cbn [List.filter]. rewrite bool_decide_eq_true_2 by done. by rewrite IH. Qed.

(** Updates, then perhaps one final call. *)
Definition open_calls (l : list (call_made K)) : Prop := Forall (λ c, is_update c = true) l.
Definition right_calls (l : list (call_made K)) : Prop := ∃ updates final, l = updates ++ final ∧ open_calls updates ∧ (length final ≤ 1)%nat.

Definition own (k : K) (l : list (call_made K)) : Prop := Forall (λ c, call_key c = k) l.

Lemma run_updates_log key us log : ∃ new r, run_updates key us log = (r, log ++ new)
  ∧ own key new ∧ open_calls new ∧ r ≠ NoFuel.
Proof.
  revert log. induction us as [|u us IH]; intros log.
  - exists [], (Ok tt). rewrite app_nil_r. split_and!; try done; constructor.
  - cbn [run_updates]. unfold mbind, act_bind. cbn [onUpdate recording recorder]. unfold record_call at 1.
    set (c := made_update key (su_type u) (su_chunk u)). destruct (throws log c).
    + exists [c], (Throw TypeErr). split_and!; try done; by repeat constructor.
    + destruct (IH (log ++ [c])) as (new & r & -> & Hk & Ho & Hr). exists (c :: new), r. rewrite <- app_assoc. split_and!; try done; by constructor.
Qed.

(** What an event adds to the log: calls of the request of the current source,
    of which only the last may be final, and then the source is done. *)
Inductive logged (id : nat) s : controller → Prop :=
| logged_none : logged id s s
| logged_updates o new : live id o s → own (so_key o) new → open_calls new → logged id s (with_client (client s ++ new) s)
| logged_ended o new final : live id o s → own (so_key o) (new ++ [final]) → open_calls new →
    logged id s (ended id (client s ++ new ++ [final]) s)
| logged_stuck o new final : live id o s → own (so_key o) (new ++ [final]) → open_calls new →
    logged id s (stuck id (client s ++ new ++ [final]) s).

Lemma error_logged id o message code s new : live id o s → own (so_key o) new → open_calls new →
  logged id s (snd (error_result id (so_key o) message code (with_client (client s ++ new) s))).
Proof.
  intros Hl Hk Ho. unfold error_result. cbn [with_client client onError recording recorder]. unfold record_call.
  set (c := made_error _ _ _). assert (own (so_key o) (new ++ [c])) as Hc by (apply Forall_app; split; [done|by repeat constructor]).
  destruct (throws _ c); cbn [snd]; rewrite <- app_assoc.
  - by apply (logged_stuck id s o).
  - by apply (logged_ended id s o).
Qed.

Lemma with_client_nil s : with_client (client s ++ []) s = s.
Proof. destruct s. unfold with_client. cbn. by rewrite app_nil_r. Qed.

Lemma error_logged_alone id o message code s : live id o s → logged id s (snd (error_result id (so_key o) message code s)).
Proof. intros Hl. rewrite <- (with_client_nil s) at 2. apply error_logged; [done|constructor|constructor]. Qed.

Lemma deliver_logged id e s : logged id s (snd (deliver id e s)).
Proof.
  destruct (deaf_or_live id s) as [Hd|(o & Hl)]; [rewrite deliver_deaf by done; constructor|]. apply live_spec in Hl.
  destruct e as [what echo]. rewrite (deliver_live id o) by done. destruct what; cbn [event_result].
  - destruct (isStreamDoneMessage _).
    + cbn [onComplete recording recorder]. unfold record_call. cbn [snd].
      apply (logged_ended id s o []); [done|by repeat constructor|constructor].
    + destruct (parseStreamMessageUpdates _) as [us|e|]; [|by apply error_logged_alone|constructor].
      destruct (run_updates_log (so_key o) us (client s)) as (new & r & E & Hk & Ho & Hr). rewrite E.
      destruct r as [[]|t|]; [by apply (logged_updates id s o)|by apply error_logged|done].
  - destruct (isStreamClosedReadyState _); [constructor|]. by apply error_logged_alone.
  - destruct (getStreamReadyStateError _ _); [by apply error_logged_alone|constructor].
Qed.

Lemma handleError_logged id echo message code s : logged id s (snd (handleError (close_source id echo) id message code s)).
Proof.
  destruct (deaf_or_live id s) as [Hd|(o & Hl)].
  - unfold handleError. rewrite guarded_deaf by done. constructor.
  - apply live_spec in Hl. rewrite (handleError_live id o) by done. by apply error_logged_alone.
Qed.

Lemma completed_source id (l : list (Source K Req Head)) j o' : alter mark_completed id l !! j = Some o' →
  ∃ o0, l !! j = Some o0 ∧ so_key o' = so_key o0 ∧ so_generation o' = so_generation o0
    ∧ (so_completed o' = false → so_completed o0 = false ∧ j ≠ id).
Proof. intros [[-> (o0 & H & ->)]|[Hne H]]%lookup_alter_inv; [by exists o0|by exists o'; auto]. Qed.

Lemma ended_source id (l : list (Source K Req Head)) j o' : alter mark_closed id (alter mark_completed id l) !! j = Some o' →
  ∃ o0, l !! j = Some o0 ∧ so_key o' = so_key o0 ∧ so_generation o' = so_generation o0
    ∧ (so_completed o' = false → so_completed o0 = false ∧ j ≠ id).
Proof. intros [[-> (o1 & H & ->)]|[_ H]]%lookup_alter_inv; apply completed_source in H; exact H. Qed.

(** The summary of what an event does. *)
Record step_summary (id : nat) o s s' (new : list (call_made K)) : Prop := {
  su_live : live id o s;
  su_own : own (so_key o) new;
  su_client : client s' = client s ++ new;
  su_waiting : waiting s' = waiting s;
  su_generation : generation s' = generation s;
  su_sources : ∀ j o', sources s' !! j = Some o' → ∃ o0, sources s !! j = Some o0 ∧ so_key o' = so_key o0
    ∧ so_generation o' = so_generation o0 ∧ (so_completed o' = false → so_completed o0 = false ∧ (j = id → open_calls new));
  su_right : right_calls new;
}.

Lemma right_final (new : list (call_made K)) final : open_calls new → right_calls (new ++ [final]).
Proof. intros H. by exists new, [final]. Qed.

Lemma right_open (l : list (call_made K)) : open_calls l → right_calls l.
Proof. intros H. exists l, []. rewrite app_nil_r. split_and!; [done|done|cbn; lia]. Qed.

Lemma logged_summary id s s' : logged id s s' → s' = s ∨ ∃ o new, step_summary id o s s' new.
Proof.
  intros [|o new Hl Hk Ho|o new final Hl Hk Ho|o new final Hl Hk Ho]; [by left|right..].
  - exists o, new. split; try done; [|by apply right_open]. intros j o' H. exists o'. by split_and!.
  - exists o, (new ++ [final]). split; try done; [|by apply right_final].
    intros j o' (o0 & H0 & Hk0 & Hg & Hc)%ended_source. exists o0. split_and!; try done. intros Hx. by destruct (Hc Hx).
  - exists o, (new ++ [final]). split; try done; [|by apply right_final].
    intros j o' (o0 & H0 & Hk0 & Hg & Hc)%completed_source. exists o0. split_and!; try done. intros Hx. by destruct (Hc Hx).
Qed.

(** ** Each request on its own *)
Record keyed (used : list K) s : Prop := {
  ky_waiting : ∀ g p k, (g, (p, k)) ∈ waiting s → k ∈ used ∧ calls k (client s) = [] ∧ ∀ j o, sources s !! j = Some o → so_key o ≠ k;
  ky_once : NoDup (map (λ w, snd (snd w)) (waiting s));
  ky_sources : ∀ j o, sources s !! j = Some o → so_key o ∈ used ∧ (so_completed o = false → open_calls (calls (so_key o) (client s)));
  ky_distinct : ∀ i j o o', sources s !! i = Some o → sources s !! j = Some o' → so_key o = so_key o' → i = j;
  ky_right : ∀ k, right_calls (calls k (client s));
  ky_used : ∀ k, k ∉ used → calls k (client s) = [];
}.

Lemma calls_more k k' log new : own k' new → calls k (log ++ new) = calls k log ++ (if bool_decide (k' = k) then new else []).
Proof.
  intros H. rewrite calls_app. f_equal. case_bool_decide as E; subst; [by apply calls_own|]. apply calls_other.
  eapply Forall_impl; [exact H|]. by intros c <-.
Qed.

Lemma open_app (l1 l2 : list (call_made K)) : open_calls l1 → open_calls l2 → open_calls (l1 ++ l2).
Proof. intros. by apply Forall_app. Qed.

Lemma right_app (l1 l2 : list (call_made K)) : open_calls l1 → right_calls l2 → right_calls (l1 ++ l2).
Proof. intros H (u & f & -> & Hu & Hf). exists (l1 ++ u), f. rewrite app_assoc. split_and!; try done. by apply open_app. Qed.

Lemma summary_keyed used id o s s' new : step_summary id o s s' new → keyed used s → keyed used s'.
Proof.
  intros [(Eo & Hg & Hs & Hd) Hown Hc Hw _ Hsrc Hr] [K1 K2 K3 K4 K5 K6]. destruct (K3 id o Eo) as [Hu Hopen]. specialize (Hopen Hd).
  split; rewrite ?Hw, ?Hc; try done.
  - intros g p k Hin. destruct (K1 g p k Hin) as (Hk & Hn & Hno). rewrite (calls_more k (so_key o)) by done.
    rewrite bool_decide_eq_false_2 by (by eapply Hno). rewrite app_nil_r. split_and!; try done.
    intros j o' (o0 & H0 & -> & _)%Hsrc. by eapply Hno.
  - intros j o' (o0 & H0 & -> & _ & Hcomp)%Hsrc. destruct (K3 j o0 H0) as [Hk Ho]. split; [done|]. intros Hx.
    destruct (Hcomp Hx) as [Hx0 Hj]. rewrite (calls_more _ (so_key o)) by done. apply open_app; [by apply Ho|].
    case_bool_decide as E; [|constructor]. apply Hj. by eapply K4.
  - intros i j x y (x0 & H0 & -> & _)%Hsrc (y0 & H1 & -> & _)%Hsrc. by apply K4.
  - intros k. rewrite (calls_more _ (so_key o)) by done. case_bool_decide as E; [subst k; by apply right_app|]. rewrite app_nil_r. apply K5.
  - intros k Hk. rewrite (calls_more _ (so_key o)), K6 by done. rewrite bool_decide_eq_false_2; [done|]. by intros <-.
Qed.

Lemma steps_keyed used id s s' : rtc (logged id) s s' → keyed used s → keyed used s'.
Proof.
  induction 1 as [|s1 s2 s3 H _ IH]; [done|]. intros Hk. apply IH. destruct (logged_summary _ _ _ H) as [->|(o & new & Hsum)]; [done|].
  by eapply summary_keyed.
Qed.

Lemma resume_logged i g payload key headers start s : waiting s !! i = Some (g, (payload, key)) → g = generation s →
  rtc (logged (length (sources s))) (started i g payload key headers s) (snd (send_resume i (Ok headers) start s)).
Proof. apply (resume_steps logged); [apply deliver_logged|intros; apply handleError_logged]. Qed.

Lemma close_in_same x (l : list (Source K Req Head)) j o : close_in x l !! j = Some o →
  ∃ o0, l !! j = Some o0 ∧ so_key o = so_key o0 ∧ so_generation o = so_generation o0 ∧ so_completed o = so_completed o0.
Proof.
  destruct x as [id|]; cbn [close_in]; [|by exists o]. intros [[-> (o0 & H & ->)]|[_ H]]%lookup_alter_inv; [by exists o0|by exists o].
Qed.

(** Closing sources and forgetting calls of [send] concern no log. *)
Lemma quiet_keyed used s g x l w b : keyed used s →
  (∀ j o, l !! j = Some o → ∃ o0, sources s !! j = Some o0 ∧ so_key o = so_key o0 ∧ so_generation o = so_generation o0 ∧ so_completed o = so_completed o0) →
  sublist w (waiting s) → keyed used (mkController g x l w b (client s)).
Proof.
  intros [K1 K2 K3 K4 K5 K6] Hl Hw. split; cbn [waiting sources client]; try done.
  - intros g0 p k Hin. destruct (K1 g0 p k) as (Hk & Hn & Hno); [by eapply elem_of_sublist|]. split_and!; try done.
    intros j o (o0 & H0 & -> & _)%Hl. by eapply Hno.
  - eapply sublist_NoDup; [exact K2|]. by apply sublist_map.
  - intros j o (o0 & H0 & -> & _ & ->)%Hl. by apply (K3 j).
  - intros i j o o' (o0 & H0 & -> & _)%Hl (o1 & H1 & -> & _)%Hl. by apply K4.
Qed.

Lemma sent_keyed used s g x l b payload key : keyed used (mkController g x l (waiting s) b (client s)) → key ∉ used →
  keyed (used ++ [key]) (mkController g x l (waiting s ++ [(g, (payload, key))]) b (client s)).
Proof.
  intros [K1 K2 K3 K4 K5 K6] Hnew. cbn [waiting sources client] in *.
  assert (∀ j o, l !! j = Some o → so_key o ≠ key) as Hno.
  { intros j o Ho <-. by apply Hnew, (K3 j o Ho). }
  split; cbn [waiting sources client]; try done.
  - intros g0 p k [Hin|Hin%list_elem_of_singleton]%elem_of_app.
    + destruct (K1 g0 p k Hin) as (Hk & ?). split; [apply elem_of_app; by left|done].
    + injection Hin as -> -> ->. split_and!; [apply elem_of_app; right; by left|by apply K6|exact Hno].
  - rewrite map_app. apply NoDup_app. split_and!; [done| |apply NoDup_singleton].
    intros k ([g0 [p k0]] & -> & Hin)%list_elem_of_fmap Hk%list_elem_of_singleton. cbn in Hk. subst k0. by destruct (K1 g0 p key Hin).
  - intros j o Ho. destruct (K3 j o Ho). split; [apply elem_of_app; by left|done].
  - intros k Hk. apply K6. intros H. apply Hk, elem_of_app. by left.
Qed.

(** The calls of [send] that still wait have other keys than the one resumed. *)
Lemma resumed_key used s i g payload key g' p' k' : keyed used s → waiting s !! i = Some (g, (payload, key)) →
  (g', (p', k')) ∈ delete i (waiting s) → k' ≠ key.
Proof.
  intros [_ K2 _ _ _ _] Hi Hin ->. rewrite <- (take_drop_middle _ _ _ Hi), map_app in K2. cbn [map snd] in K2.
  apply NoDup_app in K2 as (_ & Hd & [Hx _]%NoDup_cons). rewrite delete_take_drop in Hin.
  apply elem_of_app in Hin as [H|H]; [apply (Hd key); [|left]|apply Hx];
    apply (list_elem_of_fmap_2 (λ w : Z * (Req * K), snd (snd w)) _ _ H).
Qed.

Lemma started_keyed used s i g payload key headers : keyed used s → waiting s !! i = Some (g, (payload, key)) →
  keyed used (started i g payload key headers s).
Proof.
  intros Hk Hi. pose proof Hk as [K1 K2 K3 K4 K5 K6].
  destruct (K1 g payload key (list_elem_of_lookup_2 _ _ _ Hi)) as (Hu & Hn & Hno).
  assert (∀ j o, (sources s ++ [mkSource g key payload headers false false true]) !! j = Some o →
    sources s !! j = Some o ∨ j = length (sources s) ∧ so_key o = key) as Hsrc.
  { intros j o [H|[Hj Ho]]%lookup_app_Some; [by left|]. apply list_lookup_singleton_Some in Ho as [Hj' <-]. right. split; [lia|done]. }
  split; cbn [started waiting sources client]; try done.
  - intros g' p' k' Hin. destruct (K1 g' p' k') as (H1 & H2 & H3); [by eapply elem_of_sublist, sublist_delete|]. split_and!; try done.
    intros j o [H|[_ ->]]%Hsrc; [by eapply H3|]. intros ->. by eapply resumed_key.
  - eapply sublist_NoDup; [exact K2|]. apply sublist_map, sublist_delete.
  - intros j o [H|[_ E]]%Hsrc; [by apply (K3 j)|]. rewrite E, Hn. split; [done|constructor].
  - intros a b o o' [Ha|[-> Ea]]%Hsrc [Hb|[-> Eb]]%Hsrc E; [by eapply K4|..|done].
    + destruct (Hno a o Ha). congruence.
    + destruct (Hno b o' Hb). congruence.
Qed.

(** A request that gets no headers ends with its one call. *)
Lemma refused_keyed used s i payload key message : keyed used s → waiting s !! i = Some (generation s, (payload, key)) →
  keyed used (mkController (generation s) (source s) (sources s) (delete i (waiting s)) (streaming s)
    (client s ++ [made_error key message JUndefined])).
Proof.
  intros Hk Hi. pose proof Hk as [K1 K2 K3 K4 K5 K6].
  destruct (K1 _ payload key (list_elem_of_lookup_2 _ _ _ Hi)) as (Hu & Hn & Hno).
  assert (∀ k, calls k (client s ++ [made_error key message JUndefined])
    = calls k (client s) ++ (if bool_decide (key = k) then [made_error key message JUndefined] else [])) as Hc.
  { intros k. apply calls_more. by repeat constructor. }
  split; cbn [waiting sources client]; try done.
  - intros g' p' k' Hin. destruct (K1 g' p' k') as (H1 & H2 & H3); [by eapply elem_of_sublist, sublist_delete|].
    rewrite Hc, H2. rewrite bool_decide_eq_false_2; [done|]. intros <-. by eapply resumed_key.
  - eapply sublist_NoDup; [exact K2|]. apply sublist_map, sublist_delete.
  - intros j o Ho. destruct (K3 j o Ho) as [H1 H2]. split; [done|]. intros Hx. rewrite Hc, bool_decide_eq_false_2.
    + rewrite app_nil_r. by apply H2.
    + intros E. by destruct (Hno j o Ho).
  - intros k. rewrite Hc. case_bool_decide as E; [subst k; rewrite Hn; apply (right_final []); constructor|]. rewrite app_nil_r. apply K5.
  - intros k Hx. rewrite Hc, K6 by done. rewrite bool_decide_eq_false_2; [done|]. by intros <-.
Qed.

Definition sent_key (x : input (K := K) (Req := Req) (Head := Head)) : list K := match x with in_send _ _ k => [k] | _ => [] end.
Definition sent_keys (xs : list (input (K := K) (Req := Req) (Head := Head))) : list K := concat (map sent_key xs).

Lemma perform_keyed used x s : keyed used s → (∀ k, k ∈ sent_key x → k ∉ used) → keyed (used ++ sent_key x) (perform x s).
Proof.
  intros Hk Hx. destruct x as [echo payload key|i answer start|id e|echo|echo]; unfold perform; cbn [sent_key] in *; rewrite ?app_nil_r.
  - rewrite send_eq. apply sent_keyed; [|apply Hx; by left]. apply quiet_keyed; [done| |done]. intros j o. apply close_in_same.
  - destruct (resume_other i answer start s) as [(g & payload & key & headers & Hi & -> & ->)|(w & c & -> & Hw & Hc)].
    + eapply steps_keyed; [by apply resume_logged|by apply started_keyed].
    + destruct Hc as [->|(payload & key & error & Hi & -> & -> & ->)]; [|by eapply refused_keyed].
      apply quiet_keyed; [done|by intros j o Ho; exists o|done].
  - eapply steps_keyed; [apply rtc_once, deliver_logged|done].
  - unfold stop. rewrite cancel_eq. apply quiet_keyed; [done| |done]. intros j o. apply close_in_same.
  - unfold dispose. rewrite cancel_eq. apply quiet_keyed; [done| |done]. intros j o. apply close_in_same.
Qed.

Lemma perform_all_keyed xs : ∀ used s, keyed used s → NoDup (used ++ sent_keys xs) → keyed (used ++ sent_keys xs) (perform_all xs s).
Proof.
  induction xs as [|x xs IH]; intros used s Hk Hn; [unfold sent_keys; cbn; by rewrite app_nil_r|].
  unfold sent_keys in *. cbn [map concat] in *. change (perform_all (x :: xs) s) with (perform_all xs (perform x s)).
  rewrite app_assoc in *. apply IH; [|done]. apply perform_keyed; [done|]. intros k Hx Hu.
  apply NoDup_app in Hn as (Hn & _ & _). apply NoDup_app in Hn as (_ & Hd & _). by apply (Hd k).
Qed.

Lemma initial_keyed : keyed [] (initial_controller []).
Proof.
  assert (right_calls []) as Hr by (apply right_open; constructor).
  split; cbn [initial_controller waiting sources client map].
  - by intros g p k H%not_elem_of_nil.
  - constructor.
  - intros j o H. by rewrite lookup_nil in H.
  - intros i j o o' H. by rewrite lookup_nil in H.
  - done.
  - done.
Qed.

(** ** Superseded requests *)
Record stale (k : K) s : Prop := {
  st_waiting : ∀ g p, (g, (p, k)) ∈ waiting s → g < generation s;
  st_sources : ∀ j o, sources s !! j = Some o → so_key o = k → so_generation o < generation s;
}.

Definition unheard (k : K) s s' : Prop := stale k s' ∧ calls k (client s') = calls k (client s).

Lemma summary_unheard k id o s s' new : step_summary id o s s' new → stale k s → unheard k s s'.
Proof.
  intros [(Eo & Hg & Hs & Hd) Hown Hc Hw Hgen Hsrc _] [S1 S2]. assert (so_key o ≠ k) as Hk.
  { intros E. pose proof (S2 id o Eo E). lia. }
  split; [split; rewrite ?Hw, Hgen; [done|]|].
  - intros j o' (o0 & H0 & -> & -> & _)%Hsrc. by apply (S2 j).
  - rewrite Hc, (calls_more k (so_key o)), bool_decide_eq_false_2 by done. apply app_nil_r.
Qed.

Lemma steps_unheard k id s s' : rtc (logged id) s s' → stale k s → unheard k s s'.
Proof.
  induction 1 as [|s1 s2 s3 H _ IH]; [by split|]. intros Hst.
  assert (unheard k s1 s2) as [Hs Hc].
  { destruct (logged_summary _ _ _ H) as [->|(o & new & Hsum)]; [by split|by eapply summary_unheard]. }
  destruct (IH Hs) as [Hs' Hc']. split; [done|]. by rewrite Hc'.
Qed.

Lemma older_stale k s g x l w b : stale k s → generation s ≤ g →
  (∀ j o, l !! j = Some o → ∃ o0, sources s !! j = Some o0 ∧ so_key o = so_key o0 ∧ so_generation o = so_generation o0 ∧ so_completed o = so_completed o0) →
  (∀ g' p, (g', (p, k)) ∈ w → (g', (p, k)) ∈ waiting s) → stale k (mkController g x l w b (client s)).
Proof.
  intros [S1 S2] Hg Hl Hw. split; cbn [waiting sources generation].
  - intros g' p H%Hw%S1. lia.
  - intros j o (o0 & H0 & -> & -> & _)%Hl E. pose proof (S2 j o0 H0 E). lia.
Qed.

Lemma started_stale k s i payload key headers : stale k s → waiting s !! i = Some (generation s, (payload, key)) →
  stale k (started i (generation s) payload key headers s).
Proof.
  intros [S1 S2] Hi. pose proof (list_elem_of_lookup_2 _ _ _ Hi) as Hin. split; cbn [started waiting sources generation].
  - intros g p H. apply (S1 g p). by eapply elem_of_sublist, sublist_delete.
  - intros j o [H|[Hj Ho]]%lookup_app_Some E; [by apply (S2 j)|]. apply list_lookup_singleton_Some in Ho as [_ <-]. cbn in *. subst key.
    by apply S1 in Hin.
Qed.

Lemma perform_unheard k x s : stale k s → k ∉ sent_key x → unheard k s (perform x s).
Proof.
  intros Hst Hx. destruct x as [echo payload key|i answer start|id e|echo|echo]; unfold perform; cbn [sent_key] in Hx.
  - rewrite send_eq. split; [|done]. apply older_stale; [done|lia|intros j o; apply close_in_same|].
    intros g p [H|H%list_elem_of_singleton]%elem_of_app; [done|]. injection H as -> -> ->. destruct Hx. left.
  - destruct (resume_other i answer start s) as [(g & payload & key & headers & Hi & -> & ->)|(w & c & -> & Hw & Hc)].
    + apply (steps_unheard k (length (sources s)) (started i (generation s) payload key headers s)); [by apply resume_logged|by apply started_stale].
    + destruct Hst as [S1 S2]. split.
      * split; cbn [waiting sources generation]; [|done]. intros g p H. apply (S1 g p). by eapply elem_of_sublist.
      * destruct Hc as [->|(payload & key & error & Hi & _ & _ & ->)]; [done|]. cbn [client onError recording recorder]. unfold record_call. cbn [snd].
        rewrite (calls_more k key) by (by repeat constructor). rewrite bool_decide_eq_false_2; [apply app_nil_r|]. intros ->.
        apply list_elem_of_lookup_2, S1 in Hi. lia.
  - apply (steps_unheard k id); [apply rtc_once, deliver_logged|done].
  - unfold stop. rewrite cancel_eq. split; [|done]. apply older_stale; [done|lia|intros j o; apply close_in_same|done].
  - unfold dispose. rewrite cancel_eq. split; [|done]. apply older_stale; [done|lia|intros j o; apply close_in_same|done].
Qed.

Lemma perform_all_unheard k xs : ∀ s, stale k s → k ∉ sent_keys xs → unheard k s (perform_all xs s).
Proof.
  induction xs as [|x xs IH]; intros s Hst Hx; [by split|]. unfold sent_keys in *. cbn [map concat] in Hx.
  apply not_elem_of_app in Hx as [Hx Hxs]. destruct (perform_unheard k x s Hst Hx) as [Hs Hc].
  destruct (IH _ Hs Hxs) as [Hs' Hc']. split; [done|]. change (perform_all (x :: xs) s) with (perform_all xs (perform x s)). by rewrite Hc'.
Qed.

Definition supersedes (x : input (K := K) (Req := Req) (Head := Head)) : bool :=
  match x with in_send _ _ _ | in_stop _ | in_dispose _ => true | _ => false end.

Lemma supersedes_stale k x s : ctl_ok s → supersedes x = true → k ∉ sent_key x → unheard k s (perform x s).
Proof.
  intros [_ _ H3 H4 _] Hx Hk. destruct x as [echo payload key|i answer start|id e|echo|echo]; try done; unfold perform; cbn [sent_key] in Hk;
    [rewrite send_eq|unfold stop; rewrite cancel_eq|unfold dispose; rewrite cancel_eq]; (split; [|done]);
    (split; cbn [waiting sources generation]; [|intros j o (o0 & H0 & _ & -> & _)%close_in_same _; specialize (H3 j o0 H0); lia]).
  - intros g p [H|H%list_elem_of_singleton]%elem_of_app; [apply H4 in H as [H _]; cbn in H; lia|].
    injection H as -> -> ->. destruct Hk. left.
  - intros g p [H _]%H4. cbn in H. lia.
  - intros g p [H _]%H4. cbn in H. lia.
Qed.

(** C26: Each streaming request is answered once and in order.  Whatever the
    interleaving of requests, headers, events, stops and unmounts, and whichever
    callbacks throw, the callbacks of a request are updates followed by at most
    one completion or error, and nothing after it; and once a later request, a
    stop or an unmount has superseded a request, it is never called again. *)
Theorem callbacks_in_order (xs ys : list (input (K := K) (Req := Req) (Head := Head))) x (k : K) :
  NoDup (sent_keys (xs ++ x :: ys)) →
  let after zs := calls k (client (perform_all zs (initial_controller []))) in
  (∃ updates final, after (xs ++ x :: ys) = updates ++ final ∧ Forall (λ c, is_update c = true) updates ∧ (length final ≤ 1)%nat)
  ∧ (k ∈ sent_keys xs → supersedes x = true → after (xs ++ x :: ys) = after xs).
Proof.
  intros Hn after. split.
  - unfold after. apply (ky_right (sent_keys (xs ++ x :: ys))). apply (perform_all_keyed _ [] _ initial_keyed Hn).
  - intros Hk Hx. assert (k ∉ sent_key x ++ sent_keys ys) as [Hk1 Hk2]%not_elem_of_app.
    { unfold sent_keys in *. rewrite map_app, concat_app in Hn. apply NoDup_app in Hn as (_ & Hd & _). by apply Hd. }
    unfold after. assert (∀ zs s, perform_all (zs ++ x :: ys) s = perform_all ys (perform x (perform_all zs s))) as E.
    { intros zs s. unfold perform_all. by rewrite fold_left_app. }
    rewrite E. set (s := perform_all xs _). assert (ctl_ok s) as Hok by apply perform_all_ok, initial_ok.
    destruct (supersedes_stale k x s Hok Hx Hk1) as [Hs Hc]. destruct (perform_all_unheard k ys _ Hs Hk2) as [_ Hc']. by rewrite Hc'.
Qed.
End Calls.

(** ** A concrete run *)
Definition delta_message (text : string) : jsstring := jq ("{`choices`:[{`delta`:{`content`:`" ++ text ++ "`}}]}").
Definition message_event (data : jsstring) : source_event := Signal (sig_message (Some data)) [].
Definition quiet_start : stream_start := mkStart [] false [].

Definition first_request : list (input (K := nat) (Req := unit) (Head := unit)) :=
  [in_send [] tt 1%nat; in_headers 0 (Ok tt) quiet_start; in_event 0 (message_event (delta_message "old"))].
Definition second_request : list (input (K := nat) (Req := unit) (Head := unit)) :=
  [in_event 0 (message_event (delta_message "stale")); in_headers 0 (Ok tt) quiet_start;
   in_event 1 (message_event (delta_message "new")); in_event 1 (message_event STREAM_DONE_MESSAGE);
   in_event 1 (Signal (sig_error None None) [])].

Lemma callbacks_in_order_witness :
  let after zs := calls 1%nat (client (perform_all (callbacks := recorder (λ _ _, false)) zs (initial_controller []))) in
  after (first_request ++ in_send [] tt 2%nat :: second_request) = after first_request
  ∧ after first_request = [made_update 1%nat chunk_content (JString (js "old"))].
Proof.
  split; [|vm_compute; reflexivity].
  apply (callbacks_in_order (λ _ _, false) first_request second_request (in_send [] tt 2%nat) 1%nat).
  - apply (bool_decide_unpack _). vm_compute. exact I.
  - apply (bool_decide_unpack _). vm_compute. exact I.
  - reflexivity.
Defined.
