(* ===== verification/PlaygroundStream.v ===== *)
(** * The playground: chat handler and stream controller together

    Models how [useChatHandler] ([web/src/features/playground/hooks/use-chat-handler.ts])
    uses [useStreamRequest]: the callbacks it passes with a request, which carry
    the generation of the request as their key, and the functions that change
    both states.  The chat is the owner's state of the stream controller. *)
From S2P Require Import Prelude JsString JsNumber JsValue JsDynamic JsJson Playground StreamRequest.
Local Open Scope Z_scope.

(** [t] of the translation library *)
Class PlaygroundHost := { translate_message : jsstring → jsstring }.

Section Playground.
Context {host : PlaygroundHost}.

Definition KNOWN_ERROR_MESSAGES : list jsstring :=
  [API_REQUEST_ERROR; NETWORK_ERROR; PARSE_ERROR; STREAM_START_ERROR; CONNECTION_CLOSED; INTERRUPTED].

(** A value that is not a string has no [endsWith]. *)
Definition getDisplayError (error : jsval) : run jsstring :=
  match error with
  | JString s =>
      if str_in s KNOWN_ERROR_MESSAGES then Ok (translate_message s)
      else if ends_with s (js ": " ++ CONNECTION_CLOSED)
      then Ok (take (length s - length CONNECTION_CLOSED) s ++ translate_message CONNECTION_CLOSED)
      else Ok s
  | _ => Throw TypeErr
  end.

Definition pending_text (type : StreamChunkType) (s : Chat) : jsstring :=
  match type with chunk_content => pe_content (ch_pending s) | chunk_reasoning => pe_reasoning (ch_pending s) end.

(** [handleStreamUpdate] on any chunk: one that is not a string is appended to
    the empty text as one, and has no [startsWith] otherwise. *)
Definition stream_update (g : Z) (type : StreamChunkType) (chunk : jsval) : act Chat unit := λ s,
  if negb (g =? ch_generation s) || negb (pe_generation (ch_pending s) =? g) then (Ok tt, s)
  else match chunk with
  | JString c => (Ok tt, handleStreamUpdate g type c s)
  | _ =>
      if is_empty (pending_text type s) then
        match String_of chunk with
        | Ok c => (Ok tt, handleStreamUpdate g type c s)
        | Throw e => (Throw e, s)
        | NoFuel => (NoFuel, s)
        end
      else (Throw TypeErr, s)
  end.

(** [handleStreamError] on any error. *)
Definition stream_error (g : Z) (error errorCode : jsval) : act Chat unit := λ s,
  if negb (g =? ch_generation s) then (Ok tt, s)
  else match getDisplayError error with
  | Ok displayError => (Ok tt, handleStreamError g displayError errorCode (translate_message API_REQUEST_ERROR) s)
  | Throw e => (Throw e, set_requesting false (flushStreamUpdates g s))
  | NoFuel => (NoFuel, s)
  end.

(** The [catch] and [finally] of [sendNonStreamingChat]. *)
Definition request_failed (g : Z) (error : jsval) : act Chat unit := λ s,
  if negb (g =? ch_generation s) then (Ok tt, s)
  else
    let '(answer, s') := match parseRequestErrorDetails error with
      | Ok details => stream_error g (sd_errorMessage details) (sd_errorCode details) s
      | Throw e => (Throw e, s)
      | NoFuel => (NoFuel, s)
      end in
    (answer, set_requesting false s').

#[export] Instance chat_callbacks : StreamRequestCallbacks Z Chat := {|
  onUpdate := stream_update;
  onComplete g := λ s, (Ok tt, handleStreamComplete g s);
  onError := stream_error;
|}.

Section Page.
Context {Req Head : Type}.
Notation page := (Controller Z Req Head Chat).

Definition on_chat (f : Chat → Chat) : act page unit := call (λ c, (Ok tt, f c)).

Definition sendStreamingChat (echo : list source_event) (payload : Req) : act page unit :=
  s ← current_state;
  let g := ch_generation (client s) + 1 in
  on_chat (λ c, set_requesting true (discardPendingStreamUpdates g (set_generation g c)));;
  send echo payload g.

(** Up to the await of the answer, which is [ce_response] or [request_failed]. *)
Definition sendNonStreamingChat (echo : list source_event) : act page unit :=
  s ← current_state;
  let g := ch_generation (client s) + 1 in
  on_chat (set_generation g);;
  stop echo;;
  on_chat (λ c, set_requesting true (discardPendingStreamUpdates g c)).

Definition stopGeneration (echo : list source_event) : act page unit :=
  s ← current_state;
  let stopped := ch_generation (client s) in
  let idle := stopped + 1 in
  on_chat (λ c, discardPendingStreamUpdates idle (set_generation idle (flushStreamUpdates stopped c)));;
  stop echo;;
  on_chat (λ c, enqueue (up_stopped idle) (set_requesting false c)).

(** The cleanups of the effects: the one of [useStreamRequest] runs first.  A
    timer that was cleared never fires, whether its reference is kept or not. *)
Definition unmount (echo : list source_event) : act page unit :=
  dispose echo;; on_chat (λ c, set_timer None (set_generation (ch_generation c + 1) c)).

(** ** Pieces of execution *)
Inductive page_event :=
| pg_send_streaming (echo : list source_event) (payload : Req)
| pg_send_plain (echo : list source_event)
| pg_stop (echo : list source_event)
| pg_unmount (echo : list source_event)
| pg_headers (i : nat) (answer : outcome (option jsstring) Head) (start : stream_start)
| pg_source (id : nat) (e : source_event)
| pg_messages (messages : list Message)
| pg_remove (key : jsstring)
| pg_response (g : Z) (choice : option (jsstring * jsstring)) (title : jsstring)
| pg_failure (g : Z) (error : jsval)
| pg_timer
| pg_react (now : Z).

Definition page_step (e : page_event) (s : page) : page :=
  snd (match e with
    | pg_send_streaming echo payload => sendStreamingChat echo payload s
    | pg_send_plain echo => sendNonStreamingChat echo s
    | pg_stop echo => stopGeneration echo s
    | pg_unmount echo => unmount echo s
    | pg_headers i answer start => send_resume i answer start s
    | pg_source id e => deliver id e s
    | pg_messages messages => on_chat (chat_step (ce_set messages)) s
    | pg_remove key => on_chat (chat_step (ce_remove key)) s
    | pg_response g choice title => on_chat (chat_step (ce_response g choice title)) s
    | pg_failure g error => call (request_failed g error) s
    | pg_timer => on_chat (chat_step ce_timer) s
    | pg_react now => on_chat (chat_step (ce_run now)) s
    end).

Definition page_run (es : list page_event) (s : page) : page := fold_left (λ s e, page_step e s) es s.

Definition initial_page : page := initial_controller initial_chat.

(** [isGenerating] *)
Definition isGenerating (s : page) : bool := streaming s || ch_requesting (client s).
End Page.
End Playground.
