(* ===== verification/PlaygroundStreamFacts.v ===== *)
(** * The playground: chat handler and stream controller together, theorems

    The generations of the chat and of the controller never disagree, and a
    reply that arrives as messages of an event source is shown in full. *)
From stdpp Require Import relations.
From S2P Require Import Prelude JsString JsNumber JsValue JsDynamic JsJson Playground PlaygroundFacts StreamRequest StreamRequestFacts PlaygroundStream.
Local Open Scope Z_scope.

Section Facts.
Context {host : PlaygroundHost} {Req Head : Type}.
Notation page := (Controller Z Req Head Chat).
Implicit Types (s : page) (c : Chat) (o : Source Z Req Head).

(** ** The generation of the chat *)
Lemma flush_generation g c : ch_generation (flushStreamUpdates g c) = ch_generation c.
Proof. unfold flushStreamUpdates. by repeat case_match. Qed.

Lemma handle_update_generation g type text c : ch_generation (handleStreamUpdate g type text c) = ch_generation c.
Proof. unfold handleStreamUpdate, scheduleStreamFlush. by repeat case_match. Qed.

Lemma handle_error_generation g message code title c : ch_generation (handleStreamError g message code title c) = ch_generation c.
Proof. unfold handleStreamError. case_match; [done|]. cbn. apply flush_generation. Qed.

Lemma update_generation g type v c : ch_generation (snd (stream_update g type v c)) = ch_generation c.
Proof.
  unfold stream_update. case_match; [done|]. destruct v; try apply handle_update_generation;
    (destruct (is_empty _); [|done]); (destruct (String_of _) as [text|e|]; [apply handle_update_generation|done|done]).
Qed.

Lemma complete_generation g c : ch_generation (handleStreamComplete g c) = ch_generation c.
Proof. unfold handleStreamComplete. case_match; [done|]. cbn. apply flush_generation. Qed.

Lemma error_generation g message code c : ch_generation (snd (stream_error g message code c)) = ch_generation c.
Proof.
  unfold stream_error. case_match; [done|]. destruct (getDisplayError message); [apply handle_error_generation| |done].
  cbn. apply flush_generation.
Qed.

(** ** Agreement *)
Record agree s : Prop := {
  ag_ok : ctl_ok s;
  ag_source : ∀ j o, source s = Some j → sources s !! j = Some o → so_key o = ch_generation (client s);
  ag_waiting : ∀ g p k, (g, (p, k)) ∈ waiting s → g = generation s → k = ch_generation (client s);
}.

(** Steps that keep the generation of the chat. *)
Definition kept_step (id : nat) s s' : Prop := moved id s s' ∧ ch_generation (client s') = ch_generation (client s).

Lemma deliver_step id e s : kept_step id s (snd (deliver id e s)).
Proof.
  split; [apply deliver_moved|]. apply (deliver_kept (λ c, ch_generation c = ch_generation (client s))); try done.
  - intros k type v c <-. apply update_generation.
  - intros k c <-. apply complete_generation.
  - intros k message code c <-. apply error_generation.
Qed.

Lemma error_step id echo message code s : kept_step id s (snd (handleError (close_source id echo) id message code s)).
Proof.
  split; [apply handleError_moved|]. apply (handleError_kept (λ c, ch_generation c = ch_generation (client s))); try done.
  intros k m v c <-. apply error_generation.
Qed.

Lemma moved_agree id s s' : kept_step id s s' → agree s → agree s'.
Proof.
  intros [Hm Hg] [A1 A2 A3]. split; [by eapply moved_ok|..]; rewrite Hg; clear Hg; destruct Hm as [c|o c Hl|o c Hl]; cbn; try done.
  intros j o' Hj [[-> (o0 & H & ->)]|[_ H]]%lookup_alter_inv; cbn; by eapply A2.
Qed.

Lemma steps_agree id s s' : rtc (kept_step id) s s' → agree s → agree s'.
Proof. induction 1; eauto using moved_agree. Qed.

Lemma chat_agree (f : Chat → Chat) s : (∀ c, ch_generation (f c) = ch_generation c) → agree s → agree (snd (on_chat f s)).
Proof.
  intros Hf [A1 A2 A3]. cbn. split; cbn [source sources waiting generation client]; rewrite ?Hf; [|done..]. by destruct A1; split.
Qed.

(** The controller's generation has moved on and nothing is current. *)
Lemma idle_agree s c b : agree s →
  agree (mkController (generation s + 1) None (close_in (source s) (sources s)) (waiting s) b c).
Proof.
  intros [A1 A2 A3]. pose proof A1 as [_ _ _ H4 H5].
  assert (ctl_ok (mkController (generation s + 1) None (close_in (source s) (sources s)) (waiting s) b (client s))) as Hok.
  { apply superseded_ok; [done| |done]. intros x Hx. left. by apply H4. }
  split; cbn [source sources waiting generation client]; [by destruct Hok; split|done|].
  intros g p k [Hg _]%H4 ->. cbn in Hg. lia.
Qed.

Lemma send_agree echo payload s : agree s → agree (snd (sendStreamingChat echo payload s)).
Proof.
  intros Hs. pose proof Hs as [A1 A2 A3]. set (g := ch_generation (client s) + 1).
  set (s1 := snd (on_chat (λ c, set_requesting true (discardPendingStreamUpdates g (set_generation g c))) s) : page).
  assert (ctl_ok s1) as Hok1 by (by destruct A1; split).
  change (snd (sendStreamingChat echo payload s)) with (snd (send echo payload g s1)).
  split; [apply (perform_ok (in_send echo payload g) s1 Hok1)|..]; rewrite send_eq; cbn [source sources waiting generation client]; [done|].
  intros g' p k [H|H%list_elem_of_singleton]%elem_of_app.
  - intros ->. apply (ok_waiting _ Hok1) in H as [H _]. cbn in H. lia.
  - by injection H as -> -> ->.
Qed.

Lemma plain_eq echo s : ∃ c, snd (sendNonStreamingChat echo s)
  = mkController (generation s + 1) None (close_in (source s) (sources s)) (waiting s) false c.
Proof.
  unfold sendNonStreamingChat, stop, mbind, act_bind, current_state, on_chat. unfold call at 1. rewrite cancel_run. by eexists.
Qed.

Lemma stop_eq echo s : ∃ c, snd (stopGeneration echo s)
  = mkController (generation s + 1) None (close_in (source s) (sources s)) (waiting s) false c.
Proof.
  unfold stopGeneration, stop, mbind, act_bind, current_state, on_chat. unfold call at 1. rewrite cancel_run. by eexists.
Qed.

Lemma unmount_eq echo s : ∃ c, snd (unmount echo s)
  = mkController (generation s + 1) None (close_in (source s) (sources s)) (waiting s) (streaming s) c.
Proof. unfold unmount, dispose, mbind, act_bind. rewrite cancel_run. by eexists. Qed.

Lemma started_agree i payload key headers s : agree s → waiting s !! i = Some (generation s, (payload, key)) →
  agree (started i (generation s) payload key headers s).
Proof.
  intros [A1 A2 A3] Hi. pose proof (list_elem_of_lookup_2 _ _ _ Hi) as Hin. pose proof (A3 _ _ _ Hin eq_refl) as Hk.
  split; [by apply started_ok|..]; cbn [started source sources waiting generation client].
  - intros j o [= <-]. rewrite lookup_app_r, Nat.sub_diag by lia. by intros [= <-].
  - intros g p k H. apply A3 with p. by eapply elem_of_sublist, sublist_delete.
Qed.

Lemma headers_agree i answer start s : agree s → agree (snd (send_resume i answer start s)).
Proof.
  intros Hs. destruct (resume_other i answer start s) as [(g & payload & key & headers & Hi & -> & ->)|(w & c & -> & Hw & Hc)].
  - eapply steps_agree; [|by apply started_agree].
    apply (resume_steps kept_step); [apply deliver_step|intros; apply error_step|done|done].
  - assert (ch_generation c = ch_generation (client s)) as Hg.
    { destruct Hc as [->|(payload & key & error & _ & _ & _ & ->)]; [done|]. apply error_generation. }
    destruct Hs as [A1 A2 A3]. split; [by apply fewer_waiting|..]; cbn [source sources waiting generation client]; rewrite Hg; [done|].
    intros g p k H. apply A3 with p. by eapply elem_of_sublist.
Qed.

Lemma chat_event_generation e c : match e with ce_set _ | ce_remove _ | ce_response _ _ _ | ce_timer | ce_run _ => true | _ => false end = true →
  ch_generation (chat_step e c) = ch_generation c.
Proof.
  destruct e; intros H; try done; cbn [chat_step].
  - destruct (ch_timer c); [apply flush_generation|done].
  - unfold handleResponse. case_match; [done|]. destruct choice as [[]|]; [done|]. cbn [set_requesting ch_generation]. apply handle_error_generation.
  - unfold run_next. by destruct (ch_updates c).
Qed.

Lemma failure_generation g error c : ch_generation (snd (request_failed g error c)) = ch_generation c.
Proof.
  unfold request_failed. destruct (negb (g =? ch_generation c)); [done|]. destruct (parseRequestErrorDetails error) as [d|e|]; [|done|done].
  pose proof (error_generation g (sd_errorMessage d) (sd_errorCode d) c) as H.
  by destruct (stream_error g (sd_errorMessage d) (sd_errorCode d) c).
Qed.

Lemma page_step_agree e s : agree s → agree (page_step e s).
Proof.
  intros Hs. destruct e; unfold page_step.
  - by apply send_agree.
  - destruct (plain_eq echo s) as [c ->]. by apply idle_agree.
  - destruct (stop_eq echo s) as [c ->]. by apply idle_agree.
  - destruct (unmount_eq echo s) as [c ->]. by apply idle_agree.
  - by apply headers_agree.
  - eapply moved_agree; [apply deliver_step|done].
  - apply chat_agree; [|done]. intros c. by apply chat_event_generation.
  - apply chat_agree; [|done]. intros c. by apply chat_event_generation.
  - apply chat_agree; [|done]. intros c. by apply chat_event_generation.
  - destruct Hs as [A1 A2 A3]. unfold call.
    pose proof (failure_generation g error (client s)) as Hg. destruct (request_failed g error (client s)) as [a c]. cbn in Hg |- *.
    split; cbn [source sources waiting generation client]; rewrite ?Hg; [by destruct A1; split|done..].
  - apply chat_agree; [|done]. intros c. by apply chat_event_generation.
  - apply chat_agree; [|done]. intros c. by apply chat_event_generation.
Qed.

Lemma page_run_agree es : ∀ s, agree s → agree (page_run es s).
Proof. induction es as [|e es IH]; intros s H; [done|]. apply IH. by apply page_step_agree. Qed.

Lemma initial_agree : agree initial_page.
Proof. split; [apply initial_ok|done|]. by intros g p k H%not_elem_of_nil. Qed.

(** C28: Chat and stream controller agree on what is current.  In every state of
    the playground, the source whose events are heard, and the request whose
    headers are still wanted, belong to the chat's own current request: the
    handler's check of its generation never drops a callback that the
    controller makes, and the controller makes none for an older request. *)
Theorem generations_agree (es : list (page_event (Req := Req) (Head := Head))) : let s := page_run es initial_page in
  (∀ id o, live id o s → so_key o = ch_generation (client s))
  ∧ (∀ g payload k, (g, (payload, k)) ∈ waiting s → g = generation s → k = ch_generation (client s))
  ∧ (∀ id e, deliver id e s ≠ (Ok tt, s) → ∃ o, live id o s).
Proof.
  intros s. pose proof (page_run_agree es _ initial_agree) as [A1 A2 A3]. split_and!; [|exact A3|].
  - intros id o (Ho & _ & Hs & _). by eapply A2.
  - intros id e H. destruct (deaf_or_live id s) as [Hd|(o & Hl)]; [by rewrite deliver_deaf in H|]. exists o. by apply live_spec.
Qed.

(** ** A reply from its messages to the screen *)

(** The texts of a message of the source: [None] for the final message, for one
    that is not read and for one whose deltas are not texts. *)
Definition text_update (u : StreamMessageUpdate) : option (StreamChunkType * jsstring) :=
  match su_chunk u with JString text => Some (su_type u, text) | _ => None end.
Definition message_texts (data : jsstring) : option (list (StreamChunkType * jsstring)) :=
  if isStreamDoneMessage data then None
  else match parseStreamMessageUpdates data with Ok us => mapM text_update us | _ => None end.

(** What happens while a reply arrives. *)
Inductive arrival := arr_message (data : jsstring) (echo : list source_event) | arr_timer | arr_react (now : Z).

Definition arrival_event (id : nat) (a : arrival) : page_event (Req := Req) (Head := Head) :=
  match a with
  | arr_message data echo => pg_source id (Signal (sig_message (Some data)) echo)
  | arr_timer => pg_timer
  | arr_react now => pg_react now
  end.

(** The same for the chat alone. *)
Definition arrival_chat (g : Z) (a : arrival) : option (list chat_event) :=
  match a with
  | arr_message data _ => map (λ '(type, text), ce_chunk g type text) <$> message_texts data
  | arr_timer => Some [ce_timer]
  | arr_react now => Some [ce_run now]
  end.

Fixpoint arrivals_chat (g : Z) (l : list arrival) : option (list chat_event) :=
  match l with
  | [] => Some []
  | a :: l' => es ← arrival_chat g a; rest ← arrivals_chat g l'; Some (es ++ rest)
  end.

Lemma text_updates_run g us : ∀ texts c, mapM text_update us = Some texts →
  StreamRequestFacts.run_updates g us c = (Ok tt, chat_run (map (λ '(type, text), ce_chunk g type text) texts) c).
Proof.
  induction us as [|u us IH]; intros texts c; cbn [mapM]; [by intros [= <-]|].
  intros ([type text] & Hu & (rest & Hr & [= <-])%bind_Some)%bind_Some. cbn [StreamRequestFacts.run_updates]. unfold mbind, act_bind.
  unfold text_update in Hu. destruct (su_chunk u) as [| | | |t| |]; try done. injection Hu as <- <-.
  assert (onUpdate g (su_type u) (JString t) c = (Ok tt, handleStreamUpdate g (su_type u) t c)) as ->.
  { cbn [onUpdate chat_callbacks]. unfold stream_update, handleStreamUpdate. by destruct (negb (g =? ch_generation c)), (negb (pe_generation (ch_pending c) =? g)). }
  by rewrite (IH rest).
Qed.

Lemma updates_truthy data us : parseStreamMessageUpdates data = Ok us → Forall (λ u, truthy (su_chunk u) = true) us.
Proof.
  unfold parseStreamMessageUpdates. intros (chunk & _ & H)%bind_Ok_inv. apply bind_Ok_inv in H as (choices & _ & H).
  apply bind_Ok_inv in H as (delta & _ & H). destruct (truthy delta); cbn [negb] in H; [|by injection H as <-].
  apply bind_Ok_inv in H as (reasoning & _ & H). apply bind_Ok_inv in H as (content & _ & H). injection H as <-.
  apply Forall_app. split; (destruct (truthy _) eqn:E; by repeat constructor).
Qed.

Lemma texts_nonempty us : ∀ texts, Forall (λ u, truthy (su_chunk u) = true) us → mapM text_update us = Some texts →
  Forall (λ x, snd x ≠ []) texts.
Proof.
  induction us as [|u us IH]; intros texts Ht; cbn [mapM]; [intros [= <-]; constructor|]. inversion Ht as [|? ? Hu Hus]; subst.
  intros ([type text] & Hx & (rest & Hr & [= <-])%bind_Some)%bind_Some. constructor; [|by apply IH].
  unfold text_update in Hx. destruct (su_chunk u); try done. injection Hx as <- <-. intros E. cbn in E. by rewrite E in Hu.
Qed.

Lemma texts_stream g texts : Forall (λ x, snd x ≠ []) texts →
  forallb (stream_event g) (map (λ '(type, text), ce_chunk g type text) texts) = true.
Proof. induction 1 as [|[type text] l Hx _ IH]; [done|]. cbn. rewrite Z.eqb_refl, IH. by destruct text. Qed.

Lemma arrival_stream g a es : arrival_chat g a = Some es → forallb (stream_event g) es = true.
Proof.
  destruct a as [data echo| |now]; cbn [arrival_chat]; [|by intros [= <-]|by intros [= <-]].
  intros (texts & Hm & ->)%fmap_Some. apply texts_stream. unfold message_texts in Hm. destruct (isStreamDoneMessage data); [done|].
  destruct (parseStreamMessageUpdates data) as [us|e|] eqn:Ep; [|done|done]. by apply (texts_nonempty us); [eapply updates_truthy|].
Qed.

Lemma arrivals_stream g l : ∀ es, arrivals_chat g l = Some es → forallb (stream_event g) es = true.
Proof.
  induction l as [|a l IH]; intros es; cbn [arrivals_chat]; [by intros [= <-]|].
  intros (xs & Hx & (rest & Hr & [= <-])%bind_Some)%bind_Some. rewrite forallb_app, (IH rest Hr), andb_true_r. by eapply arrival_stream.
Qed.

(** The page simulates the chat while a reply arrives. *)
Lemma arrival_simulates id o a s es : live id o s → arrival_chat (so_key o) a = Some es →
  page_step (arrival_event id a) s = with_client (chat_run es (client s)) s.
Proof.
  intros Hl. destruct a as [data echo| |now]; cbn [arrival_chat arrival_event]; [|by intros [= <-]|by intros [= <-]].
  intros (texts & Hm & ->)%fmap_Some. unfold page_step. rewrite (deliver_live id o) by done. cbn [event_result]. change (default [] (Some data)) with data.
  unfold message_texts in Hm. destruct (isStreamDoneMessage data); [done|].
  destruct (parseStreamMessageUpdates data) as [us|e|]; [|done|done]. by rewrite (text_updates_run _ us texts).
Qed.

Lemma arrivals_simulate id o l : ∀ s es, live id o s → arrivals_chat (so_key o) l = Some es →
  page_run (map (arrival_event id) l) s = with_client (chat_run es (client s)) s.
Proof.
  induction l as [|a l IH]; intros s es Hl; cbn [arrivals_chat]; [intros [= <-]; by destruct s|].
  intros (xs & Hx & (rest & Hr & [= <-])%bind_Some)%bind_Some. cbn [map].
  change (page_run (?e :: ?es) s) with (page_run es (page_step e s)). rewrite (arrival_simulates id o a s xs) by done.
  rewrite (IH _ rest) by done. cbn. unfold with_client. cbn. unfold chat_run. by rewrite fold_left_app.
Qed.

(** C25: A reply is shown in full, from the messages of its event source to the
    screen.  The current source delivers messages whose deltas are texts, the
    flush timer fires and React runs updaters, in any order: the page simulates
    the chat alone on those deltas, the rest of the page is unchanged.  When the
    final message then arrives, the source is closed and let go and isStreaming
    is off.  If moreover no delta begins with all the text of some deltas
    directly before it, and no deltas in a row begin with all the text before
    them, then once React has run what it holds the reply is complete and its
    text is the visible part of the deltas in their order, and the messages
    before it are untouched. *)
Theorem reply_arrives_in_full id o before m s (l : list arrival) es echo now :
  live id o s → fresh_reply (so_key o) before m (client s) → arrivals_chat (so_key o) l = Some es →
  page_run (map (arrival_event id) l) s = with_client (chat_run es (client s)) s ∧
  let s' := page_step (pg_source id (Signal (sig_message (Some STREAM_DONE_MESSAGE)) echo)) (page_run (map (arrival_event id) l) s) in
  source s' = None ∧ StreamRequest.streaming s' = false ∧ (∃ o', sources s' !! id = Some o' ∧ so_closed o' = true)
  ∧ client s' = chat_step (ce_done (so_key o)) (chat_run es (client s))
  ∧ (no_restart (content_chunks es) →
     ∃ m', ch_messages (drain now (client s')) = before ++ [m']
       ∧ msg_status m' = Some status_complete ∧ getMessageContent m' = visible_text (concat (content_chunks es))).
Proof.
  intros Hl Hf He. split; [by apply (arrivals_simulate id o)|].
  rewrite (arrivals_simulate id o l s es) by done. unfold page_step.
  rewrite (deliver_live id o) by done. cbn zeta. cbn [event_result]. change (isStreamDoneMessage (default [] (Some STREAM_DONE_MESSAGE))) with true.
  cbn [onComplete chat_callbacks snd ended source StreamRequest.streaming sources client with_client]. split_and!; [done|done|..].
  - destruct Hl as (Ho & _). eexists. by rewrite !list_lookup_alter_eq, Ho.
  - done.
  - intros Hd. apply (streamed_reply_is_complete (so_key o) before m (client s) es now Hf); [by eapply arrivals_stream|done].
Qed.
End Facts.

(** ** Concrete runs *)
Definition plain_page_host : PlaygroundHost := {| translate_message := λ s, s |}.

Definition content_message (text : string) : arrival := arr_message (jq ("{`choices`:[{`delta`:{`content`:`" ++ text ++ "`}}]}")) [].

Definition opened_page : Controller Z unit unit Chat :=
  page_run (host := plain_page_host)
    [pg_messages [sample_reply]; pg_react 0; pg_send_streaming [] tt; pg_headers 0 (Ok tt) (mkStart [] false [])] initial_page.

Definition sample_arrivals : list arrival :=
  [content_message "Hel"; arr_timer; content_message "lo <think>"; arr_react 7; content_message "hm</think>"; arr_timer;
   content_message "world"].

Lemma reply_arrives_in_full_witness :
  let s' := page_step (host := plain_page_host) (pg_source 0 (Signal (sig_message (Some STREAM_DONE_MESSAGE)) []))
    (page_run (host := plain_page_host) (map (arrival_event 0) sample_arrivals) opened_page) in
  source s' = None ∧ ∃ m', ch_messages (drain 9 (client s')) = [] ++ [m'] ∧ getMessageContent m' = js "Hello world".
Proof.
  destruct (reply_arrives_in_full (host := plain_page_host) 0 (mkSource 1 1 tt tt false false true) [] sample_reply opened_page
    sample_arrivals sample_stream [] 9) as (_ & Hs & _ & _ & _ & Hfull).
  - repeat split; vm_compute; reflexivity.
  - vm_compute. tauto.
  - vm_compute. reflexivity.
  - destruct Hfull as (m' & Hm & _ & Hc); [apply check_restart_sound; vm_compute; reflexivity|].
    split; [exact Hs|]. exists m'. split; [exact Hm|]. rewrite Hc. vm_compute. reflexivity.
Defined.

(** An error event whose message is not a text makes the handler throw before
    the source is closed: the connection stays open, [isGenerating] stays on and
    no error is shown, until the next request or a stop. *)
Example error_object_leaves_stream_open :
  let s := page_step (host := plain_page_host)
    (pg_source 0 (Signal (sig_error (Some (jq "{`error`:{`message`:{`detail`:`no`}}}")) (Some 1)) [])) opened_page in
  isGenerating s = true ∧ map so_closed (sources s) = [false] ∧ ch_updates (client s) = []
  ∧ map so_completed (sources s) = [true].
Proof. vm_compute. tauto. Qed.
