(* ===== verification/Contract.v ===== *)
(** * The shared simulation contract

    pkg/billingexpr/testdata/frontend_simulation.json lists expressions with
    their contexts and the outcome both the server and the console must give.
    The table below is that file; the theorem runs the interpreter on it. *)
From S2P Require Import Prelude JsString JsNumber JsValue Host BillingTypes Parser Compile Runtime.
Local Open Scope Z_scope.

Definition num (s : string) : number := Number_of_string (js s).

Record ContractCase := mkCase {
  case_expression : jsstring;
  case_context : BillingSimulationContext;
  case_cost : number;
  case_tier : jsstring;
  case_unit : BillingUnit;
  case_fixedPrice : option number;
  case_rules : list (number * bool);
}.

Definition contract_cases : list ContractCase := [
mkCase (jq "v1:tier(`base`, p * 2 + c * 8 + cr * 0.2)")
    (mkContext None (Some [((jq "p"), (JNumber (num "900"))); ((jq "c"), (JNumber (num "100"))); ((jq "cr"), (JNumber (num "100")))]) None None (Some (Some 1700000000000)))
    (num "2620") (jq "base") unit_token None
    [];
  mkCase (jq "param(`missing`) == nil && param(`zero`) == 0 && param(`enabled`) == false ? tier(`ok`, 3.5) : tier(`bad`, 99)")
    (mkContext None None (Some (mkRequest (JObject [((jq "zero"), (JNumber (num "0"))); ((jq "enabled"), (JBool false))]) None)) None (Some (Some 1700000000000)))
    (num "3.5") (jq "ok") unit_token None
    [];
  mkCase (jq "tier(`base`, p * 2) * (header(` X-Priority `) == `high` ? 2 : 1) * (param(`service_tier`) == `flex` ? 0.5 : 1)")
    (mkContext None (Some [((jq "p"), (JNumber (num "100")))]) (Some (mkRequest (JObject [((jq "service_tier"), (JString (jq "flex")))]) (Some [((jq " X-Priority "), (JString (jq " high ")))]))) None (Some (Some 1700000000000)))
    (num "200") (jq "base") unit_token None
    [(num "2", true); (num "0.5", true)];
  mkCase (jq "tier(`base`, 10) * (param(`priority`) == true ? 2 : 1)")
    (mkContext None None (Some (mkRequest (JObject []) None)) None (Some (Some 1700000000000)))
    (num "10") (jq "base") unit_token None
    [(num "2", false)];
  mkCase (jq "param(`enabled`) == true ? tier(`yes`, 10) * (header(`tier`) == `fast` ? 3 : 1) : tier(`no`, 2)")
    (mkContext None None (Some (mkRequest (JObject []) (Some [((jq "tier"), (JString (jq "fast")))]))) None (Some (Some 1700000000000)))
    (num "2") (jq "no") unit_token None
    [(num "3", false)];
  mkCase (jq "tier(`base`, 10) * (param(`priority`) == true ? 2 : 1.5)")
    (mkContext None None (Some (mkRequest (JObject []) None)) None (Some (Some 1700000000000)))
    (num "15") (jq "base") unit_token None
    [];
  mkCase (jq "param(`a\\.b.items.0.price`) + param(`a\\.b.items.#`)")
    (mkContext None None (Some (mkRequest (JObject [((jq "a.b"), (JObject [((jq "items"), (JArray [(JObject [((jq "price"), (JNumber (num "4")))]); (JObject [((jq "price"), (JNumber (num "8")))])]))]))]) None)) None (Some (Some 1700000000000)))
    (num "6") (jq "") unit_token None
    [];
  mkCase (jq "param(`constructor`) == nil ? 4 : 99")
    (mkContext None None (Some (mkRequest (JObject []) None)) None (Some (Some 1700000000000)))
    (num "4") (jq "") unit_token None
    [];
  mkCase (jq "has(param(`n`), `12`) && has(param(`object`), `map[a:1 b:[true <nil>]]`) && !has(nil, `x`) && !has(`abc`, ``) ? 8 : 99")
    (mkContext None None (Some (mkRequest (JObject [((jq "n"), (JNumber (num "123"))); ((jq "object"), (JObject [((jq "b"), (JArray [(JBool true); JNull])); ((jq "a"), (JNumber (num "1")))]))]) None)) None (Some (Some 1700000000000)))
    (num "8") (jq "") unit_token None
    [];
  mkCase (jq "min(10, max(2, 5)) + abs(-2) + ceil(1.1) + floor(2.9) + 5 / 2 + 7 % 3")
    (mkContext None None None None (Some (Some 1700000000000)))
    (num "14.5") (jq "") unit_token None
    [];
  mkCase (jq "tier(`base`, 0.2 + u(`tokens`) * 10 / 1000000) * (header(`tier`) == `fast` ? 2 : 1)")
    (mkContext None None (Some (mkRequest JUndefined (Some [((jq "tier"), (JString (jq "fast")))]))) (Some [((jq "tokens"), (JNumber (num "500000")))]) (Some (Some 1700000000000)))
    (num "10.4") (jq "base") unit_token None
    [(num "2", true)];
  mkCase (jq "u(`mode`) == `pro` ? tier(`pro`, u(`seconds`) * 0.8) : tier(`std`, u(`seconds`) * 0.4)")
    (mkContext None None None (Some [((jq "mode"), (JString (jq "pro"))); ((jq "seconds"), (JNumber (num "5")))]) (Some (Some 1700000000000)))
    (num "4") (jq "pro") unit_token None
    [];
  mkCase (jq "(tier(`base`, (p * 2e-3 + c * 1E+1)))")
    (mkContext None (Some [((jq "p"), (JNumber (num "1000"))); ((jq "c"), (JNumber (num "2")))]) None None (Some (Some 1700000000000)))
    (num "22") (jq "base") unit_token None
    [];
  mkCase (jq "tier(`request`, fixed(0.01))")
    (mkContext None None None None (Some (Some 1700000000000)))
    (num "10000") (jq "request") unit_request (Some (num "0.01"))
    [];
  mkCase (jq "tier(`free`, fixed(0))")
    (mkContext None (Some [((jq "p"), (JNumber (num "1000")))]) None None (Some (Some 1700000000000)))
    (num "0") (jq "free") unit_request (Some (num "0"))
    [];
  mkCase (jq "len <= 32000 ? tier(`short`, fixed(0.01)) : tier(`long`, p * 2 + c * 8)")
    (mkContext None (Some [((jq "p"), (JNumber (num "32001"))); ((jq "c"), (JNumber (num "100"))); ((jq "len"), (JNumber (num "32001")))]) None None (Some (Some 1700000000000)))
    (num "64802") (jq "long") unit_token None
    [];
  mkCase (jq "(len <= 32000 ? tier(`short`, fixed(0.01)) : tier(`long`, p * 2 + c * 8)) * (param(`fast`) == true ? 2 : 1)")
    (mkContext None (Some [((jq "len"), (JNumber (num "1")))]) (Some (mkRequest (JObject [((jq "fast"), (JBool true))]) None)) None (Some (Some 1700000000000)))
    (num "20000") (jq "short") unit_request (Some (num "0.01"))
    [(num "2", true)];
  mkCase (jq "hour(`Asia/Shanghai`) >= 0 && hour(`Asia/Shanghai`) < 24 ? tier(`today`, fixed(0.02)) : tier(`fallback`, p * 2)")
    (mkContext None None None None (Some (Some 1700000000000)))
    (num "20000") (jq "today") unit_request (Some (num "0.02"))
    [];
  mkCase (jq "tier(`image`, fixed(0.04)) * image_count")
    (mkContext (Some (num "2")) None (Some (mkRequest (JObject [((jq "n"), (JNumber (num "3")))]) None)) None (Some (Some 1700000000000)))
    (num "80000") (jq "image") unit_request (Some (num "0.04"))
    [];
  mkCase (jq "tier(`image`, fixed(0.04)) * image_count * (param(`quality`) == `hd` ? 2 : 1)")
    (mkContext (Some (num "3")) None (Some (mkRequest (JObject [((jq "quality"), (JString (jq "hd")))]) None)) None (Some (Some 1700000000000)))
    (num "240000") (jq "image") unit_request (Some (num "0.04"))
    [(num "2", true)];
  mkCase (jq "tier(`image`, fixed(0)) * image_count")
    (mkContext (Some (num "128")) None None None (Some (Some 1700000000000)))
    (num "0") (jq "image") unit_request (Some (num "0"))
    [];
  mkCase (jq "tier(`image`, fixed(0.04)) * image_count")
    (mkContext None None None None (Some (Some 1700000000000)))
    (num "40000") (jq "image") unit_request (Some (num "0.04"))
    [];
  mkCase (jq "(ai > 0 || ao > 0) ? tier(`audio`, max(len - ai, 0) * 2 + c * 6 + ai * 4 + ao * 4) : tier(`base`, p * 2 + c * 6 + cr * 0.2)")
    (mkContext None (Some [((jq "len"), (JNumber (num "1000"))); ((jq "ai"), (JNumber (num "200"))); ((jq "ao"), (JNumber (num "50"))); ((jq "c"), (JNumber (num "50")))]) None None (Some (Some 1700000000000)))
    (num "2900") (jq "audio") unit_token None
    [];
  mkCase (jq "(ai > 0 || ao > 0) ? tier(`audio`, max(len - ai, 0) * 2 + c * 6 + ai * 4 + ao * 4) : tier(`base`, p * 2 + c * 6 + cr * 0.2)")
    (mkContext None (Some [((jq "p"), (JNumber (num "600"))); ((jq "c"), (JNumber (num "100"))); ((jq "cr"), (JNumber (num "400"))); ((jq "ai"), (JNumber (num "0"))); ((jq "ao"), (JNumber (num "0")))]) None None (Some (Some 1700000000000)))
    (num "1880") (jq "base") unit_token None
    [];
  mkCase (jq "(ai > 0 || ao > 0) ? tier(`audio`, max((len - ai), (0)) * 2 + c * 6 + ai * 4 + ao * 4) : tier(`base`, p * 2 + c * 6 + cr * 0.2)")
    (mkContext None (Some [((jq "len"), (JNumber (num "1000"))); ((jq "ai"), (JNumber (num "200"))); ((jq "ao"), (JNumber (num "50"))); ((jq "c"), (JNumber (num "50")))]) None None (Some (Some 1700000000000)))
    (num "2900") (jq "audio") unit_token None
    [];
  mkCase (jq "(ao > 0 || ai > 0) ? tier(`audio`, 2 * max(0, len - ai) + 6 * c + 4 * ai + ao * 4) : tier(`base`, p * 2 + 6 * c + cr * 0.2)")
    (mkContext None (Some [((jq "len"), (JNumber (num "1000"))); ((jq "ai"), (JNumber (num "200"))); ((jq "ao"), (JNumber (num "50"))); ((jq "c"), (JNumber (num "50")))]) None None (Some (Some 1700000000000)))
    (num "2900") (jq "audio") unit_token None
    []
].

Definition same_unit (a b : BillingUnit) : bool :=
  match a, b with unit_token, unit_token | unit_request, unit_request => true | _, _ => false end.

(** The outcome of a case: cost, tier, unit, fixed price, and the multipliers
    and flags of the rules in order. *)
Definition meets {host : Host} (c : ContractCase) : bool :=
  match evaluateBillingExpression (case_expression c) (case_context c) with
  | eval_success s =>
      num_eqb (res_cost s) (case_cost c) && str_eqb (res_matchedTier s) (case_tier c)
      && same_unit (res_billingUnit s) (case_unit c)
      && match res_fixedPrice s, case_fixedPrice c with
         | Some x, Some y => num_eqb x y
         | None, None => true
         | _, _ => false
         end
      && forallb (λ '(r, (m, b)), num_eqb (rr_multiplier r) m && eqb (rr_matched r) b)
           (zip (res_requestRules s) (case_rules c))
      && (length (res_requestRules s) =? length (case_rules c))%nat
  | eval_failure _ => false
  end.

(** The interpreter gives the outcome of every case of the contract shared
    with the server. *)
Theorem contract_holds : forallb (@meets plain_host) contract_cases = true.
Proof. vm_compute. reflexivity. Qed.
