(* ===== verification/Findings.v ===== *)
(** * Behaviours that contradict the code's own intent

    Closed evaluations of the model on inputs where two parts of the program
    disagree: what the rule builder writes and the rule reader accepts, what the
    tier reader keeps, and the two depth limits. *)
From S2P Require Import Prelude JsString JsNumber JsRegex JsValue JsJson Host BillingTypes Parser ParserFacts Compile CompileFacts Runtime RuntimeFacts Structure Display BillingExpr TierExpr.
Local Open Scope Z_scope.

Definition one_rule (c : RequestCondition) : list RequestRuleGroup := [mkGroup [c] (js "2") None None].

(** A parameter rule of mode contains or of an order mode, written by the
    editor, is not recognised by the rule reader: the reader splits the text at
    its conjunction before it tries the pattern of the whole condition. *)
Theorem param_rules_do_not_reopen :
  Forall (λ mode,
    let text := buildRequestRuleExpr (one_rule (cond_request (mkParamHeader source_param (js "size") mode (js "5")))) in
    non_empty text = true ∧ @tryParseRequestRuleExpr plain_host text = Ok None)
  [MATCH_CONTAINS; MATCH_GT; MATCH_GTE; MATCH_LT; MATCH_LTE].
Proof. repeat constructor; vm_compute; reflexivity. Qed.

(** Reading a range and writing it again changes its meaning: an
    alternative of two bounds whose start is not after its end is read as a range
    and written as a conjunction. *)
Theorem range_reader_changes_meaning :
  let text := jq "(hour(`UTC`) >= 9 || hour(`UTC`) < 12 ? 2 : 1)" in
  match @tryParseRequestRuleExpr plain_host text with
  | Ok (Some groups) => buildRequestRuleExpr groups = jq "(hour(`UTC`) >= 9 && hour(`UTC`) < 12 ? 2 : 1)"
  | _ => False
  end.
Proof. vm_compute. reflexivity. Qed.

(** An expression that compiles makes the rule reader throw: the string of
    a contains condition is read with JSON, which has fewer escapes than the
    expression language. *)
Theorem rule_reader_throws :
  let text := jq "tier(`a`, p) * (has(header(`x`), `\v`) ? 2 : 1)" in
  match @compile plain_host text, @splitBillingExprAndRequestRules plain_host text with
  | ready _, Throw (JsError _) => True
  | _, _ => False
  end.
Proof. vm_compute. exact I. Qed.

(** The single-tier reader accepts a body it cannot represent and sets the
    price of its first term to zero; the reader of several tiers rejects it. *)
Theorem single_tier_reader_loses_terms :
  match tryParseVisualConfig (jq "tier(`a`, p * 2+3 + c * 4)") with
  | Some config => generateExprFromVisualConfig config = jq "tier(`a`, p * 0 + c * 4)"
  | None => False
  end ∧
  tryParseVisualConfig (jq "p < 5 ? tier(`a`, p * 2+3 + c * 4) : tier(`b`, p * 1 + c * 1)") = None.
Proof. vm_compute. by split. Qed.

(** The sum of [n + 1] terms [p]. *)
Fixpoint sum_text (n : nat) : jsstring := match n with O => js "p" | S n' => js "p+" ++ sum_text n' end.

(** The two depth limits differ by one: the sum of 257 terms compiles, and
    no context makes it evaluate. *)
Theorem deepest_expression_never_evaluates :
  match @compile plain_host (sum_text 256) with
  | ready c => ∀ context headers st, @evaluate plain_host c context (Some 0) headers 0 (cp_ast c) st
                 = Throw evaluation_depth_error
  | failed _ => False
  end.
Proof.
  destruct (compile (sum_text 256)) as [c|f] eqn:E; [|vm_compute in E; discriminate].
  vm_compute in E. injection E as <-. intros context headers st. vm_compute. reflexivity.
Qed.
